(** * SVG text layout of KoSvgTextShape: a shallow embedding

    This development embeds
    [libs/flake/text/KoSvgTextShape_p_layout.cpp]: the whole of
    [KoSvgTextShape::Private::relayout] with the passes it calls,
    [clearAssociatedOutlines], [collectSubChunks], [resolveTransforms],
    [computeFontMetrics], [handleLineBoxAlignment], [applyTextLength],
    [applyAnchoring], [computeTextDecorations], [characterResultOnPath],
    [applyTextPath] and [logicalToVisualCursorPositions].

    Conventions.
    - [qreal] is an IEEE binary64 number, embedded as Rocq's primitive
      [float]; [qMin], [qMax] and [fmod] follow their C++ definitions.
    - A [QVector] is a [list]; [v[i]] inside the loops of the source, which
      range over the vector's own indices, is stdpp's lookup and insert (a
      write past the end changes nothing, a read past the end gives the
      default-constructed value).  Accesses whose index does not come from
      such a loop are modelled as fallible: [result.at(fC)] after the
      cluster loop, [keys().last()] in [applyTextLength], [result.at(i)] in
      the loop over the sub-chunks at the end of [relayout], the assertion
      in [computeTextDecorations], and the loops of the set-up that trust
      [numChars] and the lengths of the chunks.
    - [int] is [Z] where the source uses the sentinel [-1] and [nat] for
      loop indices; [QChar] is its UTF-16 code unit.
    - An iterator into the text tree is the path of child positions that
      leads to its node.
    - Services that live outside the translation unit (the property system,
      the font registry, the line breaker, raqm, FreeType and HarfBuzz,
      white-space collapsing, line breaking, path geometry and stroking)
      are section variables: every theorem holds for each behaviour they
      may have. *)

From Stdlib Require Import ZArith Floats Bool List Lia.
From stdpp Require Import base option list.
Import ListNotations.

Local Open Scope Z_scope.

(** ** Numbers and geometry *)

Definition qreal : Type := float.

(** [qMin] and [qMax] of qglobal.h: [(a < b) ? a : b] and [(a < b) ? b : a]. *)
Definition qMin (a b : qreal) : qreal := if (a <? b)%float then a else b.
Definition qMax (a b : qreal) : qreal := if (a <? b)%float then b else a.

(** [std::isfinite]. *)
Definition qIsFinite (x : qreal) : bool :=
  match Prim2SF x with
  | S754_zero _ | S754_finite _ _ _ => true
  | S754_infinity _ | S754_nan => false
  end.

(** C's [fmod]: the remainder of the division truncated towards zero, with
    the sign of the dividend; it is exact, so it is computed on the integer
    mantissas at the smaller of the two exponents. *)
Definition fmod (x y : qreal) : qreal :=
  match Prim2SF x, Prim2SF y with
  | S754_nan, _ | _, S754_nan => nan
  | S754_infinity _, _ => nan
  | _, S754_zero _ => nan
  | S754_zero _, _ => x
  | S754_finite _ _ _, S754_infinity _ => x
  | S754_finite sx mx ex, S754_finite _ my ey =>
      let e := Z.min ex ey in
      let r := Z.rem (Z.pos mx * 2 ^ (ex - e)) (Z.pos my * 2 ^ (ey - e)) in
      if r =? 0 then (if sx then neg_zero else zero)
      else SF2Prim (binary_normalize prec emax (if sx then - r else r) e false)
  end.

(** Conversion of an [int] to [qreal], exact below 2^53. *)
Definition qreal_of_int (n : Z) : qreal :=
  if n <? 0 then (- of_uint63 (Uint63.of_Z (- n)))%float
  else of_uint63 (Uint63.of_Z n).

Record QPointF : Type := mkQPointF { px : qreal; py : qreal }.

(** A default-constructed [QPointF] is the origin. *)
Definition QPointF_null : QPointF := mkQPointF 0%float 0%float.

Definition QPointF_add (p q : QPointF) : QPointF :=
  mkQPointF (px p + px q)%float (py p + py q)%float.
Definition QPointF_sub (p q : QPointF) : QPointF :=
  mkQPointF (px p - px q)%float (py p - py q)%float.
Definition QPointF_setX (x : qreal) (p : QPointF) : QPointF := mkQPointF x (py p).
Definition QPointF_setY (y : qreal) (p : QPointF) : QPointF := mkQPointF (px p) y.

Record QRectF : Type := mkQRectF {
  rx : qreal; ry : qreal; rwidth : qreal; rheight : qreal
}.

Definition QRectF_null : QRectF := mkQRectF 0%float 0%float 0%float 0%float.
Definition QRectF_setWidth (w : qreal) (r : QRectF) : QRectF :=
  mkQRectF (rx r) (ry r) w (rheight r).
Definition QRectF_setHeight (h : qreal) (r : QRectF) : QRectF :=
  mkQRectF (rx r) (ry r) (rwidth r) h.

(** A [QPainterPath] is read here through its element positions only. *)
Definition QPainterPath : Type := list QPointF.

(** [QTransform::fromScale(sx, sy)] and its [map]/[mapRect]: the identity
    when both factors are one, the scaling (with zero translation, and a
    rectangle renormalised to non-negative size) otherwise. *)
Record QTransform : Type := fromScale { m11 : qreal; m22 : qreal }.

Definition QTransform_isIdentity (tf : QTransform) : bool :=
  (m11 tf =? 1)%float && (m22 tf =? 1)%float.

Definition QTransform_map (tf : QTransform) (p : QPointF) : QPointF :=
  if QTransform_isIdentity tf then p
  else mkQPointF (m11 tf * px p + 0)%float (m22 tf * py p + 0)%float.

Definition QTransform_mapPath (tf : QTransform) (p : QPainterPath) : QPainterPath :=
  map (QTransform_map tf) p.

Definition QTransform_mapRect (tf : QTransform) (r : QRectF) : QRectF :=
  if QTransform_isIdentity tf then r
  else
    let x := (m11 tf * rx r + 0)%float in
    let y := (m22 tf * ry r + 0)%float in
    let w := (m11 tf * rwidth r)%float in
    let h := (m22 tf * rheight r)%float in
    let '(x, w) := if (w <? 0)%float then ((x - (- w))%float, (- w)%float) else (x, w) in
    let '(y, h) := if (h <? 0)%float then ((y - (- h))%float, (- h)%float) else (y, h) in
    mkQRectF x y w h.

(** ** Characters *)

Definition QChar : Type := Z.

Definition QChar_Space : QChar := 32.
Definition QChar_SoftHyphen : QChar := 173.

(** [QChar::isSpace]: the separator categories Zs, Zl and Zp together with
    the control characters U+0009..U+000D and U+0085. *)
Definition QChar_isSpace (c : QChar) : bool :=
  (c =? 32) || ((9 <=? c) && (c <=? 13)) || (c =? 133) || (c =? 160)
  || (c =? 5760) || ((8192 <=? c) && (c <=? 8202)) || (c =? 8232)
  || (c =? 8233) || (c =? 8239) || (c =? 8287) || (c =? 12288).

Definition QChar_isHighSurrogate (c : QChar) : bool := Z.land c 64512 =? 55296.
Definition QChar_isLowSurrogate (c : QChar) : bool := Z.land c 64512 =? 56320.
Definition QChar_isSurrogate (c : QChar) : bool := Z.land c 63488 =? 55296.
Definition QChar_surrogateToUcs4 (high low : QChar) : Z :=
  Z.shiftl high 10 + low - 56613888.

(** ** Style enumerations (KoSvgText.h) and break classes (linebreak.h) *)

Module KoSvgText.

Inductive Direction : Set := DirectionLeftToRight | DirectionRightToLeft.
Inductive TextAnchor : Set := AnchorStart | AnchorMiddle | AnchorEnd.
Inductive LengthAdjust : Set := LengthAdjustSpacing | LengthAdjustSpacingAndGlyphs.
Inductive TextWrap : Set := Wrap | NoWrap | Balance | Stable | Pretty.
Inductive WordBreak : Set := WordBreakNormal | WordBreakKeepAll | WordBreakBreakAll.
Inductive LineBreak : Set :=
  LineBreakAuto | LineBreakLoose | LineBreakNormal | LineBreakStrict | LineBreakAnywhere.
Inductive TextPathMethod : Set := TextPathAlign | TextPathStretch.
Inductive TextPathSide : Set := TextPathSideLeft | TextPathSideRight.

(** [AutoValue]: [isAuto] and, when not automatic, [customValue]. *)
Record AutoValue : Type := mkAutoValue { isAuto : bool; customValue : qreal }.

(** Modelled from the spec: the struct [CharTransformation] is declared in
    KoSvgText.h, which is not under src/.  The spec describes it as "absolute
    x/y, relative dx/dy, rotation, starts-new-anchored-chunk flag"; every
    member is an optional [qreal]. *)
Record CharTransformation : Type := mkCharTransformation {
  xPos : option qreal;
  yPos : option qreal;
  dxPos : option qreal;
  dyPos : option qreal;
  rotate : option qreal
}.

Definition CharTransformation_default : CharTransformation :=
  mkCharTransformation None None None None None.

(** [std::optional::has_value]. *)
Definition has_value (o : option qreal) : bool :=
  match o with Some _ => true | None => false end.

(** Modelled from the spec: a transformation starts a new anchored chunk
    when it carries an absolute position. *)
Definition startsNewChunk (t : CharTransformation) : bool :=
  has_value (xPos t) || has_value (yPos t).

Definition hasRelativeOffset (t : CharTransformation) : bool :=
  has_value (dxPos t) || has_value (dyPos t).

Definition absolutePos (t : CharTransformation) : QPointF :=
  mkQPointF (default 0%float (xPos t)) (default 0%float (yPos t)).

Definition relativeOffset (t : CharTransformation) : QPointF :=
  mkQPointF (default 0%float (dxPos t)) (default 0%float (dyPos t)).

Definition set_xPos (v : option qreal) (t : CharTransformation) :=
  mkCharTransformation v (yPos t) (dxPos t) (dyPos t) (rotate t).
Definition set_yPos (v : option qreal) (t : CharTransformation) :=
  mkCharTransformation (xPos t) v (dxPos t) (dyPos t) (rotate t).
Definition set_rotate (v : option qreal) (t : CharTransformation) :=
  mkCharTransformation (xPos t) (yPos t) (dxPos t) (dyPos t) v.

End KoSvgText.

Definition LINEBREAK_MUSTBREAK : Z := 0.
Definition LINEBREAK_ALLOWBREAK : Z := 1.
Definition LINEBREAK_NOBREAK : Z := 2.
Definition LINEBREAK_INSIDEACHAR : Z := 3.
Definition GRAPHEMEBREAK_BREAK : Z := 0.

Inductive BreakType : Set := NoBreak | SoftBreak | HardBreak.
Inductive LineEdgeBehaviour : Set := NoChange | Collapse | ForceHang | ConditionallyHang.

Definition BreakType_eqb (a b : BreakType) : bool :=
  match a, b with
  | NoBreak, NoBreak | SoftBreak, SoftBreak | HardBreak, HardBreak => true
  | _, _ => false
  end.

Definition LineEdgeBehaviour_eqb (a b : LineEdgeBehaviour) : bool :=
  match a, b with
  | NoChange, NoChange | Collapse, Collapse | ForceHang, ForceHang
  | ConditionallyHang, ConditionallyHang => true
  | _, _ => false
  end.

(** ** The character result (KoSvgTextShape_p.h) *)

Inductive Glyph : Type :=
  | GlyphMonostate
  | GlyphOutline (path : QPainterPath)
  | GlyphOther.

Record CursorInfo : Type := mkCursorInfo {
  rtl : bool;
  graphemeIndices : list Z;
  offsets : list QPointF
}.

Definition CursorInfo_default : CursorInfo := mkCursorInfo false [] [].

Record CharacterResult : Type := mkCharacterResult {
  finalPosition : QPointF;
  rotate : float;
  hidden : bool;
  addressable : bool;
  middle : bool;
  anchored_chunk : bool;
  glyph : Glyph;
  inkBoundingBox : QRectF;
  advance : QPointF;
  breakType : BreakType;
  lineEnd : LineEdgeBehaviour;
  lineStart : LineEdgeBehaviour;
  textLengthApplied : bool;
  scaledHalfLeading : Z;
  scaledAscent : Z;
  scaledDescent : Z;
  cursorInfo : CursorInfo;
  anchor : KoSvgText.TextAnchor;
  direction : KoSvgText.Direction;
  cssPosition : QPointF;
  baselineOffset : QPointF;
  visualIndex : Z;
  plaintTextIndex : Z
}.

Definition set_finalPosition (v : QPointF) (cr : CharacterResult) : CharacterResult :=
  {| finalPosition := v; rotate := rotate cr; hidden := hidden cr;
     addressable := addressable cr; middle := middle cr;
     anchored_chunk := anchored_chunk cr; glyph := glyph cr;
     inkBoundingBox := inkBoundingBox cr; advance := advance cr;
     breakType := breakType cr; lineEnd := lineEnd cr;
     lineStart := lineStart cr; textLengthApplied := textLengthApplied cr;
     scaledHalfLeading := scaledHalfLeading cr;
     scaledAscent := scaledAscent cr; scaledDescent := scaledDescent cr;
     cursorInfo := cursorInfo cr; anchor := anchor cr;
     direction := direction cr; cssPosition := cssPosition cr;
     baselineOffset := baselineOffset cr; visualIndex := visualIndex cr;
     plaintTextIndex := plaintTextIndex cr |}.

Definition set_rotate (v : float) (cr : CharacterResult) : CharacterResult :=
  {| finalPosition := finalPosition cr; rotate := v; hidden := hidden cr;
     addressable := addressable cr; middle := middle cr;
     anchored_chunk := anchored_chunk cr; glyph := glyph cr;
     inkBoundingBox := inkBoundingBox cr; advance := advance cr;
     breakType := breakType cr; lineEnd := lineEnd cr;
     lineStart := lineStart cr; textLengthApplied := textLengthApplied cr;
     scaledHalfLeading := scaledHalfLeading cr;
     scaledAscent := scaledAscent cr; scaledDescent := scaledDescent cr;
     cursorInfo := cursorInfo cr; anchor := anchor cr;
     direction := direction cr; cssPosition := cssPosition cr;
     baselineOffset := baselineOffset cr; visualIndex := visualIndex cr;
     plaintTextIndex := plaintTextIndex cr |}.

Definition set_hidden (v : bool) (cr : CharacterResult) : CharacterResult :=
  {| finalPosition := finalPosition cr; rotate := rotate cr; hidden := v;
     addressable := addressable cr; middle := middle cr;
     anchored_chunk := anchored_chunk cr; glyph := glyph cr;
     inkBoundingBox := inkBoundingBox cr; advance := advance cr;
     breakType := breakType cr; lineEnd := lineEnd cr;
     lineStart := lineStart cr; textLengthApplied := textLengthApplied cr;
     scaledHalfLeading := scaledHalfLeading cr;
     scaledAscent := scaledAscent cr; scaledDescent := scaledDescent cr;
     cursorInfo := cursorInfo cr; anchor := anchor cr;
     direction := direction cr; cssPosition := cssPosition cr;
     baselineOffset := baselineOffset cr; visualIndex := visualIndex cr;
     plaintTextIndex := plaintTextIndex cr |}.

Definition set_addressable (v : bool) (cr : CharacterResult) : CharacterResult :=
  {| finalPosition := finalPosition cr; rotate := rotate cr;
     hidden := hidden cr; addressable := v; middle := middle cr;
     anchored_chunk := anchored_chunk cr; glyph := glyph cr;
     inkBoundingBox := inkBoundingBox cr; advance := advance cr;
     breakType := breakType cr; lineEnd := lineEnd cr;
     lineStart := lineStart cr; textLengthApplied := textLengthApplied cr;
     scaledHalfLeading := scaledHalfLeading cr;
     scaledAscent := scaledAscent cr; scaledDescent := scaledDescent cr;
     cursorInfo := cursorInfo cr; anchor := anchor cr;
     direction := direction cr; cssPosition := cssPosition cr;
     baselineOffset := baselineOffset cr; visualIndex := visualIndex cr;
     plaintTextIndex := plaintTextIndex cr |}.

Definition set_middle (v : bool) (cr : CharacterResult) : CharacterResult :=
  {| finalPosition := finalPosition cr; rotate := rotate cr;
     hidden := hidden cr; addressable := addressable cr; middle := v;
     anchored_chunk := anchored_chunk cr; glyph := glyph cr;
     inkBoundingBox := inkBoundingBox cr; advance := advance cr;
     breakType := breakType cr; lineEnd := lineEnd cr;
     lineStart := lineStart cr; textLengthApplied := textLengthApplied cr;
     scaledHalfLeading := scaledHalfLeading cr;
     scaledAscent := scaledAscent cr; scaledDescent := scaledDescent cr;
     cursorInfo := cursorInfo cr; anchor := anchor cr;
     direction := direction cr; cssPosition := cssPosition cr;
     baselineOffset := baselineOffset cr; visualIndex := visualIndex cr;
     plaintTextIndex := plaintTextIndex cr |}.

Definition set_anchored_chunk (v : bool) (cr : CharacterResult) : CharacterResult :=
  {| finalPosition := finalPosition cr; rotate := rotate cr;
     hidden := hidden cr; addressable := addressable cr; middle := middle cr;
     anchored_chunk := v; glyph := glyph cr;
     inkBoundingBox := inkBoundingBox cr; advance := advance cr;
     breakType := breakType cr; lineEnd := lineEnd cr;
     lineStart := lineStart cr; textLengthApplied := textLengthApplied cr;
     scaledHalfLeading := scaledHalfLeading cr;
     scaledAscent := scaledAscent cr; scaledDescent := scaledDescent cr;
     cursorInfo := cursorInfo cr; anchor := anchor cr;
     direction := direction cr; cssPosition := cssPosition cr;
     baselineOffset := baselineOffset cr; visualIndex := visualIndex cr;
     plaintTextIndex := plaintTextIndex cr |}.

Definition set_glyph (v : Glyph) (cr : CharacterResult) : CharacterResult :=
  {| finalPosition := finalPosition cr; rotate := rotate cr;
     hidden := hidden cr; addressable := addressable cr; middle := middle cr;
     anchored_chunk := anchored_chunk cr; glyph := v;
     inkBoundingBox := inkBoundingBox cr; advance := advance cr;
     breakType := breakType cr; lineEnd := lineEnd cr;
     lineStart := lineStart cr; textLengthApplied := textLengthApplied cr;
     scaledHalfLeading := scaledHalfLeading cr;
     scaledAscent := scaledAscent cr; scaledDescent := scaledDescent cr;
     cursorInfo := cursorInfo cr; anchor := anchor cr;
     direction := direction cr; cssPosition := cssPosition cr;
     baselineOffset := baselineOffset cr; visualIndex := visualIndex cr;
     plaintTextIndex := plaintTextIndex cr |}.

Definition set_inkBoundingBox (v : QRectF) (cr : CharacterResult) : CharacterResult :=
  {| finalPosition := finalPosition cr; rotate := rotate cr;
     hidden := hidden cr; addressable := addressable cr; middle := middle cr;
     anchored_chunk := anchored_chunk cr; glyph := glyph cr;
     inkBoundingBox := v; advance := advance cr; breakType := breakType cr;
     lineEnd := lineEnd cr; lineStart := lineStart cr;
     textLengthApplied := textLengthApplied cr;
     scaledHalfLeading := scaledHalfLeading cr;
     scaledAscent := scaledAscent cr; scaledDescent := scaledDescent cr;
     cursorInfo := cursorInfo cr; anchor := anchor cr;
     direction := direction cr; cssPosition := cssPosition cr;
     baselineOffset := baselineOffset cr; visualIndex := visualIndex cr;
     plaintTextIndex := plaintTextIndex cr |}.

Definition set_advance (v : QPointF) (cr : CharacterResult) : CharacterResult :=
  {| finalPosition := finalPosition cr; rotate := rotate cr;
     hidden := hidden cr; addressable := addressable cr; middle := middle cr;
     anchored_chunk := anchored_chunk cr; glyph := glyph cr;
     inkBoundingBox := inkBoundingBox cr; advance := v;
     breakType := breakType cr; lineEnd := lineEnd cr;
     lineStart := lineStart cr; textLengthApplied := textLengthApplied cr;
     scaledHalfLeading := scaledHalfLeading cr;
     scaledAscent := scaledAscent cr; scaledDescent := scaledDescent cr;
     cursorInfo := cursorInfo cr; anchor := anchor cr;
     direction := direction cr; cssPosition := cssPosition cr;
     baselineOffset := baselineOffset cr; visualIndex := visualIndex cr;
     plaintTextIndex := plaintTextIndex cr |}.

Definition set_breakType (v : BreakType) (cr : CharacterResult) : CharacterResult :=
  {| finalPosition := finalPosition cr; rotate := rotate cr;
     hidden := hidden cr; addressable := addressable cr; middle := middle cr;
     anchored_chunk := anchored_chunk cr; glyph := glyph cr;
     inkBoundingBox := inkBoundingBox cr; advance := advance cr;
     breakType := v; lineEnd := lineEnd cr; lineStart := lineStart cr;
     textLengthApplied := textLengthApplied cr;
     scaledHalfLeading := scaledHalfLeading cr;
     scaledAscent := scaledAscent cr; scaledDescent := scaledDescent cr;
     cursorInfo := cursorInfo cr; anchor := anchor cr;
     direction := direction cr; cssPosition := cssPosition cr;
     baselineOffset := baselineOffset cr; visualIndex := visualIndex cr;
     plaintTextIndex := plaintTextIndex cr |}.

Definition set_lineEnd (v : LineEdgeBehaviour) (cr : CharacterResult) : CharacterResult :=
  {| finalPosition := finalPosition cr; rotate := rotate cr;
     hidden := hidden cr; addressable := addressable cr; middle := middle cr;
     anchored_chunk := anchored_chunk cr; glyph := glyph cr;
     inkBoundingBox := inkBoundingBox cr; advance := advance cr;
     breakType := breakType cr; lineEnd := v; lineStart := lineStart cr;
     textLengthApplied := textLengthApplied cr;
     scaledHalfLeading := scaledHalfLeading cr;
     scaledAscent := scaledAscent cr; scaledDescent := scaledDescent cr;
     cursorInfo := cursorInfo cr; anchor := anchor cr;
     direction := direction cr; cssPosition := cssPosition cr;
     baselineOffset := baselineOffset cr; visualIndex := visualIndex cr;
     plaintTextIndex := plaintTextIndex cr |}.

Definition set_lineStart (v : LineEdgeBehaviour) (cr : CharacterResult) : CharacterResult :=
  {| finalPosition := finalPosition cr; rotate := rotate cr;
     hidden := hidden cr; addressable := addressable cr; middle := middle cr;
     anchored_chunk := anchored_chunk cr; glyph := glyph cr;
     inkBoundingBox := inkBoundingBox cr; advance := advance cr;
     breakType := breakType cr; lineEnd := lineEnd cr; lineStart := v;
     textLengthApplied := textLengthApplied cr;
     scaledHalfLeading := scaledHalfLeading cr;
     scaledAscent := scaledAscent cr; scaledDescent := scaledDescent cr;
     cursorInfo := cursorInfo cr; anchor := anchor cr;
     direction := direction cr; cssPosition := cssPosition cr;
     baselineOffset := baselineOffset cr; visualIndex := visualIndex cr;
     plaintTextIndex := plaintTextIndex cr |}.

Definition set_textLengthApplied (v : bool) (cr : CharacterResult) : CharacterResult :=
  {| finalPosition := finalPosition cr; rotate := rotate cr;
     hidden := hidden cr; addressable := addressable cr; middle := middle cr;
     anchored_chunk := anchored_chunk cr; glyph := glyph cr;
     inkBoundingBox := inkBoundingBox cr; advance := advance cr;
     breakType := breakType cr; lineEnd := lineEnd cr;
     lineStart := lineStart cr; textLengthApplied := v;
     scaledHalfLeading := scaledHalfLeading cr;
     scaledAscent := scaledAscent cr; scaledDescent := scaledDescent cr;
     cursorInfo := cursorInfo cr; anchor := anchor cr;
     direction := direction cr; cssPosition := cssPosition cr;
     baselineOffset := baselineOffset cr; visualIndex := visualIndex cr;
     plaintTextIndex := plaintTextIndex cr |}.

Definition set_scaledHalfLeading (v : Z) (cr : CharacterResult) : CharacterResult :=
  {| finalPosition := finalPosition cr; rotate := rotate cr;
     hidden := hidden cr; addressable := addressable cr; middle := middle cr;
     anchored_chunk := anchored_chunk cr; glyph := glyph cr;
     inkBoundingBox := inkBoundingBox cr; advance := advance cr;
     breakType := breakType cr; lineEnd := lineEnd cr;
     lineStart := lineStart cr; textLengthApplied := textLengthApplied cr;
     scaledHalfLeading := v; scaledAscent := scaledAscent cr;
     scaledDescent := scaledDescent cr; cursorInfo := cursorInfo cr;
     anchor := anchor cr; direction := direction cr;
     cssPosition := cssPosition cr; baselineOffset := baselineOffset cr;
     visualIndex := visualIndex cr; plaintTextIndex := plaintTextIndex cr |}.

Definition set_scaledAscent (v : Z) (cr : CharacterResult) : CharacterResult :=
  {| finalPosition := finalPosition cr; rotate := rotate cr;
     hidden := hidden cr; addressable := addressable cr; middle := middle cr;
     anchored_chunk := anchored_chunk cr; glyph := glyph cr;
     inkBoundingBox := inkBoundingBox cr; advance := advance cr;
     breakType := breakType cr; lineEnd := lineEnd cr;
     lineStart := lineStart cr; textLengthApplied := textLengthApplied cr;
     scaledHalfLeading := scaledHalfLeading cr; scaledAscent := v;
     scaledDescent := scaledDescent cr; cursorInfo := cursorInfo cr;
     anchor := anchor cr; direction := direction cr;
     cssPosition := cssPosition cr; baselineOffset := baselineOffset cr;
     visualIndex := visualIndex cr; plaintTextIndex := plaintTextIndex cr |}.

Definition set_scaledDescent (v : Z) (cr : CharacterResult) : CharacterResult :=
  {| finalPosition := finalPosition cr; rotate := rotate cr;
     hidden := hidden cr; addressable := addressable cr; middle := middle cr;
     anchored_chunk := anchored_chunk cr; glyph := glyph cr;
     inkBoundingBox := inkBoundingBox cr; advance := advance cr;
     breakType := breakType cr; lineEnd := lineEnd cr;
     lineStart := lineStart cr; textLengthApplied := textLengthApplied cr;
     scaledHalfLeading := scaledHalfLeading cr;
     scaledAscent := scaledAscent cr; scaledDescent := v;
     cursorInfo := cursorInfo cr; anchor := anchor cr;
     direction := direction cr; cssPosition := cssPosition cr;
     baselineOffset := baselineOffset cr; visualIndex := visualIndex cr;
     plaintTextIndex := plaintTextIndex cr |}.

Definition set_cursorInfo (v : CursorInfo) (cr : CharacterResult) : CharacterResult :=
  {| finalPosition := finalPosition cr; rotate := rotate cr;
     hidden := hidden cr; addressable := addressable cr; middle := middle cr;
     anchored_chunk := anchored_chunk cr; glyph := glyph cr;
     inkBoundingBox := inkBoundingBox cr; advance := advance cr;
     breakType := breakType cr; lineEnd := lineEnd cr;
     lineStart := lineStart cr; textLengthApplied := textLengthApplied cr;
     scaledHalfLeading := scaledHalfLeading cr;
     scaledAscent := scaledAscent cr; scaledDescent := scaledDescent cr;
     cursorInfo := v; anchor := anchor cr; direction := direction cr;
     cssPosition := cssPosition cr; baselineOffset := baselineOffset cr;
     visualIndex := visualIndex cr; plaintTextIndex := plaintTextIndex cr |}.

Definition set_anchor (v : KoSvgText.TextAnchor) (cr : CharacterResult) : CharacterResult :=
  {| finalPosition := finalPosition cr; rotate := rotate cr;
     hidden := hidden cr; addressable := addressable cr; middle := middle cr;
     anchored_chunk := anchored_chunk cr; glyph := glyph cr;
     inkBoundingBox := inkBoundingBox cr; advance := advance cr;
     breakType := breakType cr; lineEnd := lineEnd cr;
     lineStart := lineStart cr; textLengthApplied := textLengthApplied cr;
     scaledHalfLeading := scaledHalfLeading cr;
     scaledAscent := scaledAscent cr; scaledDescent := scaledDescent cr;
     cursorInfo := cursorInfo cr; anchor := v; direction := direction cr;
     cssPosition := cssPosition cr; baselineOffset := baselineOffset cr;
     visualIndex := visualIndex cr; plaintTextIndex := plaintTextIndex cr |}.

Definition set_direction (v : KoSvgText.Direction) (cr : CharacterResult) : CharacterResult :=
  {| finalPosition := finalPosition cr; rotate := rotate cr;
     hidden := hidden cr; addressable := addressable cr; middle := middle cr;
     anchored_chunk := anchored_chunk cr; glyph := glyph cr;
     inkBoundingBox := inkBoundingBox cr; advance := advance cr;
     breakType := breakType cr; lineEnd := lineEnd cr;
     lineStart := lineStart cr; textLengthApplied := textLengthApplied cr;
     scaledHalfLeading := scaledHalfLeading cr;
     scaledAscent := scaledAscent cr; scaledDescent := scaledDescent cr;
     cursorInfo := cursorInfo cr; anchor := anchor cr; direction := v;
     cssPosition := cssPosition cr; baselineOffset := baselineOffset cr;
     visualIndex := visualIndex cr; plaintTextIndex := plaintTextIndex cr |}.

Definition set_cssPosition (v : QPointF) (cr : CharacterResult) : CharacterResult :=
  {| finalPosition := finalPosition cr; rotate := rotate cr;
     hidden := hidden cr; addressable := addressable cr; middle := middle cr;
     anchored_chunk := anchored_chunk cr; glyph := glyph cr;
     inkBoundingBox := inkBoundingBox cr; advance := advance cr;
     breakType := breakType cr; lineEnd := lineEnd cr;
     lineStart := lineStart cr; textLengthApplied := textLengthApplied cr;
     scaledHalfLeading := scaledHalfLeading cr;
     scaledAscent := scaledAscent cr; scaledDescent := scaledDescent cr;
     cursorInfo := cursorInfo cr; anchor := anchor cr;
     direction := direction cr; cssPosition := v;
     baselineOffset := baselineOffset cr; visualIndex := visualIndex cr;
     plaintTextIndex := plaintTextIndex cr |}.

Definition set_baselineOffset (v : QPointF) (cr : CharacterResult) : CharacterResult :=
  {| finalPosition := finalPosition cr; rotate := rotate cr;
     hidden := hidden cr; addressable := addressable cr; middle := middle cr;
     anchored_chunk := anchored_chunk cr; glyph := glyph cr;
     inkBoundingBox := inkBoundingBox cr; advance := advance cr;
     breakType := breakType cr; lineEnd := lineEnd cr;
     lineStart := lineStart cr; textLengthApplied := textLengthApplied cr;
     scaledHalfLeading := scaledHalfLeading cr;
     scaledAscent := scaledAscent cr; scaledDescent := scaledDescent cr;
     cursorInfo := cursorInfo cr; anchor := anchor cr;
     direction := direction cr; cssPosition := cssPosition cr;
     baselineOffset := v; visualIndex := visualIndex cr;
     plaintTextIndex := plaintTextIndex cr |}.

Definition set_visualIndex (v : Z) (cr : CharacterResult) : CharacterResult :=
  {| finalPosition := finalPosition cr; rotate := rotate cr;
     hidden := hidden cr; addressable := addressable cr; middle := middle cr;
     anchored_chunk := anchored_chunk cr; glyph := glyph cr;
     inkBoundingBox := inkBoundingBox cr; advance := advance cr;
     breakType := breakType cr; lineEnd := lineEnd cr;
     lineStart := lineStart cr; textLengthApplied := textLengthApplied cr;
     scaledHalfLeading := scaledHalfLeading cr;
     scaledAscent := scaledAscent cr; scaledDescent := scaledDescent cr;
     cursorInfo := cursorInfo cr; anchor := anchor cr;
     direction := direction cr; cssPosition := cssPosition cr;
     baselineOffset := baselineOffset cr; visualIndex := v;
     plaintTextIndex := plaintTextIndex cr |}.

Definition set_plaintTextIndex (v : Z) (cr : CharacterResult) : CharacterResult :=
  {| finalPosition := finalPosition cr; rotate := rotate cr;
     hidden := hidden cr; addressable := addressable cr; middle := middle cr;
     anchored_chunk := anchored_chunk cr; glyph := glyph cr;
     inkBoundingBox := inkBoundingBox cr; advance := advance cr;
     breakType := breakType cr; lineEnd := lineEnd cr;
     lineStart := lineStart cr; textLengthApplied := textLengthApplied cr;
     scaledHalfLeading := scaledHalfLeading cr;
     scaledAscent := scaledAscent cr; scaledDescent := scaledDescent cr;
     cursorInfo := cursorInfo cr; anchor := anchor cr;
     direction := direction cr; cssPosition := cssPosition cr;
     baselineOffset := baselineOffset cr; visualIndex := visualIndex cr;
     plaintTextIndex := v |}.

(** Modelled from the spec: the member initialisers of [CharacterResult] are
    in KoSvgTextShape_p.h, which is not under src/.  The spec fixes
    [visualIndex == -1] until the shaping pass assigns it; a fresh entry is
    addressable, neither hidden nor middle, starts no chunk and has no break
    opportunity. *)
Definition CharacterResult_default : CharacterResult :=
  {| finalPosition := QPointF_null; rotate := 0%float; hidden := false;
     addressable := true; middle := false; anchored_chunk := false;
     glyph := GlyphMonostate; inkBoundingBox := QRectF_null;
     advance := QPointF_null; breakType := NoBreak; lineEnd := NoChange;
     lineStart := NoChange; textLengthApplied := false;
     scaledHalfLeading := 0; scaledAscent := 0; scaledDescent := 0;
     cursorInfo := CursorInfo_default; anchor := KoSvgText.AnchorStart;
     direction := KoSvgText.DirectionLeftToRight;
     cssPosition := QPointF_null; baselineOffset := QPointF_null;
     visualIndex := -1; plaintTextIndex := -1 |}.

#[global] Instance CharacterResult_inhabited : Inhabited CharacterResult :=
  populate CharacterResult_default.
#[global] Instance CharTransformation_inhabited :
  Inhabited KoSvgText.CharTransformation :=
  populate KoSvgText.CharTransformation_default.

(** ** Loops

    [for (int k = lo; k < hi; k++) body] threads its state through the
    indices in increasing order. *)

Definition for_range {S : Type} (lo hi : nat) (body : nat -> S -> S) (s : S) : S :=
  foldl (fun acc k => body k acc) s (seq lo (hi - lo)).

(** [QVector::isEmpty]. *)
Definition isEmpty {A : Type} (l : list A) : bool :=
  match l with [] => true | _ :: _ => false end.

(** ** Sub-chunks (KoSvgTextShape_p.h)

    The members of [SubChunk] that [relayout] reads, together with the style
    properties it resolves from [inheritedProps] and the per-face lengths the
    font registry returns for the chunk.  [associatedLeaf] points into the
    tree: it is the path of child positions from the root to the leaf. *)

Record HangingPunctuations : Type := mkHang {
  HangFirst : bool; HangLast : bool; HangEnd : bool; HangForce : bool
}.

Record SubChunk : Type := mkSubChunk {
  associatedLeaf : list nat;
  chunk_text : list QChar;
  originalText : list QChar;
  newToOldPositions : list (Z * Z);
  firstTextInPath : bool;
  chunk_anchor : KoSvgText.TextAnchor;
  chunk_direction : KoSvgText.Direction;
  chunk_wordBreak : KoSvgText.WordBreak;
  chunk_hang : HangingPunctuations;
  faceLengths : list nat
}.

(** Lines 160-173: the text to lay out, the plain text, and the map from
    positions of the former to positions of the latter. *)
Definition appendChunk (acc : list QChar * list QChar * list (Z * Z)) (chunk : SubChunk)
  : list QChar * list QChar * list (Z * Z) :=
  let '(text, plainText, clusterToOriginalString) := acc in
  let newPos (pos : Z * Z) : Z * Z :=
    let a := if snd pos <? 0 then -1 else Z.of_nat (length text) + snd pos in
    let b := if fst pos <? 0 then -1 else Z.of_nat (length plainText) + fst pos in
    (a, b) in
  (text ++ chunk_text chunk,
   plainText ++ originalText chunk,
   clusterToOriginalString ++ map newPos (newToOldPositions chunk)).

Definition collectText (textChunks : list SubChunk)
  : list QChar * list QChar * list (Z * Z) :=
  foldl appendChunk ([], [], []) textChunks.

(** Lines 192-202: the break classes.  [set_linebreaks_utf16] writes one
    class per code unit into a buffer of [text.size()] entries; the buffer is
    zero-initialised and left alone for an empty text. *)
Definition classify (classOf : nat -> Z) (text : list QChar) : list Z :=
  if (0 <? length text)%nat then map classOf (seq 0 (length text))
  else replicate (length text) 0.

(** Lines 211-215: hard breaks are replaced by spaces before the text goes to
    the bidi algorithm. *)
Definition replaceHardBreaks (lineBreaks : list Z) (text : list QChar) : list QChar :=
  for_range 0 (length text)
    (fun i text =>
       if (lineBreaks !!! i) =? LINEBREAK_MUSTBREAK then <[i := QChar_Space]> text
       else text)
    text.

(** Lines 216-225: the plain-text index of every mapped code unit. *)
Definition assignPlainTextIndices (clusterToOriginalString : list (Z * Z))
    (result : list CharacterResult) : list CharacterResult :=
  foldl
    (fun result mapping =>
       if fst mapping <? 0 then result
       else if fst mapping <? Z.of_nat (length result)
            then alter (set_plaintTextIndex (snd mapping)) (Z.to_nat (fst mapping)) result
            else result)
    result clusterToOriginalString.

(** Lines 237-243: the resolved transforms start out empty, except that the
    first one is placed at the origin. *)
Definition initialResolvedTransforms (text : list QChar)
  : list KoSvgText.CharTransformation :=
  let resolvedTransforms := replicate (length text) KoSvgText.CharTransformation_default in
  if negb (isEmpty resolvedTransforms)
  then alter (fun t => KoSvgText.set_yPos (Some 0%float) (KoSvgText.set_xPos (Some 0%float) t))
             0%nat resolvedTransforms
  else resolvedTransforms.

(** ** The text tree (KisForest<KoSvgTextContentElement>)

    The members of a content element that the embedded passes read or write.
    [associatedOutline] and [textDecorations] are what the layout leaves on
    the tree for rendering.  The decoration widths and offsets, which
    [computeFontMetrics] stores on a node and [computeTextDecorations] reads
    back in the same run, are a value passed between those passes: the one
    entry that is never stored, the overline offset, is overwritten at lines
    1389-1400 before it is used. *)

Record KoPathShape : Type := mkKoPathShape {
  path_length : qreal;
  isClosedSubpath0 : bool;
  subpathCount : nat
}.

Inductive KoShape : Type :=
  | PathShape (p : KoPathShape)
  | OtherShape.

Record TextOnPathInfo : Type := mkTextOnPathInfo {
  startOffset : qreal;
  startOffsetIsPercentage : bool;
  side : KoSvgText.TextPathSide;
  method : KoSvgText.TextPathMethod
}.

(** [KoSvgTextProperties]: the property set of a node, each entry a property
    identifier with its value; it is resolved by the property system, which
    is not under src/. *)
Definition KoSvgTextProperties : Type := list (nat * Z).

(** [QMap<KoSvgText::TextDecoration, T>]: at most one value for each of
    underline, overline and line-through. *)
Record DecorationMap (T : Type) : Type := mkDecorationMap {
  decorationUnderline : option T;
  decorationOverline : option T;
  decorationLineThrough : option T
}.
Arguments mkDecorationMap {T} _ _ _.
Arguments decorationUnderline {T} _.
Arguments decorationOverline {T} _.
Arguments decorationLineThrough {T} _.

Definition DecorationMap_empty {T : Type} : DecorationMap T :=
  mkDecorationMap None None None.

Inductive TextDecoration : Set :=
  DecorationUnderline | DecorationOverline | DecorationLineThrough.

(** [QMap::insert]. *)
Definition DecorationMap_insert {T : Type} (type : TextDecoration) (v : T)
    (m : DecorationMap T) : DecorationMap T :=
  match type with
  | DecorationUnderline =>
      mkDecorationMap (Some v) (decorationOverline m) (decorationLineThrough m)
  | DecorationOverline =>
      mkDecorationMap (decorationUnderline m) (Some v) (decorationLineThrough m)
  | DecorationLineThrough =>
      mkDecorationMap (decorationUnderline m) (decorationOverline m) (Some v)
  end.

Record KoSvgTextContentElement : Type := mkElement {
  element_text : list QChar;
  properties : KoSvgTextProperties;
  localTransformations : list KoSvgText.CharTransformation;
  textPath : option KoShape;
  textPathInfo : TextOnPathInfo;
  textLength : KoSvgText.AutoValue;
  lengthAdjust : KoSvgText.LengthAdjust;
  associatedOutline : list QRectF;
  textDecorations : DecorationMap QPainterPath
}.

#[local] Set Warnings "-register-all".

Inductive TextTree : Type :=
  | TextNode (element : KoSvgTextContentElement) (children : list TextTree).

Definition element (t : TextTree) : KoSvgTextContentElement :=
  match t with TextNode e _ => e end.
Definition children (t : TextTree) : list TextTree :=
  match t with TextNode _ c => c end.

(** Lines 813-819: every node of the forest loses its outline and its
    decorations. *)
Definition clearElement (e : KoSvgTextContentElement) : KoSvgTextContentElement :=
  {| element_text := element_text e;
     properties := properties e;
     localTransformations := localTransformations e;
     textPath := textPath e;
     textPathInfo := textPathInfo e;
     textLength := textLength e;
     lengthAdjust := lengthAdjust e;
     associatedOutline := [];
     textDecorations := DecorationMap_empty |}.

Fixpoint clearAssociatedOutlinesTree (t : TextTree) : TextTree :=
  match t with
  | TextNode e c => TextNode (clearElement e) (map clearAssociatedOutlinesTree c)
  end.

Definition clearAssociatedOutlines (textData : list TextTree) : list TextTree :=
  map clearAssociatedOutlinesTree textData.

(** A tree that declares no transform of its own: no node carries local
    transformations or a text path. *)
Fixpoint declaresNoTransform (t : TextTree) : bool :=
  match t with
  | TextNode e c =>
      isEmpty (localTransformations e)
      && negb (bool_decide (is_Some (textPath e)))
      && forallb declaresNoTransform c
  end.

(** ** resolveTransforms (lines 825-900) *)

Section ResolveTransforms.

(** [numChars(element, true)] of KoSvgTextShape_p.h: the number of code
    units, bidi controls included, of a subtree. *)
Variable numChars : TextTree -> nat.

(** [CharTransformation::mergeInParentTransformation] of KoSvgText.h, as a
    function of the local and the parent transformation. *)
Variable mergeInParentTransformation :
  KoSvgText.CharTransformation -> KoSvgText.CharTransformation ->
  KoSvgText.CharTransformation.

Definition isBidiControl (c : QChar) : bool :=
  ((8234 <=? c) && (c <=? 8238)) || ((8294 <=? c) && (c <=? 8297)).

(** The state the function threads by reference: [result], [currentIndex]
    and [resolved]. *)
Record ResolveState : Type := mkResolveState {
  rs_result : list CharacterResult;
  rs_currentIndex : nat;
  rs_resolved : list KoSvgText.CharTransformation
}.

(** Lines 837-862, the loop of a node that is not a text path; its state is
    [result], [resolved] and the position [i] in the local transforms. *)
Definition resolveOwnStep (local : list KoSvgText.CharTransformation)
    (text : list QChar) (wrapped : bool) (collapsedChars : list bool) (k : nat)
    (st : list CharacterResult * list KoSvgText.CharTransformation * nat)
  : list CharacterResult * list KoSvgText.CharTransformation * nat :=
  let '(result, resolved, i) := st in
  if (length text <=? k)%nat then st
  else
    let bidi := isBidiControl (text !!! k) in
    let softHyphen := (text !!! k) =? QChar_SoftHyphen in
    if (collapsedChars !!! k) || (bidi && negb wrapped) || softHyphen
    then (alter (set_addressable false) k result, resolved, i)
    else if (i <? length local)%nat
    then
      let newTransform := mergeInParentTransformation (local !!! i) (resolved !!! k) in
      (result, <[k := newTransform]> resolved, S i)
    else if (0 <? k)%nat
    then
      match KoSvgText.rotate (resolved !!! (k - 1)%nat) with
      | Some r => (result, alter (KoSvgText.set_rotate (Some r)) k resolved, i)
      | None => st
      end
    else st.

(** Lines 870-896, the loop of a text path node; its state is [resolved]
    and the flag [first]. *)
Definition resolvePathStep (isHorizontal : bool) (result : list CharacterResult)
    (k : nat) (st : list KoSvgText.CharTransformation * bool)
  : list KoSvgText.CharTransformation * bool :=
  let '(resolved, first) := st in
  if negb (addressable (result !!! k)) then st
  else
    let resolved :=
      if first
      then if isHorizontal
           then alter (KoSvgText.set_xPos (Some 0%float)) k resolved
           else alter (KoSvgText.set_yPos (Some 0%float)) k resolved
      else resolved in
    let resolved :=
      if isHorizontal
      then alter (KoSvgText.set_yPos None) k resolved
      else alter (KoSvgText.set_xPos None) k resolved in
    (resolved, false).

(** The coordinate across and along the line of text. *)
Definition crossAxis (isHorizontal : bool) (t : KoSvgText.CharTransformation)
  : option qreal :=
  if isHorizontal then KoSvgText.yPos t else KoSvgText.xPos t.
Definition alongAxis (isHorizontal : bool) (t : KoSvgText.CharTransformation)
  : option qreal :=
  if isHorizontal then KoSvgText.xPos t else KoSvgText.yPos t.

Fixpoint resolveTransforms (currentTextElement : TextTree) (text : list QChar)
    (isHorizontal wrapped textInPath : bool) (collapsedChars : list bool)
    (st : ResolveState) {struct currentTextElement} : ResolveState :=
  match currentTextElement with
  | TextNode e childNodes =>
      let local := localTransformations e in
      let index := rs_currentIndex st in
      let j := (index + numChars currentTextElement)%nat in
      let isPath := bool_decide (is_Some (textPath e)) in
      let textInPath := if isPath then true else textInPath in
      let '(result, resolved) :=
        if isPath then (rs_result st, rs_resolved st)
        else
          let '(result, resolved, _) :=
            for_range index j (resolveOwnStep local text wrapped collapsedChars)
              (rs_result st, rs_resolved st, 0%nat) in
          (result, resolved) in
      let st :=
        foldl
          (fun st child =>
             resolveTransforms child text isHorizontal false textInPath collapsedChars st)
          (mkResolveState result index resolved) childNodes in
      let resolved :=
        if isPath
        then fst (for_range index j (resolvePathStep isHorizontal (rs_result st))
                    (rs_resolved st, true))
        else rs_resolved st in
      mkResolveState (rs_result st) j resolved
  end.

End ResolveTransforms.

(** ** QMap<int, int>

    Keys are kept in increasing order; inserting an existing key replaces its
    value. *)

Definition QMap : Type := list (Z * Z).

Fixpoint QMap_insert (k v : Z) (m : QMap) : QMap :=
  match m with
  | [] => [(k, v)]
  | (k', v') :: m' =>
      if k <? k' then (k, v) :: m
      else if k =? k' then (k, v) :: m'
      else (k', v') :: QMap_insert k v m'
  end.

Definition QMap_keys (m : QMap) : list Z := map fst m.

Fixpoint QMap_value (k : Z) (m : QMap) : Z :=
  match m with
  | [] => 0
  | (k', v') :: m' => if k =? k' then v' else QMap_value k m'
  end.

(** ** Shaping: lines 155-576 of relayout *)

Module Raqm.
(** The members of [raqm_glyph_t] the layout reads. *)
Record raqm_glyph_t : Type := mkGlyph { index : Z; cluster : nat }.
End Raqm.

Inductive WritingMode : Set := HorizontalTB | VerticalRL | VerticalLR.
Inductive TextSpaceCollapse : Set :=
  CollapseSpaces | DiscardSpaces | PreserveSpaces | PreserveBreaks | PreserveSpace | BreakSpaces.
Inductive HangKind : Set := KindHangFirst | KindHangLast | KindHangEnd.

(** The root properties [relayout] resolves at lines 111-116 and 180-182,
    and the members of the shape it consults. *)
Record RootProperties : Type := mkRootProperties {
  writingMode : WritingMode;
  root_direction : KoSvgText.Direction;
  inlineSize : KoSvgText.AutoValue;
  lang : list QChar;
  wrap : KoSvgText.TextWrap;
  collapse : TextSpaceCollapse;
  linebreakStrictness : KoSvgText.LineBreak;
  shapesInside_isEmpty : bool
}.

Definition TextWrap_isNoWrap (w : KoSvgText.TextWrap) : bool :=
  match w with KoSvgText.NoWrap => true | _ => false end.
Definition isRightToLeft (d : KoSvgText.Direction) : bool :=
  match d with KoSvgText.DirectionRightToLeft => true | _ => false end.

(** Lines 490-505. *)
Definition getUcs4At (s : list QChar) (i : nat) : Z :=
  let high := s !!! i in
  if negb (QChar_isSurrogate high) then high
  else if QChar_isHighSurrogate high && (i + 1 <? length s)%nat
       then let low := s !!! (i + 1)%nat in
            if QChar_isLowSurrogate low then QChar_surrogateToUcs4 high low else high
       else high.

(** What lines 155-576 leave behind for the rest of the function. *)
Record Shaped : Type := mkShaped {
  sh_text : list QChar;
  sh_plainText : list QChar;
  sh_lineBreaks : list Z;
  sh_result : list CharacterResult;
  sh_resolvedTransforms : list KoSvgText.CharTransformation;
  sh_logicalToVisual : QMap;
  sh_isBidi : bool;
  sh_fC : nat
}.

Inductive Outcome (A : Type) : Type :=
  | Done (a : A)
  | NoGlyphs
  | OutOfBounds.
Arguments Done {A} a.
Arguments NoGlyphs {A}.
Arguments OutOfBounds {A}.

Section Relayout.

Variable numChars : TextTree -> nat.
Variable mergeInParentTransformation :
  KoSvgText.CharTransformation -> KoSvgText.CharTransformation ->
  KoSvgText.CharTransformation.

(** KoCssTextUtils. *)
Variable collapseSpaces : list QChar -> TextSpaceCollapse -> list QChar * list bool.
Variable collapseLastSpace : QChar -> TextSpaceCollapse -> bool.
(** [hangLastSpace] returns its verdict and the flag [force] it sets. *)
Variable hangLastSpace :
  QChar -> TextSpaceCollapse -> KoSvgText.TextWrap -> bool -> bool * bool.
Variable characterCanHang : QChar -> HangKind -> bool.

(** libunibreak: the class each function writes for a position of the
    text, given the language tag. *)
Variable set_linebreaks_utf16 : list QChar -> list QChar -> nat -> Z.
Variable set_graphemebreaks_utf16 : list QChar -> list QChar -> nat -> Z.

(** raqm: whether the text was accepted, the glyphs of the laid out text
    ([None] for a null pointer) and the direction found at a position. *)
Variable raqm_set_text_utf16 : list QChar -> bool.
Variable raqm_get_glyphs : list QChar -> option (list Raqm.raqm_glyph_t).
Variable raqm_direction_is_rtl : nat -> bool.

(** [loadGlyph] (KoSvgTextShape_p_glyphs): success, and the character
    result and total advance it leaves in its reference arguments. *)
Variable loadGlyph :
  bool -> Z -> Raqm.raqm_glyph_t -> CharacterResult -> QPointF ->
  bool * CharacterResult * QPointF.

Definition strictSuffix : list QChar := [45; 115; 116; 114; 105; 99; 116].

(** Lines 184-190. *)
Definition languageTag (props : RootProperties) : list QChar :=
  if negb (isEmpty (lang props))
  then match linebreakStrictness props with
       | KoSvgText.LineBreakStrict => lang props ++ strictSuffix
       | _ => lang props
       end
  else lang props.

(** Lines 298-309: the break class of the line breaker. *)
Definition chunkBreakType (props : RootProperties) (c : QChar) (lineBreak : Z)
    (cr : CharacterResult) : CharacterResult :=
  if lineBreak =? LINEBREAK_MUSTBREAK
  then set_lineStart Collapse (set_lineEnd Collapse (set_breakType HardBreak cr))
  else if (lineBreak =? LINEBREAK_ALLOWBREAK) && negb (TextWrap_isNoWrap (wrap props))
  then
    let cr := set_breakType SoftBreak cr in
    if collapseLastSpace c (collapse props)
    then set_lineStart Collapse (set_lineEnd Collapse cr)
    else cr
  else cr.

(** Lines 310-331: a space that hangs at the end of the line. *)
Definition chunkHangingSpace (props : RootProperties) (c : QChar)
    (isFollowedByForcedLineBreak : bool) (cr : CharacterResult) : CharacterResult :=
  if negb (LineEdgeBehaviour_eqb (lineEnd cr) Collapse)
  then
    let '(hangs, forceHang) :=
      hangLastSpace c (collapse props) (wrap props) isFollowedByForcedLineBreak in
    if hangs
    then set_lineEnd (if forceHang then ForceHang else ConditionallyHang) cr
    else cr
  else cr.

(** Lines 333-339: break-all and line-break: anywhere. *)
Definition chunkBreakAnywhere (props : RootProperties) (chunk : SubChunk)
    (graphemeBreak : Z) (cr : CharacterResult) : CharacterResult :=
  let breakAll :=
    match chunk_wordBreak chunk, linebreakStrictness props with
    | KoSvgText.WordBreakBreakAll, _ | _, KoSvgText.LineBreakAnywhere => true
    | _, _ => false
    end in
  if breakAll && negb (TextWrap_isNoWrap (wrap props))
     && (graphemeBreak =? GRAPHEMEBREAK_BREAK)
     && BreakType_eqb (breakType cr) NoBreak
  then set_breakType SoftBreak cr
  else cr.

(** Lines 340-357: hanging punctuation. *)
Definition chunkHangingPunctuation (chunk : SubChunk) (c : QChar)
    (cr : CharacterResult) : CharacterResult :=
  let cr :=
    if negb (LineEdgeBehaviour_eqb (lineStart cr) Collapse) && HangFirst (chunk_hang chunk)
    then set_lineStart (if characterCanHang c KindHangFirst then ForceHang else lineEnd cr) cr
    else cr in
  if negb (LineEdgeBehaviour_eqb (lineEnd cr) Collapse)
  then
    let cr :=
      if HangLast (chunk_hang chunk)
      then set_lineEnd (if characterCanHang c KindHangLast then ForceHang else lineEnd cr) cr
      else cr in
    if HangEnd (chunk_hang chunk)
    then
      let edge := if HangForce (chunk_hang chunk) then ForceHang else ConditionallyHang in
      set_lineEnd (if characterCanHang c KindHangEnd then edge else lineEnd cr) cr
    else cr
  else cr.

(** Lines 290-374, the body of the loop over one sub-chunk at position
    [start + i]. *)
Definition chunkCharacter (props : RootProperties) (text : list QChar)
    (lineBreaks graphemeBreaks : list Z)
    (resolvedTransforms : list KoSvgText.CharTransformation)
    (chunk : SubChunk) (start i : nat) (result : list CharacterResult)
  : list CharacterResult :=
  let p := (start + i)%nat in
  let c := text !!! p in
  let cr := result !!! p in
  let cr := set_anchor (chunk_anchor chunk) cr in
  let cr := set_direction (chunk_direction chunk) cr in
  let cr := chunkBreakType props c (lineBreaks !!! p) cr in
  let isFollowedByForcedLineBreak :=
    if (length result <=? p + 1)%nat then true
    else if (lineBreaks !!! (p + 1)%nat) =? LINEBREAK_MUSTBREAK then true
    else KoSvgText.startsNewChunk (resolvedTransforms !!! (p + 1)%nat) in
  let cr := chunkHangingSpace props c isFollowedByForcedLineBreak cr in
  let cr := chunkBreakAnywhere props chunk (graphemeBreaks !!! p) cr in
  let cr := chunkHangingPunctuation chunk c cr in
  let cr :=
    if firstTextInPath chunk && (i =? 0)%nat then set_anchored_chunk true cr else cr in
  <[p := cr]> result.

(** Lines 261-452: every sub-chunk in turn; [start] advances by the
    lengths the font registry reports for the faces of the chunk. *)
Definition applySubChunk (props : RootProperties) (text : list QChar)
    (lineBreaks graphemeBreaks : list Z)
    (resolvedTransforms : list KoSvgText.CharTransformation)
    (st : list CharacterResult * nat) (chunk : SubChunk)
  : list CharacterResult * nat :=
  let '(result, start) := st in
  let result :=
    for_range 0 (length (chunk_text chunk))
      (chunkCharacter props text lineBreaks graphemeBreaks resolvedTransforms chunk start)
      result in
  (result, foldl (fun start length => (start + length)%nat) start (faceLengths chunk)).

(** Lines 479-531, the body of the loop over the glyph at position [i]. *)
Definition glyphStep (isHorizontal : bool) (text : list QChar)
    (st : list CharacterResult * QPointF * QMap * bool)
    (ig : nat * Raqm.raqm_glyph_t)
  : list CharacterResult * QPointF * QMap * bool :=
  let '(result, totalAdvance, logicalToVisual, isBidi) := st in
  let '(i, currentGlyph) := ig in
  let cluster := Raqm.cluster currentGlyph in
  if negb (addressable (result !!! cluster)) then st
  else
    let charResult := result !!! cluster in
    let codepoint := getUcs4At text cluster in
    let isRtl := raqm_direction_is_rtl cluster in
    let charResult :=
      set_cursorInfo
        (mkCursorInfo isRtl (graphemeIndices (cursorInfo charResult))
           (offsets (cursorInfo charResult)))
        charResult in
    let isBidi :=
      if negb (Bool.eqb isRtl (isRightToLeft (direction charResult))) then true else isBidi in
    let '(loaded, charResult, totalAdvance) :=
      loadGlyph isHorizontal codepoint currentGlyph charResult totalAdvance in
    if negb loaded then (result, totalAdvance, logicalToVisual, isBidi)
    else
      let charResult := set_visualIndex (Z.of_nat i) charResult in
      let logicalToVisual := QMap_insert (Z.of_nat cluster) (Z.of_nat i) logicalToVisual in
      let charResult := set_middle false charResult in
      (<[cluster := charResult]> result, totalAdvance, logicalToVisual, isBidi).

Definition glyphLoop (isHorizontal : bool) (text : list QChar)
    (glyphs : list Raqm.raqm_glyph_t) (result : list CharacterResult)
  : list CharacterResult * QPointF * QMap * bool :=
  foldl (glyphStep isHorizontal text) (result, QPointF_null, [], false)
    (imap (fun i g => (i, g)) glyphs).

Definition appendGrapheme (idx : Z) (cr : CharacterResult) : CharacterResult :=
  set_cursorInfo
    (mkCursorInfo (rtl (cursorInfo cr)) (graphemeIndices (cursorInfo cr) ++ [idx])
       (offsets (cursorInfo cr)))
    cr.

(** Lines 538-572, the body of the loop that marks the characters in the
    middle of a cluster; its state is [result], [firstCluster] and
    [graphemeBreakNext]. *)
Definition clusterStep (text : list QChar) (graphemeBreaks : list Z) (i : nat)
    (st : list CharacterResult * Z * bool) : list CharacterResult * Z * bool :=
  let '(result, firstCluster, graphemeBreakNext) := st in
  let result := alter (fun cr => set_middle (visualIndex cr =? -1) cr) i result in
  let st' :=
    if addressable (result !!! i) && negb (middle (result !!! i))
    then
      let result :=
        if (plaintTextIndex (result !!! i) >? -1) && (firstCluster >? -1)
        then
          let first := result !!! (Z.to_nat firstCluster) in
          let info := cursorInfo first in
          let info :=
            if negb (isEmpty (offsets info))
            then mkCursorInfo (rtl info) (graphemeIndices info) (offsets info ++ [advance first])
            else info in
          let info :=
            mkCursorInfo (rtl info) (graphemeIndices info ++ [plaintTextIndex (result !!! i)])
              (offsets info) in
          alter (set_cursorInfo info) (Z.to_nat firstCluster) result
        else result in
      (result, Z.of_nat i)
    else
      let fC := Z.to_nat (Z.max 0 firstCluster) in
      let result :=
        if Bool.eqb (QChar_isSpace (text !!! fC)) (QChar_isSpace (text !!! i))
        then
          let result :=
            if negb (BreakType_eqb (breakType (result !!! fC)) HardBreak)
            then alter (set_breakType (breakType (result !!! i))) fC result
            else result in
          let result :=
            if LineEdgeBehaviour_eqb (lineStart (result !!! fC)) NoChange
            then alter (set_lineStart (lineStart (result !!! i))) fC result
            else result in
          if LineEdgeBehaviour_eqb (lineEnd (result !!! fC)) NoChange
          then alter (set_lineEnd (lineEnd (result !!! i))) fC result
          else result
        else result in
      let result :=
        if graphemeBreakNext && addressable (result !!! i)
           && (plaintTextIndex (result !!! i) >? -1)
        then alter (appendGrapheme (plaintTextIndex (result !!! i))) fC result
        else result in
      let result :=
        alter (set_cssPosition
                 (QPointF_add (cssPosition (result !!! fC)) (advance (result !!! fC))))
          i result in
      let result := alter (set_hidden true) i result in
      (result, firstCluster) in
  (fst st', snd st', (graphemeBreaks !!! i) =? GRAPHEMEBREAK_BREAK).

Definition clusterLoop (text : list QChar) (graphemeBreaks : list Z)
    (result : list CharacterResult) : list CharacterResult * Z * bool :=
  for_range 0 (length result) (clusterStep text graphemeBreaks) (result, -1, false).

(** A character that is drawn: addressable and given a visual index by
    the shaper.  After the cluster loop this is "addressable and not
    middle". *)
Definition isVisible (cr : CharacterResult) : bool :=
  addressable cr && negb (visualIndex cr =? -1).

(** The last visible character among the first [n], or [-1]: the value of
    [firstCluster] when the cluster loop reaches [n]. *)
Definition lastVisibleBefore (result : list CharacterResult) (n : nat) : Z :=
  for_range 0 n
    (fun k acc => if isVisible (result !!! k) then Z.of_nat k else acc) (-1).

(** Lines 155-215: the text and its break classes.  [pt_collapsed] is the
    text the classes are computed on, [pt_text] the text after the hard
    breaks have been replaced. *)
Record PreparedText : Type := mkPreparedText {
  pt_collapsed : list QChar;
  pt_text : list QChar;
  pt_plainText : list QChar;
  pt_clusterToOriginalString : list (Z * Z);
  pt_collapseChars : list bool;
  pt_lineBreaks : list Z;
  pt_graphemeBreaks : list Z
}.

Definition prepareText (textChunks : list SubChunk) (props : RootProperties)
  : PreparedText :=
  let '(text, plainText, clusterToOriginalString) := collectText textChunks in
  let '(text, collapseChars) := collapseSpaces text (collapse props) in
  let lang := languageTag props in
  let lineBreaks := classify (set_linebreaks_utf16 text lang) text in
  let graphemeBreaks := classify (set_graphemebreaks_utf16 text lang) text in
  mkPreparedText text (replaceHardBreaks lineBreaks text) plainText
    clusterToOriginalString collapseChars lineBreaks graphemeBreaks.

Definition isHorizontalMode (props : RootProperties) : bool :=
  match writingMode props with HorizontalTB => true | _ => false end.

(** Lines 205-458: the result array before any glyph is retrieved. *)
Definition initialCharacters (root : TextTree) (textChunks : list SubChunk)
    (props : RootProperties) (p : PreparedText)
  : list CharacterResult * list KoSvgText.CharTransformation :=
  let text := pt_text p in
  let result := replicate (length (pt_collapsed p)) CharacterResult_default in
  let result := assignPlainTextIndices (pt_clusterToOriginalString p) result in
  let resolvedTransforms := initialResolvedTransforms text in
  let wrapped := negb (KoSvgText.isAuto (inlineSize props) && shapesInside_isEmpty props) in
  let resolved :=
    resolveTransforms numChars mergeInParentTransformation root text
      (isHorizontalMode props) wrapped false (pt_collapseChars p)
      (mkResolveState result 0%nat resolvedTransforms) in
  let result := rs_result resolved in
  let resolvedTransforms := rs_resolved resolved in
  let result :=
    if raqm_set_text_utf16 text
    then fst (foldl (applySubChunk props text (pt_lineBreaks p) (pt_graphemeBreaks p)
                       resolvedTransforms)
                (result, 0%nat) textChunks)
    else result in
  let result :=
    if negb (isEmpty result) then alter (set_anchored_chunk true) 0%nat result else result in
  (result, resolvedTransforms).

(** Lines 155-576. *)
Definition shapeCharacters (root : TextTree) (textChunks : list SubChunk)
    (props : RootProperties) : Outcome Shaped :=
  let p := prepareText textChunks props in
  let text := pt_text p in
  let '(result, resolvedTransforms) := initialCharacters root textChunks props p in
  match raqm_get_glyphs text with
  | None => NoGlyphs
  | Some glyphs =>
      let '(result, _, logicalToVisual, isBidi) :=
        glyphLoop (isHorizontalMode props) text glyphs result in
      let '(result, firstCluster, graphemeBreakNext) :=
        clusterLoop text (pt_graphemeBreaks p) result in
      let fC := Z.to_nat (Z.max 0 firstCluster) in
      match result !! fC with
      | None => OutOfBounds
      | Some first =>
          let result :=
            if isEmpty (graphemeIndices (cursorInfo first)) || graphemeBreakNext
            then alter (appendGrapheme (Z.of_nat (length (pt_plainText p)))) fC result
            else result in
          Done (mkShaped text (pt_plainText p) (pt_lineBreaks p) result resolvedTransforms
                  logicalToVisual isBidi fC)
      end
  end.

(** Lines 578-608: the dummy character after a final hard break. *)
Definition paragraphEnd (isHorizontal : bool) (hardbreak : CharacterResult) : CharacterResult :=
  let dummy := CharacterResult_default in
  let dummy := set_addressable true dummy in
  let dummy := set_visualIndex (visualIndex hardbreak + 1) dummy in
  let dummy := set_scaledAscent (scaledAscent hardbreak) dummy in
  let dummy := set_scaledDescent (scaledDescent hardbreak) dummy in
  let dummy := set_scaledHalfLeading (scaledHalfLeading hardbreak) dummy in
  let dummy := set_cssPosition (QPointF_add (cssPosition hardbreak) (advance hardbreak)) dummy in
  let dummy := set_finalPosition (cssPosition dummy) dummy in
  let dummy := set_inkBoundingBox (inkBoundingBox hardbreak) dummy in
  let dummy :=
    if isHorizontal
    then set_inkBoundingBox (QRectF_setWidth 0%float (inkBoundingBox dummy))
           (set_advance (QPointF_setX 0%float (advance dummy)) dummy)
    else set_inkBoundingBox (QRectF_setHeight 0%float (inkBoundingBox dummy))
           (set_advance (QPointF_setY 0%float (advance dummy)) dummy) in
  let dummy :=
    set_plaintTextIndex (List.last (graphemeIndices (cursorInfo hardbreak)) 0) dummy in
  let dummy :=
    set_cursorInfo
      (mkCursorInfo (rtl (cursorInfo hardbreak)) (graphemeIndices (cursorInfo dummy))
         (offsets (cursorInfo dummy)))
      dummy in
  set_direction (direction hardbreak) dummy.

(** [QVector::insert(i, value)]. *)
Definition QVector_insert {A : Type} (i : nat) (x : A) (l : list A) : list A :=
  take i l ++ x :: drop i l.

Record Characters : Type := mkCharacters {
  ch_result : list CharacterResult;
  ch_resolvedTransforms : list KoSvgText.CharTransformation;
  ch_logicalToVisual : QMap;
  ch_dummyIndex : Z
}.

Definition appendParagraphEnd (isHorizontal : bool) (s : Shaped) : Characters :=
  let result := sh_result s in
  let fC := sh_fC s in
  if BreakType_eqb (breakType (result !!! fC)) HardBreak
  then
    let hardbreak := result !!! fC in
    let dummyIndex := (fC + 1)%nat in
    let dummy := paragraphEnd isHorizontal hardbreak in
    mkCharacters (QVector_insert dummyIndex dummy result)
      (QVector_insert dummyIndex KoSvgText.CharTransformation_default
         (sh_resolvedTransforms s))
      (QMap_insert (Z.of_nat dummyIndex) (visualIndex dummy) (sh_logicalToVisual s))
      (Z.of_nat dummyIndex)
  else mkCharacters result (sh_resolvedTransforms s) (sh_logicalToVisual s) (-1).

End Relayout.

(** ** Position adjustment: lines 629-692 of relayout *)

(** Lines 633-661, "4. Adjust positions: dx, dy"; the loop state is
    [result], [shift] and [setAnchoredChunk]. *)
Definition adjustRelativeStep (resolvedTransforms : list KoSvgText.CharTransformation)
    (i : nat) (st : list CharacterResult * QPointF * bool)
  : list CharacterResult * QPointF * bool :=
  let '(result, shift, setAnchoredChunk) := st in
  if addressable (result !!! i)
  then
    let transform := resolvedTransforms !!! i in
    let shift :=
      if KoSvgText.hasRelativeOffset transform
      then QPointF_add shift (KoSvgText.relativeOffset transform)
      else shift in
    let charResult := result !!! i in
    let charResult :=
      match KoSvgText.rotate transform with
      | Some r => set_rotate r charResult
      | None => charResult
      end in
    let charResult := set_finalPosition (QPointF_add (cssPosition charResult) shift) charResult in
    let '(charResult, setAnchoredChunk) :=
      if setAnchoredChunk then (set_anchored_chunk true charResult, false)
      else (charResult, setAnchoredChunk) in
    let '(charResult, setAnchoredChunk) :=
      if KoSvgText.startsNewChunk transform
      then if middle charResult then (charResult, true)
           else (set_anchored_chunk true charResult, setAnchoredChunk)
      else (charResult, setAnchoredChunk) in
    (<[i := charResult]> result, shift, setAnchoredChunk)
  else st.

Definition adjustRelative (resolvedTransforms : list KoSvgText.CharTransformation)
    (result : list CharacterResult) : list CharacterResult :=
  fst (fst (for_range 0 (length result) (adjustRelativeStep resolvedTransforms)
              (result, QPointF_null, false))).

(** Lines 672-692, "6. Adjust positions: x, y". *)
Definition adjustAbsoluteStep (resolvedTransforms : list KoSvgText.CharTransformation)
    (i : nat) (st : list CharacterResult * QPointF) : list CharacterResult * QPointF :=
  let '(result, shift) := st in
  if addressable (result !!! i)
  then
    let transform := resolvedTransforms !!! i in
    let charResult := result !!! i in
    let shift :=
      match KoSvgText.xPos transform with
      | Some x =>
          let delta := default 0%float (KoSvgText.dxPos transform) in
          QPointF_setX (x + (delta - px (finalPosition charResult)))%float shift
      | None => shift
      end in
    let shift :=
      match KoSvgText.yPos transform with
      | Some y =>
          let delta := default 0%float (KoSvgText.dyPos transform) in
          QPointF_setY (y + (delta - py (finalPosition charResult)))%float shift
      | None => shift
      end in
    let charResult := set_finalPosition (QPointF_add (finalPosition charResult) shift) charResult in
    let charResult :=
      if middle charResult && (0 <=? Z.of_nat i - 1)
      then set_finalPosition (finalPosition (result !!! (i - 1)%nat)) charResult
      else charResult in
    (<[i := charResult]> result, shift)
  else st.

Definition adjustAbsolute (resolvedTransforms : list KoSvgText.CharTransformation)
    (result : list CharacterResult) : list CharacterResult :=
  fst (for_range 0 (length result) (adjustAbsoluteStep resolvedTransforms)
         (result, QPointF_null)).

(** ** applyTextLength (lines 903-1013) *)

Definition axisPosition (isHorizontal : bool) (p : QPointF) : qreal :=
  if isHorizontal then px p else py p.

Section ApplyTextLength.

Variable numChars : TextTree -> nat.

(** Lines 925-949: the extent [a], [b] of the node, the count [n] of
    characters not stretched yet and the visual order of its characters. *)
Definition textLengthExtentStep (isHorizontal : bool) (result : list CharacterResult)
    (i k : nat) (st : qreal * qreal * Z * QMap) : qreal * qreal * Z * QMap :=
  let '(a, b, n, visualToLogical) := st in
  let cr := result !!! k in
  if addressable cr
  then
    let visualToLogical :=
      if visualIndex cr >? -1
      then QMap_insert (visualIndex cr) (Z.of_nat k) visualToLogical
      else visualToLogical in
    let pos := axisPosition isHorizontal (finalPosition cr) in
    let advance := axisPosition isHorizontal (advance cr) in
    let '(a, b) :=
      if (k =? i)%nat
      then (qMin pos (pos + advance)%float, qMax pos (pos + advance)%float)
      else (qMin a (qMin pos (pos + advance)%float),
            qMax b (qMax pos (pos + advance)%float)) in
    let n := if negb (textLengthApplied cr) then n + 1 else n in
    (a, b, n, visualToLogical)
  else st.

(** Lines 950-957: the divisor and the shift per character. *)
Definition textLengthDivisor (spacingAndGlyphs : bool) (n resolvedChildren : Z) : Z :=
  let n := n + resolvedChildren in
  if negb spacingAndGlyphs then n - 1 else n.

Definition textLengthDelta (isHorizontal : bool) (customValue a b : qreal) (n : Z)
  : QPointF :=
  let delta := (customValue - (b - a))%float in
  if isHorizontal then mkQPointF (delta / qreal_of_int n)%float 0%float
  else mkQPointF 0%float (delta / qreal_of_int n)%float.

(** [d.x() != 0] on [qreal]: true for a NaN. *)
Definition qNotZero (x : qreal) : bool := negb (x =? 0)%float.

(** Lines 961-984: the characters of the node in visual order; the state is
    [result], [shift] and [secondTextLengthApplied]. *)
Definition stretchStep (spacingAndGlyphs : bool) (d : QPointF)
    (visualToLogical : QMap) (lastKey : Z)
    (st : list CharacterResult * QPointF * bool) (k : Z)
  : list CharacterResult * QPointF * bool :=
  let '(result, shift, secondTextLengthApplied) := st in
  let logical := Z.to_nat (QMap_value k visualToLogical) in
  let cr := result !!! logical in
  let '(cr, shift, secondTextLengthApplied) :=
    if addressable cr
    then
      let cr := set_finalPosition (QPointF_add (finalPosition cr) shift) cr in
      let cr :=
        if spacingAndGlyphs
        then
          let scale :=
            mkQPointF
              (if qNotZero (px d) then (px d / px (advance cr) + 1)%float else 1%float)
              (if qNotZero (py d) then (py d / py (advance cr) + 1)%float else 1%float) in
          let tf := fromScale (px scale) (py scale) in
          let cr :=
            match glyph cr with
            | GlyphOutline path => set_glyph (GlyphOutline (QTransform_mapPath tf path)) cr
            | _ => cr
            end in
          let cr := set_advance (QTransform_map tf (advance cr)) cr in
          set_inkBoundingBox (QTransform_mapRect tf (inkBoundingBox cr)) cr
        else cr in
      let last := if spacingAndGlyphs then false else k =? lastKey in
      let shift :=
        if negb (textLengthApplied cr && secondTextLengthApplied) && negb last
        then QPointF_add shift d
        else shift in
      (set_textLengthApplied true cr, shift, textLengthApplied cr)
    else (cr, shift, secondTextLengthApplied) in
  (<[logical := cr]> result, shift, secondTextLengthApplied).

(** Lines 992-997: the characters after the node, up to the next chunk. *)
Fixpoint followingCharacters (rest : list CharacterResult) (k : nat)
    (visualToLogical : QMap) : QMap :=
  match rest with
  | [] => visualToLogical
  | cr :: rest' =>
      if anchored_chunk cr then visualToLogical
      else followingCharacters rest' (S k)
             (QMap_insert (visualIndex cr) (Z.of_nat k) visualToLogical)
  end.

(** Lines 999-1004: and backwards, down to the start of the chunk. *)
Fixpoint precedingCharacters (result : list CharacterResult) (k : nat)
    (visualToLogical : QMap) : QMap :=
  let cr := result !!! k in
  let visualToLogical := QMap_insert (visualIndex cr) (Z.of_nat k) visualToLogical in
  if anchored_chunk cr then visualToLogical
  else match k with
       | O => visualToLogical
       | S k' => precedingCharacters result k' visualToLogical
       end.

(** Lines 1005-1009. *)
Definition shiftAfter (lastVisualValue : Z) (shift : QPointF) (visualToLogical : QMap)
    (result : list CharacterResult) : list CharacterResult :=
  foldl
    (fun result k =>
       if k >? lastVisualValue
       then alter (fun cr => set_finalPosition (QPointF_add (finalPosition cr) shift) cr)
              (Z.to_nat (QMap_value k visualToLogical)) result
       else result)
    result (QMap_keys visualToLogical).

(** Lines 920-1010 for one node whose [textLength] is set.  [None] is the
    failed precondition of [QList::last] on an empty key list. *)
Definition stretchNode (e : KoSvgTextContentElement) (isHorizontal : bool)
    (i j : nat) (resolvedChildren : Z) (result : list CharacterResult)
  : option (list CharacterResult) :=
  let '(a, b, n, visualToLogical) :=
    for_range i j (textLengthExtentStep isHorizontal result i)
      (0%float, 0%float, 0, []) in
  let spacingAndGlyphs :=
    match lengthAdjust e with
    | KoSvgText.LengthAdjustSpacingAndGlyphs => true
    | KoSvgText.LengthAdjustSpacing => false
    end in
  let n := textLengthDivisor spacingAndGlyphs n resolvedChildren in
  let d := textLengthDelta isHorizontal (KoSvgText.customValue (textLength e)) a b n in
  let keys := QMap_keys visualToLogical in
  let '(result, shift, _) :=
    foldl (stretchStep spacingAndGlyphs d visualToLogical (List.last keys 0))
      (result, QPointF_null, false) keys in
  match keys with
  | [] => None
  | _ :: _ =>
      let lastVisualValue := List.last keys 0 in
      let visualToLogical := followingCharacters (drop j result) j [] in
      let visualToLogical := precedingCharacters result i visualToLogical in
      Some (shiftAfter lastVisualValue shift visualToLogical result)
  end.

(** The state threaded by reference: [result], [currentIndex] and the
    caller's [resolvedDescendentNodes]. *)
Fixpoint applyTextLength (currentTextElement : TextTree) (isHorizontal : bool)
    (st : list CharacterResult * nat * Z) {struct currentTextElement}
  : option (list CharacterResult * nat * Z) :=
  match currentTextElement with
  | TextNode e childNodes =>
      let '(result, currentIndex, resolvedDescendentNodes) := st in
      let i := currentIndex in
      let j := (i + numChars currentTextElement)%nat in
      let afterChildren :=
        foldl
          (fun st child =>
             match st with
             | Some st => applyTextLength child isHorizontal st
             | None => None
             end)
          (Some (result, currentIndex, 0)) childNodes in
      match afterChildren with
      | None => None
      | Some (result, _, resolvedChildren) =>
          if negb (KoSvgText.isAuto (textLength e))
          then
            match stretchNode e isHorizontal i j resolvedChildren result with
            | None => None
            | Some result => Some (result, j, resolvedDescendentNodes + 1)
            end
          else Some (result, j, resolvedDescendentNodes)
      end
  end.

End ApplyTextLength.

(** ** applyAnchoring (lines 1516-1563) *)

(** Lines 1524-1541: the loop that finds the end [i] of the chunk starting at
    [start] and its extent [a], [b]; [rest] is the part of [result] from the
    current [i] on. *)
Fixpoint chunkExtent (isHorizontal : bool) (start : nat) (rest : list CharacterResult)
    (i : nat) (a b : qreal) : nat * qreal * qreal :=
  match rest with
  | [] => (i, a, b)
  | cr :: rest' =>
      if negb (addressable cr) then chunkExtent isHorizontal start rest' (S i) a b
      else if anchored_chunk cr && (start <? i)%nat then (i, a, b)
      else
        let pos := axisPosition isHorizontal (finalPosition cr) in
        let advance := axisPosition isHorizontal (advance cr) in
        if anchored_chunk cr
        then chunkExtent isHorizontal start rest' (S i)
               (qMin pos (pos + advance)%float) (qMax pos (pos + advance)%float)
        else chunkExtent isHorizontal start rest' (S i)
               (qMin a (qMin pos (pos + advance)%float))
               (qMax b (qMax pos (pos + advance)%float))
  end.

(** Lines 1543-1554: the shift of the chunk. *)
Definition anchorShift (isHorizontal : bool) (first : CharacterResult) (a b : qreal) : qreal :=
  let rtl := isRightToLeft (direction first) in
  let shift := axisPosition isHorizontal (finalPosition first) in
  match anchor first, rtl with
  | KoSvgText.AnchorStart, false | KoSvgText.AnchorEnd, true => (shift - a)%float
  | KoSvgText.AnchorEnd, false | KoSvgText.AnchorStart, true => (shift - b)%float
  | KoSvgText.AnchorMiddle, _ => (shift - (a + b) * 0.5)%float
  end.

(** One turn of the [while] loop: the chunk from [start] is shifted and the
    next chunk starts at the returned index. *)
Definition anchorChunk (isHorizontal : bool) (start : nat) (result : list CharacterResult)
  : list CharacterResult * nat :=
  let '(i, a, b) := chunkExtent isHorizontal start (drop start result) start 0%float 0%float in
  let shift := anchorShift isHorizontal (result !!! start) a b in
  let shiftP := if isHorizontal then mkQPointF shift 0%float else mkQPointF 0%float shift in
  (for_range start i
     (fun j result =>
        alter (fun cr => set_finalPosition (QPointF_add (finalPosition cr) shiftP) cr) j result)
     result,
   i).

(** The [while] loop; every turn moves [start] forward, so [length result]
    turns are enough. *)
Fixpoint anchorLoop (fuel : nat) (isHorizontal : bool) (start : nat)
    (result : list CharacterResult) : list CharacterResult :=
  match fuel with
  | O => result
  | S fuel' =>
      if (start <? length result)%nat
      then let '(result, i) := anchorChunk isHorizontal start result in
           anchorLoop fuel' isHorizontal i result
      else result
  end.

Definition applyAnchoring (result : list CharacterResult) (isHorizontal : bool)
  : list CharacterResult :=
  anchorLoop (length result) isHorizontal 0%nat result.

(** ** Text on a path (lines 1566-1601 and 1645-1744) *)

(** [characterResultOnPath] returns [mid] and may hide the character it is
    given by reference. *)
Definition characterResultOnPath (cr : CharacterResult) (length offset : qreal)
    (isHorizontal isClosed : bool) : CharacterResult * qreal :=
  let rtl := isRightToLeft (direction cr) in
  let mid :=
    if isHorizontal
    then (px (finalPosition cr) + px (advance cr) * 0.5 + offset)%float
    else (py (finalPosition cr) + py (advance cr) * 0.5 + offset)%float in
  if isClosed
  then
    let cr :=
      match anchor cr, rtl with
      | KoSvgText.AnchorStart, false | KoSvgText.AnchorEnd, true =>
          if ((mid - offset <? 0) || (length <? mid - offset))%float
          then set_hidden true cr else cr
      | KoSvgText.AnchorEnd, false | KoSvgText.AnchorStart, true =>
          if ((mid - offset <? - length) || (0 <? mid - offset))%float
          then set_hidden true cr else cr
      | KoSvgText.AnchorMiddle, _ =>
          if ((mid - offset <? - (length * 0.5)) || (length * 0.5 <? mid - offset))%float
          then set_hidden true cr else cr
      end in
    let mid := if (mid <? 0)%float then (mid + length)%float else mid in
    (cr, fmod mid length)
  else
    let cr := if ((mid <? 0) || (length <? mid))%float then set_hidden true cr else cr in
    (cr, mid).

Section ApplyTextPath.

Variable numChars : TextTree -> nat.

(** QPainterPath geometry of the text path, outline mapped through the
    shape's transformation and reversed for the right side. *)
Variable pointAtLength : KoPathShape -> KoSvgText.TextPathSide -> qreal -> QPointF.
Variable pointAtEnd : KoPathShape -> KoSvgText.TextPathSide -> QPointF.

(** Lines 1689-1718: a character that stays visible is moved to its place
    on the path and rotated along the tangent there. *)
Variable bendCharacter :
  KoPathShape -> TextOnPathInfo -> bool -> qreal -> CharacterResult -> CharacterResult.

(** Lines 1669-1675; the literal is the binary64 value of [0.01]. *)
Definition pathOffset (shape : KoPathShape) (info : TextOnPathInfo) : qreal :=
  if startOffsetIsPercentage info
  then (path_length shape * (0x1.47ae147ae147bp-7 * startOffset info))%float
  else startOffset info.

Definition pathIsClosed (shape : KoPathShape) : bool :=
  isClosedSubpath0 shape && (subpathCount shape =? 1)%nat.

(** Lines 1683-1722, the body of the loop over the characters of a node on
    a path. *)
Definition pathCharacter (shape : KoPathShape) (info : TextOnPathInfo)
    (isHorizontal : bool) (i : nat) (result : list CharacterResult)
  : list CharacterResult :=
  let cr := result !!! i in
  let cr :=
    if negb (middle cr)
    then
      let '(cr, mid) :=
        characterResultOnPath cr (path_length shape) (pathOffset shape info)
          isHorizontal (pathIsClosed shape) in
      if negb (hidden cr) then bendCharacter shape info isHorizontal mid cr else cr
    else cr in
  <[i := cr]> result.

(** Lines 1731-1739: the characters after a path follow its end until a
    new chunk starts; the state is [result] and [afterPath]. *)
Definition afterPathCharacter (pathEnd : QPointF) (i : nat)
    (st : list CharacterResult * bool) : list CharacterResult * bool :=
  let '(result, afterPath) := st in
  let cr := result !!! i in
  if anchored_chunk cr then (result, false)
  else (<[i := set_finalPosition (QPointF_add (finalPosition cr) pathEnd) cr]> result,
        afterPath).

Record PathState : Type := mkPathState {
  ps_result : list CharacterResult;
  ps_startPos : QPointF;
  ps_inPath : bool;
  ps_afterPath : bool;
  ps_currentIndex : nat;
  ps_pathEnd : QPointF
}.

(** Lines 1657-1743, the body of the loop over the children of the root;
    [isFirst] tells whether the child is [childBegin(root)]. *)
Definition textPathChild (isHorizontal : bool) (st : PathState)
    (child : bool * TextTree) : PathState :=
  let '(isFirst, textShapeElement) := child in
  let e := element textShapeElement in
  let currentIndex := ps_currentIndex st in
  let endIndex := (currentIndex + numChars textShapeElement)%nat in
  match textPath e with
  | Some (PathShape shape) =>
      let info := textPathInfo e in
      let startPos :=
        if isFirst then pointAtLength shape (side info) (pathOffset shape info)
        else ps_startPos st in
      let result :=
        for_range currentIndex endIndex (pathCharacter shape info isHorizontal)
          (ps_result st) in
      mkPathState result startPos true (ps_afterPath st) endIndex
        (pointAtEnd shape (side info))
  | _ =>
      let '(inPath, afterPath, pathEnd) :=
        if ps_inPath st
        then (false, true,
              QPointF_sub (ps_pathEnd st) (finalPosition (ps_result st !!! currentIndex)))
        else (ps_inPath st, ps_afterPath st, ps_pathEnd st) in
      let '(result, afterPath) :=
        if afterPath
        then for_range currentIndex endIndex (afterPathCharacter pathEnd)
               (ps_result st, afterPath)
        else (ps_result st, afterPath) in
      mkPathState result (ps_startPos st) inPath afterPath endIndex pathEnd
  end.

Definition applyTextPath (root : TextTree) (result : list CharacterResult)
    (isHorizontal : bool) (startPos : QPointF) : list CharacterResult * QPointF :=
  let st :=
    foldl (textPathChild isHorizontal)
      (mkPathState result startPos false false 0%nat QPointF_null)
      (imap (fun k child => ((k =? 0)%nat, child)) (children root)) in
  (ps_result st, ps_startPos st).

End ApplyTextPath.

(** ** Reference behaviour of the services, for the examples

    One concrete behaviour for each service the embedding takes as a
    variable: the examples, witnesses and counterexamples below run the
    embedded code with these. *)

Module Reference.

(** The code units of a subtree: the element's own and its children's. *)
Fixpoint numChars (t : TextTree) : nat :=
  match t with
  | TextNode e c => (length (element_text e) + list_sum (map numChars c))%nat
  end.

(** Modelled from the spec: absolute positions come from the node when it
    declares them and from the parent otherwise, relative offsets compose
    additively, and the rotation is inherited. *)
Definition mergeInParentTransformation (local parent : KoSvgText.CharTransformation)
  : KoSvgText.CharTransformation :=
  let inherit (a b : option qreal) := match a with Some _ => a | None => b end in
  let compose (a b : option qreal) :=
    match a, b with
    | Some x, Some y => Some (x + y)%float
    | Some x, None => Some x
    | None, _ => b
    end in
  KoSvgText.mkCharTransformation
    (inherit (KoSvgText.xPos local) (KoSvgText.xPos parent))
    (inherit (KoSvgText.yPos local) (KoSvgText.yPos parent))
    (compose (KoSvgText.dxPos local) (KoSvgText.dxPos parent))
    (compose (KoSvgText.dyPos local) (KoSvgText.dyPos parent))
    (inherit (KoSvgText.rotate local) (KoSvgText.rotate parent)).

(** White space is kept as it is and nothing hangs. *)
Definition collapseSpaces (text : list QChar) (_ : TextSpaceCollapse)
  : list QChar * list bool :=
  (text, replicate (length text) false).
Definition collapseLastSpace (_ : QChar) (_ : TextSpaceCollapse) : bool := false.
Definition hangLastSpace (_ : QChar) (_ : TextSpaceCollapse) (_ : KoSvgText.TextWrap)
    (_ : bool) : bool * bool := (false, false).
Definition characterCanHang (_ : QChar) (_ : HangKind) : bool := false.

(** A line breaker that breaks after a line feed, allows a break after a
    space and nowhere else; every code unit is a grapheme of its own. *)
Definition set_linebreaks_utf16 (text : list QChar) (_ : list QChar) (i : nat) : Z :=
  let c := text !!! i in
  if c =? 10 then LINEBREAK_MUSTBREAK
  else if c =? 32 then LINEBREAK_ALLOWBREAK
  else LINEBREAK_NOBREAK.
Definition set_graphemebreaks_utf16 (_ : list QChar) (_ : list QChar) (_ : nat) : Z :=
  GRAPHEMEBREAK_BREAK.

(** A shaper that accepts every text, lays out nothing for the empty text
    and one left-to-right glyph per code unit otherwise. *)
Definition raqm_set_text_utf16 (_ : list QChar) : bool := true.
Definition raqm_get_glyphs (text : list QChar) : option (list Raqm.raqm_glyph_t) :=
  match text with
  | [] => None
  | _ :: _ => Some (imap (fun i c => Raqm.mkGlyph c i) text)
  end.
Definition raqm_direction_is_rtl (_ : nat) : bool := false.

(** Every glyph loads, ten units wide along the line. *)
Definition loadGlyph (isHorizontal : bool) (_ : Z) (_ : Raqm.raqm_glyph_t)
    (cr : CharacterResult) (total : QPointF) : bool * CharacterResult * QPointF :=
  let advance := if isHorizontal then mkQPointF 10%float 0%float
                 else mkQPointF 0%float 10%float in
  (true,
   set_advance advance (set_cssPosition total cr),
   QPointF_add total advance).

(** A leaf and an inner node with the given text and local transforms. *)
Definition plainElement (text : list QChar)
    (local : list KoSvgText.CharTransformation) : KoSvgTextContentElement :=
  {| element_text := text;
     properties := [];
     localTransformations := local;
     textPath := None;
     textPathInfo := mkTextOnPathInfo 0%float false KoSvgText.TextPathSideLeft
                       KoSvgText.TextPathAlign;
     textLength := KoSvgText.mkAutoValue true 0%float;
     lengthAdjust := KoSvgText.LengthAdjustSpacing;
     associatedOutline := [];
     textDecorations := DecorationMap_empty |}.

Definition onPath (shape : KoPathShape) (offset : qreal) (e : KoSvgTextContentElement)
  : KoSvgTextContentElement :=
  {| element_text := element_text e;
     properties := properties e;
     localTransformations := localTransformations e;
     textPath := Some (PathShape shape);
     textPathInfo := mkTextOnPathInfo offset false KoSvgText.TextPathSideLeft
                       KoSvgText.TextPathAlign;
     textLength := textLength e;
     lengthAdjust := lengthAdjust e;
     associatedOutline := associatedOutline e;
     textDecorations := textDecorations e |}.

Definition withTextLength (target : qreal) (adjust : KoSvgText.LengthAdjust)
    (e : KoSvgTextContentElement) : KoSvgTextContentElement :=
  {| element_text := element_text e;
     properties := properties e;
     localTransformations := localTransformations e;
     textPath := textPath e;
     textPathInfo := textPathInfo e;
     textLength := KoSvgText.mkAutoValue false target;
     lengthAdjust := adjust;
     associatedOutline := associatedOutline e;
     textDecorations := textDecorations e |}.

(** The sub-chunk of a leaf with default style. *)
Definition plainChunk (text : list QChar) : SubChunk :=
  {| associatedLeaf := [];
     chunk_text := text;
     originalText := text;
     newToOldPositions := imap (fun i _ => (Z.of_nat i, Z.of_nat i)) text;
     firstTextInPath := false;
     chunk_anchor := KoSvgText.AnchorStart;
     chunk_direction := KoSvgText.DirectionLeftToRight;
     chunk_wordBreak := KoSvgText.WordBreakNormal;
     chunk_hang := mkHang false false false false;
     faceLengths := [length text] |}.

Definition horizontalProperties : RootProperties :=
  {| writingMode := HorizontalTB;
     root_direction := KoSvgText.DirectionLeftToRight;
     inlineSize := KoSvgText.mkAutoValue true 0%float;
     lang := [];
     wrap := KoSvgText.NoWrap;
     collapse := PreserveSpaces;
     linebreakStrictness := KoSvgText.LineBreakAuto;
     shapesInside_isEmpty := true |}.

Definition prepareText := prepareText collapseSpaces set_linebreaks_utf16 set_graphemebreaks_utf16.
Definition initialCharacters :=
  initialCharacters numChars mergeInParentTransformation collapseLastSpace hangLastSpace
    characterCanHang raqm_set_text_utf16.
Definition shapeCharacters :=
  shapeCharacters numChars mergeInParentTransformation collapseSpaces collapseLastSpace
    hangLastSpace characterCanHang set_linebreaks_utf16 set_graphemebreaks_utf16
    raqm_set_text_utf16 raqm_get_glyphs raqm_direction_is_rtl loadGlyph.

End Reference.

(** ** Inputs of the examples *)

(** A text length on a node whose only character a descendant has stretched
    already: the root holds the node [P] (text length 10, spacing and glyphs)
    and the leaf "B"; [P] holds a node without text length, which holds the
    leaf "A" (text length 4, spacing and glyphs). *)
Definition nestedTextLengthTree : TextTree :=
  TextNode (Reference.plainElement [] [])
    [TextNode
       (Reference.withTextLength 10%float KoSvgText.LengthAdjustSpacingAndGlyphs
          (Reference.plainElement [] []))
       [TextNode (Reference.plainElement [] [])
          [TextNode
             (Reference.withTextLength 4%float KoSvgText.LengthAdjustSpacingAndGlyphs
                (Reference.plainElement [65] []))
             []]];
     TextNode (Reference.plainElement [66] []) []].

(** Two characters, two units wide, at x = 0 and x = 2; the first starts the
    chunk. *)
Definition twoCharacters : list CharacterResult :=
  [set_visualIndex 0
     (set_anchored_chunk true
        (set_advance (mkQPointF 2%float 0%float) CharacterResult_default));
   set_visualIndex 1
     (set_finalPosition (mkQPointF 2%float 0%float)
        (set_advance (mkQPointF 2%float 0%float) CharacterResult_default))].

(** A chunk that starts with a character that is not addressable (a
    collapsed leading space at the origin) followed by "A", two units wide at
    x = 5 (moved there by a dx), anchored in the middle. *)
Definition chunkAfterCollapsedSpace : list CharacterResult :=
  [set_anchor KoSvgText.AnchorMiddle
     (set_anchored_chunk true (set_addressable false CharacterResult_default));
   set_anchor KoSvgText.AnchorMiddle
     (set_finalPosition (mkQPointF 5%float 0%float)
        (set_advance (mkQPointF 2%float 0%float) CharacterResult_default))].



(** A horizontal text path over "AB" whose leaf places both characters
    explicitly. *)
Definition text_path_example_state : ResolveState :=
  Eval vm_compute in
    resolveTransforms Reference.numChars Reference.mergeInParentTransformation
      (TextNode
         (Reference.onPath (mkKoPathShape 100%float false 1%nat) 0%float
            (Reference.plainElement [] []))
         [TextNode
            (Reference.plainElement [65; 66]
               [KoSvgText.mkCharTransformation (Some 3%float) (Some 4%float) None None None;
                KoSvgText.mkCharTransformation (Some 5%float) (Some 6%float) None None None])
            []])
      [65; 66] true false false [false; false]
      (mkResolveState (replicate 2 CharacterResult_default) 0%nat
         (initialResolvedTransforms [65; 66])).


(** ** Cursor positions and line boxes (KoSvgTextShape_p.h)

    The members the layout reads or writes. *)

Record CursorPos : Type := mkCursorPos {
  cp_cluster : Z;
  cp_index : Z;
  cp_offset : Z;
  cp_synthetic : bool
}.

Record LineChunk : Type := mkLineChunk { chunkIndices : list nat }.

Record LineBox : Type := mkLineBox {
  chunks : list LineChunk;
  baselineTop : QPointF;
  baselineBottom : QPointF
}.

Definition LineBox_default : LineBox := mkLineBox [] QPointF_null QPointF_null.

Definition QPointF_mul (k : qreal) (p : QPointF) : QPointF :=
  mkQPointF (k * px p)%float (k * py p)%float.
Definition QPointF_div (p : QPointF) (k : qreal) : QPointF :=
  mkQPointF (px p / k)%float (py p / k)%float.

Definition QMap_values (m : QMap) : list Z := map snd m.

(** Lines 62-78: the cursor positions of one line chunk in visual order. *)
Definition chunkVisualOrder (cursorPos : list CursorPos) (result : list CharacterResult)
    (chunk : LineChunk) : list Z :=
  let visualToLogical :=
    foldl (fun m j => QMap_insert (visualIndex (result !!! j)) (Z.of_nat j) m)
      [] (chunkIndices chunk) in
  foldl
    (fun visual j =>
       let relevant :=
         foldl
           (fun m kc =>
              if j =? cp_cluster (snd kc)
              then QMap_insert (cp_offset (snd kc)) (Z.of_nat (fst kc)) m
              else m)
           [] (imap pair cursorPos) in
       foldl
         (fun visual k =>
            let final :=
              if rtl (cursorInfo (result !!! Z.to_nat j))
              then Z.of_nat (length relevant) - 1 - k
              else k in
            visual ++ [QMap_value final relevant])
         visual (QMap_keys relevant))
    [] (QMap_values visualToLogical).

(** Lines 55-93. *)
Definition logicalToVisualCursorPositions (cursorPos : list CursorPos)
    (result : list CharacterResult) (lines : list LineBox) (ltr : bool) : QMap :=
  foldl
    (fun logicalToVisual line =>
       foldl
         (fun logicalToVisual chunk =>
            let visual := chunkVisualOrder cursorPos result chunk in
            foldl
              (fun logicalToVisual v =>
                 QMap_insert v (Z.of_nat (length logicalToVisual)) logicalToVisual)
              logicalToVisual (if ltr then visual else reverse visual))
         logicalToVisual (chunks line))
    [] lines.

(** ** Writing to a node of the tree

    An iterator into the tree is the path of child positions that leads to
    its node; a write through the iterator changes that node and no other. *)

Fixpoint alterNode (f : KoSvgTextContentElement -> KoSvgTextContentElement)
    (path : list nat) (t : TextTree) : TextTree :=
  match path, t with
  | [], TextNode e c => TextNode (f e) c
  | k :: path, TextNode e c => TextNode e (alter (alterNode f path) k c)
  end.

(** [associatedOutline.addRect]. *)
Definition addRect (r : QRectF) (e : KoSvgTextContentElement) : KoSvgTextContentElement :=
  {| element_text := element_text e;
     properties := properties e;
     localTransformations := localTransformations e;
     textPath := textPath e;
     textPathInfo := textPathInfo e;
     textLength := textLength e;
     lengthAdjust := lengthAdjust e;
     associatedOutline := associatedOutline e ++ [r];
     textDecorations := textDecorations e |}.

(** [textDecorations.insert]. *)
Definition insertDecoration (type : TextDecoration) (path : QPainterPath)
    (e : KoSvgTextContentElement) : KoSvgTextContentElement :=
  {| element_text := element_text e;
     properties := properties e;
     localTransformations := localTransformations e;
     textPath := textPath e;
     textPathInfo := textPathInfo e;
     textLength := textLength e;
     lengthAdjust := lengthAdjust e;
     associatedOutline := associatedOutline e;
     textDecorations := DecorationMap_insert type path (textDecorations e) |}.

(** The decoration widths and offsets [computeFontMetrics] stores on the
    nodes, by node. *)
Record DecorationMetrics : Type := mkDecorationMetrics {
  textDecorationWidths : DecorationMap qreal;
  textDecorationOffsets : DecorationMap qreal
}.

Definition NodeMetrics : Type := list (list nat * DecorationMetrics).

Fixpoint metricsAt (path : list nat) (metrics : NodeMetrics) : DecorationMetrics :=
  match metrics with
  | [] => mkDecorationMetrics DecorationMap_empty DecorationMap_empty
  | (p, m) :: metrics => if decide (p = path) then m else metricsAt path metrics
  end.

(** [QMap::value]: the default value for a missing key. *)
Definition DecorationMap_value (type : TextDecoration) (m : DecorationMap qreal) : qreal :=
  default 0%float
    match type with
    | DecorationUnderline => decorationUnderline m
    | DecorationOverline => decorationOverline m
    | DecorationLineThrough => decorationLineThrough m
    end.

Inductive Baseline : Set := BaselineTextTop | BaselineTextBottom | BaselineOther.

(** Lines 1120-1127 and 1165-1172: the last line box that holds [i]. *)
Definition relevantLineOf (lineBoxes : list LineBox) (i : nat) : LineBox :=
  foldl
    (fun relevantLine lineBox =>
       foldl
         (fun relevantLine chunk =>
            if existsb (Nat.eqb i) (chunkIndices chunk) then lineBox else relevantLine)
         relevantLine (chunks lineBox))
    LineBox_default lineBoxes.

(** ** The private data of the shape

    The members [relayout] reads or writes. *)

Module KoSvgTextShape.

Record PrivateData : Type := mkPrivateData {
  textData : list TextTree;
  shapesInside : list KoShape;
  shapesSubtract : list KoShape;
  result : list CharacterResult;
  cursorPos : list CursorPos;
  logicalToVisualCursorPos : QMap;
  lineBoxes : list LineBox;
  initialTextPosition : QPointF;
  plainText : list QChar;
  isBidi : bool
}.

End KoSvgTextShape.

(** How a call ends: it returns, or it runs into an access out of bounds or
    a failed assertion. *)
Inductive Completion : Type :=
  | Returned (d : KoSvgTextShape.PrivateData)
  | Faulted.

(** What lines 110-810 hand to the members of the shape. *)
Record Layout : Type := mkLayout {
  lo_root : TextTree;
  lo_result : list CharacterResult;
  lo_cursorPos : list CursorPos;
  lo_logicalToVisualCursorPos : QMap;
  lo_lineBoxes : list LineBox;
  lo_initialTextPosition : QPointF;
  lo_plainText : list QChar;
  lo_isBidi : bool
}.

Inductive LayoutOutcome : Type :=
  | Laid (l : Layout)
  | Unshaped
  | Fault.

(** ** The passes of relayout that write to the tree, and relayout itself *)

Record DecorationContext : Type := mkDecorationContext {
  dc_textPath : option KoPathShape;
  dc_textPathOffset : qreal;
  dc_side : bool;
  dc_underlinePosH : Z;
  dc_underlinePosV : Z
}.

(** [dynamic_cast<KoPathShape *>(textPath.data())]. *)
Definition asPathShape (shape : option KoShape) : option KoPathShape :=
  match shape with
  | Some (PathShape p) => Some p
  | _ => None
  end.

Record ChunkStyle : Type := mkChunkStyle {
  style_anchor : KoSvgText.TextAnchor;
  style_direction : KoSvgText.Direction;
  style_wordBreak : KoSvgText.WordBreak;
  style_hang : HangingPunctuations
}.

Definition withShapesInside (isEmpty : bool) (props : RootProperties) : RootProperties :=
  {| writingMode := writingMode props;
     root_direction := root_direction props;
     inlineSize := inlineSize props;
     lang := lang props;
     wrap := wrap props;
     collapse := collapse props;
     linebreakStrictness := linebreakStrictness props;
     shapesInside_isEmpty := isEmpty |}.

Section CollectSubChunks.

(** The property system: [inheritFrom(parent, true)], the values the
    layout resolves from the inherited properties of a chunk, and the
    lengths the font registry reports for the faces of its text. *)
Variable inheritFrom : KoSvgTextProperties -> KoSvgTextProperties -> KoSvgTextProperties.
Variable chunkStyle : KoSvgTextProperties -> ChunkStyle.
Variable facesForCSSValues : KoSvgTextProperties -> list QChar -> list nat.

(** KoCssTextUtils: the bidi controls that open and close a node, from its
    own unicode-bidi and direction. *)
Variable getBidiOpening : KoSvgTextProperties -> list QChar.
Variable getBidiClosing : KoSvgTextProperties -> list QChar.

(** The text of a leaf after its text-transform, with the positions of the
    new code units in the old text. *)
Variable getTransformedString : KoSvgTextContentElement -> list QChar * list (Z * Z).

Definition subChunk (leaf : list nat) (inheritedProps : KoSvgTextProperties)
    (text original : list QChar) (positions : list (Z * Z)) : SubChunk :=
  let style := chunkStyle inheritedProps in
  {| associatedLeaf := leaf;
     chunk_text := text;
     originalText := original;
     newToOldPositions := positions;
     firstTextInPath := false;
     chunk_anchor := style_anchor style;
     chunk_direction := style_direction style;
     chunk_wordBreak := style_wordBreak style;
     chunk_hang := style_hang style;
     faceLengths := facesForCSSValues inheritedProps text |}.

(** Lines 1745-1801.  [textInPath] and [firstTextInPath] are written and
    never stored in a chunk, whose own flag keeps its initial value. *)
Fixpoint collectSubChunks (it : TextTree) (path : list nat)
    (parentProps : KoSvgTextProperties) {struct it} : list SubChunk :=
  match it with
  | TextNode e childNodes =>
      let currentProps := inheritFrom (properties e) parentProps in
      match childNodes with
      | _ :: _ =>
          fst (foldl
                 (fun acc child =>
                    (fst acc ++ collectSubChunks child (path ++ [snd acc]) currentProps,
                     S (snd acc)))
                 ([], 0%nat) childNodes)
      | [] =>
          let bidiOpening := getBidiOpening (properties e) in
          let bidiClosing := getBidiClosing (properties e) in
          let '(text, positions) := getTransformedString e in
          (if negb (isEmpty bidiOpening)
           then [subChunk path currentProps bidiOpening [] []] else [])
          ++ [subChunk path currentProps text (element_text e) positions]
          ++ (if negb (isEmpty bidiClosing)
              then [subChunk path currentProps bidiClosing [] []] else [])
      end
  end.

End CollectSubChunks.

Section FontMetrics.

Variable numChars : TextTree -> nat.

(** What a node hands to its children at line 1107: its resolved
    properties, its metrics and font size, and its super- and subscript
    offsets. *)
Variable FontContext : Type.
Variable fontContextOf : KoSvgTextProperties -> FontContext -> bool -> FontContext.

(** HarfBuzz: the underline and strike-out sizes and the underline offset
    of the first face of the node. *)
Variable underlineSize : FontContext -> qreal.
Variable underlineOffset : FontContext -> qreal.
Variable strikeoutSize : FontContext -> qreal.

(** Lines 1110-1140 together with 1040-1051: the baseline shift of the
    node from its properties and the two baseline tables. *)
Variable baselineShiftOf : KoSvgTextProperties -> FontContext -> FontContext -> bool -> QPointF.

Variable res : qreal.

Definition freetypePixelsToPt : qreal := ((1 / 64) * (72 / res))%float.

(** Lines 1085-1103. *)
Definition decorationMetricsOf (context : FontContext) (old : DecorationMetrics)
  : DecorationMetrics :=
  let width := (underlineSize context * freetypePixelsToPt)%float in
  let lineOffset := (underlineOffset context * - freetypePixelsToPt)%float in
  let widths := DecorationMap_insert DecorationUnderline width (textDecorationWidths old) in
  let offsets :=
    DecorationMap_insert DecorationUnderline lineOffset (textDecorationOffsets old) in
  let widths := DecorationMap_insert DecorationOverline width widths in
  let width := (strikeoutSize context * freetypePixelsToPt)%float in
  let lineOffset := (lineOffset * - freetypePixelsToPt)%float in
  let widths := DecorationMap_insert DecorationLineThrough width widths in
  let offsets := DecorationMap_insert DecorationLineThrough lineOffset offsets in
  mkDecorationMetrics widths offsets.

(** Lines 1020-1147; the state is the metrics of the nodes, [result] and
    [currentIndex]. *)
Fixpoint computeFontMetrics (parent : TextTree) (path : list nat)
    (parentContext : FontContext) (isHorizontal : bool)
    (st : NodeMetrics * list CharacterResult * nat) {struct parent}
  : NodeMetrics * list CharacterResult * nat :=
  match parent with
  | TextNode e childNodes =>
      let '(metrics, result, currentIndex) := st in
      let i := currentIndex in
      let j := Nat.min (i + numChars parent) (length result) in
      let context := fontContextOf (properties e) parentContext isHorizontal in
      let metrics := (path, decorationMetricsOf context (metricsAt path metrics)) :: metrics in
      let '(metrics, result, _) :=
        fst (foldl
               (fun acc child =>
                  (computeFontMetrics child (path ++ [snd acc]) context isHorizontal (fst acc),
                   S (snd acc)))
               ((metrics, result, currentIndex), 0%nat) childNodes) in
      let shift := baselineShiftOf (properties e) parentContext context isHorizontal in
      let result :=
        for_range i j
          (fun k =>
             alter (fun cr => set_baselineOffset (QPointF_add (baselineOffset cr) shift) cr) k)
          result in
      (metrics, result, j)
  end.

End FontMetrics.

Section LineBoxAlignment.

Variable numChars : TextTree -> nat.
Variable alignmentBaseline : KoSvgTextProperties -> Baseline.

(** [calculateLineHeight(cr, ascent, descent, isHorizontal, true)]. *)
Variable calculateLineHeight : CharacterResult -> qreal * qreal -> bool -> qreal * qreal.

(** Lines 1173-1190. *)
Definition lineBoxShift (baselineAdjust : Baseline) (relevantLine : LineBox)
    (result : list CharacterResult) (i j : nat) (isHorizontal : bool) : QPointF :=
  match baselineAdjust with
  | BaselineOther => QPointF_null
  | _ =>
      let '(ascent, descent) :=
        for_range i j (fun k heights => calculateLineHeight (result !!! k) heights isHorizontal)
          (0%float, 0%float) in
      let along (v : qreal) :=
        if isHorizontal then mkQPointF 0%float v else mkQPointF v 0%float in
      match baselineAdjust with
      | BaselineTextTop => QPointF_sub (baselineTop relevantLine) (along ascent)
      | _ => QPointF_sub (baselineBottom relevantLine) (along descent)
      end
  end.

(** Lines 1149-1200; the state is [result] and [currentIndex]. *)
Fixpoint handleLineBoxAlignment (parent : TextTree) (lineBoxes : list LineBox)
    (isHorizontal : bool) (st : list CharacterResult * nat) {struct parent}
  : list CharacterResult * nat :=
  match parent with
  | TextNode e childNodes =>
      let i := snd st in
      let j := Nat.min (i + numChars parent) (length (fst st)) in
      let baselineAdjust := alignmentBaseline (properties e) in
      let '(result, _) :=
        foldl (fun st child => handleLineBoxAlignment child lineBoxes isHorizontal st)
          st childNodes in
      let shift :=
        lineBoxShift baselineAdjust (relevantLineOf lineBoxes i) result i j isHorizontal in
      let result :=
        for_range i j
          (fun k =>
             alter
               (fun cr =>
                  let cr := set_cssPosition (QPointF_add (cssPosition cr) shift) cr in
                  set_finalPosition (cssPosition cr) cr)
               k)
          result in
      (result, j)
  end.

End LineBoxAlignment.

Section TextDecorations.

Variable numChars : TextTree -> nat.

(** [outline().length()] of a text path. *)
Variable outlineLength : KoPathShape -> qreal.

(** The properties of a node: the underline position for horizontal
    ([true]) or vertical text with the inherited value as the default,
    and the decoration lines when the node sets any. *)
Variable textDecorationPosition : KoSvgTextProperties -> bool -> Z -> Z.
Variable textDecorationLine : KoSvgTextProperties -> option Z.

(** Lines 1303-1513 for the characters from [start] to [end]. *)
Variable generateDecorationPaths :
  KoSvgTextProperties -> DecorationMetrics -> nat -> nat -> list CharacterResult ->
  bool -> Z -> qreal -> DecorationContext -> DecorationMap QPainterPath.

(** [stroker.createStroke(path).simplified()] at the given width, with the
    decoration style of the node. *)
Variable createStroke : KoSvgTextProperties -> qreal -> QPainterPath -> QPainterPath.

(** Lines 1229-1255; the assertion of line 1238 fails for a percentage
    offset without a path shape. *)
Definition decorationContextOf (e : KoSvgTextContentElement) (wrapping : bool)
    (inherited : DecorationContext) : option DecorationContext :=
  let underlinePosH :=
    textDecorationPosition (properties e) true (dc_underlinePosH inherited) in
  let underlinePosV :=
    textDecorationPosition (properties e) false (dc_underlinePosV inherited) in
  let context (currentTextPath : option KoPathShape) (offset : qreal) (side : bool) :=
    Some (mkDecorationContext currentTextPath offset side underlinePosH underlinePosV) in
  if wrapping
  then context None (dc_textPathOffset inherited) (dc_side inherited)
  else
    let currentTextPath :=
      match dc_textPath inherited with
      | Some p => Some p
      | None => asPathShape (textPath e)
      end in
    match textPath e with
    | None => context currentTextPath (dc_textPathOffset inherited) (dc_side inherited)
    | Some _ =>
        let info := textPathInfo e in
        let textPathSide :=
          match side info with
          | KoSvgText.TextPathSideRight => true
          | KoSvgText.TextPathSideLeft => false
          end in
        if startOffsetIsPercentage info
        then
          match currentTextPath with
          | None => None
          | Some p =>
              context currentTextPath
                (outlineLength p * (0x1.47ae147ae147bp-7 * startOffset info))%float
                textPathSide
          end
        else context currentTextPath (startOffset info) textPathSide
    end.

(** Lines 1291-1298 for one decoration. *)
Definition addDecoration (e : KoSvgTextContentElement) (metrics : DecorationMetrics)
    (minimumDecorationThickness : qreal) (path : list nat)
    (decorationPaths : DecorationMap QPainterPath) (root : TextTree)
    (type : TextDecoration) : TextTree :=
  let decorationPath :=
    match type with
    | DecorationUnderline => decorationUnderline decorationPaths
    | DecorationOverline => decorationOverline decorationPaths
    | DecorationLineThrough => decorationLineThrough decorationPaths
    end in
  match decorationPath with
  | Some ((_ :: _) as decorationPath) =>
      let width :=
        qMax minimumDecorationThickness
          (DecorationMap_value type (textDecorationWidths metrics)) in
      alterNode (insertDecoration type (createStroke (properties e) width decorationPath))
        path root
  | _ => root
  end.

(** Lines 1209-1301.  [root] is the tree the iterator points into, [path]
    the place of [currentTextElement] in it; the state is the tree and
    [currentIndex]. *)
Fixpoint computeTextDecorations (currentTextElement : TextTree) (path : list nat)
    (metrics : NodeMetrics) (result : list CharacterResult)
    (minimumDecorationThickness : qreal) (inherited : DecorationContext)
    (isHorizontal wrapping : bool) (st : TextTree * nat) {struct currentTextElement}
  : option (TextTree * nat) :=
  match currentTextElement with
  | TextNode e childNodes =>
      let i := snd st in
      let j := Nat.min (i + numChars currentTextElement) (length result) in
      match decorationContextOf e wrapping inherited with
      | None => None
      | Some context =>
          let afterChildren :=
            fst (foldl
                   (fun acc child =>
                      (match fst acc with
                       | Some st =>
                           computeTextDecorations child (path ++ [snd acc]) metrics result
                             minimumDecorationThickness context isHorizontal wrapping st
                       | None => None
                       end,
                       S (snd acc)))
                   (Some st, 0%nat) childNodes) in
          match afterChildren with
          | None => None
          | Some (root, _) =>
              match textDecorationLine (properties e) with
              | Some decor =>
                  let nodeMetrics := metricsAt path metrics in
                  let decorationPaths :=
                    generateDecorationPaths (properties e) nodeMetrics i j result
                      isHorizontal decor minimumDecorationThickness context in
                  Some (foldl
                          (addDecoration e nodeMetrics minimumDecorationThickness path
                             decorationPaths)
                          root
                          [DecorationUnderline; DecorationOverline; DecorationLineThrough],
                        j)
              | None => Some (root, j)
              end
          end
      end
  end.

End TextDecorations.

Section CursorPositions.

(** [finalTransform().mapRect(inkBoundingBox)] of a character. *)
Variable outlineRect : CharacterResult -> QRectF.

Definition set_graphemeIndices (v : list Z) (cr : CharacterResult) : CharacterResult :=
  set_cursorInfo
    (mkCursorInfo (rtl (cursorInfo cr)) v (offsets (cursorInfo cr))) cr.
Definition set_offsets (v : list QPointF) (cr : CharacterResult) : CharacterResult :=
  set_cursorInfo
    (mkCursorInfo (rtl (cursorInfo cr)) (graphemeIndices (cursorInfo cr)) v) cr.

(** Lines 761-772, the body of the loop over the graphemes of the
    character [cr] at [i]; the state is [cursorPos] and [positions]. *)
Definition graphemePosition (cr : CharacterResult) (i : nat) (insertFirst : bool)
    (graphemes : nat) (k : nat) (st : list CursorPos * list QPointF)
  : list CursorPos * list QPointF :=
  if BreakType_eqb (breakType cr) HardBreak && (k + 1 =? graphemes)%nat then st
  else
    let pos :=
      mkCursorPos (Z.of_nat i) (graphemeIndices (cursorInfo cr) !!! k)
        (if insertFirst then Z.of_nat k + 1 else Z.of_nat k) false in
    let offset :=
      QPointF_mul (qreal_of_int (Z.of_nat k + 1))
        (QPointF_div (advance cr) (qreal_of_int (Z.of_nat graphemes))) in
    (fst st ++ [pos],
     snd st ++ [if rtl (cursorInfo cr) then QPointF_sub (advance cr) offset else offset]).

(** Lines 744-779. *)
Definition characterCursorPositions (i : nat) (cr : CharacterResult)
    (cursorPos : list CursorPos) : CharacterResult * list CursorPos :=
  let insertFirst := anchored_chunk cr in
  let newOffset := if rtl (cursorInfo cr) then advance cr else QPointF_null in
  let '(cr, positions, cursorPos) :=
    if insertFirst
    then (set_offsets (QVector_insert 0 newOffset (offsets (cursorInfo cr))) cr,
          [newOffset],
          cursorPos ++ [mkCursorPos (Z.of_nat i) (plaintTextIndex cr) 0 true])
    else (cr, [], cursorPos) in
  let graphemes := length (graphemeIndices (cursorInfo cr)) in
  let '(cursorPos, positions) :=
    for_range 0 graphemes (graphemePosition cr i insertFirst graphemes)
      (cursorPos, positions) in
  let cr :=
    if insertFirst
    then set_graphemeIndices
           (QVector_insert 0 (plaintTextIndex cr) (graphemeIndices (cursorInfo cr))) cr
    else cr in
  let cr :=
    if (length (offsets (cursorInfo cr)) <? length positions)%nat
    then set_offsets positions cr else cr in
  (cr, cursorPos).

(** Lines 741-787, the body of the loop over the characters of a chunk;
    [result.at(i)] is checked against the bounds. *)
Definition chunkCursorPosition (chunk : SubChunk) (i : nat)
    (st : option (TextTree * list CharacterResult * list CursorPos))
  : option (TextTree * list CharacterResult * list CursorPos) :=
  match st with
  | None => None
  | Some (root, result, cursorPos) =>
      match result !! i with
      | None => None
      | Some cr =>
          if addressable cr && negb (middle cr)
          then
            let '(cr, cursorPos) :=
              if -1 <? plaintTextIndex cr
              then characterCursorPositions i cr cursorPos
              else (cr, cursorPos) in
            let root :=
              if negb (hidden cr)
              then alterNode (addRect (outlineRect cr)) (associatedLeaf chunk) root
              else root in
            Some (root, <[i := cr]> result, cursorPos)
          else st
      end
  end.

(** Lines 739-789; the state also holds [globalIndex]. *)
Definition chunkCursorPositions
    (st : option (TextTree * list CharacterResult * list CursorPos) * nat)
    (chunk : SubChunk)
  : option (TextTree * list CharacterResult * list CursorPos) * nat :=
  let globalIndex := snd st in
  let j := length (chunk_text chunk) in
  (for_range globalIndex (globalIndex + j) (chunkCursorPosition chunk) (fst st),
   (globalIndex + j)%nat).

(** Lines 791-805: the cursor position of the end of the paragraph. *)
Definition paragraphEndCursorPosition (textChunks : list SubChunk) (dummyIndex : Z)
    (st : TextTree * list CharacterResult * list CursorPos)
  : TextTree * list CharacterResult * list CursorPos :=
  let '(root, result, cursorPos) := st in
  if (-1 <? dummyIndex) && (dummyIndex <? Z.of_nat (length result))
  then
    let dummy := result !!! Z.to_nat dummyIndex in
    if anchored_chunk dummy
    then
      let pos := mkCursorPos dummyIndex (plaintTextIndex dummy) 0 true in
      let dummy := set_plaintTextIndex (plaintTextIndex dummy - 1) dummy in
      let dummy :=
        set_offsets (QVector_insert 0 QPointF_null (offsets (cursorInfo dummy))) dummy in
      let root :=
        match List.last (map Some textChunks) None with
        | Some chunk => alterNode (addRect (outlineRect dummy)) (associatedLeaf chunk) root
        | None => root
        end in
      (root, <[Z.to_nat dummyIndex := dummy]> result, cursorPos ++ [pos])
    else st
  else st.

(** Lines 737-805. *)
Definition cursorPositions (textChunks : list SubChunk) (dummyIndex : Z)
    (root : TextTree) (result : list CharacterResult)
  : option (TextTree * list CharacterResult * list CursorPos) :=
  match fst (foldl chunkCursorPositions (Some (root, result, []), 0%nat) textChunks) with
  | None => None
  | Some st => Some (paragraphEndCursorPosition textChunks dummyIndex st)
  end.

End CursorPositions.

(** The tree of a state of the cursor loop, cleared; a fault has none. *)
Definition clearedTreeOf (st : option (TextTree * list CharacterResult * list CursorPos))
  : option TextTree :=
  match st with
  | Some (root, _, _) => Some (clearAssociatedOutlinesTree root)
  | None => None
  end.

(** ** Accesses that trust the sizes

    Two loops that run before the glyphs are retrieved index [result] with
    positions they do not compare with its size: the loop of a text path in
    [resolveTransforms] (lines 872-895) runs from [index] to [j], and the
    loop over the sub-chunks (lines 290-374 and 415-451) over the length of
    the chunk text and over the lengths of its faces, where it also reads
    [plainText].  The functions below tell whether every such access is
    within the arrays. *)

Section Bounds.

Variable numChars : TextTree -> nat.

Fixpoint textPathsInBounds (currentTextElement : TextTree) (size : nat)
    (st : bool * nat) {struct currentTextElement} : bool * nat :=
  match currentTextElement with
  | TextNode e childNodes =>
      let index := snd st in
      let j := (index + numChars currentTextElement)%nat in
      let st :=
        foldl (fun st child => textPathsInBounds child size st) st childNodes in
      (fst st
       && (negb (bool_decide (is_Some (textPath e))) || (j <=? index)%nat || (j <=? size)%nat),
       j)
  end.

Definition rangeInBounds (start length size : nat) : bool :=
  (length =? 0)%nat || (start + length <=? size)%nat.

Definition chunkInBounds (size plainSize : nat) (st : bool * nat) (chunk : SubChunk)
  : bool * nat :=
  let start := snd st in
  let ok := fst st && rangeInBounds start (length (chunk_text chunk)) size in
  foldl
    (fun st length =>
       (fst st && rangeInBounds (snd st) length (Nat.min size plainSize),
        (snd st + length)%nat))
    (ok, start) (faceLengths chunk).

Definition chunksInBounds (textChunks : list SubChunk) (size plainSize : nat) : bool :=
  fst (foldl (chunkInBounds size plainSize) (true, 0%nat) textChunks).

End Bounds.

(** The nodes of a tree. *)
Fixpoint subtrees (t : TextTree) : list TextTree :=
  match t with
  | TextNode _ c => t :: flat_map subtrees c
  end.

Section WholeLayout.

(** The services of the earlier sections. *)
Variable numChars : TextTree -> nat.
Variable mergeInParentTransformation :
  KoSvgText.CharTransformation -> KoSvgText.CharTransformation ->
  KoSvgText.CharTransformation.
Variable collapseSpaces : list QChar -> TextSpaceCollapse -> list QChar * list bool.
Variable collapseLastSpace : QChar -> TextSpaceCollapse -> bool.
Variable hangLastSpace : QChar -> TextSpaceCollapse -> KoSvgText.TextWrap -> bool -> bool * bool.
Variable characterCanHang : QChar -> HangKind -> bool.
Variable set_linebreaks_utf16 : list QChar -> list QChar -> nat -> Z.
Variable set_graphemebreaks_utf16 : list QChar -> list QChar -> nat -> Z.
Variable raqm_set_text_utf16 : list QChar -> bool.
Variable raqm_get_glyphs : list QChar -> option (list Raqm.raqm_glyph_t).
Variable raqm_direction_is_rtl : nat -> bool.
Variable loadGlyph :
  bool -> Z -> Raqm.raqm_glyph_t -> CharacterResult -> QPointF ->
  bool * CharacterResult * QPointF.
Variable inheritFrom : KoSvgTextProperties -> KoSvgTextProperties -> KoSvgTextProperties.
Variable chunkStyle : KoSvgTextProperties -> ChunkStyle.
Variable facesForCSSValues : KoSvgTextProperties -> list QChar -> list nat.
Variable getBidiOpening : KoSvgTextProperties -> list QChar.
Variable getBidiClosing : KoSvgTextProperties -> list QChar.
Variable getTransformedString : KoSvgTextContentElement -> list QChar * list (Z * Z).
Variable FontContext : Type.
Variable fontContextOf : KoSvgTextProperties -> FontContext -> bool -> FontContext.
Variable underlineSize : FontContext -> qreal.
Variable underlineOffset : FontContext -> qreal.
Variable strikeoutSize : FontContext -> qreal.
Variable baselineShiftOf : KoSvgTextProperties -> FontContext -> FontContext -> bool -> QPointF.
Variable alignmentBaseline : KoSvgTextProperties -> Baseline.
Variable calculateLineHeight : CharacterResult -> qreal * qreal -> bool -> qreal * qreal.
Variable outlineLength : KoPathShape -> qreal.
Variable textDecorationPosition : KoSvgTextProperties -> bool -> Z -> Z.
Variable textDecorationLine : KoSvgTextProperties -> option Z.
Variable generateDecorationPaths :
  KoSvgTextProperties -> DecorationMetrics -> nat -> nat -> list CharacterResult ->
  bool -> Z -> qreal -> DecorationContext -> DecorationMap QPainterPath.
Variable createStroke : KoSvgTextProperties -> qreal -> QPainterPath -> QPainterPath.
Variable pointAtLength : KoPathShape -> KoSvgText.TextPathSide -> qreal -> QPointF.
Variable pointAtEnd : KoPathShape -> KoSvgText.TextPathSide -> QPointF.
Variable bendCharacter :
  KoPathShape -> TextOnPathInfo -> bool -> qreal -> CharacterResult -> CharacterResult.
Variable outlineRect : CharacterResult -> QRectF.

(** [KoSvgTextProperties::defaultProperties()], the values lines 111-116
    and 180-182 read from the resolved root properties, and the context
    the root of [computeFontMetrics] starts from at line 614. *)
Variable defaultProperties : KoSvgTextProperties.
Variable propertyValues : KoSvgTextProperties -> RootProperties.
Variable rootFontContext : FontContext.

(** The resolution of the shape: [qMin(xRes, yRes)]. *)
Variable finalRes : qreal.

(** KoSvgTextShapeLayoutFunc: line breaking, and the flow of the text into
    the shapes [getShapes] makes of [shapesInside] and [shapesSubtract];
    both move the characters of [result]. *)
Variable breakLines :
  KoSvgTextProperties -> QMap -> list CharacterResult -> QPointF ->
  list LineBox * list CharacterResult.
Variable flowTextInShapes :
  KoSvgTextProperties -> QMap -> list CharacterResult -> list KoShape -> list KoShape ->
  QPointF -> list LineBox * list CharacterResult.

(** Lines 629-733: the SVG 1.1 positioning when the text is not wrapped,
    and the decorations in both cases. *)
Definition positionCharacters (root : TextTree) (props : RootProperties)
    (metrics : NodeMetrics) (resolvedTransforms : list KoSvgText.CharTransformation)
    (startPos : QPointF) (result : list CharacterResult)
  : option (TextTree * list CharacterResult * QPointF) :=
  let isHorizontal := isHorizontalMode props in
  let minimumDecorationThickness := (72 / finalRes)%float in
  let decorations (wrapping : bool) (result : list CharacterResult) :=
    computeTextDecorations numChars outlineLength textDecorationPosition
      textDecorationLine generateDecorationPaths createStroke root [] metrics result
      minimumDecorationThickness (mkDecorationContext None 0%float false 0 0)
      isHorizontal wrapping (root, 0%nat) in
  if KoSvgText.isAuto (inlineSize props) && shapesInside_isEmpty props
  then
    let result := adjustRelative resolvedTransforms result in
    match applyTextLength numChars root isHorizontal (result, 0%nat, 0) with
    | None => None
    | Some (result, _, _) =>
        let result := adjustAbsolute resolvedTransforms result in
        let result := applyAnchoring result isHorizontal in
        match decorations false result with
        | None => None
        | Some (decorated, _) =>
            let '(result, startPos) :=
              applyTextPath numChars pointAtLength pointAtEnd bendCharacter root result
                isHorizontal startPos in
            Some (decorated, result, startPos)
        end
    end
  else
    match decorations true result with
    | None => None
    | Some (decorated, _) => Some (decorated, result, startPos)
    end.

(** Lines 110-810 for the first tree of the forest. *)
Definition layoutRoot (root : TextTree) (shapesInside shapesSubtract : list KoShape)
  : LayoutOutcome :=
  let rootProperties := inheritFrom (properties (element root)) defaultProperties in
  let props := withShapesInside (isEmpty shapesInside) (propertyValues rootProperties) in
  let isHorizontal := isHorizontalMode props in
  let textChunks :=
    collectSubChunks inheritFrom chunkStyle facesForCSSValues getBidiOpening
      getBidiClosing getTransformedString root [] defaultProperties in
  let p :=
    prepareText collapseSpaces set_linebreaks_utf16 set_graphemebreaks_utf16 textChunks
      props in
  let size := length (pt_collapsed p) in
  if negb (fst (textPathsInBounds numChars root size (true, 0%nat))
           && (negb (raqm_set_text_utf16 (pt_text p))
               || chunksInBounds textChunks size (length (pt_plainText p))))
  then Fault
  else
  match
    shapeCharacters numChars mergeInParentTransformation collapseSpaces collapseLastSpace
      hangLastSpace characterCanHang set_linebreaks_utf16 set_graphemebreaks_utf16
      raqm_set_text_utf16 raqm_get_glyphs raqm_direction_is_rtl loadGlyph root textChunks
      props
  with
  | NoGlyphs => Unshaped
  | OutOfBounds => Fault
  | Done shaped =>
      let characters := appendParagraphEnd isHorizontal shaped in
      let '(metrics, result, _) :=
        computeFontMetrics numChars FontContext fontContextOf underlineSize underlineOffset
          strikeoutSize baselineShiftOf finalRes root [] rootFontContext isHorizontal
          ([], ch_result characters, 0%nat) in
      let resolvedTransforms := ch_resolvedTransforms characters in
      let logicalToVisual := ch_logicalToVisual characters in
      let startPos := KoSvgText.absolutePos (resolvedTransforms !!! 0%nat) in
      let '(lineBoxes, result) :=
        if negb (isEmpty shapesInside)
        then flowTextInShapes rootProperties logicalToVisual result shapesInside
               shapesSubtract startPos
        else breakLines rootProperties logicalToVisual result startPos in
      let '(result, _) :=
        handleLineBoxAlignment numChars alignmentBaseline calculateLineHeight root
          lineBoxes isHorizontal (result, 0%nat) in
      match positionCharacters root props metrics resolvedTransforms startPos result with
      | None => Fault
      | Some (decorated, result, startPos) =>
          match
            cursorPositions outlineRect textChunks (ch_dummyIndex characters) decorated
              result
          with
          | None => Fault
          | Some (laidOut, result, cursorPos) =>
              Laid
                (mkLayout laidOut result cursorPos
                   (logicalToVisualCursorPositions cursorPos result lineBoxes
                      (negb (isRightToLeft (root_direction props))))
                   lineBoxes startPos (sh_plainText shaped) (sh_isBidi shaped))
          end
      end
  end.

(** Lines 97-109, and the assignments of lines 474, 620-622 and 806-810. *)
Definition relayout (d : KoSvgTextShape.PrivateData) : Completion :=
  let textData := clearAssociatedOutlines (KoSvgTextShape.textData d) in
  let shapesInside := KoSvgTextShape.shapesInside d in
  let shapesSubtract := KoSvgTextShape.shapesSubtract d in
  let cleared :=
    KoSvgTextShape.mkPrivateData textData shapesInside shapesSubtract [] [] []
      (KoSvgTextShape.lineBoxes d) QPointF_null (KoSvgTextShape.plainText d)
      (KoSvgTextShape.isBidi d) in
  match textData with
  | [] => Returned cleared
  | root :: siblings =>
      match layoutRoot root shapesInside shapesSubtract with
      | Unshaped => Returned cleared
      | Fault => Faulted
      | Laid l =>
          Returned
            (KoSvgTextShape.mkPrivateData (lo_root l :: siblings) shapesInside
               shapesSubtract (lo_result l) (lo_cursorPos l)
               (lo_logicalToVisualCursorPos l) (lo_lineBoxes l)
               (lo_initialTextPosition l) (lo_plainText l) (lo_isBidi l))
      end
  end.

(** A shape without text: the sub-chunks [relayout] collects hold no code
    unit and no face covers any, and no node counts a character. *)
Definition chunkIsEmpty (chunk : SubChunk) : bool :=
  isEmpty (chunk_text chunk) && forallb (Nat.eqb 0) (faceLengths chunk).

Definition hasNoText (d : KoSvgTextShape.PrivateData) : bool :=
  match clearAssociatedOutlines (KoSvgTextShape.textData d) with
  | [] => true
  | root :: _ =>
      forallb chunkIsEmpty
        (collectSubChunks inheritFrom chunkStyle facesForCSSValues getBidiOpening
           getBidiClosing getTransformedString root [] defaultProperties)
      && forallb (fun node => (numChars node =? 0)%nat) (subtrees root)
  end.

End WholeLayout.

(** ** Reference behaviour of the remaining services *)

Module ReferenceLayout.

(** A node inherits what it does not set itself; every chunk is anchored
    at its start, runs left to right and has one face. *)
Definition inheritFrom (own parent : KoSvgTextProperties) : KoSvgTextProperties :=
  own ++ parent.
Definition chunkStyle (_ : KoSvgTextProperties) : ChunkStyle :=
  mkChunkStyle KoSvgText.AnchorStart KoSvgText.DirectionLeftToRight
    KoSvgText.WordBreakNormal (mkHang false false false false).
Definition facesForCSSValues (_ : KoSvgTextProperties) (text : list QChar) : list nat :=
  [length text].
Definition getBidiOpening (_ : KoSvgTextProperties) : list QChar := [].
Definition getBidiClosing (_ : KoSvgTextProperties) : list QChar := [].
Definition getTransformedString (e : KoSvgTextContentElement)
  : list QChar * list (Z * Z) :=
  (element_text e, imap (fun i _ => (Z.of_nat i, Z.of_nat i)) (element_text e)).

(** One font for every node: lines one point thick, the underline one
    point below the baseline, and no baseline shift. *)
Definition FontContext : Type := unit.
Definition fontContextOf (_ : KoSvgTextProperties) (parent : FontContext) (_ : bool)
  : FontContext := parent.
Definition underlineSize (_ : FontContext) : qreal := 64%float.
Definition underlineOffset (_ : FontContext) : qreal := (-64)%float.
Definition strikeoutSize (_ : FontContext) : qreal := 64%float.
Definition baselineShiftOf (_ : KoSvgTextProperties) (_ _ : FontContext) (_ : bool)
  : QPointF := QPointF_null.
Definition alignmentBaseline (_ : KoSvgTextProperties) : Baseline := BaselineOther.
Definition calculateLineHeight (_ : CharacterResult) (heights : qreal * qreal) (_ : bool)
  : qreal * qreal := heights.

(** Property 0 of a node holds its decoration lines; an underline runs
    through the positions of the characters of the node. *)
Definition outlineLength (shape : KoPathShape) : qreal := path_length shape.
Definition textDecorationPosition (_ : KoSvgTextProperties) (_ : bool) (inherited : Z)
  : Z := inherited.
Definition textDecorationLine (props : KoSvgTextProperties) : option Z :=
  match props with
  | (0%nat, decor) :: _ => Some decor
  | _ => None
  end.
Definition generateDecorationPaths (_ : KoSvgTextProperties) (_ : DecorationMetrics)
    (i j : nat) (result : list CharacterResult) (_ : bool) (_ : Z) (_ : qreal)
    (_ : DecorationContext) : DecorationMap QPainterPath :=
  mkDecorationMap (Some (map finalPosition (take (j - i) (drop i result)))) (Some [])
    (Some []).
Definition createStroke (_ : KoSvgTextProperties) (_ : qreal) (path : QPainterPath)
  : QPainterPath := path.

(** A straight path along the x axis. *)
Definition pointAtLength (_ : KoPathShape) (_ : KoSvgText.TextPathSide) (at_ : qreal)
  : QPointF := mkQPointF at_ 0%float.
Definition pointAtEnd (shape : KoPathShape) (_ : KoSvgText.TextPathSide) : QPointF :=
  mkQPointF (path_length shape) 0%float.
Definition bendCharacter (_ : KoPathShape) (_ : TextOnPathInfo) (_ : bool) (mid : qreal)
    (cr : CharacterResult) : CharacterResult :=
  set_finalPosition (mkQPointF mid 0%float) cr.

(** The box of a character: its advance from its final position, one unit
    high. *)
Definition outlineRect (cr : CharacterResult) : QRectF :=
  mkQRectF (px (finalPosition cr)) (py (finalPosition cr)) (px (advance cr)) 1%float.

Definition defaultProperties : KoSvgTextProperties := [].
Definition propertyValues (_ : KoSvgTextProperties) : RootProperties :=
  Reference.horizontalProperties.
Definition rootFontContext : FontContext := tt.
Definition finalRes : qreal := 72%float.

(** Everything on one line, where the shaper has put it. *)
Definition breakLines (_ : KoSvgTextProperties) (_ : QMap) (result : list CharacterResult)
    (_ : QPointF) : list LineBox * list CharacterResult :=
  ([mkLineBox [mkLineChunk (seq 0 (length result))] QPointF_null QPointF_null], result).
Definition flowTextInShapes (props : KoSvgTextProperties) (logicalToVisual : QMap)
    (result : list CharacterResult) (_ _ : list KoShape) (startPos : QPointF)
  : list LineBox * list CharacterResult :=
  breakLines props logicalToVisual result startPos.

Definition relayout : KoSvgTextShape.PrivateData -> Completion :=
  relayout Reference.numChars Reference.mergeInParentTransformation
    Reference.collapseSpaces Reference.collapseLastSpace Reference.hangLastSpace
    Reference.characterCanHang Reference.set_linebreaks_utf16
    Reference.set_graphemebreaks_utf16 Reference.raqm_set_text_utf16
    Reference.raqm_get_glyphs Reference.raqm_direction_is_rtl Reference.loadGlyph
    inheritFrom chunkStyle facesForCSSValues getBidiOpening getBidiClosing
    getTransformedString FontContext fontContextOf underlineSize underlineOffset
    strikeoutSize baselineShiftOf alignmentBaseline calculateLineHeight outlineLength
    textDecorationPosition textDecorationLine generateDecorationPaths createStroke
    pointAtLength pointAtEnd bendCharacter outlineRect defaultProperties propertyValues
    rootFontContext finalRes breakLines flowTextInShapes.

(** A leaf with the given text that underlines it. *)
Definition underlined (text : list QChar) : KoSvgTextContentElement :=
  {| element_text := text;
     properties := [(0%nat, 1)];
     localTransformations := [];
     textPath := None;
     textPathInfo := mkTextOnPathInfo 0%float false KoSvgText.TextPathSideLeft
                       KoSvgText.TextPathAlign;
     textLength := KoSvgText.mkAutoValue true 0%float;
     lengthAdjust := KoSvgText.LengthAdjustSpacing;
     associatedOutline := [];
     textDecorations := DecorationMap_empty |}.

(** A node as an earlier layout has left it, with an outline and an
    underline. *)
Definition stale (e : KoSvgTextContentElement) : KoSvgTextContentElement :=
  insertDecoration DecorationUnderline [QPointF_null]
    (addRect (mkQRectF 0%float 0%float 10%float 1%float) e).

End ReferenceLayout.

(** A shape without text that has been laid out before, when it had some. *)
Definition shapeWithoutText : KoSvgTextShape.PrivateData :=
  KoSvgTextShape.mkPrivateData
    [TextNode (ReferenceLayout.stale (Reference.plainElement [] []))
       [TextNode (ReferenceLayout.stale (Reference.plainElement [] [])) []]]
    [] [] [CharacterResult_default] [mkCursorPos 0 0 0 false] [(0, 0)] [] QPointF_null
    [65] false.

(** A shape without any node. *)
Definition shapeWithoutNodes : KoSvgTextShape.PrivateData :=
  KoSvgTextShape.mkPrivateData [] [] [] [CharacterResult_default] [mkCursorPos 0 0 0 false]
    [(0, 0)] [] QPointF_null [65] false.

(** "AB" and an underlined "C" followed by a line feed, never laid out, and
    the same shape after [relayout]. *)
Definition shapeWithText : KoSvgTextShape.PrivateData :=
  KoSvgTextShape.mkPrivateData
    [TextNode (Reference.plainElement [] [])
       [TextNode (ReferenceLayout.stale (Reference.plainElement [65; 66] [])) [];
        TextNode (ReferenceLayout.underlined [67; 10]) []]]
    [] [] [] [] [] [] QPointF_null [] false.

Definition shapeWithTextLaidOut : KoSvgTextShape.PrivateData :=
  Eval vm_compute in
    match ReferenceLayout.relayout shapeWithText with
    | Returned d => d
    | Faulted => shapeWithText
    end.

(** ** Shapes of trees the passes treat alike *)

(** No node of the tree sets a text length. *)
Fixpoint declaresNoTextLength (t : TextTree) : bool :=
  match t with
  | TextNode e c => KoSvgText.isAuto (textLength e) && forallb declaresNoTextLength c
  end.

(** The node is laid out on a path shape. *)
Definition hasPathShape (t : TextTree) : bool :=
  match asPathShape (textPath (element t)) with
  | Some _ => true
  | None => false
  end.

(** The text of the leaves of a tree, in document order. *)
Fixpoint leafText (t : TextTree) : list QChar :=
  match t with
  | TextNode e [] => element_text e
  | TextNode e c => flat_map leafText c
  end.

(** The node an iterator points to. *)
Fixpoint nodeAt (path : list nat) (t : TextTree) : option TextTree :=
  match path with
  | [] => Some t
  | k :: path =>
      match children t !! k with
      | Some child => nodeAt path child
      | None => None
      end
  end.

(** The code units of all sub-chunks. *)
Definition chunkTextLength (textChunks : list SubChunk) : nat :=
  list_sum (map (fun chunk => length (chunk_text chunk)) textChunks).

(** A cursor position that names a character of an array of [n]. *)
Definition namesCharacter (n : nat) (pos : CursorPos) : Prop :=
  0 <= cp_cluster pos < Z.of_nat n.

(** The state of the loop over the sub-chunks at the index [k], for an array
    of [n] characters: a fault once an index beyond the array was read. *)
Definition cursorStateAt (n k : nat)
    (st : option (TextTree * list CharacterResult * list CursorPos)) : Prop :=
  if (k <=? n)%nat
  then exists root result cursorPos,
         st = Some (root, result, cursorPos)
         /\ length result = n /\ Forall (namesCharacter n) cursorPos
  else st = None.

(** "AB" and a line feed in one leaf, as the shaping stage leaves them with
    the reference services. *)
Definition shapedExample : Shaped :=
  Eval vm_compute in
    match
      Reference.shapeCharacters (TextNode (Reference.plainElement [65; 66; 10] []) [])
        [Reference.plainChunk [65; 66; 10]] Reference.horizontalProperties
    with
    | Done s => s
    | _ => mkShaped [] [] [] [] [] [] false 0%nat
    end.

(** A node that takes its start offset as a share of the length of its
    path, lines 1236-1239. *)
Definition wantsPathLength (t : TextTree) : bool :=
  match textPath (element t) with
  | Some _ => startOffsetIsPercentage (textPathInfo (element t))
  | None => false
  end.

(** "A" on a shape that is no path, starting at half of its length. *)
Definition leafOnARectangle : TextTree :=
  TextNode
    {| element_text := [65];
       properties := [];
       localTransformations := [];
       textPath := Some OtherShape;
       textPathInfo := mkTextOnPathInfo 50%float true KoSvgText.TextPathSideLeft
                         KoSvgText.TextPathAlign;
       textLength := KoSvgText.mkAutoValue true 0%float;
       lengthAdjust := KoSvgText.LengthAdjustSpacing;
       associatedOutline := [];
       textDecorations := DecorationMap_empty |}
    [].

Definition textOnARectangle : TextTree :=
  TextNode (Reference.plainElement [] []) [leafOnARectangle].

(** [b] is [a] with another CSS position and final position. *)
Definition onlyMoved (a b : CharacterResult) : Prop :=
  set_cssPosition (cssPosition a) (set_finalPosition (finalPosition a) b) = a.

(** [b] is [a] with another baseline offset. *)
Definition onlyBaselineShifted (a b : CharacterResult) : Prop :=
  set_baselineOffset (baselineOffset a) b = a.

(** The metrics hold a width for each of the three decorations and an offset
    for the underline and the line-through. *)
Definition hasDecorationMetrics (m : DecorationMetrics) : Prop :=
  decorationUnderline (textDecorationWidths m) <> None
  /\ decorationOverline (textDecorationWidths m) <> None
  /\ decorationLineThrough (textDecorationWidths m) <> None
  /\ decorationUnderline (textDecorationOffsets m) <> None
  /\ decorationLineThrough (textDecorationOffsets m) <> None.

(** [b] is [a], or [a] with [addressable] cleared. *)
Definition sameOrUnaddressed (a b : CharacterResult) : Prop :=
  b = a \/ b = set_addressable false a.

(** Lines 843-851: the characters that take no part in the layout. *)
Definition takesNoPart (text : list QChar) (wrapped : bool) (collapsedChars : list bool)
    (k : nat) : bool :=
  (collapsedChars !!! k) || (isBidiControl (text !!! k) && negb wrapped)
  || ((text !!! k) =? QChar_SoftHyphen).

(** [b] is [a] with another rotation, final position and anchored-chunk
    flag; the flag is not taken away, and a character that is not
    addressable is the same. *)
Definition onlyAdjusted (a b : CharacterResult) : Prop :=
  set_rotate (rotate a)
    (set_finalPosition (finalPosition a) (set_anchored_chunk (anchored_chunk a) b)) = a
  /\ (anchored_chunk a = true -> anchored_chunk b = true)
  /\ (addressable a = false -> b = a).

(** [b] is [a] with another final position; a character that is not
    addressable is the same. *)
Definition onlyPlaced (a b : CharacterResult) : Prop :=
  set_finalPosition (finalPosition a) b = a /\ (addressable a = false -> b = a).




(** ** The loops of the shaping stage, for the statements about them *)

(** Lines 260-450: the positions the loop over the sub-chunks writes, in the
    order it writes them; [start] advances by the lengths the font registry
    reports for the faces of a chunk. *)
Fixpoint chunkPositions (textChunks : list SubChunk) (start : nat) : list nat :=
  match textChunks with
  | [] => []
  | chunk :: rest =>
      map (fun i => (start + i)%nat) (seq 0 (length (chunk_text chunk)))
      ++ chunkPositions rest
           (foldl (fun start length => (start + length)%nat) start (faceLengths chunk))
  end.

Section GlyphLoading.

Variable raqm_direction_is_rtl : nat -> bool.
Variable loadGlyph :
  bool -> Z -> Raqm.raqm_glyph_t -> CharacterResult -> QPointF ->
  bool * CharacterResult * QPointF.

(** Lines 482-519 for the glyph [ig] in the state [st] of the loop: the
    character of its cluster is addressable and [loadGlyph] returns true
    for it. *)
Definition glyphLoads (isHorizontal : bool) (text : list QChar)
    (st : list CharacterResult * QPointF * QMap * bool)
    (ig : nat * Raqm.raqm_glyph_t) : bool :=
  let '(result, totalAdvance, _, _) := st in
  let currentGlyph := snd ig in
  let cluster := Raqm.cluster currentGlyph in
  let charResult := result !!! cluster in
  addressable charResult
  && fst (fst (loadGlyph isHorizontal (getUcs4At text cluster) currentGlyph
                 (set_cursorInfo
                    (mkCursorInfo (raqm_direction_is_rtl cluster)
                       (graphemeIndices (cursorInfo charResult))
                       (offsets (cursorInfo charResult)))
                    charResult)
                 totalAdvance)).

(** The state of the glyph loop when it reaches the glyph at position
    [n]. *)
Definition glyphLoopBefore (isHorizontal : bool) (text : list QChar)
    (glyphs : list Raqm.raqm_glyph_t) (result : list CharacterResult) (n : nat)
  : list CharacterResult * QPointF * QMap * bool :=
  foldl (glyphStep raqm_direction_is_rtl loadGlyph isHorizontal text)
    (result, QPointF_null, [], false)
    (take n (imap (fun i g => (i, g)) glyphs)).

(** No glyph of the cluster [c] is loaded: the shaper returned none for
    it, or every one it returned is skipped in its turn of the loop. *)
Definition clusterFails (isHorizontal : bool) (text : list QChar)
    (glyphs : list Raqm.raqm_glyph_t) (result : list CharacterResult) (c : nat) : bool :=
  forallb
    (fun ig =>
       negb ((Raqm.cluster (snd ig) =? c)%nat
             && glyphLoads isHorizontal text
                  (glyphLoopBefore isHorizontal text glyphs result (fst ig)) ig))
    (imap (fun i g => (i, g)) glyphs).

End GlyphLoading.

(** Lines 578-608: the synthetic entry sits right after the character [fC],
    and it has no advance along the line. *)
Definition paragraphEndInserted (isHorizontal : bool) (s : Shaped) : Prop :=
  let c := appendParagraphEnd isHorizontal s in
  let dummy := paragraphEnd isHorizontal (sh_result s !!! sh_fC s) in
  ch_result c
  = take (S (sh_fC s)) (sh_result s) ++ dummy :: drop (S (sh_fC s)) (sh_result s)
  /\ length (ch_result c) = S (length (sh_result s))
  /\ ch_dummyIndex c = Z.of_nat (S (sh_fC s))
  /\ axisPosition isHorizontal (advance dummy) = 0%float.

(** A loader that has no glyph for "B" and loads every other glyph as the
    reference loader does. *)
Definition loadGlyphExceptB (isHorizontal : bool) (codepoint : Z) (g : Raqm.raqm_glyph_t)
    (cr : CharacterResult) (total : QPointF) : bool * CharacterResult * QPointF :=
  if codepoint =? 66 then (false, cr, total)
  else Reference.loadGlyph isHorizontal codepoint g cr total.

(** ** The chunks of applyAnchoring, for the statements about them *)




(** ** applyTextLength at a zero divisor *)

(** Lines 914-916: the calls for the children of the node, which thread the
    array, the index and the count of children that applied a length. *)
Definition childrenTextLength (numChars : TextTree -> nat) (childNodes : list TextTree)
    (isHorizontal : bool) (st : list CharacterResult * nat * Z)
  : option (list CharacterResult * nat * Z) :=
  foldl
    (fun st child =>
       match st with
       | Some st => applyTextLength numChars child isHorizontal st
       | None => None
       end)
    (Some st) childNodes.

(** The addressable characters of [i, j) that no text length has stretched
    yet: what line 945 counts. *)
Definition notStretchedYet (result : list CharacterResult) (i j : nat) : Z :=
  Z.of_nat
    (length
       (List.filter
          (fun k => addressable (result !!! k) && negb (textLengthApplied (result !!! k)))
          (seq i (j - i)))).

(** The characters that lines 992-1004 collect around the node. *)
Definition charactersAround (result : list CharacterResult) (i j : nat) : QMap :=
  precedingCharacters result i (followingCharacters (drop j result) j []).

(** The node [P] of [nestedTextLengthTree]: a text length of 10 around a
    plain node around "A" with a text length of 4. *)
Definition stretchedParentElement : KoSvgTextContentElement :=
  Reference.withTextLength 10%float KoSvgText.LengthAdjustSpacingAndGlyphs
    (Reference.plainElement [] []).

Definition stretchedParentChildren : list TextTree :=
  [TextNode (Reference.plainElement [] [])
     [TextNode
        (Reference.withTextLength 4%float KoSvgText.LengthAdjustSpacingAndGlyphs
           (Reference.plainElement [65] []))
        []]].

(** [twoCharacters] after the children of [P]: "A" is stretched to 4. *)
Definition afterStretchedChildren : list CharacterResult :=
  Eval vm_compute in
    match childrenTextLength Reference.numChars stretchedParentChildren true
            (twoCharacters, 0%nat, 0) with
    | Some (result, _, _) => result
    | None => []
    end.

(** A position or an advance that is infinite or no number along the
    line. *)
Definition positionNotFinite (isHorizontal : bool) (cr : CharacterResult) : Prop :=
  qIsFinite (axisPosition isHorizontal (finalPosition cr)) = false.

Definition advanceNotFinite (isHorizontal : bool) (cr : CharacterResult) : Prop :=
  qIsFinite (axisPosition isHorizontal (advance cr)) = false.

(** What lines 925-949 and 992-1004 read of the characters besides their
    position and advance is the same in both arrays. *)
Definition sameFlags (result result' : list CharacterResult) : Prop :=
  length result' = length result
  /\ forall q,
       addressable (result' !!! q) = addressable (result !!! q)
       /\ anchored_chunk (result' !!! q) = anchored_chunk (result !!! q)
       /\ visualIndex (result' !!! q) = visualIndex (result !!! q).

(** ** The font of a node in computeFontMetrics *)

(** The properties, metrics and font size that the node at [rest] below [t]
    resolves at lines 1036-1081: every node on the way inherits from the one
    above it (line 1107). *)
Fixpoint fontContextAt {FontContext : Type}
    (fontContextOf : KoSvgTextProperties -> FontContext -> bool -> FontContext)
    (rest : list nat) (t : TextTree) (parentContext : FontContext) (isHorizontal : bool)
  : FontContext :=
  let context := fontContextOf (properties (element t)) parentContext isHorizontal in
  match rest with
  | [] => context
  | k :: rest =>
      match children t !! k with
      | Some child => fontContextAt fontContextOf rest child context isHorizontal
      | None => context
      end
  end.

(** A tree of two nodes below the root, for the metrics of the second. *)
Definition twoLeaves : TextTree :=
  TextNode (Reference.plainElement [] [])
    [TextNode (Reference.plainElement [65] []) [];
     TextNode (Reference.plainElement [66] []) []].

(** Metrics from an earlier run for the second leaf: an overline offset of
    7 and an underline width of 3. *)
Definition metricsOfAnEarlierRun : NodeMetrics :=
  [([1%nat],
    mkDecorationMetrics (mkDecorationMap (Some 3%float) None None)
      (mkDecorationMap None (Some 7%float) None))].

(** The metrics after the pass over [twoLeaves], started with the metrics
    of the earlier run, with the reference services. *)
Definition twoLeavesMeasured : NodeMetrics :=
  fst (fst (computeFontMetrics Reference.numChars ReferenceLayout.FontContext
              ReferenceLayout.fontContextOf ReferenceLayout.underlineSize
              ReferenceLayout.underlineOffset ReferenceLayout.strikeoutSize
              ReferenceLayout.baselineShiftOf ReferenceLayout.finalRes
              twoLeaves [] ReferenceLayout.rootFontContext true
              (metricsOfAnEarlierRun,
               [CharacterResult_default; CharacterResult_default], 0%nat))).

(** * Properties *)

(** ** Loops and vectors *)

Lemma for_range_empty {S : Type} (lo hi : nat) (body : nat -> S -> S) (s : S) :
  (hi <= lo)%nat -> for_range lo hi body s = s.
Proof.
  intros Hle. unfold for_range.
  replace (hi - lo)%nat with 0%nat by lia. reflexivity.
Qed.

Lemma for_range_step {S : Type} (lo hi : nat) (body : nat -> S -> S) (s : S) :
  (lo < hi)%nat -> for_range lo hi body s = for_range (Datatypes.S lo) hi body (body lo s).
Proof.
  intros Hlt. unfold for_range.
  replace (hi - lo)%nat with (Datatypes.S (hi - Datatypes.S lo)) by lia.
  reflexivity.
Qed.

(** The invariant rule of a counted loop. *)
Lemma for_range_ind {S : Type} (P : nat -> S -> Prop) (lo hi : nat)
    (body : nat -> S -> S) (s : S) :
  (lo <= hi)%nat ->
  P lo s ->
  (forall k s, (lo <= k < hi)%nat -> P k s -> P (Datatypes.S k) (body k s)) ->
  P hi (for_range lo hi body s).
Proof.
  intros Hle Hinit Hstep.
  remember (hi - lo)%nat as n eqn:Hn.
  revert lo s Hle Hinit Hstep Hn.
  induction n as [|n IH]; intros lo s Hle Hinit Hstep Hn.
  - rewrite for_range_empty by lia. replace hi with lo by lia. exact Hinit.
  - rewrite for_range_step by lia.
    apply IH; try lia.
    + apply Hstep; [lia | exact Hinit].
    + intros k s' Hk. apply Hstep. lia.
Qed.

(** A property every turn preserves holds after the loop. *)
Lemma for_range_preserves {S : Type} (P : S -> Prop) (lo hi : nat)
    (body : nat -> S -> S) (s : S) :
  P s -> (forall k s, P s -> P (body k s)) -> P (for_range lo hi body s).
Proof.
  intros Hinit Hstep. unfold for_range.
  generalize (seq lo (hi - lo)). intros l. revert s Hinit.
  induction l as [|k l IH]; intros s Hinit; simpl; [exact Hinit|].
  apply IH. apply Hstep. exact Hinit.
Qed.

Lemma foldl_preserves {S A : Type} (P : S -> Prop) (f : S -> A -> S) (l : list A) (s : S) :
  P s -> (forall s x, P s -> P (f s x)) -> P (foldl f s l).
Proof.
  revert s. induction l as [|x l IH]; intros s Hinit Hstep; simpl; [exact Hinit|].
  apply IH; [apply Hstep; exact Hinit | exact Hstep].
Qed.

Lemma lookup_total_lookup {A : Type} `{Inhabited A} (l : list A) (i : nat) (x : A) :
  l !! i = Some x -> l !!! i = x.
Proof. intros Hl. rewrite list_lookup_total_alt, Hl. reflexivity. Qed.

Lemma foldl_Forall_preserves {S A : Type} (P : S -> Prop) (f : S -> A -> S)
    (l : list A) (s : S) :
  P s -> Forall (fun x => forall s, P s -> P (f s x)) l -> P (foldl f s l).
Proof.
  revert s. induction l as [|x l IH]; intros s Hinit Hall; simpl; [exact Hinit|].
  inversion Hall as [|? ? Hx Hl]; subst.
  apply IH; [apply Hx; exact Hinit | exact Hl].
Qed.

(** Induction over a text tree with the hypothesis for every child. *)
Lemma TextTree_rect_children (P : TextTree -> Prop) :
  (forall e c, Forall P c -> P (TextNode e c)) -> forall t, P t.
Proof.
  intros Hnode. fix IH 1. intros [e c]. apply Hnode.
  induction c as [|t c IHc]; constructor; [apply IH | exact IHc].
Qed.

(** ** Hard breaks and the shaper (C4) *)

Lemma classify_length (classOf : nat -> Z) (text : list QChar) :
  length (classify classOf text) = length text.
Proof.
  unfold classify. destruct (0 <? length text)%nat.
  - rewrite length_map, length_seq. reflexivity.
  - apply length_replicate.
Qed.

Lemma classify_lookup (classOf : nat -> Z) (text : list QChar) (i : nat) :
  (i < length text)%nat -> classify classOf text !! i = Some (classOf i).
Proof.
  intros Hi. unfold classify.
  destruct (Nat.ltb_spec 0 (length text)) as [_|Hz]; [|lia].
  rewrite list_lookup_fmap, lookup_seq_lt by exact Hi. reflexivity.
Qed.

Lemma replaceHardBreaks_spec (lineBreaks : list Z) (text : list QChar) :
  length (replaceHardBreaks lineBreaks text) = length text /\
  forall i c, text !! i = Some c ->
    replaceHardBreaks lineBreaks text !! i =
      Some (if (lineBreaks !!! i) =? LINEBREAK_MUSTBREAK then QChar_Space else c).
Proof.
  unfold replaceHardBreaks.
  set (body := fun (i : nat) (text : list QChar) =>
    if (lineBreaks !!! i) =? LINEBREAK_MUSTBREAK then <[i := QChar_Space]> text else text).
  set (P := fun (k : nat) (t : list QChar) => length t = length text /\
       forall i c, text !! i = Some c ->
         t !! i = Some (if (i <? k)%nat && ((lineBreaks !!! i) =? LINEBREAK_MUSTBREAK)
                        then QChar_Space else c)).
  assert (Hloop : P (length text) (for_range 0 (length text) body text)).
  { apply (for_range_ind P); unfold P.
    - lia.
    - split; [reflexivity|]. intros i c Hc. simpl. exact Hc.
    - intros k t Hk [Hlen Hinv]. unfold body. split.
      + destruct (_ =? _); [rewrite length_insert|]; exact Hlen.
      + intros i c Hc. specialize (Hinv i c Hc).
        destruct (Nat.eq_dec i k) as [->|Hne].
        * replace (k <? Datatypes.S k)%nat with true by (symmetry; apply Nat.ltb_lt; lia).
          replace (k <? k)%nat with false in Hinv by (symmetry; apply Nat.ltb_ge; lia).
          simpl in *. destruct (_ =? _).
          -- apply list_lookup_insert_eq. lia.
          -- exact Hinv.
        * replace (i <? Datatypes.S k)%nat with (i <? k)%nat
            by (destruct (Nat.ltb_spec i k), (Nat.ltb_spec i (Datatypes.S k)); lia).
          destruct (lineBreaks !!! k =? _).
          -- rewrite list_lookup_insert_ne by congruence. exact Hinv.
          -- exact Hinv. }
  destruct Hloop as [Hlen Hinv]. split; [exact Hlen|].
  intros i c Hc. rewrite (Hinv i c Hc).
  apply lookup_lt_Some in Hc.
  replace (i <? length text)%nat with true by (symmetry; apply Nat.ltb_lt; lia).
  reflexivity.
Qed.

Section HardBreaks.

Variable numChars : TextTree -> nat.
Variable mergeInParentTransformation :
  KoSvgText.CharTransformation -> KoSvgText.CharTransformation ->
  KoSvgText.CharTransformation.
Variable collapseSpaces : list QChar -> TextSpaceCollapse -> list QChar * list bool.
Variable collapseLastSpace : QChar -> TextSpaceCollapse -> bool.
Variable hangLastSpace :
  QChar -> TextSpaceCollapse -> KoSvgText.TextWrap -> bool -> bool * bool.
Variable characterCanHang : QChar -> HangKind -> bool.
Variable set_linebreaks_utf16 : list QChar -> list QChar -> nat -> Z.
Variable set_graphemebreaks_utf16 : list QChar -> list QChar -> nat -> Z.
Variable raqm_direction_is_rtl : nat -> bool.
Variable loadGlyph :
  bool -> Z -> Raqm.raqm_glyph_t -> CharacterResult -> QPointF ->
  bool * CharacterResult * QPointF.

Local Abbreviation prepare :=
  (prepareText collapseSpaces set_linebreaks_utf16 set_graphemebreaks_utf16).
Local Abbreviation shape setText getGlyphs :=
  (shapeCharacters numChars mergeInParentTransformation collapseSpaces collapseLastSpace
     hangLastSpace characterCanHang set_linebreaks_utf16 set_graphemebreaks_utf16
     setText getGlyphs raqm_direction_is_rtl loadGlyph).

(** C4.  The break classes are computed on the collapsed text as it is
    before the replacement; in the text that [relayout] then hands to raqm
    (the only text raqm is consulted on) every position classified
    LINEBREAK_MUSTBREAK holds a space and every other position holds the
    code unit of the collapsed text. *)
Theorem shaper_text_has_spaces_for_hard_breaks
    (raqm_set_text_utf16 : list QChar -> bool)
    (raqm_get_glyphs : list QChar -> option (list Raqm.raqm_glyph_t))
    (root : TextTree) (textChunks : list SubChunk) (props : RootProperties) :
  let p := prepare textChunks props in
  pt_lineBreaks p =
    classify (set_linebreaks_utf16 (pt_collapsed p) (languageTag props)) (pt_collapsed p)
  /\ length (pt_text p) = length (pt_collapsed p)
  /\ (forall i, pt_lineBreaks p !! i = Some LINEBREAK_MUSTBREAK ->
        pt_text p !! i = Some QChar_Space)
  /\ (forall i b, pt_lineBreaks p !! i = Some b -> b <> LINEBREAK_MUSTBREAK ->
        pt_text p !! i = pt_collapsed p !! i)
  /\ (forall setText' getGlyphs',
        setText' (pt_text p) = raqm_set_text_utf16 (pt_text p) ->
        getGlyphs' (pt_text p) = raqm_get_glyphs (pt_text p) ->
        shape setText' getGlyphs' root textChunks props =
        shape raqm_set_text_utf16 raqm_get_glyphs root textChunks props).
Proof.
  intros p.
  assert (Hp : pt_lineBreaks p =
            classify (set_linebreaks_utf16 (pt_collapsed p) (languageTag props))
              (pt_collapsed p)
          /\ pt_text p = replaceHardBreaks (pt_lineBreaks p) (pt_collapsed p)).
  { subst p. unfold prepareText.
    destruct (collectText textChunks) as [[text plainText] c2o].
    destruct (collapseSpaces text (collapse props)) as [text' flags].
    simpl. split; reflexivity. }
  destruct Hp as [Hbreaks Htext].
  destruct (replaceHardBreaks_spec (pt_lineBreaks p) (pt_collapsed p)) as [Hlen Hat].
  rewrite <- Htext in Hlen, Hat.
  split; [exact Hbreaks|]. split; [exact Hlen|]. split; [|split].
  - intros i Hi.
    assert (Hlt : (i < length (pt_collapsed p))%nat).
    { apply lookup_lt_Some in Hi. rewrite Hbreaks, classify_length in Hi. exact Hi. }
    destruct (lookup_lt_is_Some_2 _ _ Hlt) as [c Hc].
    rewrite (Hat i c Hc), (lookup_total_lookup _ _ _ Hi). reflexivity.
  - intros i b Hi Hb.
    assert (Hlt : (i < length (pt_collapsed p))%nat).
    { apply lookup_lt_Some in Hi. rewrite Hbreaks, classify_length in Hi. exact Hi. }
    destruct (lookup_lt_is_Some_2 _ _ Hlt) as [c Hc].
    rewrite (Hat i c Hc), (lookup_total_lookup _ _ _ Hi), Hc.
    destruct (Z.eqb_spec b LINEBREAK_MUSTBREAK); [contradiction|reflexivity].
  - intros setText' getGlyphs' Hset Hget.
    unfold shapeCharacters, initialCharacters. fold p.
    rewrite Hset, Hget. reflexivity.
Qed.

End HardBreaks.

(** ** The result array keeps one entry per code unit *)

Lemma assignPlainTextIndices_length (c2o : list (Z * Z)) (result : list CharacterResult) :
  length (assignPlainTextIndices c2o result) = length result.
Proof.
  unfold assignPlainTextIndices.
  apply (foldl_preserves (fun r => length r = length result)); [reflexivity|].
  intros r mapping Hr.
  destruct (fst mapping <? 0); [exact Hr|].
  destruct (fst mapping <? Z.of_nat (length r)); [|exact Hr].
  rewrite length_alter. exact Hr.
Qed.

Lemma initialResolvedTransforms_length (text : list QChar) :
  length (initialResolvedTransforms text) = length text.
Proof.
  unfold initialResolvedTransforms.
  destruct (negb _); [rewrite length_alter|]; apply length_replicate.
Qed.

Lemma initialResolvedTransforms_first (text : list QChar) :
  text <> [] ->
  initialResolvedTransforms text !! 0%nat =
    Some (KoSvgText.mkCharTransformation (Some 0%float) (Some 0%float) None None None).
Proof.
  intros Hne. destruct text as [|c text]; [contradiction|]. reflexivity.
Qed.

Section Lengths.

Variable numChars : TextTree -> nat.
Variable mergeInParentTransformation :
  KoSvgText.CharTransformation -> KoSvgText.CharTransformation ->
  KoSvgText.CharTransformation.

Local Abbreviation resolve := (resolveTransforms numChars mergeInParentTransformation).

Lemma resolveOwnStep_lengths local text wrapped collapsedChars k
    (st : list CharacterResult * list KoSvgText.CharTransformation * nat) :
  let st' := resolveOwnStep mergeInParentTransformation local text wrapped collapsedChars k st in
  length (fst (fst st')) = length (fst (fst st)) /\
  length (snd (fst st')) = length (snd (fst st)).
Proof.
  destruct st as [[result resolved] i]. unfold resolveOwnStep. simpl.
  destruct (length text <=? k)%nat; [split; reflexivity|].
  destruct (_ || _); [simpl; rewrite length_alter; split; reflexivity|].
  destruct (i <? length local)%nat; [simpl; rewrite length_insert; split; reflexivity|].
  destruct (0 <? k)%nat; [|split; reflexivity].
  destruct (KoSvgText.rotate _); simpl; [rewrite length_alter|]; split; reflexivity.
Qed.

Lemma resolvePathStep_length isHorizontal result k
    (st : list KoSvgText.CharTransformation * bool) :
  length (fst (resolvePathStep isHorizontal result k st)) = length (fst st).
Proof.
  destruct st as [resolved first]. unfold resolvePathStep.
  destruct (negb _); [reflexivity|].
  destruct first, isHorizontal; simpl; rewrite ?length_alter; reflexivity.
Qed.

Lemma resolveTransforms_lengths (t : TextTree) :
  forall text isHorizontal wrapped textInPath collapsedChars st,
    let st' := resolve t text isHorizontal wrapped textInPath collapsedChars st in
    length (rs_result st') = length (rs_result st) /\
    length (rs_resolved st') = length (rs_resolved st).
Proof.
  induction t as [e c IH] using TextTree_rect_children.
  intros text isHorizontal wrapped textInPath collapsedChars st.
  simpl.
  set (index := rs_currentIndex st).
  set (j := (index + numChars (TextNode e c))%nat).
  set (own := if bool_decide (is_Some (textPath e))
              then (rs_result st, rs_resolved st)
              else let '(result, resolved, _) :=
                     for_range index j
                       (resolveOwnStep mergeInParentTransformation (localTransformations e)
                          text wrapped collapsedChars)
                       (rs_result st, rs_resolved st, 0%nat) in
                   (result, resolved)).
  assert (Hown : length (fst own) = length (rs_result st) /\
                 length (snd own) = length (rs_resolved st)).
  { subst own. destruct (bool_decide _); [split; reflexivity|].
    pose proof (for_range_preserves
      (fun s : list CharacterResult * list KoSvgText.CharTransformation * nat =>
         length (fst (fst s)) = length (rs_result st) /\
         length (snd (fst s)) = length (rs_resolved st))
      index j
      (resolveOwnStep mergeInParentTransformation (localTransformations e)
         text wrapped collapsedChars)
      (rs_result st, rs_resolved st, 0%nat)) as Hloop.
    destruct (for_range index j _ _) as [[r1 r2] i1].
    simpl in *. apply Hloop; [split; reflexivity|].
    intros k s [H1 H2].
    destruct (resolveOwnStep_lengths (localTransformations e) text wrapped collapsedChars k s)
      as [H3 H4].
    split; congruence. }
  destruct own as [result resolved]. simpl in Hown. destruct Hown as [Hr1 Hr2].
  set (afterChildren := foldl _ _ c).
  assert (Hchildren : length (rs_result afterChildren) = length (rs_result st) /\
                      length (rs_resolved afterChildren) = length (rs_resolved st)).
  { subst afterChildren.
    apply (foldl_Forall_preserves
      (fun s => length (rs_result s) = length (rs_result st) /\
                length (rs_resolved s) = length (rs_resolved st))).
    - simpl. split; assumption.
    - eapply Forall_impl; [exact IH|].
      intros child Hchild s [H1 H2].
      destruct (Hchild text isHorizontal false
                  (if bool_decide (is_Some (textPath e)) then true else textInPath)
                  collapsedChars s) as [H3 H4].
      split; congruence. }
  destruct Hchildren as [Hc1 Hc2].
  split; [exact Hc1|].
  destruct (bool_decide _); [|exact Hc2].
  rewrite <- Hc2.
  apply (for_range_preserves
    (fun s : list KoSvgText.CharTransformation * bool =>
       length (fst s) = length (rs_resolved afterChildren))); [reflexivity|].
  intros k s Hs. rewrite resolvePathStep_length. exact Hs.
Qed.

End Lengths.

Section InitialCharacters.

Variable numChars : TextTree -> nat.
Variable mergeInParentTransformation :
  KoSvgText.CharTransformation -> KoSvgText.CharTransformation ->
  KoSvgText.CharTransformation.
Variable collapseSpaces : list QChar -> TextSpaceCollapse -> list QChar * list bool.
Variable collapseLastSpace : QChar -> TextSpaceCollapse -> bool.
Variable hangLastSpace :
  QChar -> TextSpaceCollapse -> KoSvgText.TextWrap -> bool -> bool * bool.
Variable characterCanHang : QChar -> HangKind -> bool.
Variable set_linebreaks_utf16 : list QChar -> list QChar -> nat -> Z.
Variable set_graphemebreaks_utf16 : list QChar -> list QChar -> nat -> Z.
Variable raqm_set_text_utf16 : list QChar -> bool.

Local Abbreviation resolve := (resolveTransforms numChars mergeInParentTransformation).
Local Abbreviation prepare :=
  (prepareText collapseSpaces set_linebreaks_utf16 set_graphemebreaks_utf16).
Local Abbreviation initial :=
  (initialCharacters numChars mergeInParentTransformation collapseLastSpace hangLastSpace
     characterCanHang raqm_set_text_utf16).

Lemma prepareText_length (textChunks : list SubChunk) (props : RootProperties) :
  let p := prepare textChunks props in
  length (pt_text p) = length (pt_collapsed p) /\
  length (pt_lineBreaks p) = length (pt_collapsed p) /\
  length (pt_graphemeBreaks p) = length (pt_collapsed p).
Proof.
  unfold prepareText.
  destruct (collectText textChunks) as [[text plainText] c2o].
  destruct (collapseSpaces text (collapse props)) as [text' flags]. simpl.
  split; [apply replaceHardBreaks_spec|].
  split; apply classify_length.
Qed.

Lemma chunkCharacter_length props text lineBreaks graphemeBreaks resolved chunk start i result :
  length (chunkCharacter collapseLastSpace hangLastSpace characterCanHang props text
            lineBreaks graphemeBreaks resolved chunk start i result) = length result.
Proof. unfold chunkCharacter. apply length_insert. Qed.

Lemma applySubChunk_length props text lineBreaks graphemeBreaks resolved st chunk :
  length (fst (applySubChunk collapseLastSpace hangLastSpace characterCanHang props text
                 lineBreaks graphemeBreaks resolved st chunk)) = length (fst st).
Proof.
  destruct st as [result start]. unfold applySubChunk. simpl.
  apply (for_range_preserves (fun r => length r = length result)); [reflexivity|].
  intros k r Hr. rewrite chunkCharacter_length. exact Hr.
Qed.

Lemma initialCharacters_lengths (root : TextTree) (textChunks : list SubChunk)
    (props : RootProperties) :
  let p := prepare textChunks props in
  length (fst (initial root textChunks props p)) = length (pt_collapsed p) /\
  length (snd (initial root textChunks props p)) = length (pt_collapsed p).
Proof.
  intros p. unfold initialCharacters.
  set (st0 := mkResolveState _ _ _).
  destruct (resolveTransforms_lengths numChars mergeInParentTransformation root (pt_text p)
              (isHorizontalMode props)
              (negb (KoSvgText.isAuto (inlineSize props) && shapesInside_isEmpty props))
              false (pt_collapseChars p) st0) as [Hr Ht].
  set (st1 := resolve root _ _ _ _ _ st0) in *.
  assert (Hr0 : length (rs_result st1) = length (pt_collapsed p)).
  { rewrite Hr. subst st0. simpl.
    rewrite assignPlainTextIndices_length. apply length_replicate. }
  assert (Ht0 : length (rs_resolved st1) = length (pt_collapsed p)).
  { rewrite Ht. subst st0. simpl. rewrite initialResolvedTransforms_length.
    apply (prepareText_length textChunks props). }
  simpl. split; [|exact Ht0].
  set (chunked := if raqm_set_text_utf16 (pt_text p) then _ else _).
  assert (Hc : length chunked = length (pt_collapsed p)).
  { subst chunked. destruct (raqm_set_text_utf16 _); [|exact Hr0].
    rewrite <- Hr0.
    apply (foldl_preserves
      (fun s : list CharacterResult * nat => length (fst s) = length (rs_result st1)));
      [reflexivity|].
    intros s chunk Hs. rewrite applySubChunk_length. exact Hs. }
  destruct (negb (isEmpty chunked)); [rewrite length_alter|]; exact Hc.
Qed.

(** Without local transformations or text paths [resolveTransforms] leaves
    the absolute position of the first resolved transform alone. *)
Lemma resolveTransforms_keeps_first (t : TextTree) :
  declaresNoTransform t = true ->
  forall text isHorizontal wrapped textInPath collapsedChars st,
    let st' := resolve t text isHorizontal wrapped textInPath collapsedChars st in
    KoSvgText.xPos <$> (rs_resolved st' !! 0%nat) = KoSvgText.xPos <$> (rs_resolved st !! 0%nat) /\
    KoSvgText.yPos <$> (rs_resolved st' !! 0%nat) = KoSvgText.yPos <$> (rs_resolved st !! 0%nat).
Proof.
  induction t as [e c IH] using TextTree_rect_children.
  intros Hno text isHorizontal wrapped textInPath collapsedChars st.
  simpl in Hno.
  apply andb_prop in Hno as [Hno Hchildren].
  apply andb_prop in Hno as [Hlocal Hpath].
  destruct (localTransformations e) as [|l0 ls] eqn:Hloc; [|discriminate].
  simpl. rewrite Hloc.
  destruct (bool_decide (is_Some (textPath e))); [discriminate|].
  set (index := rs_currentIndex st).
  set (j := (index + numChars (TextNode e c))%nat).
  pose proof (for_range_preserves
    (fun s : list CharacterResult * list KoSvgText.CharTransformation * nat =>
       KoSvgText.xPos <$> (snd (fst s) !! 0%nat) = KoSvgText.xPos <$> (rs_resolved st !! 0%nat) /\
       KoSvgText.yPos <$> (snd (fst s) !! 0%nat) = KoSvgText.yPos <$> (rs_resolved st !! 0%nat))
    index j
    (resolveOwnStep mergeInParentTransformation [] text wrapped collapsedChars)
    (rs_result st, rs_resolved st, 0%nat)) as Hloop.
  destruct (for_range index j _ _) as [[r1 r2] i1]. simpl in Hloop.
  assert (Hown : KoSvgText.xPos <$> (r2 !! 0%nat) = KoSvgText.xPos <$> (rs_resolved st !! 0%nat) /\
                 KoSvgText.yPos <$> (r2 !! 0%nat) = KoSvgText.yPos <$> (rs_resolved st !! 0%nat)).
  { apply Hloop; [split; reflexivity|].
    intros k [[result resolved] i] Hs. simpl in Hs. unfold resolveOwnStep.
    destruct (length text <=? k)%nat; [exact Hs|].
    destruct (_ || _); [exact Hs|].
    simpl.
    destruct (Nat.ltb_spec 0 k) as [Hk|Hk]; [|exact Hs].
    destruct (KoSvgText.rotate _); [|exact Hs].
    simpl. rewrite list_lookup_alter_ne by lia. exact Hs. }
  apply (foldl_Forall_preserves
    (fun s => KoSvgText.xPos <$> (rs_resolved s !! 0%nat) = KoSvgText.xPos <$> (rs_resolved st !! 0%nat) /\
              KoSvgText.yPos <$> (rs_resolved s !! 0%nat) = KoSvgText.yPos <$> (rs_resolved st !! 0%nat))).
  - exact Hown.
  - rewrite forallb_forall in Hchildren.
    rewrite Forall_forall in IH. apply Forall_forall.
    intros child Hin s [H1 H2].
    destruct (IH child Hin (Hchildren child (proj1 (list_elem_of_In _ _) Hin))
                text isHorizontal false textInPath collapsedChars s) as [H3 H4].
    split; congruence.
Qed.

(** C10.  For a non-empty collapsed text the first character result is the
    start of an anchored chunk once the set-up of [relayout] is done,
    whatever the tree declares; the resolved transform of the first
    character is initialised at the absolute position (0, 0) before
    [resolveTransforms] merges the transforms of the tree; and for a tree
    that declares no transform that position is what the first character
    keeps, so that it starts a chunk at the origin. *)
Theorem first_character_starts_anchored_chunk
    (root : TextTree) (textChunks : list SubChunk) (props : RootProperties) :
  let p := prepare textChunks props in
  pt_collapsed p <> [] ->
  (exists cr, fst (initial root textChunks props p) !! 0%nat = Some cr /\
              anchored_chunk cr = true)
  /\ initialResolvedTransforms (pt_text p) !! 0%nat =
       Some (KoSvgText.mkCharTransformation (Some 0%float) (Some 0%float) None None None)
  /\ (declaresNoTransform root = true ->
      exists t, snd (initial root textChunks props p) !! 0%nat = Some t /\
                KoSvgText.xPos t = Some 0%float /\ KoSvgText.yPos t = Some 0%float /\
                KoSvgText.startsNewChunk t = true /\
                KoSvgText.absolutePos t = QPointF_null).
Proof.
  intros p Hne.
  destruct (prepareText_length textChunks props) as [Htext _]. fold p in Htext.
  assert (Hpos : (0 < length (pt_collapsed p))%nat).
  { destruct (pt_collapsed p); [contradiction|simpl; lia]. }
  assert (Htextne : pt_text p <> []).
  { intros Heq. rewrite Heq in Htext. simpl in Htext. lia. }
  destruct (initialCharacters_lengths root textChunks props) as [Hlen Hlen'].
  fold p in Hlen, Hlen'.
  split; [|split].
  - unfold initialCharacters in *. simpl in *.
    set (chunked := if raqm_set_text_utf16 (pt_text p) then _ else _) in *.
    destruct chunked as [|c0 rest] eqn:Hch.
    + simpl in Hlen. lia.
    + simpl. eexists. split; reflexivity.
  - apply initialResolvedTransforms_first. exact Htextne.
  - intros Hno.
    unfold initialCharacters in *. simpl in *.
    set (st0 := mkResolveState _ _ _) in *.
    destruct (resolveTransforms_keeps_first root Hno (pt_text p) (isHorizontalMode props)
                (negb (KoSvgText.isAuto (inlineSize props) && shapesInside_isEmpty props))
                false (pt_collapseChars p) st0) as [Hx Hy].
    set (st1 := resolve root _ _ _ _ _ st0) in *.
    subst st0. simpl in Hx, Hy.
    rewrite (initialResolvedTransforms_first _ Htextne) in Hx, Hy. simpl in Hx, Hy.
    destruct (rs_resolved st1 !! 0%nat) as [t|] eqn:Ht; [|discriminate].
    simpl in Hx, Hy. injection Hx as Hx. injection Hy as Hy.
    exists t. split; [reflexivity|]. split; [exact Hx|]. split; [exact Hy|].
    unfold KoSvgText.startsNewChunk, KoSvgText.absolutePos. rewrite Hx, Hy.
    split; reflexivity.
Qed.

End InitialCharacters.

(** ** Text paths in the transform resolver (C5) *)

Section TextPathTransforms.

Variable numChars : TextTree -> nat.
Variable mergeInParentTransformation :
  KoSvgText.CharTransformation -> KoSvgText.CharTransformation ->
  KoSvgText.CharTransformation.

Local Abbreviation resolve := (resolveTransforms numChars mergeInParentTransformation).

(** The loop of lines 872-895 over the characters [index, j) of a text
    path: every addressable character loses its coordinate across the
    line, and the first one is put at zero along the line. *)
Lemma resolvePath_loop (isHorizontal : bool) (result : list CharacterResult)
    (resolved0 : list KoSvgText.CharTransformation) (index j : nat) :
  (index <= j)%nat ->
  let resolved :=
    fst (for_range index j (resolvePathStep isHorizontal result) (resolved0, true)) in
  length resolved = length resolved0 /\
  forall k, (index <= k < j)%nat -> (k < length resolved0)%nat ->
    addressable (result !!! k) = true ->
    crossAxis isHorizontal (resolved !!! k) = None /\
    ((forall m, (index <= m < k)%nat -> addressable (result !!! m) = false) ->
     alongAxis isHorizontal (resolved !!! k) = Some 0%float).
Proof.
  intros Hle.
  set (P := fun (n : nat) (s : list KoSvgText.CharTransformation * bool) =>
    length (fst s) = length resolved0 /\
    (snd s = true <->
     forall m, (index <= m < n)%nat -> addressable (result !!! m) = false) /\
    forall k, (index <= k < n)%nat -> (k < length resolved0)%nat ->
      addressable (result !!! k) = true ->
      crossAxis isHorizontal (fst s !!! k) = None /\
      ((forall m, (index <= m < k)%nat -> addressable (result !!! m) = false) ->
       alongAxis isHorizontal (fst s !!! k) = Some 0%float)).
  assert (Hloop : P j (for_range index j (resolvePathStep isHorizontal result)
                         (resolved0, true))).
  { apply (for_range_ind P); [exact Hle| |].
    - unfold P. simpl. split; [reflexivity|]. split.
      + split; [intros _ m Hm; lia | reflexivity].
      + intros k Hk. lia.
    - intros n [resolved first] Hn (Hlen & Hfirst & Hinv). simpl in Hlen, Hfirst, Hinv.
      unfold P, resolvePathStep.
      destruct (addressable (result !!! n)) eqn:Haddr; simpl.
      + (* an addressable character *)
        set (r1 := if first
                   then if isHorizontal
                        then alter (KoSvgText.set_xPos (Some 0%float)) n resolved
                        else alter (KoSvgText.set_yPos (Some 0%float)) n resolved
                   else resolved).
        set (r2 := if isHorizontal then alter (KoSvgText.set_yPos None) n r1
                   else alter (KoSvgText.set_xPos None) n r1).
        assert (Hlen1 : length r1 = length resolved0).
        { subst r1. destruct first, isHorizontal; rewrite ?length_alter; exact Hlen. }
        assert (Hlen2 : length r2 = length resolved0).
        { subst r2. destruct isHorizontal; rewrite length_alter; exact Hlen1. }
        assert (Hother : forall k, k <> n -> r2 !!! k = resolved !!! k).
        { intros k Hk. subst r2 r1.
          destruct first, isHorizontal;
            rewrite ?list_lookup_total_alter_ne by congruence; reflexivity. }
        split; [exact Hlen2|]. split.
        * split; [discriminate|]. intros Hall.
          rewrite (Hall n) in Haddr by lia. discriminate.
        * intros k Hk Hklen Hka.
          destruct (Nat.eq_dec k n) as [->|Hne].
          -- assert (Hn1 : (n < length r1)%nat) by lia.
             assert (Hn0 : (n < length resolved)%nat) by lia.
             split.
             ++ subst r2. destruct isHorizontal;
                  rewrite list_lookup_total_alter_eq by exact Hn1; reflexivity.
             ++ intros Hfirstk. apply Hfirst in Hfirstk. subst first.
                subst r2 r1. destruct isHorizontal;
                  rewrite !list_lookup_total_alter_eq by (rewrite ?length_alter; exact Hn0);
                  reflexivity.
          -- rewrite (Hother k Hne). apply Hinv; [lia|exact Hklen|exact Hka].
      + (* a character that is not addressable is skipped *)
        split; [exact Hlen|]. split.
        * rewrite Hfirst. split.
          -- intros Hall m Hm. destruct (Nat.eq_dec m n) as [->|Hne]; [exact Haddr|].
             apply Hall. lia.
          -- intros Hall m Hm. apply Hall. lia.
        * intros k Hk Hklen Hka.
          destruct (Nat.eq_dec k n) as [->|Hne]; [congruence|].
          apply Hinv; [lia|exact Hklen|exact Hka]. }
  destruct Hloop as (Hlen & _ & Hinv). split; [exact Hlen|exact Hinv].
Qed.

(** C5, as the code has it.  For a node with a text path, once
    [resolveTransforms] has returned, every addressable character of the
    node has no explicit coordinate across the line (no [yPos] in
    horizontal writing, no [xPos] in vertical writing), and the first
    addressable character of the node has the coordinate along the line
    ([xPos] in horizontal, [yPos] in vertical writing) equal to zero. *)
Theorem text_path_suppresses_cross_axis
    (e : KoSvgTextContentElement) (c : list TextTree) (text : list QChar)
    (isHorizontal wrapped textInPath : bool) (collapsedChars : list bool)
    (st : ResolveState) :
  is_Some (textPath e) ->
  let st' := resolve (TextNode e c) text isHorizontal wrapped textInPath collapsedChars st in
  let index := rs_currentIndex st in
  forall k, (index <= k < index + numChars (TextNode e c))%nat ->
    (k < length (rs_resolved st'))%nat ->
    addressable (rs_result st' !!! k) = true ->
    crossAxis isHorizontal (rs_resolved st' !!! k) = None /\
    ((forall m, (index <= m < k)%nat -> addressable (rs_result st' !!! m) = false) ->
     alongAxis isHorizontal (rs_resolved st' !!! k) = Some 0%float).
Proof.
  intros Hpath st' index k Hk Hklen Haddr.
  subst st'. simpl in *.
  rewrite (bool_decide_eq_true_2 _ Hpath) in *.
  fold index in Hklen, Haddr |- *.
  set (afterChildren := foldl _ _ c) in *.
  simpl in *.
  destruct (resolvePath_loop isHorizontal (rs_result afterChildren)
              (rs_resolved afterChildren) index (index + numChars (TextNode e c))%nat
              ltac:(lia)) as [Hlen Hinv].
  apply Hinv; [exact Hk| |exact Haddr].
  rewrite <- Hlen. exact Hklen.
Qed.

End TextPathTransforms.

(** C5, witness: the theorem at the second character of the example. *)
Lemma text_path_suppresses_cross_axis_witness :
  crossAxis true (rs_resolved text_path_example_state !!! 1%nat) = None.
Proof.
  refine (proj1 (text_path_suppresses_cross_axis Reference.numChars
    Reference.mergeInParentTransformation
    (Reference.onPath (mkKoPathShape 100%float false 1%nat) 0%float
       (Reference.plainElement [] []))
    [TextNode
       (Reference.plainElement [65; 66]
          [KoSvgText.mkCharTransformation (Some 3%float) (Some 4%float) None None None;
           KoSvgText.mkCharTransformation (Some 5%float) (Some 6%float) None None None])
       []]
    [65; 66] true false false [false; false]
    (mkResolveState (replicate 2 CharacterResult_default) 0%nat
       (initialResolvedTransforms [65; 66]))
    _ 1%nat _ _ _)).
  - eexists. reflexivity.
  - vm_compute. lia.
  - vm_compute. lia.
  - reflexivity.
Defined.

(** C5, counterexample to the claim as stated ("x when the writing mode is
    horizontal"): in horizontal writing the second character of the example
    keeps its explicit x = 5 and the first one gets x = 0; it is y that is
    removed from both. *)
Lemma text_path_keeps_x_in_horizontal_writing :
  map (fun t => (KoSvgText.xPos t, KoSvgText.yPos t))
      (rs_resolved text_path_example_state)
  = [(Some 0%float, None); (Some 5%float, None)]
  /\ ~ (forall k t, rs_resolved text_path_example_state !! k = Some t ->
          KoSvgText.xPos t = None).
Proof.
  split; [reflexivity|].
  intros Hclaim. specialize (Hclaim 1%nat _ eq_refl). discriminate Hclaim.
Qed.

(** ** The cluster loop (lines 536-572) *)

Lemma field_alter {B : Type} (F : CharacterResult -> B)
    (f : CharacterResult -> CharacterResult) (k m : nat) (l : list CharacterResult) :
  (forall x, F (f x) = F x) -> F (alter f k l !!! m) = F (l !!! m).
Proof.
  intros Hf. rewrite list_lookup_total_alter.
  case_decide as Hd; [destruct Hd as [-> _]; apply Hf | reflexivity].
Qed.

Lemma field_alter_ne {B : Type} (F : CharacterResult -> B)
    (f : CharacterResult -> CharacterResult) (k m : nat) (l : list CharacterResult) :
  k <> m -> F (alter f k l !!! m) = F (l !!! m).
Proof. intros Hne. rewrite list_lookup_total_alter_ne by exact Hne. reflexivity. Qed.

(** Rewrites a field that the altering function leaves alone. *)
Ltac frame_field F :=
  repeat (rewrite (field_alter F) by (intros; reflexivity)).

Lemma lastVisibleBefore_succ (result : list CharacterResult) (n : nat) :
  lastVisibleBefore result (S n) =
    if isVisible (result !!! n) then Z.of_nat n else lastVisibleBefore result n.
Proof.
  unfold lastVisibleBefore, for_range.
  rewrite !Nat.sub_0_r, seq_S, foldl_app. reflexivity.
Qed.

Lemma lastVisibleBefore_bound (result : list CharacterResult) (n : nat) :
  -1 <= lastVisibleBefore result n < Z.of_nat n.
Proof.
  induction n as [|n IH];
    [unfold lastVisibleBefore; rewrite for_range_empty by lia; lia|].
  rewrite lastVisibleBefore_succ. destruct (isVisible _); lia.
Qed.

(** The last visible character, when there is one, is visible and nothing
    after it is. *)
Lemma lastVisibleBefore_spec (result : list CharacterResult) (n : nat) :
  let f := lastVisibleBefore result n in
  (0 <= f -> isVisible (result !!! Z.to_nat f) = true) /\
  (forall m, (m < n)%nat -> f < Z.of_nat m -> isVisible (result !!! m) = false).
Proof.
  induction n as [|n [IH1 IH2]]; simpl.
  - split; [unfold lastVisibleBefore; rewrite for_range_empty by lia; lia
           | intros m Hm; lia].
  - rewrite lastVisibleBefore_succ.
    destruct (isVisible (result !!! n)) eqn:Hv.
    + split; [intros _; rewrite Nat2Z.id; exact Hv | intros m Hm Hlt; lia].
    + split; [exact IH1|].
      intros m Hm Hlt. destruct (Nat.eq_dec m n) as [->|Hne]; [exact Hv|].
      apply IH2; [lia|exact Hlt].
Qed.

Lemma lastVisibleBefore_ext (r r' : list CharacterResult) (n : nat) :
  (forall m, isVisible (r' !!! m) = isVisible (r !!! m)) ->
  lastVisibleBefore r' n = lastVisibleBefore r n.
Proof.
  intros Hext. induction n as [|n IH]; [reflexivity|].
  rewrite !lastVisibleBefore_succ, Hext, IH. reflexivity.
Qed.

(** What one turn of the cluster loop does to the entry [i] and to the
    others. *)
Lemma clusterStep_spec (text : list QChar) (graphemeBreaks : list Z) (i : nat)
    (r : list CharacterResult) (fc : Z) (gbn : bool) :
  (i < length r)%nat ->
  let st' := clusterStep text graphemeBreaks i (r, fc, gbn) in
  let r' := fst (fst st') in
  let fC := Z.to_nat (Z.max 0 fc) in
  length r' = length r
  /\ snd (fst st') = (if isVisible (r !!! i) then Z.of_nat i else fc)
  /\ (forall m, addressable (r' !!! m) = addressable (r !!! m) /\
                visualIndex (r' !!! m) = visualIndex (r !!! m) /\
                advance (r' !!! m) = advance (r !!! m))
  /\ (forall m, m <> i -> middle (r' !!! m) = middle (r !!! m) /\
                          hidden (r' !!! m) = hidden (r !!! m) /\
                          cssPosition (r' !!! m) = cssPosition (r !!! m))
  /\ middle (r' !!! i) = (visualIndex (r !!! i) =? -1)
  /\ (isVisible (r !!! i) = true ->
      hidden (r' !!! i) = hidden (r !!! i) /\
      cssPosition (r' !!! i) = cssPosition (r !!! i) /\
      forall m, breakType (r' !!! m) = breakType (r !!! m))
  /\ (isVisible (r !!! i) = false ->
      hidden (r' !!! i) = true /\
      cssPosition (r' !!! i) = QPointF_add (cssPosition (r !!! fC)) (advance (r !!! fC)))
  /\ (forall m, breakType (r !!! m) = HardBreak -> breakType (r' !!! m) = HardBreak).
Proof.
  intros Hi. cbv zeta. unfold clusterStep.
  set (r1 := alter (fun cr => set_middle (visualIndex cr =? -1) cr) i r).
  assert (Hmid : middle (r1 !!! i) = (visualIndex (r !!! i) =? -1)).
  { subst r1. rewrite list_lookup_total_alter_eq by exact Hi. reflexivity. }
  assert (Haddr : addressable (r1 !!! i) = addressable (r !!! i)).
  { subst r1. frame_field addressable. reflexivity. }
  assert (Hvis : addressable (r1 !!! i) && negb (middle (r1 !!! i)) = isVisible (r !!! i)).
  { rewrite Hmid, Haddr. reflexivity. }
  rewrite Hvis. clear Hvis.
  destruct (isVisible (r !!! i)) eqn:Hv; cbn [fst snd].
  - (* the character leads a cluster *)
    set (r2 := if (plaintTextIndex (r1 !!! i) >? -1) && (fc >? -1) then _ else r1).
    assert (Hframe : forall {B : Type} (F : CharacterResult -> B) m,
               (forall v x, F (set_cursorInfo v x) = F x) -> F (r2 !!! m) = F (r1 !!! m)).
    { intros B F m HF. subst r2.
      match goal with |- context [if ?b then _ else _] => destruct b end; [|reflexivity].
      apply field_alter. intros x. apply HF. }
    split.
    { subst r2 r1.
      match goal with |- context [if ?b then _ else _] => destruct b end;
        rewrite ?length_alter; reflexivity. }
    split; [reflexivity|].
    split.
    { intros m. rewrite !Hframe by reflexivity. subst r1.
      frame_field addressable. frame_field visualIndex. frame_field advance.
      repeat split; reflexivity. }
    split.
    { intros m Hm. rewrite !Hframe by reflexivity. subst r1.
      rewrite (field_alter_ne middle) by congruence.
      frame_field hidden. frame_field cssPosition. repeat split; reflexivity. }
    split; [rewrite Hframe by reflexivity; exact Hmid|].
    split.
    { intros _. rewrite !Hframe by reflexivity. subst r1.
      frame_field hidden. frame_field cssPosition.
      split; [reflexivity|]. split; [reflexivity|].
      intros m. rewrite Hframe by reflexivity. frame_field breakType. reflexivity. }
    split; [discriminate|].
    intros m Hm. rewrite Hframe by reflexivity. subst r1.
    frame_field breakType. exact Hm.
  - (* the character is in the middle of a cluster or not addressable *)
    set (fC := Z.to_nat (Z.max 0 fc)).
    set (r2 := if Bool.eqb (QChar_isSpace (text !!! fC)) (QChar_isSpace (text !!! i))
               then _ else r1).
    assert (Hframe2 : forall {B : Type} (F : CharacterResult -> B) m,
               (forall v x, F (set_breakType v x) = F x) ->
               (forall v x, F (set_lineStart v x) = F x) ->
               (forall v x, F (set_lineEnd v x) = F x) ->
               F (r2 !!! m) = F (r1 !!! m)).
    { intros B F m H1 H2 H3. subst r2. destruct (Bool.eqb _ _); [|reflexivity].
      repeat match goal with
             | |- context [if ?b then _ else _] => destruct b
             end;
        repeat (rewrite (field_alter F) by (intros; auto)); reflexivity. }
    assert (Hbreak2 : forall m, breakType (r1 !!! m) = HardBreak ->
                                breakType (r2 !!! m) = HardBreak).
    { intros m Hm. subst r2. destruct (Bool.eqb _ _); [|exact Hm].
      set (ra := if negb (BreakType_eqb (breakType (r1 !!! fC)) HardBreak)
                 then alter (set_breakType (breakType (r1 !!! i))) fC r1 else r1).
      assert (Ha : breakType (ra !!! m) = HardBreak).
      { subst ra. destruct (BreakType_eqb (breakType (r1 !!! fC)) HardBreak) eqn:Hb; simpl;
          [exact Hm|].
        rewrite list_lookup_total_alter. case_decide as Hd; [|exact Hm].
        destruct Hd as [<- _]. rewrite Hm in Hb. discriminate. }
      repeat match goal with
             | |- context [if ?b then _ else _] =>
                 lazymatch b with
                 | LineEdgeBehaviour_eqb _ _ => destruct b
                 end
             end;
        frame_field breakType; exact Ha. }
    set (r3 := if gbn && addressable (r2 !!! i) && (plaintTextIndex (r2 !!! i) >? -1)
               then _ else r2).
    assert (Hframe3 : forall {B : Type} (F : CharacterResult -> B) m,
               (forall v x, F (set_cursorInfo v x) = F x) -> F (r3 !!! m) = F (r2 !!! m)).
    { intros B F m HF. subst r3.
      match goal with |- context [if ?b then _ else _] => destruct b end; [|reflexivity].
      apply field_alter. intros x. apply HF. }
    assert (Hlen3 : length r3 = length r).
    { subst r3 r2 r1.
      repeat match goal with
             | |- context [if ?b then _ else _] => destruct b
             end; rewrite ?length_alter; reflexivity. }
    split; [rewrite !length_alter; exact Hlen3|].
    split; [reflexivity|].
    split.
    { intros m.
      frame_field addressable. frame_field visualIndex. frame_field advance.
      rewrite !Hframe3 by reflexivity. rewrite !Hframe2 by reflexivity.
      subst r1. frame_field addressable. frame_field visualIndex. frame_field advance.
      repeat split; reflexivity. }
    split.
    { intros m Hm.
      frame_field middle.
      rewrite !(field_alter_ne hidden) by congruence.
      rewrite !(field_alter_ne cssPosition) by congruence.
      rewrite !Hframe3 by reflexivity. rewrite !Hframe2 by reflexivity.
      subst r1. rewrite (field_alter_ne middle) by congruence.
      frame_field hidden. frame_field cssPosition. repeat split; reflexivity. }
    split.
    { frame_field middle. rewrite Hframe3, Hframe2 by reflexivity. exact Hmid. }
    split; [discriminate|].
    split.
    { intros _. split.
      - rewrite list_lookup_total_alter_eq by (rewrite length_alter; lia). reflexivity.
      - frame_field cssPosition.
        rewrite list_lookup_total_alter_eq by lia. simpl.
        rewrite !Hframe3 by reflexivity. rewrite !Hframe2 by reflexivity.
        subst r1. frame_field cssPosition. frame_field advance. reflexivity. }
    intros m Hm. frame_field breakType. rewrite Hframe3 by reflexivity.
    apply Hbreak2. subst r1. frame_field breakType. exact Hm.
Qed.

Lemma clusterLoop_spec (text : list QChar) (graphemeBreaks : list Z)
    (r0 : list CharacterResult) :
  let st := clusterLoop text graphemeBreaks r0 in
  let R := fst (fst st) in
  length R = length r0
  /\ snd (fst st) = lastVisibleBefore r0 (length r0)
  /\ (forall m, addressable (R !!! m) = addressable (r0 !!! m) /\
                visualIndex (R !!! m) = visualIndex (r0 !!! m) /\
                advance (R !!! m) = advance (r0 !!! m))
  /\ (forall m, (m < length r0)%nat -> middle (R !!! m) = (visualIndex (r0 !!! m) =? -1))
  /\ (forall m, (m < length r0)%nat -> isVisible (r0 !!! m) = false ->
        hidden (R !!! m) = true /\
        let f := Z.to_nat (Z.max 0 (lastVisibleBefore r0 m)) in
        ((f < m)%nat ->
         cssPosition (R !!! m) = QPointF_add (cssPosition (R !!! f)) (advance (R !!! f))))
  /\ (forall m, breakType (r0 !!! m) = HardBreak -> breakType (R !!! m) = HardBreak).
Proof.
  simpl. unfold clusterLoop.
  set (P := fun (n : nat) (st : list CharacterResult * Z * bool) =>
    let r := fst (fst st) in
    length r = length r0
    /\ snd (fst st) = lastVisibleBefore r0 n
    /\ (forall m, addressable (r !!! m) = addressable (r0 !!! m) /\
                  visualIndex (r !!! m) = visualIndex (r0 !!! m) /\
                  advance (r !!! m) = advance (r0 !!! m))
    /\ (forall m, (m < n)%nat -> middle (r !!! m) = (visualIndex (r0 !!! m) =? -1))
    /\ (forall m, (m < n)%nat -> isVisible (r0 !!! m) = false ->
          hidden (r !!! m) = true /\
          let f := Z.to_nat (Z.max 0 (lastVisibleBefore r0 m)) in
          ((f < m)%nat ->
           cssPosition (r !!! m) = QPointF_add (cssPosition (r !!! f)) (advance (r !!! f))))
    /\ (forall m, breakType (r0 !!! m) = HardBreak -> breakType (r !!! m) = HardBreak)).
  assert (Hloop : P (length r0)
            (for_range 0 (length r0) (clusterStep text graphemeBreaks) (r0, -1, false))).
  { apply (for_range_ind P); [lia| |].
    - unfold P. simpl. split; [reflexivity|].
      split; [unfold lastVisibleBefore; rewrite for_range_empty by lia; reflexivity|].
      split; [intros m; repeat split; reflexivity|].
      split; [intros m Hm; lia|]. split; [intros m Hm; lia|].
      intros m Hm. exact Hm.
    - intros n [[r fc] gbn] Hn (Hlen & Hfc & Hsame & Hmid & Hhid & Hbrk).
      simpl in Hlen, Hfc, Hsame, Hmid, Hhid, Hbrk.
      assert (Hn' : (n < length r)%nat) by lia.
      destruct (clusterStep_spec text graphemeBreaks n r fc gbn Hn')
        as (Slen & Sfc & Ssame & Sother & Smid & Svis & Sinv & Sbrk).
      set (st' := clusterStep text graphemeBreaks n (r, fc, gbn)) in *.
      assert (Hvis : isVisible (r !!! n) = isVisible (r0 !!! n)).
      { unfold isVisible. destruct (Hsame n) as (-> & -> & _). reflexivity. }
      unfold P. cbv beta zeta. fold st'.
      split; [congruence|].
      split; [rewrite Sfc, lastVisibleBefore_succ, Hvis, Hfc; reflexivity|].
      split.
      { intros m. destruct (Ssame m) as (-> & -> & ->). apply Hsame. }
      split.
      { intros m Hm. destruct (Nat.eq_dec m n) as [->|Hne].
        - rewrite Smid. destruct (Hsame n) as (_ & -> & _). reflexivity.
        - destruct (Sother m Hne) as (-> & _). apply Hmid. lia. }
      split.
      { intros m Hm Hinv. destruct (Nat.eq_dec m n) as [->|Hne].
        - rewrite <- Hvis in Hinv. destruct (Sinv Hinv) as [Sh Sc].
          split; [exact Sh|]. intros Hf.
          rewrite Sc, <- Hfc.
          destruct (Sother (Z.to_nat (Z.max 0 fc)) ltac:(rewrite Hfc; lia)) as (_ & _ & ->).
          destruct (Ssame (Z.to_nat (Z.max 0 fc))) as (_ & _ & ->). reflexivity.
        - destruct (Hhid m ltac:(lia) Hinv) as [Hh Hc].
          destruct (Sother m Hne) as (_ & -> & ->).
          split; [exact Hh|]. intros Hf.
          destruct (Sother (Z.to_nat (Z.max 0 (lastVisibleBefore r0 m))) ltac:(lia))
            as (_ & _ & ->).
          destruct (Ssame (Z.to_nat (Z.max 0 (lastVisibleBefore r0 m)))) as (_ & _ & ->).
          apply Hc. exact Hf. }
      intros m Hm. apply Sbrk, Hbrk, Hm. }
  exact Hloop.
Qed.

(** ** The glyph loop (lines 479-531) *)

Section GlyphLoop.

Variable raqm_direction_is_rtl : nat -> bool.
Variable loadGlyph :
  bool -> Z -> Raqm.raqm_glyph_t -> CharacterResult -> QPointF ->
  bool * CharacterResult * QPointF.

Local Abbreviation step := (glyphStep raqm_direction_is_rtl loadGlyph).

Lemma glyphStep_length isHorizontal text st ig :
  length (fst (fst (fst (step isHorizontal text st ig)))) = length (fst (fst (fst st))).
Proof.
  destruct st as [[[result total] l2v] isBidi], ig as [i g]. unfold glyphStep.
  destruct (negb (addressable _)); [reflexivity|].
  destruct (loadGlyph _ _ _ _ _) as [[loaded cr] total'].
  destruct loaded; simpl; [apply length_insert|reflexivity].
Qed.

Lemma glyphLoop_length isHorizontal text glyphs result :
  length (fst (fst (fst (glyphLoop raqm_direction_is_rtl loadGlyph isHorizontal text
                           glyphs result)))) = length result.
Proof.
  unfold glyphLoop.
  apply (foldl_preserves
    (fun st : list CharacterResult * QPointF * QMap * bool =>
       length (fst (fst (fst st))) = length result)); [reflexivity|].
  intros st ig Hst. rewrite glyphStep_length. exact Hst.
Qed.

(** A glyph that fails to load leaves the result array as it is; a glyph
    changes no entry but the one of its cluster. *)
Lemma glyphStep_untouched isHorizontal text st ig (c : nat) :
  (Raqm.cluster (snd ig) = c ->
   forall cr total,
     fst (fst (loadGlyph isHorizontal (getUcs4At text c) (snd ig) cr total)) = false) ->
  fst (fst (fst (step isHorizontal text st ig))) !! c = fst (fst (fst st)) !! c.
Proof.
  destruct st as [[[result total] l2v] isBidi], ig as [i g]. simpl. intros Hfail.
  unfold glyphStep.
  destruct (negb (addressable _)); [reflexivity|].
  destruct (loadGlyph _ _ _ _ _) as [[loaded cr] total'] eqn:Hload.
  destruct loaded; [|reflexivity]. simpl.
  destruct (Nat.eq_dec (Raqm.cluster g) c) as [Heq|Hne].
  - specialize (Hfail Heq). rewrite <- Heq in Hfail.
    match type of Hload with
    | loadGlyph _ _ _ ?a ?b = _ => specialize (Hfail a b)
    end.
    rewrite Hload in Hfail. discriminate Hfail.
  - apply list_lookup_insert_ne. exact Hne.
Qed.

Lemma glyphFold_untouched isHorizontal text
    (pairs : list (nat * Raqm.raqm_glyph_t))
    (st : list CharacterResult * QPointF * QMap * bool) (c : nat) :
  (forall ig, ig ∈ pairs -> Raqm.cluster (snd ig) = c ->
     forall cr total,
       fst (fst (loadGlyph isHorizontal (getUcs4At text c) (snd ig) cr total)) = false) ->
  fst (fst (fst (foldl (step isHorizontal text) st pairs))) !! c = fst (fst (fst st)) !! c.
Proof.
  revert st. induction pairs as [|ig pairs IH]; intros st Hfail; simpl.
  - reflexivity.
  - rewrite IH.
    + apply glyphStep_untouched. intros Hc. apply Hfail; [left|exact Hc].
    + intros ig' Hin. apply Hfail. right. exact Hin.
Qed.

Lemma glyphLoop_untouched isHorizontal text glyphs result (c : nat) :
  (forall g, g ∈ glyphs -> Raqm.cluster g = c ->
     forall cr total,
       fst (fst (loadGlyph isHorizontal (getUcs4At text c) g cr total)) = false) ->
  fst (fst (fst (glyphLoop raqm_direction_is_rtl loadGlyph isHorizontal text
                   glyphs result))) !! c = result !! c.
Proof.
  intros Hfail. unfold glyphLoop. rewrite glyphFold_untouched; [reflexivity|].
  intros ig Hin. apply Hfail.
  apply elem_of_lookup_imap_1 in Hin as (i & g & -> & Hg).
  simpl. eapply list_elem_of_lookup_2. exact Hg.
Qed.

End GlyphLoop.

(** ** No visual index before shaping *)

Lemma replicate_default_lookup (n m : nat) :
  replicate n CharacterResult_default !!! m = CharacterResult_default.
Proof.
  rewrite list_lookup_total_alt.
  destruct (replicate n CharacterResult_default !! m) as [cr|] eqn:Hm; [|reflexivity].
  apply lookup_replicate in Hm as [-> _]. reflexivity.
Qed.

Lemma assignPlainTextIndices_frame {B : Type} (F : CharacterResult -> B) c2o result m :
  (forall v x, F (set_plaintTextIndex v x) = F x) ->
  F (assignPlainTextIndices c2o result !!! m) = F (result !!! m).
Proof.
  intros HF. unfold assignPlainTextIndices.
  apply (foldl_preserves (fun r => F (r !!! m) = F (result !!! m))); [reflexivity|].
  intros r mapping Hr.
  destruct (fst mapping <? 0); [exact Hr|].
  destruct (fst mapping <? Z.of_nat (length r)); [|exact Hr].
  rewrite field_alter; [exact Hr|]. intros x. apply HF.
Qed.

Section SetUpFrame.

Variable numChars : TextTree -> nat.
Variable mergeInParentTransformation :
  KoSvgText.CharTransformation -> KoSvgText.CharTransformation ->
  KoSvgText.CharTransformation.
Variable collapseLastSpace : QChar -> TextSpaceCollapse -> bool.
Variable hangLastSpace :
  QChar -> TextSpaceCollapse -> KoSvgText.TextWrap -> bool -> bool * bool.
Variable characterCanHang : QChar -> HangKind -> bool.
Variable raqm_set_text_utf16 : list QChar -> bool.

Local Abbreviation resolve := (resolveTransforms numChars mergeInParentTransformation).

(** [resolveTransforms] writes nothing but [addressable] into the result
    array. *)
Lemma resolveTransforms_frame {B : Type} (F : CharacterResult -> B) (t : TextTree) :
  (forall v x, F (set_addressable v x) = F x) ->
  forall text isHorizontal wrapped textInPath collapsedChars st m,
    F (rs_result (resolve t text isHorizontal wrapped textInPath collapsedChars st) !!! m)
    = F (rs_result st !!! m).
Proof.
  intros HF. induction t as [e c IH] using TextTree_rect_children.
  intros text isHorizontal wrapped textInPath collapsedChars st m. simpl.
  set (index := rs_currentIndex st).
  set (j := (index + numChars (TextNode e c))%nat).
  set (own := if bool_decide (is_Some (textPath e))
              then (rs_result st, rs_resolved st)
              else let '(result, resolved, _) :=
                     for_range index j
                       (resolveOwnStep mergeInParentTransformation (localTransformations e)
                          text wrapped collapsedChars)
                       (rs_result st, rs_resolved st, 0%nat) in
                   (result, resolved)).
  assert (Hown : F (fst own !!! m) = F (rs_result st !!! m)).
  { subst own. destruct (bool_decide _); [reflexivity|].
    pose proof (for_range_preserves
      (fun s : list CharacterResult * list KoSvgText.CharTransformation * nat =>
         F (fst (fst s) !!! m) = F (rs_result st !!! m))
      index j
      (resolveOwnStep mergeInParentTransformation (localTransformations e)
         text wrapped collapsedChars)
      (rs_result st, rs_resolved st, 0%nat)) as Hloop.
    destruct (for_range index j _ _) as [[r1 r2] i1].
    simpl in *. apply Hloop; [reflexivity|].
    intros k [[result resolved] i] Hs. simpl in Hs. unfold resolveOwnStep.
    destruct (length text <=? k)%nat; [exact Hs|].
    destruct (_ || _).
    - simpl. rewrite field_alter; [exact Hs|]. intros x. apply HF.
    - destruct (i <? length (localTransformations e))%nat; [exact Hs|].
      destruct (0 <? k)%nat; [|exact Hs].
      destruct (KoSvgText.rotate _); exact Hs. }
  destruct own as [result resolved]. simpl in Hown.
  set (afterChildren := foldl _ _ c).
  assert (Hchildren : F (rs_result afterChildren !!! m) = F (rs_result st !!! m)).
  { subst afterChildren.
    apply (foldl_Forall_preserves
      (fun s => F (rs_result s !!! m) = F (rs_result st !!! m))).
    - exact Hown.
    - eapply Forall_impl; [exact IH|].
      intros child Hchild s Hs. rewrite Hchild. exact Hs. }
  exact Hchildren.
Qed.

Lemma chunkCharacter_frame {B : Type} (F : CharacterResult -> B)
    props text lineBreaks graphemeBreaks resolved chunk start i result m :
  (forall v x, F (set_anchor v x) = F x) ->
  (forall v x, F (set_direction v x) = F x) ->
  (forall v x, F (set_breakType v x) = F x) ->
  (forall v x, F (set_lineStart v x) = F x) ->
  (forall v x, F (set_lineEnd v x) = F x) ->
  (forall v x, F (set_anchored_chunk v x) = F x) ->
  F (chunkCharacter collapseLastSpace hangLastSpace characterCanHang props text
       lineBreaks graphemeBreaks resolved chunk start i result !!! m) = F (result !!! m).
Proof.
  intros H1 H2 H3 H4 H5 H6. unfold chunkCharacter.
  rewrite list_lookup_total_insert. case_decide as Hd; [|reflexivity].
  destruct Hd as [<- _].
  assert (Ha : forall cr, F (if firstTextInPath chunk && (i =? 0)%nat
                             then set_anchored_chunk true cr else cr) = F cr).
  { intros cr. destruct (_ && _); [apply H6|reflexivity]. }
  assert (Hb : forall c cr, F (chunkHangingPunctuation characterCanHang chunk c cr) = F cr).
  { intros c cr. unfold chunkHangingPunctuation.
    repeat match goal with
           | |- context [if ?b then _ else _] => destruct b
           end;
      repeat first [rewrite H4 | rewrite H5]; reflexivity. }
  assert (Hc : forall g cr, F (chunkBreakAnywhere props chunk g cr) = F cr).
  { intros g cr. unfold chunkBreakAnywhere.
    match goal with |- context [if ?b then _ else _] => destruct b end;
      [apply H3|reflexivity]. }
  assert (Hd : forall c b cr, F (chunkHangingSpace hangLastSpace props c b cr) = F cr).
  { intros c b cr. unfold chunkHangingSpace.
    destruct (negb _); [|reflexivity].
    destruct (hangLastSpace _ _ _ _) as [hangs forceHang].
    destruct hangs; [apply H5|reflexivity]. }
  assert (He : forall c b cr, F (chunkBreakType collapseLastSpace props c b cr) = F cr).
  { intros c b cr. unfold chunkBreakType.
    repeat match goal with
           | |- context [if ?b then _ else _] => destruct b
           end;
      repeat first [rewrite H3 | rewrite H4 | rewrite H5]; reflexivity. }
  rewrite Ha, Hb, Hc, Hd, He, H2, H1. reflexivity.
Qed.

End SetUpFrame.

(** ** Where a glyph is loaded and where a hard break comes from *)

Section GlyphsOfACluster.

Variable raqm_direction_is_rtl : nat -> bool.
Variable loadGlyph :
  bool -> Z -> Raqm.raqm_glyph_t -> CharacterResult -> QPointF ->
  bool * CharacterResult * QPointF.

Local Abbreviation step := (glyphStep raqm_direction_is_rtl loadGlyph).
Local Abbreviation loads := (glyphLoads raqm_direction_is_rtl loadGlyph).
Local Abbreviation before := (glyphLoopBefore raqm_direction_is_rtl loadGlyph).

(** A glyph that is not loaded leaves the result array as it is. *)
Lemma glyphStep_not_loaded isHorizontal text st ig :
  loads isHorizontal text st ig = false ->
  fst (fst (fst (step isHorizontal text st ig))) = fst (fst (fst st)).
Proof.
  destruct st as [[[result total] l2v] isBidi], ig as [i g].
  unfold glyphLoads, glyphStep. cbn [fst snd].
  destruct (addressable (result !!! Raqm.cluster g)); cbn [negb andb]; [|reflexivity].
  destruct (loadGlyph _ _ _ _ _) as [[loaded cr] total']. cbn [fst].
  intros ->. reflexivity.
Qed.

(** A glyph changes no entry but the one of its cluster. *)
Lemma glyphStep_other_cluster isHorizontal text st ig (c : nat) :
  Raqm.cluster (snd ig) <> c ->
  fst (fst (fst (step isHorizontal text st ig))) !! c = fst (fst (fst st)) !! c.
Proof.
  intros Hne. apply glyphStep_untouched. intros Heq. contradiction.
Qed.

Lemma glyphLoopBefore_succ isHorizontal text glyphs result n g :
  glyphs !! n = Some g ->
  before isHorizontal text glyphs result (S n)
  = step isHorizontal text (before isHorizontal text glyphs result n) (n, g).
Proof.
  intros Hg. unfold glyphLoopBefore.
  rewrite (take_S_r _ _ (n, g)) by (rewrite list_lookup_imap, Hg; reflexivity).
  rewrite foldl_app. reflexivity.
Qed.

Lemma glyphLoopBefore_all isHorizontal text glyphs result :
  before isHorizontal text glyphs result (length glyphs)
  = glyphLoop raqm_direction_is_rtl loadGlyph isHorizontal text glyphs result.
Proof.
  unfold glyphLoopBefore, glyphLoop.
  rewrite take_ge by (rewrite length_imap; lia). reflexivity.
Qed.

(** The entry of a cluster of which no glyph is loaded comes out of the
    glyph loop as it went in. *)
Lemma glyphLoop_cluster_fails isHorizontal text glyphs result (c : nat) :
  clusterFails raqm_direction_is_rtl loadGlyph isHorizontal text glyphs result c = true ->
  fst (fst (fst (glyphLoop raqm_direction_is_rtl loadGlyph isHorizontal text
                   glyphs result))) !! c = result !! c.
Proof.
  intros Hfails. rewrite <- glyphLoopBefore_all.
  assert (Hprefix : forall n, (n <= length glyphs)%nat ->
            fst (fst (fst (before isHorizontal text glyphs result n))) !! c = result !! c).
  { induction n as [|n IH]; intros Hn; [reflexivity|].
    destruct (lookup_lt_is_Some_2 glyphs n ltac:(lia)) as [g Hg].
    rewrite (glyphLoopBefore_succ _ _ _ _ _ _ Hg).
    destruct (decide (Raqm.cluster g = c)) as [Hc|Hc].
    - unfold clusterFails in Hfails. rewrite forallb_forall in Hfails.
      specialize (Hfails (n, g)). cbn [fst snd] in Hfails.
      rewrite (proj2 (Nat.eqb_eq _ _) Hc) in Hfails. cbn [andb] in Hfails.
      rewrite glyphStep_not_loaded; [apply IH; lia|].
      apply negb_true_iff, Hfails.
      apply list_elem_of_In. apply elem_of_lookup_imap. exists n, g. split; [reflexivity|exact Hg].
    - rewrite glyphStep_other_cluster by exact Hc. apply IH. lia. }
  apply Hprefix. lia.
Qed.

(** When loading a glyph leaves the break type of the character alone, so
    does the glyph loop. *)
Lemma glyphLoop_breakType isHorizontal text glyphs result :
  (forall h codepoint g cr total,
     breakType (snd (fst (loadGlyph h codepoint g cr total))) = breakType cr) ->
  forall m,
    breakType (fst (fst (fst (glyphLoop raqm_direction_is_rtl loadGlyph isHorizontal text
                                glyphs result))) !!! m)
    = breakType (result !!! m).
Proof.
  intros Hload m. unfold glyphLoop.
  apply (foldl_preserves
    (fun st : list CharacterResult * QPointF * QMap * bool =>
       breakType (fst (fst (fst st)) !!! m) = breakType (result !!! m))); [reflexivity|].
  intros [[[r total] l2v] isBidi] [i g] Hst. cbn [fst] in Hst.
  unfold glyphStep.
  destruct (negb (addressable (r !!! Raqm.cluster g))); [exact Hst|].
  match goal with
  | |- context [loadGlyph ?h ?cp ?gl ?cr ?tot] =>
      pose proof (Hload h cp gl cr tot) as Hbreak;
      destruct (loadGlyph h cp gl cr tot) as [[loaded cr'] total']
  end.
  cbn [fst snd] in Hbreak.
  destruct loaded; cbn [negb fst]; [|exact Hst].
  rewrite list_lookup_total_insert. case_decide as Hd; [|exact Hst].
  destruct Hd as [<- _]. cbn. rewrite Hbreak. cbn. exact Hst.
Qed.

End GlyphsOfACluster.

Lemma BreakType_eqb_eq (a b : BreakType) : BreakType_eqb a b = true <-> a = b.
Proof. destruct a, b; cbn; split; (reflexivity || discriminate). Qed.

Lemma chunkPositions_here (chunk : SubChunk) (rest : list SubChunk) (start q : nat) :
  (start <= q < start + length (chunk_text chunk))%nat ->
  q ∈ chunkPositions (chunk :: rest) start.
Proof.
  intros Hq. cbn [chunkPositions]. apply elem_of_app. left.
  apply list_elem_of_fmap. exists (q - start)%nat. split; [lia|].
  apply elem_of_seq. lia.
Qed.

Lemma chunkPositions_later (chunk : SubChunk) (rest : list SubChunk) (start q : nat) :
  q ∈ chunkPositions rest
        (foldl (fun start length => (start + length)%nat) start (faceLengths chunk)) ->
  q ∈ chunkPositions (chunk :: rest) start.
Proof. intros Hq. cbn [chunkPositions]. apply elem_of_app. right. exact Hq. Qed.

Lemma chunkPositions_cases (chunk : SubChunk) (rest : list SubChunk) (start q : nat) :
  q ∈ chunkPositions (chunk :: rest) start ->
  (start <= q < start + length (chunk_text chunk))%nat
  \/ q ∈ chunkPositions rest
            (foldl (fun start length => (start + length)%nat) start (faceLengths chunk)).
Proof.
  cbn [chunkPositions]. intros Hq. apply elem_of_app in Hq. destruct Hq as [Hq|Hq]; [|auto].
  left. apply list_elem_of_fmap in Hq. destruct Hq as (i & -> & Hi).
  apply elem_of_seq in Hi. lia.
Qed.

Section BreaksOfTheChunks.

Variable numChars : TextTree -> nat.
Variable mergeInParentTransformation :
  KoSvgText.CharTransformation -> KoSvgText.CharTransformation ->
  KoSvgText.CharTransformation.
Variable collapseSpaces : list QChar -> TextSpaceCollapse -> list QChar * list bool.
Variable collapseLastSpace : QChar -> TextSpaceCollapse -> bool.
Variable hangLastSpace :
  QChar -> TextSpaceCollapse -> KoSvgText.TextWrap -> bool -> bool * bool.
Variable characterCanHang : QChar -> HangKind -> bool.
Variable set_linebreaks_utf16 : list QChar -> list QChar -> nat -> Z.
Variable set_graphemebreaks_utf16 : list QChar -> list QChar -> nat -> Z.
Variable raqm_set_text_utf16 : list QChar -> bool.

Local Abbreviation prepare :=
  (prepareText collapseSpaces set_linebreaks_utf16 set_graphemebreaks_utf16).
Local Abbreviation initial :=
  (initialCharacters numChars mergeInParentTransformation collapseLastSpace hangLastSpace
     characterCanHang raqm_set_text_utf16).
Local Abbreviation character :=
  (chunkCharacter collapseLastSpace hangLastSpace characterCanHang).
Local Abbreviation subChunk :=
  (applySubChunk collapseLastSpace hangLastSpace characterCanHang).

(** Lines 298-339 for the break type: a mandatory break makes a hard
    break, and nothing else does. *)
Lemma chunk_breakType props chunk c lineBreak isFollowed graphemeBreak cr :
  let cr' :=
    chunkBreakAnywhere props chunk graphemeBreak
      (chunkHangingSpace hangLastSpace props c isFollowed
         (chunkBreakType collapseLastSpace props c lineBreak cr)) in
  (lineBreak = LINEBREAK_MUSTBREAK -> breakType cr' = HardBreak)
  /\ (breakType cr' = HardBreak ->
      breakType cr = HardBreak \/ lineBreak = LINEBREAK_MUSTBREAK).
Proof.
  cbv zeta.
  assert (Hspace : forall x,
    breakType (chunkHangingSpace hangLastSpace props c isFollowed x) = breakType x).
  { intros x. unfold chunkHangingSpace. destruct (negb _); [|reflexivity].
    destruct (hangLastSpace _ _ _ _) as [hangs forceHang].
    destruct hangs; reflexivity. }
  assert (Hanywhere : forall x,
    breakType (chunkBreakAnywhere props chunk graphemeBreak x) = breakType x
    \/ (breakType x = NoBreak
        /\ breakType (chunkBreakAnywhere props chunk graphemeBreak x) = SoftBreak)).
  { intros x. unfold chunkBreakAnywhere.
    match goal with |- context [if ?b then _ else _] => destruct b eqn:Hb end;
      [|left; reflexivity].
    right. apply andb_prop in Hb. destruct Hb as [_ Hb].
    apply BreakType_eqb_eq in Hb. split; [exact Hb | reflexivity]. }
  unfold chunkBreakType.
  destruct (lineBreak =? LINEBREAK_MUSTBREAK) eqn:Hmust.
  - apply Z.eqb_eq in Hmust.
    match goal with
    | |- context [chunkBreakAnywhere props chunk graphemeBreak ?x] =>
        destruct (Hanywhere x) as [Hsame|[Hno _]];
          [rewrite Hsame, Hspace | rewrite Hspace in Hno; discriminate Hno]
    end.
    split; [reflexivity | auto].
  - apply Z.eqb_neq in Hmust. split; [contradiction|].
    match goal with
    | |- context [chunkBreakAnywhere props chunk graphemeBreak ?x] =>
        destruct (Hanywhere x) as [Hsame|[_ Hsoft]];
          [rewrite Hsame, Hspace | rewrite Hsoft; discriminate]
    end.
    destruct (_ && _); [|auto].
    destruct (collapseLastSpace _ _); cbn; discriminate.
Qed.

(** Lines 290-374 for the break type of the entries. *)
Lemma chunkCharacter_breakType props text lineBreaks graphemeBreaks resolved chunk start i
    result q :
  let result' := character props text lineBreaks graphemeBreaks resolved chunk start i result in
  (q = (start + i)%nat -> (q < length result)%nat ->
   lineBreaks !!! q = LINEBREAK_MUSTBREAK -> breakType (result' !!! q) = HardBreak)
  /\ (q <> (start + i)%nat -> result' !!! q = result !!! q)
  /\ (breakType (result' !!! q) = HardBreak ->
      breakType (result !!! q) = HardBreak
      \/ (q = (start + i)%nat /\ lineBreaks !!! q = LINEBREAK_MUSTBREAK)).
Proof.
  cbv zeta. unfold chunkCharacter.
  set (p := (start + i)%nat).
  match goal with
  | |- context [chunkHangingPunctuation characterCanHang chunk ?c
                  (chunkBreakAnywhere props chunk ?g
                     (chunkHangingSpace hangLastSpace props ?c' ?f
                        (chunkBreakType collapseLastSpace props ?c'' ?lb ?x)))] =>
      destruct (chunk_breakType props chunk c lb f g x) as [Hset Horigin];
      set (inner := chunkBreakAnywhere props chunk g
                      (chunkHangingSpace hangLastSpace props c' f
                         (chunkBreakType collapseLastSpace props c'' lb x))) in *;
      assert (Hbase : breakType x = breakType (result !!! p)) by reflexivity
  end.
  match goal with
  | |- context [<[p := ?new]> result] =>
      assert (Hnew : breakType new = breakType inner)
  end.
  { destruct (_ && _); cbn [breakType set_anchored_chunk];
      unfold chunkHangingPunctuation;
      repeat match goal with
             | |- context [if ?b then _ else _] => destruct b
             end; reflexivity. }
  split; [|split].
  - intros -> Hq Hmust. rewrite list_lookup_total_insert_eq by exact Hq.
    rewrite Hnew. apply Hset. exact Hmust.
  - intros Hne. rewrite list_lookup_total_insert_ne by congruence. reflexivity.
  - rewrite list_lookup_total_insert. case_decide as Hd; [|auto].
    destruct Hd as [<- Hlt]. rewrite Hnew. intros Hhard.
    destruct (Horigin Hhard) as [Hold|Hmust]; [left; rewrite <- Hbase; exact Hold|].
    right. split; [reflexivity | exact Hmust].
Qed.

(** Lines 260-450 for the break type: the loop over the sub-chunks makes
    a hard break of every mandatory break it reaches, and of nothing
    else. *)
Lemma applySubChunk_breakType props text lineBreaks graphemeBreaks resolved st chunk q :
  let st' := subChunk props text lineBreaks graphemeBreaks resolved st chunk in
  length (fst st') = length (fst st)
  /\ snd st' = foldl (fun start length => (start + length)%nat) (snd st) (faceLengths chunk)
  /\ ((q < length (fst st))%nat -> lineBreaks !!! q = LINEBREAK_MUSTBREAK ->
      (snd st <= q < snd st + length (chunk_text chunk))%nat
      \/ breakType (fst st !!! q) = HardBreak ->
      breakType (fst st' !!! q) = HardBreak)
  /\ (breakType (fst st' !!! q) = HardBreak ->
      breakType (fst st !!! q) = HardBreak
      \/ ((snd st <= q < snd st + length (chunk_text chunk))%nat
          /\ lineBreaks !!! q = LINEBREAK_MUSTBREAK)).
Proof.
  destruct st as [result start]. cbv zeta. unfold applySubChunk. cbn [fst snd].
  split; [|split; [reflexivity|]].
  { apply (for_range_preserves (fun r => length r = length result)); [reflexivity|].
    intros k r Hr. rewrite chunkCharacter_length. exact Hr. }
  pose proof (for_range_ind
    (fun k r =>
       length r = length result
       /\ ((q < length result)%nat -> lineBreaks !!! q = LINEBREAK_MUSTBREAK ->
           (start <= q < start + k)%nat \/ breakType (result !!! q) = HardBreak ->
           breakType (r !!! q) = HardBreak)
       /\ (breakType (r !!! q) = HardBreak ->
           breakType (result !!! q) = HardBreak
           \/ ((start <= q < start + k)%nat /\ lineBreaks !!! q = LINEBREAK_MUSTBREAK)))
    0%nat (length (chunk_text chunk))
    (character props text lineBreaks graphemeBreaks resolved chunk start) result) as Hloop.
  destruct Hloop as (_ & Hset & Horigin); [lia| | |split; assumption].
  - split; [reflexivity|]. split; [|auto].
    intros _ _ [Hq|Hq]; [lia | exact Hq].
  - intros k r Hk (Hlen & Hset & Horigin).
    destruct (chunkCharacter_breakType props text lineBreaks graphemeBreaks resolved chunk
                start k r q) as (Cset & Cother & Corigin).
    split; [rewrite chunkCharacter_length; exact Hlen|]. split.
    + intros Hq Hmust Hwhere. destruct (decide (q = (start + k)%nat)) as [Heq|Hne].
      * apply Cset; [exact Heq | lia | exact Hmust].
      * rewrite Cother by exact Hne. apply Hset; [exact Hq | exact Hmust|].
        destruct Hwhere as [Hw|Hw]; [left; lia | right; exact Hw].
    + intros Hhard. destruct (Corigin Hhard) as [Hold|[Heq Hmust]].
      * destruct (Horigin Hold) as [Hr|[Hr Hmust]]; [auto|]. right. split; [lia|exact Hmust].
      * right. split; [lia | exact Hmust].
Qed.

Lemma chunkLoop_breakType props text lineBreaks graphemeBreaks resolved
    (textChunks : list SubChunk) (q : nat) :
  forall st,
    let st' := foldl (subChunk props text lineBreaks graphemeBreaks resolved) st textChunks in
    length (fst st') = length (fst st)
    /\ ((q < length (fst st))%nat -> lineBreaks !!! q = LINEBREAK_MUSTBREAK ->
        q ∈ chunkPositions textChunks (snd st) \/ breakType (fst st !!! q) = HardBreak ->
        breakType (fst st' !!! q) = HardBreak)
    /\ (breakType (fst st' !!! q) = HardBreak ->
        breakType (fst st !!! q) = HardBreak
        \/ (q ∈ chunkPositions textChunks (snd st)
            /\ lineBreaks !!! q = LINEBREAK_MUSTBREAK)).
Proof.
  induction textChunks as [|chunk rest IH]; intros st; cbv zeta; cbn [foldl].
  - split; [reflexivity|]. split; [|auto].
    intros _ _ [Hq|Hq]; [|exact Hq]. inversion Hq.
  - destruct (applySubChunk_breakType props text lineBreaks graphemeBreaks resolved st chunk q)
      as (Hlen & Hstart & Hset & Horigin).
    destruct (IH (subChunk props text lineBreaks graphemeBreaks resolved st chunk))
      as (Rlen & Rset & Rorigin).
    rewrite Hstart in Rset, Rorigin. rewrite Hlen in Rset.
    split; [congruence|]. split.
    + intros Hq Hmust Hwhere. apply Rset; [exact Hq | exact Hmust|].
      destruct Hwhere as [Hw|Hw].
      * apply chunkPositions_cases in Hw. destruct Hw as [Hw|Hw]; [|left; exact Hw].
        right. apply Hset; auto.
      * right. apply Hset; auto.
    + intros Hhard. destruct (Rorigin Hhard) as [Hmid|[Hw Hmust]].
      * destruct (Horigin Hmid) as [Hold|[Hw Hmust]]; [auto|].
        right. split; [apply chunkPositions_here; exact Hw | exact Hmust].
      * right. split; [apply chunkPositions_later; exact Hw | exact Hmust].
Qed.

(** Lines 205-458 for the break type: before any glyph is retrieved, an
    entry is a hard break exactly when the shaper accepted the text, the
    loop over the sub-chunks reached the entry, and the line breaker
    classed its code unit as a mandatory break. *)
Lemma initialCharacters_breakType root textChunks props (q : nat) :
  let p := prepare textChunks props in
  (q < length (pt_collapsed p))%nat ->
  breakType (fst (initial root textChunks props p) !!! q) = HardBreak
  <-> (raqm_set_text_utf16 (pt_text p) = true
       /\ q ∈ chunkPositions textChunks 0
       /\ pt_lineBreaks p !!! q = LINEBREAK_MUSTBREAK).
Proof.
  intros p Hq. unfold initialCharacters. cbn [fst].
  set (st1 := resolveTransforms _ _ _ _ _ _ _ _ _).
  assert (H1 : forall m, breakType (rs_result st1 !!! m) = NoBreak).
  { intros k. subst st1.
    rewrite (resolveTransforms_frame _ _ breakType) by reflexivity.
    cbn [rs_result].
    rewrite (assignPlainTextIndices_frame breakType) by reflexivity.
    rewrite replicate_default_lookup. reflexivity. }
  assert (Hlen1 : length (rs_result st1) = length (pt_collapsed p)).
  { subst st1.
    match goal with
    | |- length (rs_result (resolveTransforms ?n ?m ?t ?tx ?h ?w ?f ?c ?s)) = _ =>
        destruct (resolveTransforms_lengths n m t tx h w f c s) as [-> _]
    end.
    cbn [rs_result]. rewrite assignPlainTextIndices_length. apply length_replicate. }
  set (chunked := if raqm_set_text_utf16 (pt_text p) then _ else _).
  assert (Hchunked :
    breakType (chunked !!! q) = HardBreak
    <-> (raqm_set_text_utf16 (pt_text p) = true
         /\ q ∈ chunkPositions textChunks 0
         /\ pt_lineBreaks p !!! q = LINEBREAK_MUSTBREAK)).
  { subst chunked. destruct (raqm_set_text_utf16 (pt_text p)).
    - match goal with
      | |- context [foldl (subChunk ?pr ?tx ?lb ?gb ?rs) ?st textChunks] =>
          destruct (chunkLoop_breakType pr tx lb gb rs textChunks q st)
            as (_ & Hset & Horigin)
      end.
      cbn [fst snd] in Hset, Horigin. split.
      + intros Hhard. destruct (Horigin Hhard) as [Hold|[Hw Hmust]];
          [rewrite H1 in Hold; discriminate|].
        split; [reflexivity|]. split; assumption.
      + intros (_ & Hw & Hmust). apply Hset; [lia | exact Hmust | left; exact Hw].
    - rewrite H1. split; [discriminate|]. intros (Hno & _). discriminate. }
  destruct (negb (isEmpty chunked)); [|exact Hchunked].
  rewrite (field_alter breakType) by reflexivity. exact Hchunked.
Qed.

End BreaksOfTheChunks.

(** ** The cluster loop and the hard breaks (lines 538-572) *)

(** A turn of the cluster loop makes a hard break of no entry but the
    cluster's first character, and of that one only when the entry of the
    turn is a hard break. *)
Lemma clusterStep_breakType_origin (text : list QChar) (graphemeBreaks : list Z) (i : nat)
    (r : list CharacterResult) (fc : Z) (gbn : bool) (q : nat) :
  breakType (fst (fst (clusterStep text graphemeBreaks i (r, fc, gbn))) !!! q) = HardBreak ->
  breakType (r !!! q) = HardBreak
  \/ (q = Z.to_nat (Z.max 0 fc) /\ breakType (r !!! i) = HardBreak).
Proof.
  unfold clusterStep.
  set (r1 := alter (fun cr => set_middle (visualIndex cr =? -1) cr) i r).
  assert (Hr1 : forall m, breakType (r1 !!! m) = breakType (r !!! m)).
  { intros m. subst r1. frame_field breakType. reflexivity. }
  destruct (addressable (r1 !!! i) && negb (middle (r1 !!! i))); cbn [fst snd].
  - match goal with |- context [if ?b then _ else _] => destruct b end;
      frame_field breakType; rewrite Hr1; auto.
  - set (fC := Z.to_nat (Z.max 0 fc)).
    set (r2 := if Bool.eqb (QChar_isSpace (text !!! fC)) (QChar_isSpace (text !!! i))
               then _ else r1).
    assert (Hr2 : breakType (r2 !!! q) = HardBreak ->
                  breakType (r !!! q) = HardBreak
                  \/ (q = fC /\ breakType (r !!! i) = HardBreak)).
    { subst r2. destruct (Bool.eqb _ _); [|rewrite Hr1; auto].
      set (ra := if negb (BreakType_eqb (breakType (r1 !!! fC)) HardBreak)
                 then alter (set_breakType (breakType (r1 !!! i))) fC r1 else r1).
      assert (Ha : breakType (ra !!! q) = HardBreak ->
                   breakType (r !!! q) = HardBreak
                   \/ (q = fC /\ breakType (r !!! i) = HardBreak)).
      { subst ra. destruct (negb _); [|rewrite Hr1; auto].
        rewrite list_lookup_total_alter. case_decide as Hd; [|rewrite Hr1; auto].
        destruct Hd as [<- _]. cbn. rewrite Hr1. auto. }
      repeat match goal with
             | |- context [if ?b then _ else _] =>
                 lazymatch b with
                 | LineEdgeBehaviour_eqb _ _ => destruct b
                 end
             end;
        frame_field breakType; exact Ha. }
    set (r3 := if gbn && addressable (r2 !!! i) && (plaintTextIndex (r2 !!! i) >? -1)
               then _ else r2).
    assert (Hr3 : breakType (r3 !!! q) = breakType (r2 !!! q)).
    { subst r3.
      match goal with |- context [if ?b then _ else _] => destruct b end; [|reflexivity].
      apply field_alter. intros x. reflexivity. }
    frame_field breakType. rewrite Hr3. exact Hr2.
Qed.

(** A hard break after the cluster loop was a hard break before it, of the
    same entry or of a later one. *)
Lemma clusterLoop_breakType_origin (text : list QChar) (graphemeBreaks : list Z)
    (r0 : list CharacterResult) (q : nat) :
  breakType (fst (fst (clusterLoop text graphemeBreaks r0)) !!! q) = HardBreak ->
  exists m, (q <= m)%nat /\ breakType (r0 !!! m) = HardBreak.
Proof.
  unfold clusterLoop.
  pose proof (for_range_ind
    (fun n (st : list CharacterResult * Z * bool) =>
       length (fst (fst st)) = length r0
       /\ snd (fst st) < Z.of_nat n
       /\ (forall k, breakType (fst (fst st) !!! k) = HardBreak ->
             exists m, (k <= m)%nat /\ breakType (r0 !!! m) = HardBreak))
    0%nat (length r0) (clusterStep text graphemeBreaks) (r0, -1, false)) as Hloop.
  destruct Hloop as (_ & _ & Hall); [lia| | |apply Hall].
  - cbn [fst snd]. split; [reflexivity|]. split; [lia|].
    intros k Hk. exists k. split; [lia | exact Hk].
  - intros n [[r fc] gbn] Hn (Hlen & Hfc & Hall). cbn [fst snd] in Hlen, Hfc, Hall.
    destruct (clusterStep_spec text graphemeBreaks n r fc gbn ltac:(lia))
      as (Slen & Sfc & _).
    split; [congruence|]. split; [rewrite Sfc; destruct (isVisible _); lia|].
    intros k Hk. apply clusterStep_breakType_origin in Hk.
    destruct Hk as [Hk|[-> Hk]]; [apply Hall; exact Hk|].
    destruct (Hall n Hk) as (m & Hm & Hhard).
    exists m. split; [lia | exact Hhard].
Qed.

(** An entry at the head of the array that is not visible ends at its own
    position plus its own advance: it stands in for the first character of
    its cluster. *)
Lemma clusterLoop_first_entry (text : list QChar) (graphemeBreaks : list Z)
    (r0 : list CharacterResult) :
  (0 < length r0)%nat ->
  isVisible (r0 !!! 0%nat) = false ->
  cssPosition (fst (fst (clusterLoop text graphemeBreaks r0)) !!! 0%nat)
  = QPointF_add (cssPosition (r0 !!! 0%nat)) (advance (r0 !!! 0%nat)).
Proof.
  intros Hlen Hfirst. unfold clusterLoop.
  rewrite for_range_step by exact Hlen.
  destruct (clusterStep_spec text graphemeBreaks 0 r0 (-1) false Hlen)
    as (Slen & _ & _ & _ & _ & _ & Sinv & _).
  destruct (Sinv Hfirst) as [_ Scss].
  change (Z.to_nat (Z.max 0 (-1))) with 0%nat in Scss.
  set (st1 := clusterStep text graphemeBreaks 0 (r0, -1, false)) in *.
  pose proof (for_range_ind
    (fun n (st : list CharacterResult * Z * bool) =>
       length (fst (fst st)) = length r0
       /\ cssPosition (fst (fst st) !!! 0%nat) = cssPosition (fst (fst st1) !!! 0%nat))
    1%nat (length r0) (clusterStep text graphemeBreaks) st1) as Hloop.
  destruct Hloop as [_ Hcss]; [lia | split; [exact Slen | reflexivity] | |].
  - intros n [[r' fc'] gbn'] Hn [Hlen' Hcss']. cbn [fst snd] in Hlen', Hcss'.
    destruct (clusterStep_spec text graphemeBreaks n r' fc' gbn' ltac:(lia))
      as (Tlen & _ & _ & Tother & _).
    split; [congruence|].
    destruct (Tother 0%nat ltac:(lia)) as (_ & _ & ->). exact Hcss'.
  - rewrite Hcss. exact Scss.
Qed.

(** ** The shaped result array (C1, C7) *)

Section Shaping.

Variable numChars : TextTree -> nat.
Variable mergeInParentTransformation :
  KoSvgText.CharTransformation -> KoSvgText.CharTransformation ->
  KoSvgText.CharTransformation.
Variable collapseSpaces : list QChar -> TextSpaceCollapse -> list QChar * list bool.
Variable collapseLastSpace : QChar -> TextSpaceCollapse -> bool.
Variable hangLastSpace :
  QChar -> TextSpaceCollapse -> KoSvgText.TextWrap -> bool -> bool * bool.
Variable characterCanHang : QChar -> HangKind -> bool.
Variable set_linebreaks_utf16 : list QChar -> list QChar -> nat -> Z.
Variable set_graphemebreaks_utf16 : list QChar -> list QChar -> nat -> Z.
Variable raqm_set_text_utf16 : list QChar -> bool.
Variable raqm_get_glyphs : list QChar -> option (list Raqm.raqm_glyph_t).
Variable raqm_direction_is_rtl : nat -> bool.
Variable loadGlyph :
  bool -> Z -> Raqm.raqm_glyph_t -> CharacterResult -> QPointF ->
  bool * CharacterResult * QPointF.

Local Abbreviation prepare :=
  (prepareText collapseSpaces set_linebreaks_utf16 set_graphemebreaks_utf16).
Local Abbreviation initial :=
  (initialCharacters numChars mergeInParentTransformation collapseLastSpace hangLastSpace
     characterCanHang raqm_set_text_utf16).
Local Abbreviation glyphs_of isHorizontal text glyphs result :=
  (fst (fst (fst (glyphLoop raqm_direction_is_rtl loadGlyph isHorizontal text glyphs result)))).
Local Abbreviation shape :=
  (shapeCharacters numChars mergeInParentTransformation collapseSpaces collapseLastSpace
     hangLastSpace characterCanHang set_linebreaks_utf16 set_graphemebreaks_utf16
     raqm_set_text_utf16 raqm_get_glyphs raqm_direction_is_rtl loadGlyph).

(** Before shaping no entry has a visual index. *)
Lemma initialCharacters_unshaped root textChunks props m :
  let p := prepare textChunks props in
  visualIndex (fst (initial root textChunks props p) !!! m) = -1.
Proof.
  intros p. unfold initialCharacters. cbn [fst].
  set (st1 := resolveTransforms _ _ _ _ _ _ _ _ _).
  assert (H1 : forall m, visualIndex (rs_result st1 !!! m) = -1).
  { intros k. subst st1. rewrite (resolveTransforms_frame _ _ visualIndex) by reflexivity.
    cbn [rs_result].
    rewrite (assignPlainTextIndices_frame visualIndex) by reflexivity.
    rewrite replicate_default_lookup. reflexivity. }
  set (chunked := if raqm_set_text_utf16 (pt_text p) then _ else _).
  assert (H2 : forall m, visualIndex (chunked !!! m) = -1).
  { intros k. subst chunked. destruct (raqm_set_text_utf16 _); [|apply H1].
    apply (foldl_preserves
      (fun s : list CharacterResult * nat => visualIndex (fst s !!! k) = -1));
      [apply H1|].
    intros [r start] chunk Hs. unfold applySubChunk. cbn [fst] in *.
    apply (for_range_preserves (fun r' => visualIndex (r' !!! k) = -1)); [exact Hs|].
    intros i r' Hr'.
    rewrite (chunkCharacter_frame _ _ _ visualIndex) by reflexivity. exact Hr'. }
  destruct (negb (isEmpty chunked)); [|apply H2].
  rewrite (field_alter visualIndex) by reflexivity. apply H2.
Qed.

(** What lines 460-576 establish once raqm has returned glyphs for a
    non-empty text; [shaped] is the array as the glyph loop leaves it. *)
Lemma shapeCharacters_spec root textChunks props glyphs :
  let p := prepare textChunks props in
  let shaped :=
    glyphs_of (isHorizontalMode props) (pt_text p) glyphs
      (fst (initial root textChunks props p)) in
  raqm_get_glyphs (pt_text p) = Some glyphs ->
  pt_collapsed p <> [] ->
  exists s,
    shape root textChunks props = Done s
    /\ length (sh_result s) = length (pt_collapsed p)
    /\ length shaped = length (pt_collapsed p)
    /\ sh_fC s = Z.to_nat (Z.max 0 (lastVisibleBefore shaped (length shaped)))
    /\ (sh_fC s < length (sh_result s))%nat
    /\ (forall m, addressable (sh_result s !!! m) = addressable (shaped !!! m) /\
                  visualIndex (sh_result s !!! m) = visualIndex (shaped !!! m) /\
                  advance (sh_result s !!! m) = advance (shaped !!! m))
    /\ (forall m, (m < length shaped)%nat ->
          middle (sh_result s !!! m) = (visualIndex (shaped !!! m) =? -1))
    /\ (forall m, (m < length shaped)%nat -> isVisible (shaped !!! m) = false ->
          hidden (sh_result s !!! m) = true /\
          let f := Z.to_nat (Z.max 0 (lastVisibleBefore shaped m)) in
          ((f < m)%nat ->
           cssPosition (sh_result s !!! m) =
             QPointF_add (cssPosition (sh_result s !!! f)) (advance (sh_result s !!! f))))
    /\ (forall m, breakType (shaped !!! m) = HardBreak ->
          breakType (sh_result s !!! m) = HardBreak)
    /\ (forall q, breakType (sh_result s !!! q) = HardBreak ->
          exists m, (q <= m)%nat /\ breakType (shaped !!! m) = HardBreak)
    /\ (isVisible (shaped !!! 0%nat) = false ->
        cssPosition (sh_result s !!! 0%nat)
        = QPointF_add (cssPosition (shaped !!! 0%nat)) (advance (shaped !!! 0%nat))).
Proof.
  intros p shaped Hglyphs Hne.
  destruct (initialCharacters_lengths numChars mergeInParentTransformation collapseSpaces
              collapseLastSpace hangLastSpace characterCanHang set_linebreaks_utf16
              set_graphemebreaks_utf16 raqm_set_text_utf16 root textChunks props)
    as [Hinit _].
  fold p in Hinit.
  assert (Hshaped : length shaped = length (pt_collapsed p)).
  { subst shaped. rewrite glyphLoop_length. exact Hinit. }
  assert (Hpos : (0 < length shaped)%nat).
  { rewrite Hshaped. destruct (pt_collapsed p); [contradiction|simpl; lia]. }
  destruct (clusterLoop_spec (pt_text p) (pt_graphemeBreaks p) shaped)
    as (Clen & Cfc & Csame & Cmid & Chid & Cbrk).
  pose proof (clusterLoop_breakType_origin (pt_text p) (pt_graphemeBreaks p) shaped)
    as Corigin.
  pose proof (clusterLoop_first_entry (pt_text p) (pt_graphemeBreaks p) shaped Hpos)
    as Cfirst.
  unfold shapeCharacters. fold p.
  destruct (initial root textChunks props p) as [r0 resolved0] eqn:Hi0.
  rewrite Hglyphs.
  cbn [fst] in shaped.
  destruct (glyphLoop raqm_direction_is_rtl loadGlyph (isHorizontalMode props)
              (pt_text p) glyphs r0) as [[[rg total] l2v] isBidi] eqn:Hg.
  cbn [fst] in shaped. fold shaped in Clen, Cfc, Csame, Cmid, Chid, Cbrk, Corigin, Cfirst.
  subst shaped.
  destruct (clusterLoop (pt_text p) (pt_graphemeBreaks p) rg)
    as [[R fc] gbn] eqn:Hc.
  cbn [fst snd] in Clen, Cfc, Csame, Cmid, Chid, Cbrk, Corigin, Cfirst.
  pose proof (lastVisibleBefore_bound rg (length rg)) as Hbound.
  assert (HfC : (Z.to_nat (Z.max 0 fc) < length R)%nat) by lia.
  destruct (lookup_lt_is_Some_2 R _ HfC) as [first Hfirst].
  rewrite Hfirst.
  set (Rf := if isEmpty (graphemeIndices (cursorInfo first)) || gbn then _ else R).
  assert (Hframe : forall {B : Type} (F : CharacterResult -> B) m,
             (forall v x, F (set_cursorInfo v x) = F x) -> F (Rf !!! m) = F (R !!! m)).
  { intros B F m HF. subst Rf. destruct (_ || _); [|reflexivity].
    apply field_alter. intros x. apply HF. }
  assert (Hlenf : length Rf = length R).
  { subst Rf. destruct (_ || _); [apply length_alter|reflexivity]. }
  eexists. split; [reflexivity|]. cbn [sh_result sh_fC].
  split; [congruence|]. split; [exact Hshaped|].
  split; [rewrite Cfc; reflexivity|].
  split; [lia|].
  split.
  { intros m. rewrite !Hframe by reflexivity. apply Csame. }
  split.
  { intros m Hm. rewrite Hframe by reflexivity. apply Cmid. exact Hm. }
  split.
  { intros m Hm Hinv. rewrite !Hframe by reflexivity. apply Chid; assumption. }
  split.
  { intros m Hm. rewrite Hframe by reflexivity. apply Cbrk. exact Hm. }
  split.
  { intros q Hq. rewrite Hframe in Hq by reflexivity. apply Corigin. exact Hq. }
  intros Hfirst0. rewrite Hframe by reflexivity. apply Cfirst. exact Hfirst0.
Qed.

(** The shaping stage ends in one of three ways: the shaper returns no
    glyphs and [relayout] returns at line 469; it returns glyphs for an
    empty text, and line 574 reads the first entry of an empty array; or
    it completes. *)
Lemma shapeCharacters_outcome root textChunks props :
  let p := prepare textChunks props in
  match shape root textChunks props with
  | NoGlyphs => raqm_get_glyphs (pt_text p) = None
  | OutOfBounds => raqm_get_glyphs (pt_text p) <> None /\ pt_collapsed p = []
  | Done s => exists glyphs,
      raqm_get_glyphs (pt_text p) = Some glyphs /\ pt_collapsed p <> []
  end.
Proof.
  intros p.
  destruct (raqm_get_glyphs (pt_text p)) as [glyphs|] eqn:Hglyphs.
  - destruct (pt_collapsed p) as [|c0 rest] eqn:Hcollapsed.
    + destruct (initialCharacters_lengths numChars mergeInParentTransformation
                  collapseSpaces collapseLastSpace hangLastSpace characterCanHang
                  set_linebreaks_utf16 set_graphemebreaks_utf16 raqm_set_text_utf16 root
                  textChunks props) as [Hinit _].
      fold p in Hinit. rewrite Hcollapsed in Hinit.
      unfold shapeCharacters. fold p.
      destruct (initial root textChunks props p) as [r0 resolved0].
      rewrite Hglyphs. cbn [fst] in Hinit.
      pose proof (glyphLoop_length raqm_direction_is_rtl loadGlyph (isHorizontalMode props)
                    (pt_text p) glyphs r0) as Hg.
      destruct (glyphLoop raqm_direction_is_rtl loadGlyph (isHorizontalMode props)
                  (pt_text p) glyphs r0) as [[[rg total] l2v] isBidi].
      cbn [fst] in Hg.
      destruct (clusterLoop_spec (pt_text p) (pt_graphemeBreaks p) rg) as (Clen & _).
      destruct (clusterLoop (pt_text p) (pt_graphemeBreaks p) rg) as [[R fc] gbn].
      cbn [fst] in Clen.
      assert (HR : R = []) by (apply length_zero_iff_nil; cbn in Hinit; lia).
      subst R. cbn. split; [discriminate | reflexivity].
    + assert (Hne : pt_collapsed p <> []) by (rewrite Hcollapsed; discriminate).
      destruct (shapeCharacters_spec root textChunks props glyphs Hglyphs Hne)
        as (s & -> & _).
      exists glyphs. split; [reflexivity | discriminate].
  - unfold shapeCharacters. fold p.
    destruct (initial root textChunks props p) as [r0 resolved0].
    rewrite Hglyphs. reflexivity.
Qed.

Lemma shaped_visibility (shaped result : list CharacterResult) :
  (forall m, addressable (result !!! m) = addressable (shaped !!! m) /\
             visualIndex (result !!! m) = visualIndex (shaped !!! m) /\
             advance (result !!! m) = advance (shaped !!! m)) ->
  forall n, lastVisibleBefore result n = lastVisibleBefore shaped n.
Proof.
  intros Hsame n. apply lastVisibleBefore_ext. intros m. unfold isVisible.
  destruct (Hsame m) as (-> & -> & _). reflexivity.
Qed.

(** C7.  Once raqm has returned glyphs for a non-empty text, the result
    array still has one entry per code unit.  Every entry that was given
    no visual index is marked middle and hidden; its css position is the
    css position plus the advance of the last visible character before it,
    of the first entry when none is visible before it, and for the first
    entry itself its own position and advance as the glyph loop left them.
    A character of which no glyph is loaded, because the shaper returned
    none for its cluster or because [loadGlyph] returned false for each in
    its turn, is such an entry. *)
Theorem unshaped_characters_are_middle_and_hidden
    (root : TextTree) (textChunks : list SubChunk) (props : RootProperties)
    (glyphs : list Raqm.raqm_glyph_t) :
  let p := prepare textChunks props in
  let isHorizontal := isHorizontalMode props in
  let unshaped := fst (initial root textChunks props p) in
  let shaped := glyphs_of isHorizontal (pt_text p) glyphs unshaped in
  raqm_get_glyphs (pt_text p) = Some glyphs ->
  pt_collapsed p <> [] ->
  exists s,
    shape root textChunks props = Done s
    /\ length (sh_result s) = length (pt_collapsed p)
    /\ (forall i cr, sh_result s !! i = Some cr -> visualIndex cr = -1 ->
          middle cr = true /\ hidden cr = true /\
          let f := Z.to_nat (Z.max 0 (lastVisibleBefore (sh_result s) i)) in
          ((f < i)%nat ->
           cssPosition cr =
             QPointF_add (cssPosition (sh_result s !!! f)) (advance (sh_result s !!! f)))
          /\ (i = 0%nat ->
              cssPosition cr =
                QPointF_add (cssPosition (shaped !!! 0%nat)) (advance (shaped !!! 0%nat))))
    /\ (forall c, (c < length (pt_collapsed p))%nat ->
          clusterFails raqm_direction_is_rtl loadGlyph isHorizontal (pt_text p) glyphs
            unshaped c = true ->
          exists cr,
            sh_result s !! c = Some cr /\ visualIndex cr = -1
            /\ middle cr = true /\ hidden cr = true).
Proof.
  intros p isHorizontal unshaped shaped Hglyphs Hne.
  destruct (shapeCharacters_spec root textChunks props glyphs Hglyphs Hne)
    as (s & Hs & Hlen & Hshaped & HfC & HfClt & Hsame & Hmid & Hhid & Hbrk & _ & Hfirst).
  fold p isHorizontal unshaped shaped in Hlen, Hshaped, HfC, Hsame, Hmid, Hhid, Hbrk, Hfirst.
  assert (Hunshaped : forall i cr, sh_result s !! i = Some cr -> visualIndex cr = -1 ->
    middle cr = true /\ hidden cr = true /\
    let f := Z.to_nat (Z.max 0 (lastVisibleBefore (sh_result s) i)) in
    ((f < i)%nat ->
     cssPosition cr =
       QPointF_add (cssPosition (sh_result s !!! f)) (advance (sh_result s !!! f)))
    /\ (i = 0%nat ->
        cssPosition cr =
          QPointF_add (cssPosition (shaped !!! 0%nat)) (advance (shaped !!! 0%nat)))).
  { intros i cr Hi Hvi.
    assert (Hilt : (i < length shaped)%nat).
    { apply lookup_lt_Some in Hi. lia. }
    pose proof (list_lookup_total_correct _ _ _ Hi) as Hcr.
    assert (Hvs : visualIndex (shaped !!! i) = -1).
    { destruct (Hsame i) as (_ & <- & _). rewrite Hcr. exact Hvi. }
    assert (Hinv : isVisible (shaped !!! i) = false).
    { unfold isVisible. rewrite Hvs. apply andb_false_r. }
    destruct (Hhid i Hilt Hinv) as [Hh Hc].
    rewrite <- Hcr. split; [rewrite (Hmid i Hilt), Hvs; reflexivity|].
    split; [exact Hh|]. cbv zeta. split.
    - rewrite (shaped_visibility shaped (sh_result s) Hsame). exact Hc.
    - intros ->. apply Hfirst. exact Hinv. }
  exists s. split; [exact Hs|]. split; [exact Hlen|]. split; [exact Hunshaped|].
  intros c Hc Hfail.
  assert (Hclt : (c < length (sh_result s))%nat) by lia.
  destruct (lookup_lt_is_Some_2 _ _ Hclt) as [cr Hcr].
  assert (Hvi : visualIndex cr = -1).
  { rewrite <- (list_lookup_total_correct _ _ _ Hcr).
    destruct (Hsame c) as (_ & -> & _).
    subst shaped.
    rewrite list_lookup_total_alt, glyphLoop_cluster_fails by exact Hfail.
    rewrite <- list_lookup_total_alt.
    apply initialCharacters_unshaped. }
  exists cr. split; [exact Hcr|]. split; [exact Hvi|].
  destruct (Hunshaped c cr Hcr Hvi) as (Hm & Hh & _). split; assumption.
Qed.

(** C1, as the code has it.  The array built at line 206 has one entry
    per code unit of the collapsed text.  When the shaper returns no
    glyphs [relayout] returns at line 469 and inserts nothing, and nothing
    is inserted for an empty text; for a text that is not empty the
    shaping stage completes otherwise.  The array then still has
    one entry per code unit, and [fC] is the last visible (addressable,
    not middle) character, or the first character when none is visible.
    One synthetic entry with no advance along the line is inserted right
    after [fC] when the entry at [fC] is a hard break, and none
    otherwise.  As long as loading a glyph leaves the break type of a
    character alone, the entry is inserted when the line breaker classed
    [fC] as a mandatory break, the shaper accepted the text and the loop
    over the sub-chunks reached [fC]; and it is inserted only when the
    shaper accepted the text and that loop reached a code unit at or
    after [fC] that the line breaker classed as a mandatory break. *)
Theorem paragraph_end_follows_hard_break
    (root : TextTree) (textChunks : list SubChunk) (props : RootProperties) :
  let p := prepare textChunks props in
  let isHorizontal := isHorizontalMode props in
  length (fst (initial root textChunks props p)) = length (pt_collapsed p)
  /\ (raqm_get_glyphs (pt_text p) = None -> shape root textChunks props = NoGlyphs)
  /\ (pt_collapsed p = [] -> forall s, shape root textChunks props <> Done s)
  /\ (raqm_get_glyphs (pt_text p) <> None -> pt_collapsed p <> [] ->
      exists s, shape root textChunks props = Done s)
  /\ forall s, shape root textChunks props = Done s ->
       let c := appendParagraphEnd isHorizontal s in
       length (sh_result s) = length (pt_collapsed p)
       /\ (forall m, (m < length (sh_result s))%nat ->
             isVisible (sh_result s !!! m) =
               addressable (sh_result s !!! m) && negb (middle (sh_result s !!! m)))
       /\ sh_fC s =
            Z.to_nat (Z.max 0 (lastVisibleBefore (sh_result s) (length (sh_result s))))
       /\ (sh_fC s < length (sh_result s))%nat
       /\ (breakType (sh_result s !!! sh_fC s) = HardBreak ->
           paragraphEndInserted isHorizontal s)
       /\ (breakType (sh_result s !!! sh_fC s) <> HardBreak ->
           ch_result c = sh_result s /\ ch_dummyIndex c = -1)
       /\ ((forall h codepoint g cr total,
              breakType (snd (fst (loadGlyph h codepoint g cr total))) = breakType cr) ->
           (raqm_set_text_utf16 (pt_text p) = true ->
            sh_fC s ∈ chunkPositions textChunks 0 ->
            pt_lineBreaks p !!! sh_fC s = LINEBREAK_MUSTBREAK ->
            paragraphEndInserted isHorizontal s)
           /\ (paragraphEndInserted isHorizontal s ->
               raqm_set_text_utf16 (pt_text p) = true
               /\ exists m,
                    (sh_fC s <= m < length (pt_collapsed p))%nat
                    /\ m ∈ chunkPositions textChunks 0
                    /\ pt_lineBreaks p !!! m = LINEBREAK_MUSTBREAK)).
Proof.
  intros p isHorizontal.
  destruct (initialCharacters_lengths numChars mergeInParentTransformation collapseSpaces
              collapseLastSpace hangLastSpace characterCanHang set_linebreaks_utf16
              set_graphemebreaks_utf16 raqm_set_text_utf16 root textChunks props)
    as [Hinit _].
  fold p in Hinit.
  pose proof (shapeCharacters_outcome root textChunks props) as Houtcome.
  fold p in Houtcome.
  split; [exact Hinit|]. split; [|split; [|split]].
  { intros Hnone. destruct (shape root textChunks props) as [s| |];
      [destruct Houtcome as (glyphs & Hg & _); congruence
      |reflexivity
      |destruct Houtcome as [Hg _]; contradiction]. }
  { intros Hempty s Hdone. rewrite Hdone in Houtcome.
    destruct Houtcome as (glyphs & _ & Hne). contradiction. }
  { intros Hsome Hne. destruct (shape root textChunks props) as [s| |];
      [exists s; reflexivity | contradiction | destruct Houtcome as [_ He]; contradiction]. }
  intros s Hdone. rewrite Hdone in Houtcome.
  destruct Houtcome as (glyphs & Hglyphs & Hne).
  destruct (shapeCharacters_spec root textChunks props glyphs Hglyphs Hne)
    as (s' & Hs & Hlen & Hshaped & HfC & HfClt & Hsame & Hmid & Hhid & Hbrk & Horigin & _).
  rewrite Hdone in Hs. injection Hs as <-.
  fold p isHorizontal in Hlen, Hshaped, HfC, Hsame, Hmid, Hhid, Hbrk, Horigin.
  set (shaped := glyphs_of isHorizontal (pt_text p) glyphs
                   (fst (initial root textChunks props p))) in *.
  assert (Hinserted : breakType (sh_result s !!! sh_fC s) = HardBreak ->
                      paragraphEndInserted isHorizontal s).
  { intros Hhard. unfold paragraphEndInserted, appendParagraphEnd.
    rewrite (proj2 (BreakType_eqb_eq _ _) Hhard). cbn [ch_result ch_dummyIndex].
    replace (sh_fC s + 1)%nat with (S (sh_fC s)) by lia.
    split; [reflexivity|]. split.
    { unfold QVector_insert. rewrite length_app. cbn [length].
      rewrite length_take, length_drop. lia. }
    split; [reflexivity|].
    unfold paragraphEnd, isHorizontal. destruct (isHorizontalMode props); reflexivity. }
  assert (Hnone : breakType (sh_result s !!! sh_fC s) <> HardBreak ->
                  ch_result (appendParagraphEnd isHorizontal s) = sh_result s
                  /\ ch_dummyIndex (appendParagraphEnd isHorizontal s) = -1).
  { intros Hsoft. unfold appendParagraphEnd.
    destruct (BreakType_eqb (breakType (sh_result s !!! sh_fC s)) HardBreak) eqn:Hb;
      [apply BreakType_eqb_eq in Hb; contradiction|].
    split; reflexivity. }
  cbv zeta.
  split; [exact Hlen|]. split.
  { intros m Hm. unfold isVisible. rewrite (Hmid m) by lia.
    destruct (Hsame m) as (_ & -> & _). reflexivity. }
  split.
  { rewrite HfC, (shaped_visibility shaped (sh_result s) Hsame). congruence. }
  split; [exact HfClt|]. split; [exact Hinserted|]. split; [exact Hnone|].
  intros Hload.
  assert (Hglyph : forall m, breakType (shaped !!! m)
                             = breakType (fst (initial root textChunks props p) !!! m)).
  { intros m. subst shaped. apply glyphLoop_breakType. exact Hload. }
  split.
  - intros Haccepted Hreached Hmust. apply Hinserted, Hbrk. rewrite Hglyph.
    apply (initialCharacters_breakType numChars mergeInParentTransformation collapseSpaces
             collapseLastSpace hangLastSpace characterCanHang set_linebreaks_utf16
             set_graphemebreaks_utf16 raqm_set_text_utf16 root textChunks props (sh_fC s));
      [fold p; lia|].
    split; [exact Haccepted|]. split; [exact Hreached | exact Hmust].
  - intros Hin.
    assert (Hhard : breakType (sh_result s !!! sh_fC s) = HardBreak).
    { destruct (BreakType_eqb (breakType (sh_result s !!! sh_fC s)) HardBreak) eqn:Hb;
        [apply BreakType_eqb_eq; exact Hb|].
      assert (Hsoft : breakType (sh_result s !!! sh_fC s) <> HardBreak).
      { intros Hh. apply BreakType_eqb_eq in Hh. congruence. }
      destruct (Hnone Hsoft) as [Hsame' _].
      destruct Hin as (_ & Hgrown & _). rewrite Hsame' in Hgrown. lia. }
    destruct (Horigin _ Hhard) as (m & Hm & Hshapedm).
    rewrite Hglyph in Hshapedm.
    assert (Hmlt : (m < length (pt_collapsed p))%nat).
    { destruct (decide (m < length (pt_collapsed p))%nat) as [Hlt|Hge]; [exact Hlt|].
      rewrite list_lookup_total_alt in Hshapedm.
      rewrite (proj2 (lookup_ge_None _ _)) in Hshapedm by (rewrite Hinit; lia).
      discriminate Hshapedm. }
    apply (initialCharacters_breakType numChars mergeInParentTransformation collapseSpaces
             collapseLastSpace hangLastSpace characterCanHang set_linebreaks_utf16
             set_graphemebreaks_utf16 raqm_set_text_utf16 root textChunks props m Hmlt)
      in Hshapedm.
    destruct Hshapedm as (Haccepted & Hreached & Hmust).
    split; [exact Haccepted|]. exists m. split; [lia|]. split; assumption.
Qed.

End Shaping.

(** ** Examples for the shaping stage *)

(** "AB\n", laid out horizontally with the reference services: three
    entries, the last of them a hard break, and a fourth, synthetic one. *)
Example shaping_example_lengths :
  match Reference.shapeCharacters (TextNode (Reference.plainElement [65; 66; 10] []) [])
          [Reference.plainChunk [65; 66; 10]] Reference.horizontalProperties with
  | Done s =>
      sh_text s = [65; 66; 32] /\ length (sh_result s) = 3%nat /\ sh_fC s = 2%nat /\
      length (ch_result (appendParagraphEnd true s)) = 4%nat
  | _ => False
  end.
Proof. vm_compute. repeat split; reflexivity. Qed.

(** C10, witness: the theorem at the text "AB". *)
Lemma first_character_starts_anchored_chunk_witness :
  exists cr,
    fst (Reference.initialCharacters (TextNode (Reference.plainElement [65; 66] []) [])
           [Reference.plainChunk [65; 66]] Reference.horizontalProperties
           (Reference.prepareText [Reference.plainChunk [65; 66]]
              Reference.horizontalProperties)) !! 0%nat = Some cr /\
    anchored_chunk cr = true.
Proof.
  refine (proj1 (first_character_starts_anchored_chunk Reference.numChars
    Reference.mergeInParentTransformation Reference.collapseSpaces
    Reference.collapseLastSpace Reference.hangLastSpace Reference.characterCanHang
    Reference.set_linebreaks_utf16 Reference.set_graphemebreaks_utf16
    Reference.raqm_set_text_utf16
    (TextNode (Reference.plainElement [65; 66] []) [])
    [Reference.plainChunk [65; 66]] Reference.horizontalProperties _)).
  vm_compute. discriminate.
Defined.

(** C7, witness: the theorem at the text "AB" when the glyph of "B" fails
    to load.  "B" keeps its entry, which is middle and hidden and sits at
    the end of "A". *)
Lemma unshaped_characters_are_middle_and_hidden_witness :
  exists s,
    shapeCharacters Reference.numChars Reference.mergeInParentTransformation
      Reference.collapseSpaces Reference.collapseLastSpace Reference.hangLastSpace
      Reference.characterCanHang Reference.set_linebreaks_utf16
      Reference.set_graphemebreaks_utf16 Reference.raqm_set_text_utf16
      Reference.raqm_get_glyphs Reference.raqm_direction_is_rtl loadGlyphExceptB
      (TextNode (Reference.plainElement [65; 66] []) [])
      [Reference.plainChunk [65; 66]] Reference.horizontalProperties = Done s
    /\ length (sh_result s) = 2%nat
    /\ exists cr,
         sh_result s !! 1%nat = Some cr
         /\ visualIndex cr = -1 /\ middle cr = true /\ hidden cr = true
         /\ cssPosition cr
            = QPointF_add (cssPosition (sh_result s !!! 0%nat))
                (advance (sh_result s !!! 0%nat)).
Proof.
  destruct (unshaped_characters_are_middle_and_hidden Reference.numChars
    Reference.mergeInParentTransformation Reference.collapseSpaces
    Reference.collapseLastSpace Reference.hangLastSpace Reference.characterCanHang
    Reference.set_linebreaks_utf16 Reference.set_graphemebreaks_utf16
    Reference.raqm_set_text_utf16 Reference.raqm_get_glyphs
    Reference.raqm_direction_is_rtl loadGlyphExceptB
    (TextNode (Reference.plainElement [65; 66] []) [])
    [Reference.plainChunk [65; 66]] Reference.horizontalProperties
    [Raqm.mkGlyph 65 0%nat; Raqm.mkGlyph 66 1%nat] eq_refl
    ltac:(vm_compute; discriminate)) as (s & Hs & Hlen & Hunshaped & Hfails).
  destruct (Hfails 1%nat ltac:(vm_compute; lia) ltac:(vm_compute; reflexivity))
    as (cr & Hcr & Hvi & Hmid & Hhid).
  destruct (Hunshaped 1%nat cr Hcr Hvi) as (_ & _ & Hcss & _).
  exists s. split; [exact Hs|]. split; [exact Hlen|].
  exists cr. split; [exact Hcr|]. split; [exact Hvi|]. split; [exact Hmid|].
  split; [exact Hhid|].
  pose proof (lastVisibleBefore_bound (sh_result s) 1) as Hbound.
  replace (Z.to_nat (Z.max 0 (lastVisibleBefore (sh_result s) 1))) with 0%nat in Hcss
    by lia.
  apply Hcss. lia.
Defined.

(** C1, witness: the theorem at the text "AB\n".  The line feed is the last
    visible character and a mandatory break, so the synthetic entry is
    inserted behind it, and it has no advance. *)
Lemma paragraph_end_follows_hard_break_witness :
  paragraphEndInserted true shapedExample
  /\ sh_fC shapedExample = 2%nat
  /\ map (fun cr => px (advance cr)) (ch_result (appendParagraphEnd true shapedExample))
     = [10%float; 10%float; 10%float; 0%float].
Proof.
  split; [|split; vm_compute; reflexivity].
  destruct (paragraph_end_follows_hard_break Reference.numChars
    Reference.mergeInParentTransformation Reference.collapseSpaces
    Reference.collapseLastSpace Reference.hangLastSpace Reference.characterCanHang
    Reference.set_linebreaks_utf16 Reference.set_graphemebreaks_utf16
    Reference.raqm_set_text_utf16 Reference.raqm_get_glyphs
    Reference.raqm_direction_is_rtl Reference.loadGlyph
    (TextNode (Reference.plainElement [65; 66; 10] []) [])
    [Reference.plainChunk [65; 66; 10]] Reference.horizontalProperties)
    as (_ & _ & _ & _ & Hdone).
  destruct (Hdone shapedExample ltac:(vm_compute; reflexivity))
    as (_ & _ & _ & _ & _ & _ & Hbreaks).
  destruct (Hbreaks ltac:(intros; reflexivity)) as [Hwhen _].
  apply Hwhen.
  - reflexivity.
  - apply list_elem_of_In. vm_compute. auto.
  - vm_compute. reflexivity.
Defined.

(** C1, counterexample to "when, and only when, the last visible character
    is a mandatory line break".
    First input: the text is a single line feed and its glyph fails to load.
    No entry is visible, and the synthetic entry is inserted all the same.
    Second input: a space followed by a line feed, of which raqm returns a
    glyph for the space only.  The last visible character is the space, which
    the line breaker did not class as a mandatory break and which is no hard
    break when shaping is done; the cluster loop hands it the hard break of
    the line feed, and the synthetic entry is inserted.
    Third input: "A" and a line feed, for which the shaper returns no glyphs.
    Both entries are addressable and not middle and the last is a mandatory
    break, but [relayout] returns at line 469 and inserts nothing. *)
Lemma paragraph_end_without_visible_hard_break :
  (exists s,
     shapeCharacters Reference.numChars Reference.mergeInParentTransformation
       Reference.collapseSpaces Reference.collapseLastSpace Reference.hangLastSpace
       Reference.characterCanHang Reference.set_linebreaks_utf16
       Reference.set_graphemebreaks_utf16 Reference.raqm_set_text_utf16
       Reference.raqm_get_glyphs Reference.raqm_direction_is_rtl
       (fun _ _ _ cr total => (false, cr, total))
       (TextNode (Reference.plainElement [10] []) [])
       [Reference.plainChunk [10]] Reference.horizontalProperties = Done s
     /\ map (fun cr => addressable cr && negb (middle cr)) (sh_result s) = [false]
     /\ length (ch_result (appendParagraphEnd true s)) = 2%nat)
  /\
  (exists s,
     shapeCharacters Reference.numChars Reference.mergeInParentTransformation
       Reference.collapseSpaces Reference.collapseLastSpace Reference.hangLastSpace
       Reference.characterCanHang Reference.set_linebreaks_utf16
       Reference.set_graphemebreaks_utf16 Reference.raqm_set_text_utf16
       (fun _ => Some [Raqm.mkGlyph 3 0%nat]) Reference.raqm_direction_is_rtl
       Reference.loadGlyph
       (TextNode (Reference.plainElement [32; 10] []) [])
       [Reference.plainChunk [32; 10]] Reference.horizontalProperties = Done s
     /\ sh_lineBreaks s = [LINEBREAK_ALLOWBREAK; LINEBREAK_MUSTBREAK]
     /\ map (fun cr => addressable cr && negb (middle cr)) (sh_result s) = [true; false]
     /\ breakType
          (fst (fst (fst
             (glyphLoop Reference.raqm_direction_is_rtl Reference.loadGlyph true [32; 32]
                [Raqm.mkGlyph 3 0%nat]
                (fst (Reference.initialCharacters
                        (TextNode (Reference.plainElement [32; 10] []) [])
                        [Reference.plainChunk [32; 10]] Reference.horizontalProperties
                        (Reference.prepareText [Reference.plainChunk [32; 10]]
                           Reference.horizontalProperties)))))) !!! 0%nat) = NoBreak
     /\ length (ch_result (appendParagraphEnd true s)) = 3%nat)
  /\
  (shapeCharacters Reference.numChars Reference.mergeInParentTransformation
     Reference.collapseSpaces Reference.collapseLastSpace Reference.hangLastSpace
     Reference.characterCanHang Reference.set_linebreaks_utf16
     Reference.set_graphemebreaks_utf16 Reference.raqm_set_text_utf16
     (fun _ => None) Reference.raqm_direction_is_rtl Reference.loadGlyph
     (TextNode (Reference.plainElement [65; 10] []) [])
     [Reference.plainChunk [65; 10]] Reference.horizontalProperties = NoGlyphs
   /\ pt_lineBreaks
        (Reference.prepareText [Reference.plainChunk [65; 10]] Reference.horizontalProperties)
      = [LINEBREAK_NOBREAK; LINEBREAK_MUSTBREAK]
   /\ map (fun cr => addressable cr && negb (middle cr))
        (fst (Reference.initialCharacters
                (TextNode (Reference.plainElement [65; 10] []) [])
                [Reference.plainChunk [65; 10]] Reference.horizontalProperties
                (Reference.prepareText [Reference.plainChunk [65; 10]]
                   Reference.horizontalProperties)))
      = [true; true]).
Proof.
  split; [|split].
  - eexists. split; [vm_compute; reflexivity|]. vm_compute. repeat split; reflexivity.
  - eexists. split; [vm_compute; reflexivity|]. vm_compute. repeat split; reflexivity.
  - vm_compute. repeat split; reflexivity.
Qed.

(** ** Non-finite numbers *)

Lemma qreal_of_int_zero : qreal_of_int 0 = 0%float.
Proof. reflexivity. Qed.

(** A division by zero has no finite result, whatever the dividend. *)
Lemma division_by_zero_is_not_finite (x : qreal) : qIsFinite (x / 0)%float = false.
Proof.
  unfold qIsFinite. rewrite div_spec.
  change (Prim2SF 0%float) with (S754_zero false).
  destruct (Prim2SF x); reflexivity.
Qed.

(** A sum with a non-finite term is not finite. *)
Lemma sum_with_non_finite_r (x y : qreal) :
  qIsFinite y = false -> qIsFinite (x + y)%float = false.
Proof.
  unfold qIsFinite. rewrite add_spec.
  destruct (Prim2SF x) as [sx|sx| |sx mx ex], (Prim2SF y) as [sy|sy| |sy my ey];
    try discriminate; intros _; try reflexivity;
    destruct sx, sy; reflexivity.
Qed.

Lemma sum_with_non_finite_l (x y : qreal) :
  qIsFinite x = false -> qIsFinite (x + y)%float = false.
Proof.
  unfold qIsFinite. rewrite add_spec.
  destruct (Prim2SF x) as [sx|sx| |sx mx ex], (Prim2SF y) as [sy|sy| |sy my ey];
    try discriminate; intros _; try reflexivity;
    destruct sx, sy; reflexivity.
Qed.

(** A quotient, a product or a sum with a non-finite operand is not
    finite. *)
Lemma quotient_of_non_finite (x y : qreal) :
  qIsFinite x = false -> qIsFinite (x / y)%float = false.
Proof.
  unfold qIsFinite. rewrite div_spec.
  destruct (Prim2SF x) as [sx|sx| |sx mx ex], (Prim2SF y) as [sy|sy| |sy my ey];
    try discriminate; intros _; reflexivity.
Qed.

Lemma product_with_non_finite_l (x y : qreal) :
  qIsFinite x = false -> qIsFinite (x * y)%float = false.
Proof.
  unfold qIsFinite. rewrite mul_spec.
  destruct (Prim2SF x) as [sx|sx| |sx mx ex], (Prim2SF y) as [sy|sy| |sy my ey];
    try discriminate; intros _; reflexivity.
Qed.

Lemma product_with_non_finite_r (x y : qreal) :
  qIsFinite y = false -> qIsFinite (x * y)%float = false.
Proof.
  unfold qIsFinite. rewrite mul_spec.
  destruct (Prim2SF x) as [sx|sx| |sx mx ex], (Prim2SF y) as [sy|sy| |sy my ey];
    try discriminate; intros _; reflexivity.
Qed.

(** A non-finite number is neither zero nor one. *)
Lemma non_finite_is_not_zero (x : qreal) : qIsFinite x = false -> qNotZero x = true.
Proof.
  unfold qIsFinite, qNotZero. rewrite FloatAxioms.eqb_spec.
  change (Prim2SF 0%float) with (S754_zero false).
  destruct (Prim2SF x) as [sx|sx| |sx mx ex]; try discriminate; intros _;
    try reflexivity; destruct sx; reflexivity.
Qed.

Lemma non_finite_is_not_one (x : qreal) : qIsFinite x = false -> (x =? 1)%float = false.
Proof.
  unfold qIsFinite. rewrite FloatAxioms.eqb_spec.
  destruct (Prim2SF x) as [sx|sx| |sx mx ex]; try discriminate; intros _;
    try reflexivity; destruct sx; reflexivity.
Qed.

Lemma axisPosition_add (isHorizontal : bool) (p q : QPointF) :
  axisPosition isHorizontal (QPointF_add p q) =
    (axisPosition isHorizontal p + axisPosition isHorizontal q)%float.
Proof. destruct isHorizontal; reflexivity. Qed.

(** ** applyTextLength (C3) *)

(** Once the running shift is not finite it stays so. *)
Lemma stretchStep_keeps_non_finite (isHorizontal spacingAndGlyphs : bool) (d : QPointF)
    (visualToLogical : QMap) (lastKey : Z) (keys : list Z)
    (st : list CharacterResult * QPointF * bool) :
  qIsFinite (axisPosition isHorizontal (snd (fst st))) = false ->
  qIsFinite (axisPosition isHorizontal
               (snd (fst (foldl (stretchStep spacingAndGlyphs d visualToLogical lastKey)
                            st keys)))) = false.
Proof.
  revert st. induction keys as [|k keys IH]; intros st Hst; [exact Hst|].
  simpl. apply IH.
  destruct st as [[result shift] second]. unfold stretchStep. cbn [fst snd] in *.
  destruct (addressable _); [|exact Hst].
  match goal with
  | |- context [if negb (?a && second) && negb ?l then _ else _] =>
      destruct (negb (a && second) && negb l)
  end; cbn [fst snd].
  - rewrite axisPosition_add. apply sum_with_non_finite_l. exact Hst.
  - exact Hst.
Qed.

(** In spacing-and-glyphs mode the first character in visual order adds [d]
    to the shift. *)
Lemma stretchStep_first_adds_delta (d : QPointF)
    (visualToLogical : QMap) (lastKey k : Z) (result : list CharacterResult) :
  addressable (result !!! Z.to_nat (QMap_value k visualToLogical)) = true ->
  snd (fst (stretchStep true d visualToLogical lastKey (result, QPointF_null, false) k))
  = QPointF_add QPointF_null d.
Proof.
  intros Haddr. unfold stretchStep. rewrite Haddr. cbn [fst snd].
  rewrite andb_false_r. reflexivity.
Qed.

Lemma QMap_insert_elem (k v key val : Z) (m : QMap) :
  (key, val) ∈ QMap_insert k v m -> (key, val) = (k, v) \/ (key, val) ∈ m.
Proof.
  induction m as [|[k' v'] m IH]; cbn [QMap_insert]; intros Hin.
  - apply list_elem_of_singleton in Hin. left; exact Hin.
  - destruct (k <? k').
    + apply elem_of_cons in Hin. destruct Hin; auto.
    + destruct (k =? k').
      * apply elem_of_cons in Hin. destruct Hin as [|Hin]; auto.
        right. apply elem_of_cons. auto.
      * apply elem_of_cons in Hin. destruct Hin as [Heq|Hin].
        -- right. apply elem_of_cons. left. exact Heq.
        -- destruct (IH Hin); auto. right. apply elem_of_cons. auto.
Qed.

Lemma QMap_value_elem (k : Z) (m : QMap) :
  k ∈ QMap_keys m -> (k, QMap_value k m) ∈ m.
Proof.
  induction m as [|[k' v'] m IH]; cbn; intros Hin.
  - inversion Hin.
  - destruct (Z.eqb_spec k k') as [->|Hne].
    + apply elem_of_cons. left. reflexivity.
    + apply elem_of_cons in Hin. destruct Hin as [Heq|Hin]; [contradiction|].
      apply elem_of_cons. right. apply IH. exact Hin.
Qed.

Lemma notStretchedYet_succ (result : list CharacterResult) (i k : nat) :
  (i <= k)%nat ->
  notStretchedYet result i (S k)
  = notStretchedYet result i k
    + (if addressable (result !!! k) && negb (textLengthApplied (result !!! k))
       then 1 else 0).
Proof.
  intros Hle. unfold notStretchedYet.
  replace (S k - i)%nat with (S (k - i)) by lia.
  rewrite seq_S, List.filter_app, length_app.
  replace (i + (k - i))%nat with k by lia. cbn [List.filter].
  destruct (addressable (result !!! k) && negb (textLengthApplied (result !!! k)));
    cbn [length]; lia.
Qed.

(** Lines 925-949: the count is that of the addressable characters of the
    node that are not stretched yet, and the map holds addressable
    characters of the node under their visual index. *)
Lemma textLengthExtent_spec (isHorizontal : bool) (result : list CharacterResult)
    (i j : nat) :
  let st :=
    for_range i j (textLengthExtentStep isHorizontal result i)
      (0%float, 0%float, 0, []) in
  snd (fst st) = notStretchedYet result i j
  /\ forall key val, (key, val) ∈ snd st ->
       exists m, val = Z.of_nat m /\ (i <= m < j)%nat
                 /\ addressable (result !!! m) = true
                 /\ visualIndex (result !!! m) = key.
Proof.
  cbv zeta. destruct (decide (i <= j)%nat) as [Hle|Hgt].
  - apply (for_range_ind
             (fun k (st : qreal * qreal * Z * QMap) =>
                snd (fst st) = notStretchedYet result i k
                /\ forall key val, (key, val) ∈ snd st ->
                     exists m, val = Z.of_nat m /\ (i <= m < k)%nat
                               /\ addressable (result !!! m) = true
                               /\ visualIndex (result !!! m) = key)); [exact Hle | |].
    + cbn [fst snd]. split.
      * unfold notStretchedYet. rewrite Nat.sub_diag. reflexivity.
      * intros key val Hin. inversion Hin.
    + intros k [[[a b] n] visualToLogical] Hk [Hn Hmap]. cbn [fst snd] in Hn, Hmap.
      unfold textLengthExtentStep. rewrite notStretchedYet_succ by lia.
      destruct (addressable (result !!! k)) eqn:Haddr; cbn [andb].
      * assert (Hin' : forall key val,
          (key, val) ∈ (if visualIndex (result !!! k) >? -1
                        then QMap_insert (visualIndex (result !!! k)) (Z.of_nat k)
                               visualToLogical
                        else visualToLogical) ->
          exists m, val = Z.of_nat m /\ (i <= m < S k)%nat
                    /\ addressable (result !!! m) = true
                    /\ visualIndex (result !!! m) = key).
        { intros key val Hin.
          assert (Hcases : (key, val) = (visualIndex (result !!! k), Z.of_nat k)
                           \/ (key, val) ∈ visualToLogical).
          { destruct (visualIndex (result !!! k) >? -1); [|right; exact Hin].
            apply QMap_insert_elem. exact Hin. }
          destruct Hcases as [Heq|Hold].
          - injection Heq as -> ->. exists k. repeat split; auto; lia.
          - destruct (Hmap key val Hold) as (m & -> & Hm & Hrest).
            exists m. split; [reflexivity|]. split; [lia | exact Hrest]. }
        destruct (k =? i)%nat; cbn [fst snd];
          (split; [destruct (negb (textLengthApplied (result !!! k))); lia | exact Hin']).
      * cbn [fst snd]. split; [lia|].
        intros key val Hin. destruct (Hmap key val Hin) as (m & -> & Hm & Hrest).
        exists m. split; [reflexivity|]. split; [lia | exact Hrest].
  - rewrite for_range_empty by lia. cbn [fst snd]. split.
    + unfold notStretchedYet. replace (j - i)%nat with 0%nat by lia. reflexivity.
    + intros key val Hin. inversion Hin.
Qed.

Lemma sameFlags_refl (result : list CharacterResult) : sameFlags result result.
Proof. split; [reflexivity | intros q; auto]. Qed.

Lemma sameFlags_trans (r1 r2 r3 : list CharacterResult) :
  sameFlags r1 r2 -> sameFlags r2 r3 -> sameFlags r1 r3.
Proof.
  intros [Hlen1 H1] [Hlen2 H2]. split; [congruence|].
  intros q. destruct (H1 q) as (A1 & B1 & C1), (H2 q) as (A2 & B2 & C2).
  repeat split; congruence.
Qed.

(** What one turn of the loop of lines 961-984 does to the entries, in
    spacing-and-glyphs mode: it keeps what is not finite, and the character
    of the turn takes the shift into its position and the quotient into its
    advance. *)
Lemma stretchStep_entries (isHorizontal : bool) (d : QPointF) (visualToLogical : QMap)
    (lastKey k : Z) (result : list CharacterResult) (shift : QPointF) (second : bool) :
  let logical := Z.to_nat (QMap_value k visualToLogical) in
  let result' :=
    fst (fst (stretchStep true d visualToLogical lastKey (result, shift, second) k)) in
  sameFlags result result'
  /\ (forall q, positionNotFinite isHorizontal (result !!! q) ->
                positionNotFinite isHorizontal (result' !!! q))
  /\ (forall q, advanceNotFinite isHorizontal (result !!! q) ->
                advanceNotFinite isHorizontal (result' !!! q))
  /\ ((logical < length result)%nat -> addressable (result !!! logical) = true ->
      (qIsFinite (axisPosition isHorizontal shift) = false ->
       positionNotFinite isHorizontal (result' !!! logical))
      /\ (qIsFinite (axisPosition isHorizontal d) = false ->
          advanceNotFinite isHorizontal (result' !!! logical))).
Proof.
  cbv zeta. unfold stretchStep.
  set (logical := Z.to_nat (QMap_value k visualToLogical)).
  set (cr := result !!! logical).
  assert (Hmapped : forall tf p,
    qIsFinite (axisPosition isHorizontal p) = false ->
    qIsFinite (axisPosition isHorizontal (QTransform_map tf p)) = false).
  { intros tf p Hp. unfold QTransform_map. destruct (QTransform_isIdentity tf); [exact Hp|].
    destruct isHorizontal; cbn [axisPosition px py] in *;
      apply sum_with_non_finite_l, product_with_non_finite_r; exact Hp. }
  destruct (addressable cr) eqn:Haddr.
  - match goal with
    | |- context [<[logical := ?e]> result] => set (cr' := e)
    end.
    cbn [fst snd].
    assert (Hflags : addressable cr' = addressable cr
                     /\ anchored_chunk cr' = anchored_chunk cr
                     /\ visualIndex cr' = visualIndex cr).
    { subst cr'. cbn [fst snd]. cbn [glyph set_finalPosition].
      destruct (glyph cr); repeat split; reflexivity. }
    assert (Hpos : finalPosition cr' = QPointF_add (finalPosition cr) shift).
    { subst cr'. cbn [fst snd]. cbn [glyph set_finalPosition].
      destruct (glyph cr); reflexivity. }
    assert (Hadv : advance cr' =
      QTransform_map
        (fromScale
           (if qNotZero (px d) then (px d / px (advance cr) + 1)%float else 1%float)
           (if qNotZero (py d) then (py d / py (advance cr) + 1)%float else 1%float))
        (advance cr)).
    { subst cr'. cbn [fst snd]. cbn [glyph set_finalPosition].
      destruct (glyph cr); reflexivity. }
    clearbody cr'.
    assert (Hat : forall q, q <> logical \/ ~ (logical < length result)%nat ->
                            <[logical := cr']> result !!! q = result !!! q).
    { intros q Hq. rewrite list_lookup_total_insert. case_decide as Hd; [|reflexivity].
      destruct Hd as [-> Hlt]. destruct Hq; contradiction. }
    assert (Hhere : (logical < length result)%nat ->
                    <[logical := cr']> result !!! logical = cr').
    { intros Hlt. rewrite list_lookup_total_insert. case_decide as Hd; [reflexivity|].
      exfalso. apply Hd. auto. }
    split; [|split; [|split]].
    + split; [apply length_insert|]. intros q.
      destruct (decide (q = logical /\ (logical < length result)%nat)) as [[-> Hlt]|Hno].
      * rewrite Hhere by exact Hlt. exact Hflags.
      * rewrite Hat; [auto|]. destruct (decide (q = logical)); [right|left]; tauto.
    + intros q Hq.
      destruct (decide (q = logical /\ (logical < length result)%nat)) as [[-> Hlt]|Hno].
      * rewrite Hhere by exact Hlt. unfold positionNotFinite in *.
        rewrite Hpos, axisPosition_add. apply sum_with_non_finite_l. exact Hq.
      * rewrite Hat; [exact Hq|]. destruct (decide (q = logical)); [right|left]; tauto.
    + intros q Hq.
      destruct (decide (q = logical /\ (logical < length result)%nat)) as [[-> Hlt]|Hno].
      * rewrite Hhere by exact Hlt. unfold advanceNotFinite in *.
        rewrite Hadv. apply Hmapped. exact Hq.
      * rewrite Hat; [exact Hq|]. destruct (decide (q = logical)); [right|left]; tauto.
    + intros Hlt _. rewrite Hhere by exact Hlt. split.
      * intros Hshift. unfold positionNotFinite.
        rewrite Hpos, axisPosition_add. apply sum_with_non_finite_r. exact Hshift.
      * intros Hd. unfold advanceNotFinite. rewrite Hadv.
        unfold QTransform_map, QTransform_isIdentity. cbn [m11 m22].
        destruct isHorizontal; cbn [axisPosition] in Hd |- *.
        -- rewrite (non_finite_is_not_zero _ Hd).
           assert (Hscale : qIsFinite (px d / px (advance cr) + 1)%float = false)
             by (apply sum_with_non_finite_l, quotient_of_non_finite; exact Hd).
           rewrite (non_finite_is_not_one _ Hscale). cbn [andb px].
           apply sum_with_non_finite_l, product_with_non_finite_l. exact Hscale.
        -- rewrite (non_finite_is_not_zero _ Hd).
           assert (Hscale : qIsFinite (py d / py (advance cr) + 1)%float = false)
             by (apply sum_with_non_finite_l, quotient_of_non_finite; exact Hd).
           rewrite (non_finite_is_not_one _ Hscale), andb_false_r. cbn [py].
           apply sum_with_non_finite_l, product_with_non_finite_l. exact Hscale.
  - cbn [fst snd]. fold cr.
    assert (Hid : <[logical := cr]> result = result).
    { apply list_insert_id'. intros Hlt. subst cr.
      apply list_lookup_lookup_total_lt. exact Hlt. }
    rewrite Hid. split; [apply sameFlags_refl|]. split; [auto|]. split; [auto|].
    intros _ Habs. subst cr. congruence.
Qed.

(** The turns of the loop from a shift that is not finite: every character
    they visit ends at a position that is not finite. *)
Lemma stretchLoop_non_finite (isHorizontal : bool) (d : QPointF) (visualToLogical : QMap)
    (lastKey : Z) (result0 : list CharacterResult) (keys : list Z) :
  forall result shift second,
    sameFlags result0 result ->
    qIsFinite (axisPosition isHorizontal shift) = false ->
    (forall k, k ∈ keys ->
       (Z.to_nat (QMap_value k visualToLogical) < length result0)%nat
       /\ addressable (result0 !!! Z.to_nat (QMap_value k visualToLogical)) = true) ->
    let st :=
      foldl (stretchStep true d visualToLogical lastKey) (result, shift, second) keys in
    sameFlags result0 (fst (fst st))
    /\ qIsFinite (axisPosition isHorizontal (snd (fst st))) = false
    /\ (forall q, positionNotFinite isHorizontal (result !!! q) ->
                  positionNotFinite isHorizontal (fst (fst st) !!! q))
    /\ (forall q, advanceNotFinite isHorizontal (result !!! q) ->
                  advanceNotFinite isHorizontal (fst (fst st) !!! q))
    /\ (forall k, k ∈ keys ->
          positionNotFinite isHorizontal
            (fst (fst st) !!! Z.to_nat (QMap_value k visualToLogical))).
Proof.
  induction keys as [|k keys IH]; intros result shift second Hflags Hshift Hkeys; cbv zeta.
  - cbn [foldl fst snd]. repeat split; auto; try apply Hflags.
    intros k Hk. inversion Hk.
  - cbn [foldl].
    pose proof (stretchStep_entries isHorizontal d visualToLogical lastKey k result shift
                  second) as (Sflags & Spos & Sadv & Shere).
    pose proof (stretchStep_keeps_non_finite isHorizontal true d visualToLogical lastKey [k]
                  (result, shift, second) Hshift) as Sshift.
    cbn [foldl] in Sshift.
    destruct (stretchStep true d visualToLogical lastKey (result, shift, second) k)
      as [[r1 s1] b1].
    cbn [fst snd] in Sflags, Spos, Sadv, Shere, Sshift.
    destruct (Hkeys k ltac:(apply elem_of_cons; left; reflexivity)) as [Hlt Haddr].
    destruct Hflags as [Hlen Hq].
    destruct (Shere ltac:(lia) ltac:(rewrite (proj1 (Hq _)); exact Haddr)) as [Hpos _].
    specialize (Hpos Hshift).
    destruct (IH r1 s1 b1 (sameFlags_trans _ _ _ (conj Hlen Hq) Sflags) Sshift)
      as (Fflags & Fshift & Fpos & Fadv & Fkeys).
    { intros k' Hk'. apply Hkeys. apply elem_of_cons. right. exact Hk'. }
    split; [exact Fflags|]. split; [exact Fshift|]. split; [auto|]. split; [auto|].
    intros k' Hk'. apply elem_of_cons in Hk'. destruct Hk' as [->|Hk'].
    + apply Fpos. exact Hpos.
    + apply Fkeys. exact Hk'.
Qed.

(** Lines 1005-1009 with a shift that is not finite. *)
Lemma shiftAfter_non_finite (isHorizontal : bool) (lastVisualValue : Z) (shift : QPointF)
    (visualToLogical : QMap) (result : list CharacterResult) :
  qIsFinite (axisPosition isHorizontal shift) = false ->
  let result' := shiftAfter lastVisualValue shift visualToLogical result in
  length result' = length result
  /\ (forall q, advance (result' !!! q) = advance (result !!! q))
  /\ (forall q, positionNotFinite isHorizontal (result !!! q) ->
                positionNotFinite isHorizontal (result' !!! q))
  /\ (forall k, k ∈ QMap_keys visualToLogical -> k > lastVisualValue ->
        (Z.to_nat (QMap_value k visualToLogical) < length result)%nat ->
        positionNotFinite isHorizontal
          (result' !!! Z.to_nat (QMap_value k visualToLogical))).
Proof.
  intros Hshift. cbv zeta. unfold shiftAfter.
  generalize (QMap_keys visualToLogical) as keys. intros keys. revert result.
  induction keys as [|k keys IH]; intros result.
  - cbn [foldl]. repeat split; auto. intros k Hk. inversion Hk.
  - cbn [foldl].
    set (r1 := if k >? lastVisualValue then _ else result).
    assert (Hlen : length r1 = length result)
      by (subst r1; destruct (k >? lastVisualValue); [apply length_alter | reflexivity]).
    assert (Hadv : forall q, advance (r1 !!! q) = advance (result !!! q)).
    { intros q. subst r1. destruct (k >? lastVisualValue); [|reflexivity].
      rewrite list_lookup_total_alter. case_decide as Hd; [|reflexivity].
      destruct Hd as [-> _]. reflexivity. }
    assert (Hpos : forall q, positionNotFinite isHorizontal (result !!! q) ->
                             positionNotFinite isHorizontal (r1 !!! q)).
    { intros q Hq. subst r1. destruct (k >? lastVisualValue); [|exact Hq].
      rewrite list_lookup_total_alter. case_decide as Hd; [|exact Hq].
      destruct Hd as [-> _]. unfold positionNotFinite in *.
      cbn [finalPosition set_finalPosition].
      rewrite axisPosition_add. apply sum_with_non_finite_l. exact Hq. }
    assert (Hhere : k > lastVisualValue ->
                    (Z.to_nat (QMap_value k visualToLogical) < length result)%nat ->
                    positionNotFinite isHorizontal
                      (r1 !!! Z.to_nat (QMap_value k visualToLogical))).
    { intros Hgt Hlt. subst r1.
      destruct (Z.gtb_spec k lastVisualValue) as [_|Hle]; [|lia].
      rewrite list_lookup_total_alter_eq by exact Hlt. unfold positionNotFinite.
      cbn [finalPosition set_finalPosition].
      rewrite axisPosition_add. apply sum_with_non_finite_r. exact Hshift. }
    clearbody r1.
    destruct (IH r1) as (Flen & Fadv & Fpos & Fkeys).
    split; [congruence|]. split; [intros q; rewrite Fadv; apply Hadv|].
    split; [auto|].
    intros k' Hk' Hgt Hlt. apply elem_of_cons in Hk'. destruct Hk' as [->|Hk'].
    + apply Fpos. apply Hhere; assumption.
    + apply Fkeys; [exact Hk' | exact Hgt | rewrite Hlen; exact Hlt].
Qed.

(** Lines 992-1004 read the visual index and the start of a chunk only. *)
Lemma charactersAround_sameFlags (result result' : list CharacterResult) (i j : nat) :
  sameFlags result result' -> charactersAround result' i j = charactersAround result i j.
Proof.
  intros [Hlen Hq]. unfold charactersAround.
  assert (Hfollowing : forall m,
    followingCharacters (drop j result') j m = followingCharacters (drop j result) j m).
  { remember (length result - j)%nat as n eqn:Hn. revert j Hn.
    induction n as [|n IH]; intros j Hn m.
    - rewrite !drop_ge by lia. reflexivity.
    - destruct (lookup_lt_is_Some_2 result j ltac:(lia)) as [cr Hcr].
      destruct (lookup_lt_is_Some_2 result' j ltac:(lia)) as [cr' Hcr'].
      rewrite (drop_S _ _ _ Hcr), (drop_S _ _ _ Hcr'). cbn [followingCharacters].
      destruct (Hq j) as (_ & Hanchored & Hvisual).
      rewrite (list_lookup_total_correct _ _ _ Hcr),
        (list_lookup_total_correct _ _ _ Hcr') in Hanchored, Hvisual.
      rewrite Hanchored, Hvisual. destruct (anchored_chunk cr); [reflexivity|].
      apply IH. lia. }
  rewrite Hfollowing. generalize (followingCharacters (drop j result) j []).
  induction i as [|i IH]; intros m; cbn [precedingCharacters];
    destruct (Hq 0%nat) as (_ & Hanchored0 & Hvisual0).
  - rewrite Hanchored0, Hvisual0. reflexivity.
  - destruct (Hq (S i)) as (_ & Hanchored & Hvisual).
    rewrite Hanchored, Hvisual. destruct (anchored_chunk (result !!! S i)); [reflexivity|].
    apply IH.
Qed.

(** A node: its children first, then its own text length. *)
Lemma applyTextLength_node (numChars : TextTree -> nat) (e : KoSvgTextContentElement)
    (childNodes : list TextTree) (isHorizontal : bool) (result : list CharacterResult)
    (currentIndex : nat) (resolvedDescendentNodes : Z) :
  applyTextLength numChars (TextNode e childNodes) isHorizontal
    (result, currentIndex, resolvedDescendentNodes)
  = match childrenTextLength numChars childNodes isHorizontal (result, currentIndex, 0) with
    | None => None
    | Some (result, _, resolvedChildren) =>
        let j := (currentIndex + numChars (TextNode e childNodes))%nat in
        if negb (KoSvgText.isAuto (textLength e))
        then
          match stretchNode e isHorizontal currentIndex j resolvedChildren result with
          | None => None
          | Some result => Some (result, j, resolvedDescendentNodes + 1)
          end
        else Some (result, j, resolvedDescendentNodes)
    end.
Proof. reflexivity. Qed.

(** C3, as the code has it.  A node with a text length in
    spacing-and-glyphs mode, after the calls for its children: the divisor
    is the count of the addressable characters of the node that no text
    length has stretched yet plus the number of children that applied one
    (minus one in spacing mode), and the shift per character is the target
    length minus the extent divided by it.  Nothing guards the divisor.
    When it is zero and the node has a shaped addressable character, the
    call returns, the array keeps its length, and the adjustment is no
    no-op: the quotient is a division by zero, the advance of the first
    character of the node in visual order is not finite, the position of
    every later character of the node is not finite, and so is the position
    of every character around the node, up to the next chunk, whose visual
    index is beyond the last one of the node. *)
Theorem textLength_divisor_is_not_guarded (numChars : TextTree -> nat)
    (e : KoSvgTextContentElement) (childNodes : list TextTree) (isHorizontal : bool)
    (result0 : list CharacterResult) (currentIndex : nat) (resolved : Z)
    (result : list CharacterResult) (index : nat) (resolvedChildren : Z)
    (a b : qreal) (n : Z) (visualToLogical : QMap) (k : Z) (keys : list Z) :
  let node := TextNode e childNodes in
  let i := currentIndex in
  let j := (currentIndex + numChars node)%nat in
  childrenTextLength numChars childNodes isHorizontal (result0, currentIndex, 0)
    = Some (result, index, resolvedChildren) ->
  KoSvgText.isAuto (textLength e) = false ->
  lengthAdjust e = KoSvgText.LengthAdjustSpacingAndGlyphs ->
  (j <= length result)%nat ->
  for_range i j (textLengthExtentStep isHorizontal result i) (0%float, 0%float, 0, [])
    = (a, b, n, visualToLogical) ->
  textLengthDivisor true n resolvedChildren = 0 ->
  QMap_keys visualToLogical = k :: keys ->
  n = notStretchedYet result i j
  /\ (forall spacingAndGlyphs,
        textLengthDivisor spacingAndGlyphs n resolvedChildren
        = n + resolvedChildren - (if spacingAndGlyphs then 0 else 1))
  /\ axisPosition isHorizontal
       (textLengthDelta isHorizontal (KoSvgText.customValue (textLength e)) a b
          (textLengthDivisor true n resolvedChildren))
     = ((KoSvgText.customValue (textLength e) - (b - a)) / 0)%float
  /\ exists result',
       applyTextLength numChars node isHorizontal (result0, currentIndex, resolved)
         = Some (result', j, resolved + 1)
       /\ length result' = length result
       /\ advanceNotFinite isHorizontal
            (result' !!! Z.to_nat (QMap_value k visualToLogical))
       /\ (forall k', k' ∈ keys ->
             positionNotFinite isHorizontal
               (result' !!! Z.to_nat (QMap_value k' visualToLogical)))
       /\ (let around := charactersAround result i j in
           forall k', k' ∈ QMap_keys around -> k' > List.last (k :: keys) 0 ->
             (Z.to_nat (QMap_value k' around) < length result)%nat ->
             positionNotFinite isHorizontal
               (result' !!! Z.to_nat (QMap_value k' around))).
Proof.
  intros node i j Hchildren Hauto Hadjust Hj Hextent Hzero Hkeys. subst node i j.
  set (j := (currentIndex + numChars (TextNode e childNodes))%nat) in *.
  pose proof (textLengthExtent_spec isHorizontal result currentIndex j) as Hspec.
  cbv zeta in Hspec. rewrite Hextent in Hspec. cbn [fst snd] in Hspec.
  destruct Hspec as [Hcount Hmap].
  assert (Hdelta :
    axisPosition isHorizontal
      (textLengthDelta isHorizontal (KoSvgText.customValue (textLength e)) a b 0)
    = ((KoSvgText.customValue (textLength e) - (b - a)) / 0)%float)
    by (destruct isHorizontal; reflexivity).
  split; [exact Hcount|].
  split; [intros []; unfold textLengthDivisor; cbn [negb]; lia|].
  split; [rewrite Hzero; exact Hdelta|].
  assert (Hvalues : forall k', k' ∈ k :: keys ->
    (Z.to_nat (QMap_value k' visualToLogical) < length result)%nat
    /\ addressable (result !!! Z.to_nat (QMap_value k' visualToLogical)) = true).
  { intros k' Hk'. rewrite <- Hkeys in Hk'.
    destruct (Hmap _ _ (QMap_value_elem _ _ Hk')) as (m & -> & Hm & Haddr & _).
    rewrite Nat2Z.id. split; [lia | exact Haddr]. }
  rewrite applyTextLength_node, Hchildren. cbv beta iota zeta. fold j. rewrite Hauto. cbn [negb].
  unfold stretchNode. rewrite Hextent, Hadjust, Hzero, Hkeys.
  set (d := textLengthDelta isHorizontal (KoSvgText.customValue (textLength e)) a b 0).
  assert (Hd : qIsFinite (axisPosition isHorizontal d) = false)
    by (subst d; rewrite Hdelta; apply division_by_zero_is_not_finite).
  destruct (Hvalues k ltac:(apply elem_of_cons; left; reflexivity)) as [Hlt Haddr].
  cbn [foldl].
  pose proof (stretchStep_entries isHorizontal d visualToLogical (List.last (k :: keys) 0)
                k result QPointF_null false) as (Sflags & _ & _ & Shere).
  pose proof (stretchStep_first_adds_delta d visualToLogical (List.last (k :: keys) 0) k
                result Haddr) as Sshift.
  destruct (stretchStep true d visualToLogical (List.last (k :: keys) 0)
              (result, QPointF_null, false) k) as [[r1 s1] b1].
  cbn [fst snd] in Sflags, Shere, Sshift.
  destruct (Shere Hlt Haddr) as [_ Hadvance]. specialize (Hadvance Hd).
  assert (Hs1 : qIsFinite (axisPosition isHorizontal s1) = false)
    by (rewrite Sshift, axisPosition_add; apply sum_with_non_finite_r; exact Hd).
  pose proof (stretchLoop_non_finite isHorizontal d visualToLogical
                (List.last (k :: keys) 0) result keys r1 s1 b1 Sflags Hs1) as Hloop.
  cbv zeta in Hloop.
  destruct (foldl (stretchStep true d visualToLogical (List.last (k :: keys) 0))
              (r1, s1, b1) keys) as [[rs shift] b2].
  cbn [fst snd] in Hloop.
  destruct Hloop as (Fflags & Fshift & _ & Fadv & Fkeys).
  { intros k' Hk'. apply Hvalues. apply elem_of_cons. right. exact Hk'. }
  change (precedingCharacters rs currentIndex (followingCharacters (drop j rs) j []))
    with (charactersAround rs currentIndex j).
  rewrite (charactersAround_sameFlags result rs currentIndex j Fflags).
  pose proof (shiftAfter_non_finite isHorizontal (List.last (k :: keys) 0) shift
                (charactersAround result currentIndex j) rs Fshift) as Hafter.
  cbv zeta in Hafter. destruct Hafter as (Alen & Aadv & Apos & Akeys).
  eexists. split; [reflexivity|].
  destruct Fflags as [Flen _].
  split; [congruence|]. split.
  { unfold advanceNotFinite. rewrite Aadv. apply Fadv. exact Hadvance. }
  split.
  { intros k' Hk'. apply Apos, Fkeys. exact Hk'. }
  intros k' Hk' Hgt Hlt'. apply Akeys; [exact Hk' | exact Hgt | rewrite Flen; exact Hlt'].
Qed.

(** C3, witness: the node [P] around the stretched "A".  The count is zero
    and the divisor with it; the advance of "A" and the position of "B",
    the character after the node, are not finite any more. *)
Lemma textLength_divisor_is_not_guarded_witness :
  exists result',
    applyTextLength Reference.numChars
      (TextNode stretchedParentElement stretchedParentChildren) true
      (twoCharacters, 0%nat, 0)
    = Some (result', 1%nat, 1)
    /\ notStretchedYet afterStretchedChildren 0 1 = 0
    /\ advanceNotFinite true (result' !!! 0%nat)
    /\ positionNotFinite true (result' !!! 1%nat).
Proof.
  destruct (textLength_divisor_is_not_guarded Reference.numChars stretchedParentElement
              stretchedParentChildren true twoCharacters 0%nat 0 afterStretchedChildren
              1%nat 0 0%float 4%float 0 [(0, 0)] 0 []
              ltac:(vm_compute; reflexivity) eq_refl eq_refl ltac:(vm_compute; lia)
              ltac:(vm_compute; reflexivity) eq_refl eq_refl)
    as (_ & _ & _ & result' & Happly & _ & Hadvance & _ & Hafter).
  exists result'. split; [exact Happly|]. split; [reflexivity|].
  split; [exact Hadvance|].
  apply (Hafter 1).
  - apply list_elem_of_In. vm_compute. auto.
  - reflexivity.
  - vm_compute. lia.
Defined.

(** C3, counterexample: for the node [P] the count of characters not
    stretched yet is zero and no child of its own applied a text length, so
    the divisor is zero; the adjustment is no no-op: the advance of "A" and
    the position of "B" become infinite. *)
Lemma nested_textLength_gives_infinite_positions :
  match applyTextLength Reference.numChars nestedTextLengthTree true
          (twoCharacters, 0%nat, 0) with
  | Some (result, _, _) =>
      map (fun cr => (px (finalPosition cr), px (advance cr))) result =
        [(0%float, infinity); (infinity, 2%float)]
      /\ map (fun cr => qIsFinite (px (finalPosition cr))) result = [true; false]
  | None => False
  end.
Proof. vm_compute. split; reflexivity. Qed.

(** ** applyAnchoring (C2) *)

(** The index the inner loop stops at is not before the one it starts
    from. *)
Lemma chunkExtent_index (isHorizontal : bool) (start : nat) (rest : list CharacterResult) :
  forall i a b, (i <= fst (fst (chunkExtent isHorizontal start rest i a b)))%nat.
Proof.
  induction rest as [|cr rest IH]; intros i a b; simpl; [lia|].
  destruct (negb (addressable cr)); [specialize (IH (S i) a b); lia|].
  destruct (anchored_chunk cr && (start <? i)%nat); [simpl; lia|].
  destruct (anchored_chunk cr);
    match goal with
    | |- (_ <= fst (fst (chunkExtent _ _ _ _ ?a' ?b')))%nat =>
        specialize (IH (S i) a' b'); lia
    end.
Qed.

(** The first character of a chunk never ends it: a turn of the [while]
    loop moves [start] forward. *)
Lemma chunkExtent_advances (isHorizontal : bool) (start : nat) (cr : CharacterResult)
    (rest : list CharacterResult) (a b : qreal) :
  (start < fst (fst (chunkExtent isHorizontal start (cr :: rest) start a b)))%nat.
Proof.
  simpl. rewrite Nat.ltb_irrefl, andb_false_r.
  destruct (negb (addressable cr)); [|destruct (anchored_chunk cr)];
    match goal with
    | |- (_ < fst (fst (chunkExtent _ _ _ _ ?a' ?b')))%nat =>
        pose proof (chunkExtent_index isHorizontal start rest (S start) a' b'); lia
    end.
Qed.

(** A turn of the loop keeps the length of the array and ends beyond
    [start]. *)
Lemma anchoring_turn_advances (isHorizontal : bool) (start : nat)
    (result : list CharacterResult) :
  (start < length result)%nat ->
  (start < snd (anchorChunk isHorizontal start result))%nat
  /\ length (fst (anchorChunk isHorizontal start result)) = length result.
Proof.
  intros Hstart. unfold anchorChunk.
  destruct (drop start result) as [|cr rest] eqn:Hdrop.
  { apply (f_equal length) in Hdrop. rewrite length_drop in Hdrop. simpl in Hdrop. lia. }
  pose proof (chunkExtent_advances isHorizontal start cr rest 0%float 0%float) as Hadv.
  destruct (chunkExtent isHorizontal start (cr :: rest) start 0%float 0%float)
    as [[i a] b].
  cbn [fst snd] in *. split; [exact Hadv|].
  apply (for_range_preserves (fun r => length r = length result)); [reflexivity|].
  intros k r Hr. rewrite length_alter. exact Hr.
Qed.








(** The loop of [applyAnchoring] ends: a turn preserves the length and moves
    [start] forward, so any number of turns that covers the rest of the
    array gives the same result. *)
Lemma anchorLoop_enough_turns (isHorizontal : bool) (fuel1 : nat) :
  forall fuel2 start result,
    (length result - start <= fuel1)%nat -> (length result - start <= fuel2)%nat ->
    anchorLoop fuel1 isHorizontal start result = anchorLoop fuel2 isHorizontal start result.
Proof.
  induction fuel1 as [|fuel1 IH]; intros fuel2 start result H1 H2.
  - destruct fuel2 as [|fuel2]; [reflexivity|]. simpl.
    destruct (Nat.ltb_spec start (length result)); [lia|reflexivity].
  - simpl. destruct (Nat.ltb_spec start (length result)) as [Hlt|Hge].
    + destruct fuel2 as [|fuel2]; [lia|]. simpl.
      destruct (Nat.ltb_spec start (length result)); [|lia].
      pose proof (anchoring_turn_advances isHorizontal start result Hlt) as [Hi Hlen].
      destruct (anchorChunk isHorizontal start result) as [result' i].
      cbn [fst snd] in Hi, Hlen. apply IH; lia.
    + destruct fuel2 as [|fuel2]; [reflexivity|]. simpl.
      destruct (Nat.ltb_spec start (length result)); [lia|reflexivity].
Qed.

(** The loop at two characters: two turns or seven. *)
Lemma anchorLoop_enough_turns_witness :
  anchorLoop 2 true 0%nat twoCharacters = anchorLoop 7 true 0%nat twoCharacters.
Proof. apply anchorLoop_enough_turns; vm_compute; lia. Defined.


(** A chunk whose first entry is not addressable: no entry replaces the
    initial extent [0, 0], which becomes [0, 7] instead of [5, 7]; the shift
    is 0 - 3.5, and "A" ends at [1.5, 3.5], whose midpoint 2.5 is neither
    the position 0 of the chunk's first entry nor the position 5 of its
    first addressable one. *)
Lemma anchoring_keeps_the_origin_in_the_extent :
  chunkExtent true 0%nat chunkAfterCollapsedSpace 0%nat 0%float 0%float
    = (2%nat, 0%float, 7%float)
  /\ map (fun cr => px (finalPosition cr)) (applyAnchoring chunkAfterCollapsedSpace true)
     = [(-3.5)%float; 1.5%float]
  /\ chunkExtent true 1%nat (drop 1 (applyAnchoring chunkAfterCollapsedSpace true))
       1%nat 1.5%float 1.5%float = (2%nat, 1.5%float, 3.5%float)
  /\ ((1.5 + 3.5) * 0.5)%float = 2.5%float.
Proof. vm_compute. repeat split; reflexivity. Qed.

(** ** Text on a path (C6) *)

(** C6 at the failing input: a closed path of length 10 with start offset
    -25 and a character at the origin, anchored at the start.  The character
    is not hidden, its mid point -25 is wrapped once to -15, and the
    remainder -5 is returned: not a position within [0, 10). *)
Lemma closed_path_position_can_be_negative :
  let cr := set_anchored_chunk true CharacterResult_default in
  characterResultOnPath cr 10%float (-25)%float true true = (cr, (-5)%float)
  /\ hidden cr = false
  /\ ((-5 <? 0)%float = true).
Proof. vm_compute. repeat split; reflexivity. Qed.

(** On an open path a character whose mid point lies before the start or
    beyond the end of the path is hidden. *)
Lemma open_path_hides_characters_outside (cr : CharacterResult) (length offset : qreal)
    (isHorizontal : bool) :
  let mid :=
    (axisPosition isHorizontal (finalPosition cr)
     + axisPosition isHorizontal (advance cr) * 0.5 + offset)%float in
  snd (characterResultOnPath cr length offset isHorizontal false) = mid
  /\ (((mid <? 0) || (length <? mid))%float = true ->
      hidden (fst (characterResultOnPath cr length offset isHorizontal false)) = true).
Proof.
  unfold characterResultOnPath. destruct isHorizontal; cbn [axisPosition].
  - split; [reflexivity|]. intros ->. reflexivity.
  - split; [reflexivity|]. intros ->. reflexivity.
Qed.

(** ** What the layout leaves on the tree

    A write through an iterator changes the outline or the decorations of
    one node, which [clearAssociatedOutlines] resets: once cleared, the tree
    is what it was before the write. *)

Lemma clearElement_idempotent (e : KoSvgTextContentElement) :
  clearElement (clearElement e) = clearElement e.
Proof. reflexivity. Qed.

Lemma clearAssociatedOutlinesTree_idempotent (t : TextTree) :
  clearAssociatedOutlinesTree (clearAssociatedOutlinesTree t) = clearAssociatedOutlinesTree t.
Proof.
  induction t as [e c IH] using TextTree_rect_children. simpl. f_equal.
  rewrite map_map. induction IH as [|t c Ht _ IHc]; simpl; [reflexivity|].
  rewrite Ht, IHc. reflexivity.
Qed.

Lemma clearAssociatedOutlines_idempotent (textData : list TextTree) :
  clearAssociatedOutlines (clearAssociatedOutlines textData) = clearAssociatedOutlines textData.
Proof.
  unfold clearAssociatedOutlines. rewrite map_map.
  apply map_ext. intros t. apply clearAssociatedOutlinesTree_idempotent.
Qed.

Lemma map_alter_absorbed {A B : Type} (f : A -> B) (g : A -> A) (k : nat) (l : list A) :
  (forall x, f (g x) = f x) -> map f (alter g k l) = map f l.
Proof.
  intros Hg. revert k. induction l as [|x l IH]; intros [|k]; simpl; try reflexivity.
  - rewrite Hg. reflexivity.
  - f_equal. apply IH.
Qed.

Lemma clear_alterNode (f : KoSvgTextContentElement -> KoSvgTextContentElement)
    (path : list nat) (t : TextTree) :
  (forall e, clearElement (f e) = clearElement e) ->
  clearAssociatedOutlinesTree (alterNode f path t) = clearAssociatedOutlinesTree t.
Proof.
  intros Hf. revert t. induction path as [|k path IH]; intros [e c]; simpl.
  - rewrite Hf. reflexivity.
  - f_equal. apply map_alter_absorbed. exact IH.
Qed.

Lemma clear_addRect (r : QRectF) (path : list nat) (t : TextTree) :
  clearAssociatedOutlinesTree (alterNode (addRect r) path t) = clearAssociatedOutlinesTree t.
Proof. apply clear_alterNode. reflexivity. Qed.

Lemma clear_insertDecoration (type : TextDecoration) (p : QPainterPath) (path : list nat)
    (t : TextTree) :
  clearAssociatedOutlinesTree (alterNode (insertDecoration type p) path t)
  = clearAssociatedOutlinesTree t.
Proof. apply clear_alterNode. reflexivity. Qed.

(** A cleared forest carries no outline and no decoration. *)
Lemma cleared_tree_has_no_outline (t : TextTree) :
  Forall (fun node => associatedOutline (element node) = []
                      /\ textDecorations (element node) = DecorationMap_empty)
    (subtrees (clearAssociatedOutlinesTree t)).
Proof.
  induction t as [e c IH] using TextTree_rect_children. simpl.
  constructor; [split; reflexivity|].
  induction IH as [|t c Ht _ IHc]; simpl; [constructor|].
  apply Forall_app. split; [exact Ht | exact IHc].
Qed.

Lemma cleared_forest_has_no_outline (textData : list TextTree) :
  Forall (fun node => associatedOutline (element node) = []
                      /\ textDecorations (element node) = DecorationMap_empty)
    (flat_map subtrees (clearAssociatedOutlines textData)).
Proof.
  induction textData as [|t l IH]; simpl; [constructor|].
  apply Forall_app. split; [apply cleared_tree_has_no_outline | exact IH].
Qed.

Section DecorationsOnTheTree.

Variable numChars : TextTree -> nat.
Variable outlineLength : KoPathShape -> qreal.
Variable textDecorationPosition : KoSvgTextProperties -> bool -> Z -> Z.
Variable textDecorationLine : KoSvgTextProperties -> option Z.
Variable generateDecorationPaths :
  KoSvgTextProperties -> DecorationMetrics -> nat -> nat -> list CharacterResult ->
  bool -> Z -> qreal -> DecorationContext -> DecorationMap QPainterPath.
Variable createStroke : KoSvgTextProperties -> qreal -> QPainterPath -> QPainterPath.

Local Abbreviation decorate :=
  (computeTextDecorations numChars outlineLength textDecorationPosition textDecorationLine
     generateDecorationPaths createStroke).

Lemma addDecoration_clear e nodeMetrics thickness path decorationPaths root type :
  clearAssociatedOutlinesTree
    (addDecoration createStroke e nodeMetrics thickness path decorationPaths root type)
  = clearAssociatedOutlinesTree root.
Proof.
  unfold addDecoration.
  destruct (match type with
            | DecorationUnderline => decorationUnderline decorationPaths
            | DecorationOverline => decorationOverline decorationPaths
            | DecorationLineThrough => decorationLineThrough decorationPaths
            end) as [[|p ps]|]; try reflexivity.
  apply clear_insertDecoration.
Qed.

Lemma computeTextDecorations_clear (t : TextTree) :
  forall path metrics result thickness inherited isHorizontal wrapping st st',
    decorate t path metrics result thickness inherited isHorizontal wrapping st = Some st' ->
    clearAssociatedOutlinesTree (fst st') = clearAssociatedOutlinesTree (fst st).
Proof.
  induction t as [e c IH] using TextTree_rect_children.
  intros path metrics result thickness inherited isHorizontal wrapping st st' Hrun.
  simpl in Hrun.
  destruct (decorationContextOf outlineLength textDecorationPosition e wrapping inherited)
    as [context|]; [|discriminate].
  match type of Hrun with
  | context [foldl ?F (Some st, 0%nat) c] =>
      assert (Hchildren :
        forall acc stc, fst (foldl F acc c) = Some stc ->
          exists st0, fst acc = Some st0 /\
            clearAssociatedOutlinesTree (fst stc) = clearAssociatedOutlinesTree (fst st0));
      [|destruct (fst (foldl F (Some st, 0%nat) c)) as [[root k]|] eqn:Hfold;
        [apply Hchildren in Hfold; destruct Hfold as (st0 & Hst0 & Hclear)
        |discriminate]]
  end.
  { clear Hrun. induction IH as [|child c Hchild _ IHc]; intros acc stc Hfold.
    - simpl in Hfold. eauto.
    - simpl in Hfold. apply IHc in Hfold. destruct Hfold as (st1 & Hst1 & Hclear).
      cbn [fst] in Hst1. destruct (fst acc) as [st0|]; [|discriminate].
      exists st0. split; [reflexivity|].
      rewrite Hclear. eapply Hchild. exact Hst1. }
  cbn [fst] in Hst0. injection Hst0 as <-. cbn [fst] in Hclear.
  destruct (textDecorationLine (properties e)) as [decor|].
  - injection Hrun as <-. cbn [fst]. rewrite !addDecoration_clear. exact Hclear.
  - injection Hrun as <-. exact Hclear.
Qed.

End DecorationsOnTheTree.

Section OutlinesOnTheTree.

Variable outlineRect : CharacterResult -> QRectF.

Lemma chunkCursorPosition_clear chunk i st :
  chunkCursorPosition outlineRect chunk i st <> None ->
  clearedTreeOf (chunkCursorPosition outlineRect chunk i st) = clearedTreeOf st.
Proof.
  unfold chunkCursorPosition. destruct st as [[[root result] cursorPos]|]; [|congruence].
  destruct (result !! i) as [cr|]; [|congruence]. intros _.
  destruct (addressable cr && negb (middle cr)); [|reflexivity].
  destruct (if -1 <? plaintTextIndex cr
            then characterCursorPositions i cr cursorPos
            else (cr, cursorPos)) as [cr' cursorPos'].
  simpl. destruct (negb (hidden cr')); [|reflexivity].
  rewrite clear_addRect. reflexivity.
Qed.

Lemma chunkCursorPosition_fault chunk i :
  chunkCursorPosition outlineRect chunk i None = None.
Proof. reflexivity. Qed.

(** A loop of steps that keep the cleared tree, and stay faulted once they
    fault, keeps the cleared tree when it does not fault. *)
Lemma cursor_steps_clear {A : Type}
    (step : A -> option (TextTree * list CharacterResult * list CursorPos) ->
            option (TextTree * list CharacterResult * list CursorPos))
    (l : list A) st :
  (forall x, step x None = None) ->
  (forall x st, step x st <> None -> clearedTreeOf (step x st) = clearedTreeOf st) ->
  foldl (fun st x => step x st) st l <> None ->
  clearedTreeOf (foldl (fun st x => step x st) st l) = clearedTreeOf st.
Proof.
  intros Hfault Hstep. revert st.
  assert (Hnone : forall l, foldl (fun st x => step x st) None l = None).
  { intros l'. induction l' as [|x l' IH]; simpl; [reflexivity|].
    rewrite Hfault. exact IH. }
  induction l as [|x l IH]; intros st Hrun; simpl in *; [reflexivity|].
  rewrite IH by exact Hrun. apply Hstep.
  intros Hx. rewrite Hx, Hnone in Hrun. congruence.
Qed.

Lemma chunkCursorPositions_clear chunk st :
  fst (chunkCursorPositions outlineRect st chunk) <> None ->
  clearedTreeOf (fst (chunkCursorPositions outlineRect st chunk)) = clearedTreeOf (fst st).
Proof.
  unfold chunkCursorPositions, for_range. cbn [fst]. intros Hrun.
  apply (cursor_steps_clear (chunkCursorPosition outlineRect chunk)).
  - apply chunkCursorPosition_fault.
  - apply chunkCursorPosition_clear.
  - exact Hrun.
Qed.

Lemma chunkCursorPositions_fault chunk k :
  fst (chunkCursorPositions outlineRect (None, k) chunk) = None.
Proof.
  unfold chunkCursorPositions, for_range. cbn [fst snd].
  generalize (seq k (k + length (chunk_text chunk) - k)). intros l.
  induction l as [|x l IH]; simpl; [reflexivity | exact IH].
Qed.

Lemma cursorPositions_clear textChunks dummyIndex root result laidOut result' cursorPos :
  cursorPositions outlineRect textChunks dummyIndex root result
    = Some (laidOut, result', cursorPos) ->
  clearAssociatedOutlinesTree laidOut = clearAssociatedOutlinesTree root.
Proof.
  unfold cursorPositions. intros Hrun.
  assert (Hchunks :
    forall l st, fst (foldl (chunkCursorPositions outlineRect) st l) <> None ->
      clearedTreeOf (fst (foldl (chunkCursorPositions outlineRect) st l))
      = clearedTreeOf (fst st)).
  { assert (Hnone : forall l k,
              fst (foldl (chunkCursorPositions outlineRect) (None, k) l) = None).
    { intros l. induction l as [|chunk l IH]; intros k; simpl; [reflexivity|].
      pose proof (chunkCursorPositions_fault chunk k) as Hf.
      destruct (chunkCursorPositions outlineRect (None, k) chunk) as [s k'].
      cbn [fst] in Hf. subst s. apply IH. }
    intros l. induction l as [|chunk l IH]; intros st Hl; simpl in *; [reflexivity|].
    rewrite IH by exact Hl. apply chunkCursorPositions_clear.
    intros Hx.
    destruct (chunkCursorPositions outlineRect st chunk) as [s k'].
    cbn [fst] in Hx. subst s. rewrite Hnone in Hl. congruence. }
  specialize (Hchunks textChunks (Some (root, result, []), 0%nat)).
  destruct (fst (foldl (chunkCursorPositions outlineRect)
                   (Some (root, result, []), 0%nat) textChunks))
    as [[[root1 result1] cursorPos1]|]; [|discriminate].
  specialize (Hchunks ltac:(congruence)). cbn in Hchunks.
  injection Hchunks as Hroot1.
  unfold paragraphEndCursorPosition in Hrun.
  destruct ((-1 <? dummyIndex) && (dummyIndex <? Z.of_nat (length result1)));
    [|injection Hrun as <- _ _; exact Hroot1].
  destruct (anchored_chunk (result1 !!! Z.to_nat dummyIndex));
    [|injection Hrun as <- _ _; exact Hroot1].
  destruct (List.last (map Some textChunks) None) as [chunk|];
    injection Hrun as <- _ _; [|exact Hroot1].
  rewrite clear_addRect. exact Hroot1.
Qed.

End OutlinesOnTheTree.

(** ** The text a tree gives to the layout *)

Lemma collectText_of_empty_chunks (textChunks : list SubChunk) :
  Forall (fun chunk => chunk_text chunk = []) textChunks ->
  fst (fst (collectText textChunks)) = [].
Proof.
  unfold collectText. intros Hall.
  assert (Hfold : forall plain positions,
            fst (fst (foldl appendChunk ([], plain, positions) textChunks)) = []).
  { induction Hall as [|chunk l Hchunk _ IH]; intros plain positions; [reflexivity|].
    simpl. rewrite Hchunk. apply IH. }
  apply Hfold.
Qed.

Lemma replaceHardBreaks_nil (lineBreaks : list Z) : replaceHardBreaks lineBreaks [] = [].
Proof. reflexivity. Qed.

Lemma chunkInBounds_of_empty_chunk (chunk : SubChunk) (size plainSize start : nat) :
  chunk_text chunk = [] ->
  Forall (fun n => n = 0%nat) (faceLengths chunk) ->
  chunkInBounds size plainSize (true, start) chunk = (true, start).
Proof.
  intros Htext Hfaces. unfold chunkInBounds. rewrite Htext.
  cbn [fst snd length rangeInBounds Nat.eqb orb andb].
  induction Hfaces as [|n faces -> _ IHf]; [reflexivity|].
  simpl. replace (start + 0)%nat with start by lia. exact IHf.
Qed.

Lemma chunksInBounds_of_empty_chunks (textChunks : list SubChunk) (size plainSize : nat) :
  Forall (fun chunk => chunk_text chunk = [] /\ Forall (fun n => n = 0%nat) (faceLengths chunk))
    textChunks ->
  chunksInBounds textChunks size plainSize = true.
Proof.
  unfold chunksInBounds. intros Hall.
  assert (Hfold : forall start,
            foldl (chunkInBounds size plainSize) (true, start) textChunks = (true, start)).
  { induction Hall as [|chunk l [Htext Hfaces] _ IH]; intros start; [reflexivity|].
    simpl. rewrite chunkInBounds_of_empty_chunk by assumption. apply IH. }
  rewrite Hfold. reflexivity.
Qed.

(** ** Two layouts in a row, and the layout of a shape without text *)

Section LayoutOfTheShape.

Variable numChars : TextTree -> nat.
Variable mergeInParentTransformation :
  KoSvgText.CharTransformation -> KoSvgText.CharTransformation ->
  KoSvgText.CharTransformation.
Variable collapseSpaces : list QChar -> TextSpaceCollapse -> list QChar * list bool.
Variable collapseLastSpace : QChar -> TextSpaceCollapse -> bool.
Variable hangLastSpace : QChar -> TextSpaceCollapse -> KoSvgText.TextWrap -> bool -> bool * bool.
Variable characterCanHang : QChar -> HangKind -> bool.
Variable set_linebreaks_utf16 : list QChar -> list QChar -> nat -> Z.
Variable set_graphemebreaks_utf16 : list QChar -> list QChar -> nat -> Z.
Variable raqm_set_text_utf16 : list QChar -> bool.
Variable raqm_get_glyphs : list QChar -> option (list Raqm.raqm_glyph_t).
Variable raqm_direction_is_rtl : nat -> bool.
Variable loadGlyph :
  bool -> Z -> Raqm.raqm_glyph_t -> CharacterResult -> QPointF ->
  bool * CharacterResult * QPointF.
Variable inheritFrom : KoSvgTextProperties -> KoSvgTextProperties -> KoSvgTextProperties.
Variable chunkStyle : KoSvgTextProperties -> ChunkStyle.
Variable facesForCSSValues : KoSvgTextProperties -> list QChar -> list nat.
Variable getBidiOpening : KoSvgTextProperties -> list QChar.
Variable getBidiClosing : KoSvgTextProperties -> list QChar.
Variable getTransformedString : KoSvgTextContentElement -> list QChar * list (Z * Z).
Variable FontContext : Type.
Variable fontContextOf : KoSvgTextProperties -> FontContext -> bool -> FontContext.
Variable underlineSize : FontContext -> qreal.
Variable underlineOffset : FontContext -> qreal.
Variable strikeoutSize : FontContext -> qreal.
Variable baselineShiftOf : KoSvgTextProperties -> FontContext -> FontContext -> bool -> QPointF.
Variable alignmentBaseline : KoSvgTextProperties -> Baseline.
Variable calculateLineHeight : CharacterResult -> qreal * qreal -> bool -> qreal * qreal.
Variable outlineLength : KoPathShape -> qreal.
Variable textDecorationPosition : KoSvgTextProperties -> bool -> Z -> Z.
Variable textDecorationLine : KoSvgTextProperties -> option Z.
Variable generateDecorationPaths :
  KoSvgTextProperties -> DecorationMetrics -> nat -> nat -> list CharacterResult ->
  bool -> Z -> qreal -> DecorationContext -> DecorationMap QPainterPath.
Variable createStroke : KoSvgTextProperties -> qreal -> QPainterPath -> QPainterPath.
Variable pointAtLength : KoPathShape -> KoSvgText.TextPathSide -> qreal -> QPointF.
Variable pointAtEnd : KoPathShape -> KoSvgText.TextPathSide -> QPointF.
Variable bendCharacter :
  KoPathShape -> TextOnPathInfo -> bool -> qreal -> CharacterResult -> CharacterResult.
Variable outlineRect : CharacterResult -> QRectF.
Variable defaultProperties : KoSvgTextProperties.
Variable propertyValues : KoSvgTextProperties -> RootProperties.
Variable rootFontContext : FontContext.
Variable finalRes : qreal.
Variable breakLines :
  KoSvgTextProperties -> QMap -> list CharacterResult -> QPointF ->
  list LineBox * list CharacterResult.
Variable flowTextInShapes :
  KoSvgTextProperties -> QMap -> list CharacterResult -> list KoShape -> list KoShape ->
  QPointF -> list LineBox * list CharacterResult.

Local Abbreviation layout :=
  (layoutRoot numChars mergeInParentTransformation collapseSpaces collapseLastSpace
     hangLastSpace characterCanHang set_linebreaks_utf16 set_graphemebreaks_utf16
     raqm_set_text_utf16 raqm_get_glyphs raqm_direction_is_rtl loadGlyph inheritFrom
     chunkStyle facesForCSSValues getBidiOpening getBidiClosing getTransformedString
     FontContext fontContextOf underlineSize underlineOffset strikeoutSize baselineShiftOf
     alignmentBaseline calculateLineHeight outlineLength textDecorationPosition
     textDecorationLine generateDecorationPaths createStroke pointAtLength pointAtEnd
     bendCharacter outlineRect defaultProperties propertyValues rootFontContext finalRes
     breakLines flowTextInShapes).
Local Abbreviation run :=
  (relayout numChars mergeInParentTransformation collapseSpaces collapseLastSpace
     hangLastSpace characterCanHang set_linebreaks_utf16 set_graphemebreaks_utf16
     raqm_set_text_utf16 raqm_get_glyphs raqm_direction_is_rtl loadGlyph inheritFrom
     chunkStyle facesForCSSValues getBidiOpening getBidiClosing getTransformedString
     FontContext fontContextOf underlineSize underlineOffset strikeoutSize baselineShiftOf
     alignmentBaseline calculateLineHeight outlineLength textDecorationPosition
     textDecorationLine generateDecorationPaths createStroke pointAtLength pointAtEnd
     bendCharacter outlineRect defaultProperties propertyValues rootFontContext finalRes
     breakLines flowTextInShapes).
Local Abbreviation position :=
  (positionCharacters numChars outlineLength textDecorationPosition textDecorationLine
     generateDecorationPaths createStroke pointAtLength pointAtEnd bendCharacter finalRes).
Local Abbreviation withoutText :=
  (hasNoText numChars inheritFrom chunkStyle facesForCSSValues getBidiOpening
     getBidiClosing getTransformedString defaultProperties).

Lemma positionCharacters_clear root props metrics resolvedTransforms startPos result
    decorated result' startPos' :
  position root props metrics resolvedTransforms startPos result
    = Some (decorated, result', startPos') ->
  clearAssociatedOutlinesTree decorated = clearAssociatedOutlinesTree root.
Proof.
  unfold positionCharacters. intros Hrun.
  destruct (KoSvgText.isAuto (inlineSize props) && shapesInside_isEmpty props).
  - destruct (applyTextLength numChars root (isHorizontalMode props)
                (adjustRelative resolvedTransforms result, 0%nat, 0))
      as [[[stretched k] n]|]; [|discriminate].
    match type of Hrun with
    | context [computeTextDecorations ?a ?b ?c ?d ?e ?f ?g ?h ?i ?j ?k ?l ?m ?n ?o] =>
        destruct (computeTextDecorations a b c d e f g h i j k l m n o)
          as [[tree idx]|] eqn:Hdecorate; [|discriminate]
    end.
    apply computeTextDecorations_clear in Hdecorate. cbn [fst] in Hdecorate.
    destruct (applyTextPath numChars pointAtLength pointAtEnd bendCharacter root
                (applyAnchoring (adjustAbsolute resolvedTransforms stretched)
                   (isHorizontalMode props))
                (isHorizontalMode props) startPos) as [onPath pathStart].
    injection Hrun as <- _ _. exact Hdecorate.
  - match type of Hrun with
    | context [computeTextDecorations ?a ?b ?c ?d ?e ?f ?g ?h ?i ?j ?k ?l ?m ?n ?o] =>
        destruct (computeTextDecorations a b c d e f g h i j k l m n o)
          as [[tree idx]|] eqn:Hdecorate; [|discriminate]
    end.
    apply computeTextDecorations_clear in Hdecorate. cbn [fst] in Hdecorate.
    injection Hrun as <- _ _. exact Hdecorate.
Qed.

(** Lines 110-810 change nothing on the tree but outlines and
    decorations. *)
Lemma layoutRoot_clear root shapesInside shapesSubtract l :
  layout root shapesInside shapesSubtract = Laid l ->
  clearAssociatedOutlinesTree (lo_root l) = clearAssociatedOutlinesTree root.
Proof.
  unfold layoutRoot. intros Hrun.
  match type of Hrun with
  | (if ?b then _ else _) = _ => destruct b; [discriminate|]
  end.
  match type of Hrun with
  | match ?x with _ => _ end = _ => destruct x as [shaped| |]; try discriminate
  end.
  match type of Hrun with
  | match ?x with _ => _ end = _ => destruct x as [[metrics result] k]
  end.
  match type of Hrun with
  | match ?x with _ => _ end = _ => destruct x as [lineBoxes broken]
  end.
  match type of Hrun with
  | match ?x with _ => _ end = _ => destruct x as [aligned k']
  end.
  match type of Hrun with
  | match ?x with _ => _ end = _ =>
      destruct x as [[[decorated positioned] startPos]|] eqn:Hposition; [|discriminate]
  end.
  match type of Hrun with
  | match ?x with _ => _ end = _ =>
      destruct x as [[[laidOut final] cursorPos]|] eqn:Hcursor; [|discriminate]
  end.
  injection Hrun as <-. cbn [lo_root].
  rewrite (cursorPositions_clear _ _ _ _ _ _ _ _ Hcursor).
  exact (positionCharacters_clear _ _ _ _ _ _ _ _ _ Hposition).
Qed.

(** What [relayout] clears at entry. *)
Lemma cleared_forest_is_clear (d : KoSvgTextShape.PrivateData) root siblings :
  clearAssociatedOutlines (KoSvgTextShape.textData d) = root :: siblings ->
  clearAssociatedOutlinesTree root = root
  /\ clearAssociatedOutlines siblings = siblings.
Proof.
  intros Hclear.
  pose proof (clearAssociatedOutlines_idempotent (KoSvgTextShape.textData d)) as Hidem.
  rewrite Hclear in Hidem. simpl in Hidem.
  injection Hidem as Hroot Hsiblings. split; assumption.
Qed.

(** C9.  A second [relayout] right after a [relayout] that has returned
    returns as well and leaves every member of the shape as the first one
    left it: the tree with its outlines and decoration paths, the
    characters with their final positions, the cursor positions and their
    visual order, the line boxes, the initial text position, the plain
    text and the bidi flag. *)
Theorem relayout_twice_is_relayout_once (d d1 : KoSvgTextShape.PrivateData) :
  run d = Returned d1 -> run d1 = Returned d1.
Proof.
  unfold relayout. intros Hrun.
  destruct (clearAssociatedOutlines (KoSvgTextShape.textData d))
    as [|root siblings] eqn:Hclear.
  - injection Hrun as <-. reflexivity.
  - destruct (cleared_forest_is_clear d root siblings Hclear) as [Hroot Hsiblings].
    destruct (layout root (KoSvgTextShape.shapesInside d)
                (KoSvgTextShape.shapesSubtract d)) as [l| |] eqn:Hlayout.
    + injection Hrun as <-. cbn [KoSvgTextShape.textData KoSvgTextShape.shapesInside
        KoSvgTextShape.shapesSubtract clearAssociatedOutlines map].
      rewrite (layoutRoot_clear _ _ _ _ Hlayout), Hroot.
      fold (clearAssociatedOutlines siblings). rewrite Hsiblings, Hlayout.
      reflexivity.
    + injection Hrun as <-. cbn [KoSvgTextShape.textData KoSvgTextShape.shapesInside
        KoSvgTextShape.shapesSubtract clearAssociatedOutlines map].
      rewrite Hroot. fold (clearAssociatedOutlines siblings).
      rewrite Hsiblings, Hlayout. reflexivity.
    + discriminate.
Qed.

Local Abbreviation prepare :=
  (prepareText collapseSpaces set_linebreaks_utf16 set_graphemebreaks_utf16).
Local Abbreviation shape :=
  (shapeCharacters numChars mergeInParentTransformation collapseSpaces collapseLastSpace
     hangLastSpace characterCanHang set_linebreaks_utf16 set_graphemebreaks_utf16
     raqm_set_text_utf16 raqm_get_glyphs raqm_direction_is_rtl loadGlyph).

Lemma textPathsInBounds_without_characters (t : TextTree) (size : nat) (ok : bool) :
  Forall (fun node => numChars node = 0%nat) (subtrees t) ->
  textPathsInBounds numChars t size (ok, 0%nat) = (ok, 0%nat).
Proof.
  revert ok. induction t as [e c IH] using TextTree_rect_children. intros ok Hall.
  cbn [subtrees] in Hall. inversion Hall as [|? ? Hnode Hchildren]; subst.
  cbn [textPathsInBounds].
  assert (Hfold :
    foldl (fun st child => textPathsInBounds numChars child size st) (ok, 0%nat) c
    = (ok, 0%nat)).
  { clear Hall Hnode. induction IH as [|child c Hchild _ IHc]; [reflexivity|].
    cbn [flat_map] in Hchildren. apply Forall_app in Hchildren.
    destruct Hchildren as [Hhere Hrest].
    cbn [foldl]. rewrite Hchild by exact Hhere. apply IHc. exact Hrest. }
  rewrite Hfold, Hnode. cbn [fst snd Nat.add Nat.leb].
  rewrite orb_true_r, andb_true_r. reflexivity.
Qed.

Lemma prepareText_without_text textChunks props :
  Forall (fun chunk => chunk_text chunk = []) textChunks ->
  (forall c, fst (collapseSpaces [] c) = []) ->
  pt_collapsed (prepare textChunks props) = [] /\ pt_text (prepare textChunks props) = [].
Proof.
  intros Hchunks Hcollapse. unfold prepareText.
  pose proof (collectText_of_empty_chunks textChunks Hchunks) as Htext.
  destruct (collectText textChunks) as [[text plainText] positions].
  cbn [fst] in Htext. subst text.
  specialize (Hcollapse (collapse props)).
  destruct (collapseSpaces [] (collapse props)) as [collapsed collapseChars].
  cbn [fst] in Hcollapse. subst collapsed. split; reflexivity.
Qed.

Lemma shapeCharacters_without_glyphs root textChunks props :
  pt_text (prepare textChunks props) = [] ->
  raqm_get_glyphs [] = None ->
  shape root textChunks props = NoGlyphs.
Proof.
  intros Htext Hglyphs. unfold shapeCharacters.
  match goal with
  | |- (let '(_, _) := ?x in _) = _ => destruct x as [result resolvedTransforms]
  end.
  rewrite Htext, Hglyphs. reflexivity.
Qed.

(** C8.  [relayout] on a shape without text returns: it has cleared the
    character results, the cursor positions, their visual order and every
    outline and decoration of the forest, and leaves them empty.  The
    shaper returns no glyph array for the empty text, and white-space
    collapsing turns the empty text into the empty text. *)
Theorem relayout_without_text_returns_cleared (d : KoSvgTextShape.PrivateData) :
  raqm_get_glyphs [] = None ->
  (forall c, fst (collapseSpaces [] c) = []) ->
  withoutText d = true ->
  exists d',
    run d = Returned d'
    /\ KoSvgTextShape.textData d' = clearAssociatedOutlines (KoSvgTextShape.textData d)
    /\ KoSvgTextShape.result d' = []
    /\ KoSvgTextShape.cursorPos d' = []
    /\ KoSvgTextShape.logicalToVisualCursorPos d' = []
    /\ Forall (fun node => associatedOutline (element node) = []
                           /\ textDecorations (element node) = DecorationMap_empty)
         (flat_map subtrees (KoSvgTextShape.textData d')).
Proof.
  intros Hglyphs Hcollapse Hempty.
  pose proof (cleared_forest_has_no_outline (KoSvgTextShape.textData d)) as Hcleared.
  unfold relayout, hasNoText in *.
  destruct (clearAssociatedOutlines (KoSvgTextShape.textData d))
    as [|root siblings] eqn:Hclear.
  - eexists. split; [reflexivity|]. cbn. repeat split; constructor.
  - apply andb_prop in Hempty. destruct Hempty as [Hchunks Hnodes].
    rewrite forallb_forall in Hchunks, Hnodes.
    match type of Hchunks with
    | forall x, In x ?chunks -> _ => set (textChunks := chunks) in *
    end.
    assert (Htexts :
      Forall (fun chunk => chunk_text chunk = []
                           /\ Forall (fun n => n = 0%nat) (faceLengths chunk)) textChunks).
    { apply List.Forall_forall. intros chunk Hin. specialize (Hchunks chunk Hin).
      unfold chunkIsEmpty in Hchunks. apply andb_prop in Hchunks.
      destruct Hchunks as [Htext Hfaces]. split.
      - destruct (chunk_text chunk); [reflexivity|discriminate].
      - apply List.Forall_forall. intros n Hn. rewrite forallb_forall in Hfaces.
        specialize (Hfaces n Hn). apply Nat.eqb_eq in Hfaces. congruence. }
    assert (Hcounts : Forall (fun node => numChars node = 0%nat) (subtrees root)).
    { apply List.Forall_forall. intros node Hin. apply Nat.eqb_eq. apply Hnodes.
      exact Hin. }
    assert (Hlayout : layout root (KoSvgTextShape.shapesInside d)
                        (KoSvgTextShape.shapesSubtract d) = Unshaped).
    { unfold layoutRoot. cbv zeta. fold textChunks.
      match goal with
      | |- context [prepare textChunks ?props] =>
          destruct (prepareText_without_text textChunks props) as [Hcollapsed Htext];
          [eapply Forall_impl; [exact Htexts|]; intros chunk [Hc _]; exact Hc
          |exact Hcollapse|];
          rewrite Hcollapsed, Htext;
          rewrite (shapeCharacters_without_glyphs root textChunks props Htext Hglyphs)
      end.
      rewrite textPathsInBounds_without_characters by exact Hcounts.
      rewrite chunksInBounds_of_empty_chunks by exact Htexts.
      rewrite orb_true_r. reflexivity. }
    rewrite Hlayout. eexists. split; [reflexivity|]. cbn.
    repeat split; try reflexivity. exact Hcleared.
Qed.

End LayoutOfTheShape.

(** ** Examples for the whole layout *)

(** "AB" and an underlined "C\n" with the reference services: four
    characters and the end of the paragraph, the outline the first leaf had
    before replaced by the boxes of "A" and "B", and an underline on the
    second leaf. *)
Example layout_example :
  length (KoSvgTextShape.result shapeWithTextLaidOut) = 5%nat
  /\ map (fun cr => px (finalPosition cr)) (KoSvgTextShape.result shapeWithTextLaidOut)
     = [0%float; 10%float; 20%float; 30%float; 40%float]
  /\ map cp_cluster (KoSvgTextShape.cursorPos shapeWithTextLaidOut) = [0; 0; 1; 2]
  /\ match KoSvgTextShape.textData shapeWithTextLaidOut with
     | [TextNode _ [TextNode ab _; TextNode c _]] =>
         length (associatedOutline ab) = 2%nat
         /\ textDecorations ab = DecorationMap_empty
         /\ decorationUnderline (textDecorations c)
            = Some [mkQPointF 20%float 0%float; mkQPointF 30%float 0%float]
     | _ => False
     end.
Proof. vm_compute. repeat split; reflexivity. Qed.

(** C9, witness: the theorem at the shape with the text "ABC\n". *)
Lemma relayout_twice_is_relayout_once_witness :
  ReferenceLayout.relayout shapeWithText = Returned shapeWithTextLaidOut
  /\ ReferenceLayout.relayout shapeWithTextLaidOut = Returned shapeWithTextLaidOut.
Proof.
  split.
  - vm_compute. reflexivity.
  - unfold ReferenceLayout.relayout.
    apply (relayout_twice_is_relayout_once Reference.numChars Reference.mergeInParentTransformation
    Reference.collapseSpaces Reference.collapseLastSpace Reference.hangLastSpace
    Reference.characterCanHang Reference.set_linebreaks_utf16
    Reference.set_graphemebreaks_utf16 Reference.raqm_set_text_utf16
    Reference.raqm_get_glyphs Reference.raqm_direction_is_rtl Reference.loadGlyph
    ReferenceLayout.inheritFrom ReferenceLayout.chunkStyle
    ReferenceLayout.facesForCSSValues ReferenceLayout.getBidiOpening
    ReferenceLayout.getBidiClosing ReferenceLayout.getTransformedString
    ReferenceLayout.FontContext ReferenceLayout.fontContextOf
    ReferenceLayout.underlineSize ReferenceLayout.underlineOffset
    ReferenceLayout.strikeoutSize ReferenceLayout.baselineShiftOf
    ReferenceLayout.alignmentBaseline ReferenceLayout.calculateLineHeight
    ReferenceLayout.outlineLength ReferenceLayout.textDecorationPosition
    ReferenceLayout.textDecorationLine ReferenceLayout.generateDecorationPaths
    ReferenceLayout.createStroke ReferenceLayout.pointAtLength ReferenceLayout.pointAtEnd
    ReferenceLayout.bendCharacter ReferenceLayout.outlineRect
    ReferenceLayout.defaultProperties ReferenceLayout.propertyValues
    ReferenceLayout.rootFontContext ReferenceLayout.finalRes ReferenceLayout.breakLines
    ReferenceLayout.flowTextInShapes
      shapeWithText shapeWithTextLaidOut).
    vm_compute. reflexivity.
Defined.

(** C8, witness: the theorem at a shape whose two nodes hold no text and
    still carry what an earlier layout left. *)
Lemma relayout_without_text_returns_cleared_witness :
  exists d',
    ReferenceLayout.relayout shapeWithoutText = Returned d'
    /\ KoSvgTextShape.result d' = []
    /\ KoSvgTextShape.cursorPos d' = []
    /\ KoSvgTextShape.logicalToVisualCursorPos d' = [].
Proof.
  destruct (relayout_without_text_returns_cleared Reference.numChars Reference.mergeInParentTransformation
    Reference.collapseSpaces Reference.collapseLastSpace Reference.hangLastSpace
    Reference.characterCanHang Reference.set_linebreaks_utf16
    Reference.set_graphemebreaks_utf16 Reference.raqm_set_text_utf16
    Reference.raqm_get_glyphs Reference.raqm_direction_is_rtl Reference.loadGlyph
    ReferenceLayout.inheritFrom ReferenceLayout.chunkStyle
    ReferenceLayout.facesForCSSValues ReferenceLayout.getBidiOpening
    ReferenceLayout.getBidiClosing ReferenceLayout.getTransformedString
    ReferenceLayout.FontContext ReferenceLayout.fontContextOf
    ReferenceLayout.underlineSize ReferenceLayout.underlineOffset
    ReferenceLayout.strikeoutSize ReferenceLayout.baselineShiftOf
    ReferenceLayout.alignmentBaseline ReferenceLayout.calculateLineHeight
    ReferenceLayout.outlineLength ReferenceLayout.textDecorationPosition
    ReferenceLayout.textDecorationLine ReferenceLayout.generateDecorationPaths
    ReferenceLayout.createStroke ReferenceLayout.pointAtLength ReferenceLayout.pointAtEnd
    ReferenceLayout.bendCharacter ReferenceLayout.outlineRect
    ReferenceLayout.defaultProperties ReferenceLayout.propertyValues
    ReferenceLayout.rootFontContext ReferenceLayout.finalRes ReferenceLayout.breakLines
    ReferenceLayout.flowTextInShapes
    shapeWithoutText eq_refl (fun c => eq_refl) eq_refl)
    as (d' & Hrun & _ & Hresult & Hcursor & Hvisual & _).
  exists d'. repeat split; assumption.
Defined.

(** [relayout] on a shape without any node returns at line 108. *)
Example relayout_without_nodes :
  ReferenceLayout.relayout shapeWithoutNodes
  = Returned (KoSvgTextShape.mkPrivateData [] [] [] [] [] [] [] QPointF_null [65] false).
Proof. reflexivity. Qed.

(** ** What a pass leaves alone *)

Lemma alter_total_preserves (Q : CharacterResult -> Prop)
    (f : CharacterResult -> CharacterResult) (k m : nat) (l : list CharacterResult) :
  (forall x, Q x -> Q (f x)) -> Q (l !!! m) -> Q (alter f k l !!! m).
Proof.
  intros Hf Hl. rewrite list_lookup_total_alter.
  case_decide as Hd; [destruct Hd as [-> _]; apply Hf; exact Hl | exact Hl].
Qed.

Lemma insert_total_preserves (Q : CharacterResult -> Prop) (v : CharacterResult)
    (k m : nat) (l : list CharacterResult) :
  (k = m -> Q v) -> Q (l !!! m) -> Q (<[k := v]> l !!! m).
Proof.
  intros Hv Hl. rewrite list_lookup_total_insert.
  case_decide as Hd; [destruct Hd as [-> _]; apply Hv; reflexivity | exact Hl].
Qed.

(** ** applyTextLength without a text length *)

Section TextLengthAbsent.

Variable numChars : TextTree -> nat.

(** A tree in which no node sets [textLength] is walked without a change:
    the characters stay as they are, the index moves past the characters
    of the tree, and no text length is counted as applied. *)
Theorem applyTextLength_without_textLength (t : TextTree) (isHorizontal : bool)
    (result : list CharacterResult) (currentIndex : nat) (resolved : Z) :
  declaresNoTextLength t = true ->
  applyTextLength numChars t isHorizontal (result, currentIndex, resolved)
  = Some (result, (currentIndex + numChars t)%nat, resolved).
Proof.
  revert currentIndex resolved.
  induction t as [e c IH] using TextTree_rect_children.
  intros currentIndex resolved Hno. cbn [declaresNoTextLength] in Hno.
  apply andb_prop in Hno. destruct Hno as [Hauto Hchildren].
  cbn [applyTextLength].
  assert (Hfold : forall k,
    exists k',
      foldl
        (fun st child =>
           match st with
           | Some st => applyTextLength numChars child isHorizontal st
           | None => None
           end)
        (Some (result, k, 0)) c = Some (result, k', 0)).
  { clear Hauto. induction IH as [|child c Hchild _ IHc]; intros k; [eexists; reflexivity|].
    cbn [forallb] in Hchildren. apply andb_prop in Hchildren.
    destruct Hchildren as [Hhere Hrest].
    cbn [foldl]. rewrite Hchild by exact Hhere. apply IHc. exact Hrest. }
  destruct (Hfold currentIndex) as [k' ->]. rewrite Hauto. reflexivity.
Qed.

End TextLengthAbsent.

(** The pass at a tree of two leaves and two characters. *)
Lemma applyTextLength_without_textLength_witness :
  applyTextLength Reference.numChars
    (TextNode (Reference.plainElement [] [])
       [TextNode (Reference.plainElement [65] []) [];
        TextNode (Reference.plainElement [66] []) []])
    true (twoCharacters, 0%nat, 0)
  = Some (twoCharacters, 2%nat, 0).
Proof.
  apply (applyTextLength_without_textLength Reference.numChars). reflexivity.
Defined.

(** ** applyTextPath without a path *)

Section TextPathAbsent.

Variable numChars : TextTree -> nat.
Variable pointAtLength : KoPathShape -> KoSvgText.TextPathSide -> qreal -> QPointF.
Variable pointAtEnd : KoPathShape -> KoSvgText.TextPathSide -> QPointF.
Variable bendCharacter :
  KoPathShape -> TextOnPathInfo -> bool -> qreal -> CharacterResult -> CharacterResult.

(** When no child of the root is laid out on a path shape, [applyTextPath]
    changes no character and leaves the start position where it was,
    whatever paths the nodes further down may carry. *)
Theorem applyTextPath_without_path (root : TextTree) (result : list CharacterResult)
    (isHorizontal : bool) (startPos : QPointF) :
  forallb (fun child => negb (hasPathShape child)) (children root) = true ->
  applyTextPath numChars pointAtLength pointAtEnd bendCharacter root result isHorizontal
    startPos = (result, startPos).
Proof.
  intros Hno. unfold applyTextPath.
  assert (Hfold : forall (l : list (bool * TextTree)) k,
    Forall (fun child => hasPathShape (snd child) = false) l ->
    exists k',
      foldl (textPathChild numChars pointAtLength pointAtEnd bendCharacter isHorizontal)
        (mkPathState result startPos false false k QPointF_null) l
      = mkPathState result startPos false false k' QPointF_null).
  { induction l as [|[isFirst child] l IHl]; intros k Hall; [eexists; reflexivity|].
    inversion Hall as [|? ? Hchild Hl]; subst. cbn [snd] in Hchild.
    cbn [foldl]. unfold textPathChild at 2. cbn [ps_currentIndex ps_inPath ps_afterPath
      ps_result ps_startPos ps_pathEnd].
    unfold hasPathShape, asPathShape in Hchild.
    destruct (textPath (element child)) as [[shape|]|]; try discriminate;
      apply IHl; exact Hl. }
  destruct (Hfold (imap (fun k child => ((k =? 0)%nat, child)) (children root)) 0%nat)
    as [k' ->]; [|reflexivity].
  rewrite forallb_forall in Hno. apply List.Forall_forall.
  intros [isFirst child] Hin. cbn [snd].
  apply list_elem_of_In in Hin.
  apply elem_of_lookup_imap_1 in Hin. destruct Hin as (i & x & Heq & Hlook).
  injection Heq as _ ->.
  specialize (Hno x). rewrite negb_true_iff in Hno. apply Hno.
  apply list_elem_of_In. eapply list_elem_of_lookup_2. exact Hlook.
Qed.

End TextPathAbsent.

(** The pass at a root with two leaves, neither on a path. *)
Lemma applyTextPath_without_path_witness :
  applyTextPath Reference.numChars ReferenceLayout.pointAtLength ReferenceLayout.pointAtEnd
    ReferenceLayout.bendCharacter
    (TextNode (Reference.plainElement [] [])
       [TextNode (Reference.plainElement [65] []) [];
        TextNode (Reference.plainElement [66] []) []])
    twoCharacters true (mkQPointF 1%float 2%float)
  = (twoCharacters, mkQPointF 1%float 2%float).
Proof.
  apply (applyTextPath_without_path Reference.numChars). reflexivity.
Defined.

(** ** applyAnchoring and the other members *)

(** Anchoring keeps the number of characters and changes nothing but final
    positions: with its old final position put back, every character is
    what it was. *)
Theorem applyAnchoring_moves_and_nothing_else (result : list CharacterResult)
    (isHorizontal : bool) :
  length (applyAnchoring result isHorizontal) = length result
  /\ forall m,
       set_finalPosition (finalPosition (result !!! m))
         (applyAnchoring result isHorizontal !!! m)
       = result !!! m.
Proof.
  unfold applyAnchoring. generalize (length result) at 1 3. intros fuel.
  set (Q := fun (r : list CharacterResult) =>
    length r = length result
    /\ forall m, set_finalPosition (finalPosition (result !!! m)) (r !!! m) = result !!! m).
  assert (Hloop : forall fuel start r, Q r -> Q (anchorLoop fuel isHorizontal start r)).
  { clear fuel. induction fuel as [|fuel IH]; intros start r Hr; [exact Hr|].
    cbn [anchorLoop]. destruct (start <? length r)%nat; [|exact Hr].
    unfold anchorChunk.
    destruct (chunkExtent isHorizontal start (drop start r) start 0%float 0%float)
      as [[i a] b].
    apply IH. apply for_range_preserves; [exact Hr|].
    intros k r' [Hlen Hall]. split; [rewrite length_alter; exact Hlen|].
    intros m.
    apply (alter_total_preserves
             (fun x => set_finalPosition (finalPosition (result !!! m)) x = result !!! m));
      [|apply Hall].
    intros x Hx. exact Hx. }
  assert (Hinit : Q result).
  { split; [reflexivity|]. intros m. destruct (result !!! m). reflexivity. }
  destruct (Hloop fuel 0%nat result Hinit) as [Hlen Hall].
  split; [exact Hlen | exact Hall].
Qed.

(** ** collectSubChunks (lines 1745-1801) *)

(** The loop over the children: what every chunk it collects satisfies. *)
Lemma collected_chunks_Forall {A B : Type} (P : B -> Prop) (f : nat -> A -> list B)
    (l : list A) :
  forall acc k,
    Forall P acc ->
    (forall i x, l !! i = Some x -> Forall P (f (k + i)%nat x)) ->
    Forall P
      (fst (foldl (fun acc x => (fst acc ++ f (snd acc) x, S (snd acc))) (acc, k) l)).
Proof.
  induction l as [|x l IH]; intros acc k Hacc Hl; [exact Hacc|].
  cbn [foldl fst snd]. apply IH.
  - apply Forall_app. split; [exact Hacc|].
    specialize (Hl 0%nat x eq_refl). rewrite Nat.add_0_r in Hl. exact Hl.
  - intros i y Hy. specialize (Hl (S i) y Hy).
    replace (S k + i)%nat with (k + S i)%nat by lia. exact Hl.
Qed.

(** The loop over the children: a part every chunk contributes. *)
Lemma collected_chunks_flat_map {A B C : Type} (g : B -> list C) (h : A -> list C)
    (f : nat -> A -> list B) (l : list A) :
  Forall (fun x => forall i, flat_map g (f i x) = h x) l ->
  forall acc k,
    flat_map g
      (fst (foldl (fun acc x => (fst acc ++ f (snd acc) x, S (snd acc))) (acc, k) l))
    = flat_map g acc ++ flat_map h l.
Proof.
  intros Hall. induction Hall as [|x l Hx _ IH]; intros acc k.
  - cbn. rewrite app_nil_r. reflexivity.
  - cbn [foldl fst snd]. rewrite IH, flat_map_app, Hx, <- app_assoc. reflexivity.
Qed.

Lemma collectText_plainText (textChunks : list SubChunk) :
  snd (fst (collectText textChunks)) = flat_map originalText textChunks.
Proof.
  unfold collectText.
  assert (Hfold : forall text plain positions,
    snd (fst (foldl appendChunk (text, plain, positions) textChunks))
    = plain ++ flat_map originalText textChunks).
  { induction textChunks as [|chunk l IH]; intros text plain positions.
    - cbn. rewrite app_nil_r. reflexivity.
    - cbn [foldl]. unfold appendChunk at 2. rewrite IH. cbn [flat_map].
      rewrite app_assoc. reflexivity. }
  apply Hfold.
Qed.

Section SubChunks.

Variable inheritFrom : KoSvgTextProperties -> KoSvgTextProperties -> KoSvgTextProperties.
Variable chunkStyle : KoSvgTextProperties -> ChunkStyle.
Variable facesForCSSValues : KoSvgTextProperties -> list QChar -> list nat.
Variable getBidiOpening : KoSvgTextProperties -> list QChar.
Variable getBidiClosing : KoSvgTextProperties -> list QChar.
Variable getTransformedString : KoSvgTextContentElement -> list QChar * list (Z * Z).

Local Abbreviation collect :=
  (collectSubChunks inheritFrom chunkStyle facesForCSSValues getBidiOpening
     getBidiClosing getTransformedString).

Lemma collectSubChunks_originalText (t : TextTree) :
  forall path parentProps, flat_map originalText (collect t path parentProps) = leafText t.
Proof.
  induction t as [e c IH] using TextTree_rect_children. intros path parentProps.
  destruct c as [|child c].
  - cbn [collectSubChunks leafText].
    destruct (getTransformedString e) as [text positions].
    destruct (negb (isEmpty (getBidiOpening (properties e))));
      destruct (negb (isEmpty (getBidiClosing (properties e))));
      cbn; rewrite ?app_nil_r; reflexivity.
  - cbn [collectSubChunks leafText].
    rewrite (collected_chunks_flat_map originalText leafText
               (fun i x => collect x (path ++ [i]) (inheritFrom (properties e) parentProps))).
    + reflexivity.
    + eapply Forall_impl; [exact IH|]. intros x Hx i. apply Hx.
Qed.

(** The plain text of the shape is the text of the leaves of the tree in
    document order: the text of a node that has children is left out, and
    the chunks that hold bidi controls add nothing to it. *)
Theorem plain_text_is_the_text_of_the_leaves (root : TextTree) (path : list nat)
    (parentProps : KoSvgTextProperties) :
  snd (fst (collectText (collect root path parentProps))) = leafText root.
Proof. rewrite collectText_plainText. apply collectSubChunks_originalText. Qed.

(** Every sub-chunk points to a leaf of the tree it was collected from:
    its [associatedLeaf] leads to a node, and that node has no children. *)
Theorem sub_chunks_point_to_leaves (t : TextTree) :
  forall path parentProps,
    Forall
      (fun chunk =>
         exists rest leaf,
           associatedLeaf chunk = path ++ rest
           /\ nodeAt rest t = Some leaf /\ children leaf = [])
      (collect t path parentProps).
Proof.
  induction t as [e c IH] using TextTree_rect_children. intros path parentProps.
  destruct c as [|child c].
  - cbn [collectSubChunks].
    destruct (getTransformedString e) as [text positions].
    assert (Hleaf : forall text original positions,
      exists rest leaf,
        associatedLeaf (subChunk chunkStyle facesForCSSValues path
                          (inheritFrom (properties e) parentProps) text original positions)
        = path ++ rest
        /\ nodeAt rest (TextNode e []) = Some leaf /\ children leaf = []).
    { intros. exists [], (TextNode e []). rewrite app_nil_r. repeat split. }
    destruct (negb (isEmpty (getBidiOpening (properties e))));
      destruct (negb (isEmpty (getBidiClosing (properties e))));
      cbn [app]; repeat constructor; apply Hleaf.
  - cbn [collectSubChunks].
    apply (collected_chunks_Forall _
             (fun i x => collect x (path ++ [i]) (inheritFrom (properties e) parentProps)));
      [constructor|].
    intros i x Hx. cbn [Nat.add].
    pose proof (proj1 (List.Forall_forall _ _) IH x) as Hchild.
    specialize (Hchild ltac:(apply list_elem_of_In; eapply list_elem_of_lookup_2; exact Hx)
                       (path ++ [i]) (inheritFrom (properties e) parentProps)).
    eapply Forall_impl; [exact Hchild|].
    intros chunk (rest & leaf & Hpath & Hnode & Hleaf).
    exists (i :: rest), leaf. split; [rewrite Hpath, <- app_assoc; reflexivity|].
    split; [|exact Hleaf]. cbn [nodeAt children]. rewrite Hx. exact Hnode.
Qed.

End SubChunks.

(** ** The cursor positions (lines 737-805) *)

Section CursorBounds.

Variable outlineRect : CharacterResult -> QRectF.

Lemma characterCursorPositions_clusters (n i : nat) (cr : CharacterResult)
    (cursorPos : list CursorPos) :
  (i < n)%nat -> Forall (namesCharacter n) cursorPos ->
  Forall (namesCharacter n) (snd (characterCursorPositions i cr cursorPos)).
Proof.
  intros Hi Hall. unfold characterCursorPositions.
  set (first := if anchored_chunk cr then _ else _).
  assert (Hfirst : Forall (namesCharacter n) (snd first)).
  { subst first. destruct (anchored_chunk cr); cbn [snd]; [|exact Hall].
    apply Forall_app. split; [exact Hall|]. repeat constructor; unfold namesCharacter; cbn; lia. }
  destruct first as [[cr1 positions] cursorPos1]. cbn [snd] in Hfirst.
  match goal with
  | |- context [for_range ?lo ?hi ?body ?s] =>
      pose proof (for_range_preserves
                    (fun st : list CursorPos * list QPointF => Forall (namesCharacter n) (fst st))
                    lo hi body s Hfirst) as Hloop;
      destruct (for_range lo hi body s) as [cursorPos2 positions2]
  end.
  cbn [snd]. apply Hloop. intros k st Hst. unfold graphemePosition.
  destruct (_ && _); [exact Hst|]. cbn [fst].
  apply Forall_app. split; [exact Hst|]. repeat constructor; unfold namesCharacter; cbn; lia.
Qed.

Lemma chunkCursorPosition_state (n : nat) (chunk : SubChunk) (k : nat) st :
  cursorStateAt n k st -> cursorStateAt n (S k) (chunkCursorPosition outlineRect chunk k st).
Proof.
  unfold cursorStateAt. intros Hst.
  destruct (Nat.leb_spec k n) as [Hk|Hk].
  - destruct Hst as (root & result & cursorPos & -> & Hlen & Hall).
    unfold chunkCursorPosition.
    destruct (Nat.leb_spec (S k) n) as [Hk'|Hk'].
    + destruct (result !! k) as [cr|] eqn:Hcr;
        [|apply lookup_ge_None in Hcr; lia].
      destruct (addressable cr && negb (middle cr)); [|eauto 6].
      pose proof (characterCursorPositions_clusters n k cr cursorPos ltac:(lia) Hall)
        as Hpositions.
      destruct (if -1 <? plaintTextIndex cr
                then characterCursorPositions k cr cursorPos
                else (cr, cursorPos)) as [cr' cursorPos'] eqn:Hc.
      assert (Hall' : Forall (namesCharacter n) cursorPos').
      { destruct (-1 <? plaintTextIndex cr).
        - rewrite Hc in Hpositions. exact Hpositions.
        - injection Hc as _ <-. exact Hall. }
      do 3 eexists. split; [reflexivity|].
      split; [rewrite length_insert; exact Hlen | exact Hall'].
    + assert (Hnone : result !! k = None) by (apply lookup_ge_None; lia).
      rewrite Hnone. reflexivity.
  - subst st. destruct (Nat.leb_spec (S k) n); [lia|reflexivity].
Qed.

Lemma chunkCursorPositions_state (n : nat) (textChunks : list SubChunk) :
  forall st globalIndex,
    cursorStateAt n globalIndex st ->
    cursorStateAt n (globalIndex + chunkTextLength textChunks)%nat
      (fst (foldl (chunkCursorPositions outlineRect) (st, globalIndex) textChunks)).
Proof.
  induction textChunks as [|chunk l IH]; intros st globalIndex Hst.
  - unfold chunkTextLength. cbn. rewrite Nat.add_0_r. exact Hst.
  - cbn [foldl]. unfold chunkCursorPositions at 2. cbn [fst snd].
    replace (globalIndex + chunkTextLength (chunk :: l))%nat
      with (globalIndex + length (chunk_text chunk) + chunkTextLength l)%nat
      by (unfold chunkTextLength; simpl; lia).
    apply IH.
    apply (for_range_ind (fun k s => cursorStateAt n k s)); [lia|exact Hst|].
    intros k s _ Hs. apply chunkCursorPosition_state. exact Hs.
Qed.

(** The loop over the sub-chunks reads one character for every code unit
    of the chunk texts.  When the array of characters is at least that
    long the pass completes: it keeps the number of characters, and every
    cursor position it records names a character of the array.  When the
    array is shorter the pass reads beyond its end. *)
Theorem cursorPositions_bounds (textChunks : list SubChunk) (dummyIndex : Z)
    (root : TextTree) (result : list CharacterResult) :
  ((chunkTextLength textChunks <= length result)%nat ->
   exists laidOut result' cursorPos,
     cursorPositions outlineRect textChunks dummyIndex root result
       = Some (laidOut, result', cursorPos)
     /\ length result' = length result
     /\ Forall (namesCharacter (length result)) cursorPos)
  /\ ((length result < chunkTextLength textChunks)%nat ->
      cursorPositions outlineRect textChunks dummyIndex root result = None).
Proof.
  pose proof (chunkCursorPositions_state (length result) textChunks
                (Some (root, result, [])) 0%nat) as Hstate.
  unfold cursorStateAt in Hstate. cbn [Nat.add Nat.leb] in Hstate.
  specialize (Hstate ltac:(eauto 7)).
  unfold cursorPositions. split; intros Hlen.
  - destruct (Nat.leb_spec (chunkTextLength textChunks) (length result)); [|lia].
    destruct Hstate as (root1 & result1 & cursorPos1 & -> & Hlen1 & Hall1).
    unfold paragraphEndCursorPosition.
    destruct ((-1 <? dummyIndex) && (dummyIndex <? Z.of_nat (length result1))) eqn:Hd;
      [|eauto 7].
    destruct (anchored_chunk (result1 !!! Z.to_nat dummyIndex)); [|eauto 7].
    apply andb_prop in Hd. destruct Hd as [Hd1 Hd2].
    apply Z.ltb_lt in Hd1, Hd2.
    do 3 eexists. split; [reflexivity|].
    split; [rewrite length_insert; exact Hlen1|].
    apply Forall_app. split; [exact Hall1|]. repeat constructor; unfold namesCharacter; cbn; lia.
  - destruct (Nat.leb_spec (chunkTextLength textChunks) (length result)); [lia|].
    rewrite Hstate. reflexivity.
Qed.

End CursorBounds.

(** The pass at two characters: one chunk of two code units fits, one of
    three does not. *)
Example cursorPositions_bounds_example :
  (exists laidOut result cursorPos,
     cursorPositions ReferenceLayout.outlineRect [Reference.plainChunk [65; 66]] (-1)
       (TextNode (Reference.plainElement [65; 66] []) []) twoCharacters
     = Some (laidOut, result, cursorPos))
  /\ cursorPositions ReferenceLayout.outlineRect [Reference.plainChunk [65; 66; 67]] (-1)
       (TextNode (Reference.plainElement [65; 66; 67] []) []) twoCharacters
     = None.
Proof. split; [do 3 eexists|]; vm_compute; reflexivity. Qed.

(** ** Characters and their transforms *)

Lemma QVector_insert_length {A : Type} (i : nat) (x : A) (l : list A) :
  length (QVector_insert i x l) = S (length l).
Proof.
  unfold QVector_insert. rewrite length_app, length_take. cbn [length].
  rewrite length_drop. lia.
Qed.

Section Alignment.

Variable numChars : TextTree -> nat.
Variable mergeInParentTransformation :
  KoSvgText.CharTransformation -> KoSvgText.CharTransformation ->
  KoSvgText.CharTransformation.
Variable collapseSpaces : list QChar -> TextSpaceCollapse -> list QChar * list bool.
Variable collapseLastSpace : QChar -> TextSpaceCollapse -> bool.
Variable hangLastSpace : QChar -> TextSpaceCollapse -> KoSvgText.TextWrap -> bool -> bool * bool.
Variable characterCanHang : QChar -> HangKind -> bool.
Variable set_linebreaks_utf16 : list QChar -> list QChar -> nat -> Z.
Variable set_graphemebreaks_utf16 : list QChar -> list QChar -> nat -> Z.
Variable raqm_set_text_utf16 : list QChar -> bool.
Variable raqm_get_glyphs : list QChar -> option (list Raqm.raqm_glyph_t).
Variable raqm_direction_is_rtl : nat -> bool.
Variable loadGlyph :
  bool -> Z -> Raqm.raqm_glyph_t -> CharacterResult -> QPointF ->
  bool * CharacterResult * QPointF.

Local Abbreviation shape :=
  (shapeCharacters numChars mergeInParentTransformation collapseSpaces collapseLastSpace
     hangLastSpace characterCanHang set_linebreaks_utf16 set_graphemebreaks_utf16
     raqm_set_text_utf16 raqm_get_glyphs raqm_direction_is_rtl loadGlyph).
Local Abbreviation prepare :=
  (prepareText collapseSpaces set_linebreaks_utf16 set_graphemebreaks_utf16).

(** Whenever the shaping stage completes, the text is not empty, there is
    one character result and one resolved transform for every code unit
    of the collapsed text, and the two arrays still have the same length
    after the end of the paragraph has been inserted: the passes that
    follow index the transforms by the position of the character. *)
Theorem characters_and_transforms_stay_aligned (root : TextTree)
    (textChunks : list SubChunk) (props : RootProperties) (isHorizontal : bool)
    (s : Shaped) :
  shape root textChunks props = Done s ->
  let c := appendParagraphEnd isHorizontal s in
  (0 < length (sh_result s))%nat
  /\ length (sh_result s) = length (pt_collapsed (prepare textChunks props))
  /\ length (sh_resolvedTransforms s) = length (sh_result s)
  /\ length (ch_resolvedTransforms c) = length (ch_result c).
Proof.
  intros Hshape c.
  destruct (initialCharacters_lengths numChars mergeInParentTransformation collapseSpaces
              collapseLastSpace hangLastSpace characterCanHang set_linebreaks_utf16
              set_graphemebreaks_utf16 raqm_set_text_utf16 root textChunks props)
    as [Hresult Hresolved].
  unfold shapeCharacters in Hshape.
  set (p := prepare textChunks props) in *.
  destruct (initialCharacters numChars mergeInParentTransformation collapseLastSpace
              hangLastSpace characterCanHang raqm_set_text_utf16 root textChunks props p)
    as [r0 resolved0].
  cbn [fst snd] in Hresult, Hresolved.
  destruct (raqm_get_glyphs (pt_text p)) as [glyphs|]; [|discriminate].
  pose proof (glyphLoop_length raqm_direction_is_rtl loadGlyph (isHorizontalMode props)
                (pt_text p) glyphs r0) as Hglyphs.
  destruct (glyphLoop raqm_direction_is_rtl loadGlyph (isHorizontalMode props) (pt_text p)
              glyphs r0) as [[[rg total] logicalToVisual] isBidi].
  cbn [fst] in Hglyphs.
  destruct (clusterLoop_spec (pt_text p) (pt_graphemeBreaks p) rg) as [Hcluster _].
  destruct (clusterLoop (pt_text p) (pt_graphemeBreaks p) rg)
    as [[rc firstCluster] graphemeBreakNext].
  cbn [fst] in Hcluster.
  destruct (rc !! Z.to_nat (Z.max 0 firstCluster)) as [first|] eqn:Hfirst; [|discriminate].
  apply lookup_lt_Some in Hfirst.
  assert (Hfinal : length (sh_result s) = length rc
                   /\ sh_resolvedTransforms s = resolved0).
  { injection Hshape as <-. cbn [sh_result sh_resolvedTransforms].
    split; [|reflexivity]. destruct (_ || _); [apply length_alter|reflexivity]. }
  destruct Hfinal as [Hlen Htransforms].
  assert (Haligned : length (sh_resolvedTransforms s) = length (sh_result s)).
  { rewrite Htransforms, Hlen. congruence. }
  split; [lia|]. split; [congruence|]. split; [exact Haligned|].
  subst c. unfold appendParagraphEnd.
  destruct (BreakType_eqb _ _); cbn [ch_result ch_resolvedTransforms];
    [rewrite !QVector_insert_length; congruence | exact Haligned].
Qed.

End Alignment.


(** The shaping stage at the text "AB" and a line feed. *)
Lemma characters_and_transforms_stay_aligned_witness :
  (0 < length (sh_result shapedExample))%nat
  /\ length (sh_result shapedExample) = 3%nat
  /\ length (ch_resolvedTransforms (appendParagraphEnd true shapedExample))
     = length (ch_result (appendParagraphEnd true shapedExample)).
Proof.
  destruct (characters_and_transforms_stay_aligned Reference.numChars
       Reference.mergeInParentTransformation Reference.collapseSpaces
       Reference.collapseLastSpace Reference.hangLastSpace Reference.characterCanHang
       Reference.set_linebreaks_utf16 Reference.set_graphemebreaks_utf16
       Reference.raqm_set_text_utf16 Reference.raqm_get_glyphs
       Reference.raqm_direction_is_rtl Reference.loadGlyph
       (TextNode (Reference.plainElement [65; 66; 10] []) [])
       [Reference.plainChunk [65; 66; 10]] Reference.horizontalProperties true
       shapedExample ltac:(vm_compute; reflexivity)) as (Hpos & Hlen & _ & Haligned).
  split; [exact Hpos|]. split; [|exact Haligned].
  vm_compute. reflexivity.
Defined.

(** ** What relayout never touches *)

Section ContentOfTheShape.

Variable numChars : TextTree -> nat.
Variable mergeInParentTransformation :
  KoSvgText.CharTransformation -> KoSvgText.CharTransformation ->
  KoSvgText.CharTransformation.
Variable collapseSpaces : list QChar -> TextSpaceCollapse -> list QChar * list bool.
Variable collapseLastSpace : QChar -> TextSpaceCollapse -> bool.
Variable hangLastSpace : QChar -> TextSpaceCollapse -> KoSvgText.TextWrap -> bool -> bool * bool.
Variable characterCanHang : QChar -> HangKind -> bool.
Variable set_linebreaks_utf16 : list QChar -> list QChar -> nat -> Z.
Variable set_graphemebreaks_utf16 : list QChar -> list QChar -> nat -> Z.
Variable raqm_set_text_utf16 : list QChar -> bool.
Variable raqm_get_glyphs : list QChar -> option (list Raqm.raqm_glyph_t).
Variable raqm_direction_is_rtl : nat -> bool.
Variable loadGlyph :
  bool -> Z -> Raqm.raqm_glyph_t -> CharacterResult -> QPointF ->
  bool * CharacterResult * QPointF.
Variable inheritFrom : KoSvgTextProperties -> KoSvgTextProperties -> KoSvgTextProperties.
Variable chunkStyle : KoSvgTextProperties -> ChunkStyle.
Variable facesForCSSValues : KoSvgTextProperties -> list QChar -> list nat.
Variable getBidiOpening : KoSvgTextProperties -> list QChar.
Variable getBidiClosing : KoSvgTextProperties -> list QChar.
Variable getTransformedString : KoSvgTextContentElement -> list QChar * list (Z * Z).
Variable FontContext : Type.
Variable fontContextOf : KoSvgTextProperties -> FontContext -> bool -> FontContext.
Variable underlineSize : FontContext -> qreal.
Variable underlineOffset : FontContext -> qreal.
Variable strikeoutSize : FontContext -> qreal.
Variable baselineShiftOf : KoSvgTextProperties -> FontContext -> FontContext -> bool -> QPointF.
Variable alignmentBaseline : KoSvgTextProperties -> Baseline.
Variable calculateLineHeight : CharacterResult -> qreal * qreal -> bool -> qreal * qreal.
Variable outlineLength : KoPathShape -> qreal.
Variable textDecorationPosition : KoSvgTextProperties -> bool -> Z -> Z.
Variable textDecorationLine : KoSvgTextProperties -> option Z.
Variable generateDecorationPaths :
  KoSvgTextProperties -> DecorationMetrics -> nat -> nat -> list CharacterResult ->
  bool -> Z -> qreal -> DecorationContext -> DecorationMap QPainterPath.
Variable createStroke : KoSvgTextProperties -> qreal -> QPainterPath -> QPainterPath.
Variable pointAtLength : KoPathShape -> KoSvgText.TextPathSide -> qreal -> QPointF.
Variable pointAtEnd : KoPathShape -> KoSvgText.TextPathSide -> QPointF.
Variable bendCharacter :
  KoPathShape -> TextOnPathInfo -> bool -> qreal -> CharacterResult -> CharacterResult.
Variable outlineRect : CharacterResult -> QRectF.
Variable defaultProperties : KoSvgTextProperties.
Variable propertyValues : KoSvgTextProperties -> RootProperties.
Variable rootFontContext : FontContext.
Variable finalRes : qreal.
Variable breakLines :
  KoSvgTextProperties -> QMap -> list CharacterResult -> QPointF ->
  list LineBox * list CharacterResult.
Variable flowTextInShapes :
  KoSvgTextProperties -> QMap -> list CharacterResult -> list KoShape -> list KoShape ->
  QPointF -> list LineBox * list CharacterResult.

Local Abbreviation layout :=
  (layoutRoot numChars mergeInParentTransformation collapseSpaces collapseLastSpace
     hangLastSpace characterCanHang set_linebreaks_utf16 set_graphemebreaks_utf16
     raqm_set_text_utf16 raqm_get_glyphs raqm_direction_is_rtl loadGlyph inheritFrom
     chunkStyle facesForCSSValues getBidiOpening getBidiClosing getTransformedString
     FontContext fontContextOf underlineSize underlineOffset strikeoutSize baselineShiftOf
     alignmentBaseline calculateLineHeight outlineLength textDecorationPosition
     textDecorationLine generateDecorationPaths createStroke pointAtLength pointAtEnd
     bendCharacter outlineRect defaultProperties propertyValues rootFontContext finalRes
     breakLines flowTextInShapes).
Local Abbreviation run :=
  (relayout numChars mergeInParentTransformation collapseSpaces collapseLastSpace
     hangLastSpace characterCanHang set_linebreaks_utf16 set_graphemebreaks_utf16
     raqm_set_text_utf16 raqm_get_glyphs raqm_direction_is_rtl loadGlyph inheritFrom
     chunkStyle facesForCSSValues getBidiOpening getBidiClosing getTransformedString
     FontContext fontContextOf underlineSize underlineOffset strikeoutSize baselineShiftOf
     alignmentBaseline calculateLineHeight outlineLength textDecorationPosition
     textDecorationLine generateDecorationPaths createStroke pointAtLength pointAtEnd
     bendCharacter outlineRect defaultProperties propertyValues rootFontContext finalRes
     breakLines flowTextInShapes).
Local Abbreviation shape :=
  (shapeCharacters numChars mergeInParentTransformation collapseSpaces collapseLastSpace
     hangLastSpace characterCanHang set_linebreaks_utf16 set_graphemebreaks_utf16
     raqm_set_text_utf16 raqm_get_glyphs raqm_direction_is_rtl loadGlyph).

Lemma shapeCharacters_plainText root textChunks props s :
  shape root textChunks props = Done s ->
  sh_plainText s = snd (fst (collectText textChunks)).
Proof.
  unfold shapeCharacters. intros Hshape.
  match type of Hshape with
  | match ?x with _ => _ end = _ => destruct x as [r0 resolved0]
  end.
  destruct (raqm_get_glyphs _) as [glyphs|]; [|discriminate].
  match type of Hshape with
  | match ?x with _ => _ end = _ => destruct x as [[[rg total] logicalToVisual] isBidi]
  end.
  match type of Hshape with
  | match ?x with _ => _ end = _ => destruct x as [[rc firstCluster] graphemeBreakNext]
  end.
  destruct (rc !! _) as [first|]; [|discriminate].
  injection Hshape as <-. cbn [sh_plainText]. unfold prepareText.
  destruct (collectText textChunks) as [[text plainText] positions].
  destruct (collapseSpaces text (collapse props)) as [collapsed collapseChars].
  reflexivity.
Qed.

Lemma layoutRoot_plainText root shapesInside shapesSubtract l :
  layout root shapesInside shapesSubtract = Laid l -> lo_plainText l = leafText root.
Proof.
  unfold layoutRoot. intros Hrun.
  match type of Hrun with
  | (if ?b then _ else _) = _ => destruct b; [discriminate|]
  end.
  match type of Hrun with
  | match ?x with _ => _ end = _ => destruct x as [shaped| |] eqn:Hshape; try discriminate
  end.
  apply shapeCharacters_plainText in Hshape.
  rewrite collectText_plainText, collectSubChunks_originalText in Hshape.
  repeat match type of Hrun with
         | match ?x with _ => _ end = _ => destruct x; try discriminate
         end.
  injection Hrun as <-. exact Hshape.
Qed.

(** A [relayout] that returns has changed nothing of the content of the
    shape: the shapes to flow into are the same, and so is every tree of
    the forest up to outlines and decorations.  Only the first tree is
    laid out; the others are cleared and carry nothing afterwards.  The
    plain text is either left as it was, when there is no tree or no
    glyphs, or the text of the leaves of the first tree. *)
Theorem relayout_keeps_the_content (d d' : KoSvgTextShape.PrivateData) :
  run d = Returned d' ->
  KoSvgTextShape.shapesInside d' = KoSvgTextShape.shapesInside d
  /\ KoSvgTextShape.shapesSubtract d' = KoSvgTextShape.shapesSubtract d
  /\ clearAssociatedOutlines (KoSvgTextShape.textData d')
     = clearAssociatedOutlines (KoSvgTextShape.textData d)
  /\ tail (KoSvgTextShape.textData d')
     = tail (clearAssociatedOutlines (KoSvgTextShape.textData d))
  /\ (KoSvgTextShape.plainText d' = KoSvgTextShape.plainText d
      \/ exists root siblings,
           KoSvgTextShape.textData d = root :: siblings
           /\ KoSvgTextShape.plainText d' = leafText root).
Proof.
  unfold relayout. intros Hrun.
  destruct (clearAssociatedOutlines (KoSvgTextShape.textData d))
    as [|root siblings] eqn:Hclear.
  - injection Hrun as <-. cbn. repeat split; auto.
  - pose proof (clearAssociatedOutlines_idempotent (KoSvgTextShape.textData d)) as Hidem.
    rewrite Hclear in Hidem.
    destruct (layout root (KoSvgTextShape.shapesInside d)
                (KoSvgTextShape.shapesSubtract d)) as [l| |] eqn:Hlayout;
      [|injection Hrun as <-; cbn [KoSvgTextShape.textData KoSvgTextShape.shapesInside
          KoSvgTextShape.shapesSubtract KoSvgTextShape.plainText tail];
         repeat split; auto
       |discriminate].
    injection Hrun as <-.
    cbn [KoSvgTextShape.textData KoSvgTextShape.shapesInside
         KoSvgTextShape.shapesSubtract KoSvgTextShape.plainText tail].
    split; [reflexivity|]. split; [reflexivity|]. split; [|split; [reflexivity|]].
    + cbn [clearAssociatedOutlines map] in *.
      rewrite (layoutRoot_clear _ _ _ _ _ _ _ _ _ _ _ _ _ _ _ _ _ _ _ _ _ _ _ _ _ _ _ _ _ _
                 _ _ _ _ _ _ _ _ _ _ _ _ _ _ _ Hlayout).
      exact Hidem.
    + right.
      destruct (KoSvgTextShape.textData d) as [|root0 siblings0] eqn:Hdata;
        [discriminate|].
      exists root0, siblings0. split; [reflexivity|].
      rewrite (layoutRoot_plainText _ _ _ _ Hlayout).
      cbn [clearAssociatedOutlines map] in Hclear. injection Hclear as <- _.
      clear. induction root0 as [e c IH] using TextTree_rect_children.
      destruct c as [|child c]; [reflexivity|].
      cbn [clearAssociatedOutlinesTree map leafText].
      inversion IH as [|? ? Hchild Hrest]; subst.
      cbn [flat_map]. rewrite Hchild. f_equal.
      clear Hchild IH. induction Hrest as [|x c' Hx _ IHc]; [reflexivity|].
      cbn [map flat_map]. rewrite Hx, IHc. reflexivity.
Qed.

End ContentOfTheShape.

(** The theorem at the shape with the text "ABC\n". *)
Lemma relayout_keeps_the_content_witness :
  ReferenceLayout.relayout shapeWithText = Returned shapeWithTextLaidOut
  /\ clearAssociatedOutlines (KoSvgTextShape.textData shapeWithTextLaidOut)
     = clearAssociatedOutlines (KoSvgTextShape.textData shapeWithText)
  /\ KoSvgTextShape.shapesInside shapeWithTextLaidOut = KoSvgTextShape.shapesInside shapeWithText.
Proof.
  split.
  - vm_compute. reflexivity.
  - destruct (relayout_keeps_the_content Reference.numChars Reference.mergeInParentTransformation
    Reference.collapseSpaces Reference.collapseLastSpace Reference.hangLastSpace
    Reference.characterCanHang Reference.set_linebreaks_utf16
    Reference.set_graphemebreaks_utf16 Reference.raqm_set_text_utf16
    Reference.raqm_get_glyphs Reference.raqm_direction_is_rtl Reference.loadGlyph
    ReferenceLayout.inheritFrom ReferenceLayout.chunkStyle
    ReferenceLayout.facesForCSSValues ReferenceLayout.getBidiOpening
    ReferenceLayout.getBidiClosing ReferenceLayout.getTransformedString
    ReferenceLayout.FontContext ReferenceLayout.fontContextOf
    ReferenceLayout.underlineSize ReferenceLayout.underlineOffset
    ReferenceLayout.strikeoutSize ReferenceLayout.baselineShiftOf
    ReferenceLayout.alignmentBaseline ReferenceLayout.calculateLineHeight
    ReferenceLayout.outlineLength ReferenceLayout.textDecorationPosition
    ReferenceLayout.textDecorationLine ReferenceLayout.generateDecorationPaths
    ReferenceLayout.createStroke ReferenceLayout.pointAtLength ReferenceLayout.pointAtEnd
    ReferenceLayout.bendCharacter ReferenceLayout.outlineRect
    ReferenceLayout.defaultProperties ReferenceLayout.propertyValues
    ReferenceLayout.rootFontContext ReferenceLayout.finalRes ReferenceLayout.breakLines
    ReferenceLayout.flowTextInShapes
      shapeWithText shapeWithTextLaidOut ltac:(vm_compute; reflexivity))
      as (Hinside & _ & Hdata & _).
    split; assumption.
Defined.

(** ** The decoration pass *)

Section DecorationRuns.

Variable numChars : TextTree -> nat.
Variable outlineLength : KoPathShape -> qreal.
Variable textDecorationPosition : KoSvgTextProperties -> bool -> Z -> Z.
Variable textDecorationLine : KoSvgTextProperties -> option Z.
Variable generateDecorationPaths :
  KoSvgTextProperties -> DecorationMetrics -> nat -> nat -> list CharacterResult ->
  bool -> Z -> qreal -> DecorationContext -> DecorationMap QPainterPath.
Variable createStroke : KoSvgTextProperties -> qreal -> QPainterPath -> QPainterPath.

Local Abbreviation decorate :=
  (computeTextDecorations numChars outlineLength textDecorationPosition textDecorationLine
     generateDecorationPaths createStroke).

(** Once a child has tripped the assertion, the loop over the children has
    no state left. *)
Lemma decorated_children_fault c :
  forall path metrics result thickness context isHorizontal wrapping n,
    fst (foldl
           (fun acc child =>
              (match fst acc with
               | Some st =>
                   decorate child (path ++ [snd acc]) metrics result thickness context
                     isHorizontal wrapping st
               | None => None
               end,
               S (snd acc)))
           (None, n) c) = None.
Proof.
  induction c as [|child c IH]; intros; [reflexivity|].
  cbn [foldl fst snd]. apply IH.
Qed.



(** In text that is not wrapped, a node that asks for a share of the length
    of its path, in a tree where no text path is a path shape, trips the
    assertion of line 1238: the pass does not return. *)
Theorem computeTextDecorations_percentage_needs_a_path (t : TextTree) :
  forall path metrics result thickness inherited isHorizontal st,
    dc_textPath inherited = None ->
    forallb (fun node => negb (hasPathShape node)) (subtrees t) = true ->
    existsb wantsPathLength (subtrees t) = true ->
    decorate t path metrics result thickness inherited isHorizontal false st = None.
Proof.
  induction t as [e c IH] using TextTree_rect_children.
  intros path metrics result thickness inherited isHorizontal st Hinherited Hshapes Hwants.
  cbn [subtrees forallb existsb] in Hshapes, Hwants.
  apply andb_prop in Hshapes. destruct Hshapes as [Hshape Hshapes].
  unfold hasPathShape in Hshape. cbn [element] in Hshape.
  cbn [computeTextDecorations]. unfold decorationContextOf.
  rewrite Hinherited.
  destruct (asPathShape (textPath e)) as [p|] eqn:Hpath; [discriminate|].
  apply orb_prop in Hwants. destruct Hwants as [Hnode|Hbelow].
  - unfold wantsPathLength in Hnode. cbn [element] in Hnode.
    destruct (textPath e); [|discriminate]. rewrite Hnode. reflexivity.
  - match goal with
    | |- match ?ctx with _ => _ end = None =>
        assert (Hcontext : ctx = None \/ exists inner,
                  ctx = Some inner /\ dc_textPath inner = None)
    end.
    { destruct (textPath e); [|right; eexists; split; reflexivity].
      destruct (startOffsetIsPercentage (textPathInfo e)); [left; reflexivity|].
      right. eexists. split; reflexivity. }
    destruct Hcontext as [->|(inner & -> & Hinner)]; [reflexivity|].
    match goal with
    | |- match fst (foldl ?F (Some st, 0%nat) c) with _ => _ end = None =>
        assert (Hchildren : forall acc, fst (foldl F acc c) = None)
    end.
    { clear st. induction IH as [|child c Hchild _ IHc]; [discriminate|]. intros acc.
      cbn [flat_map] in Hshapes, Hbelow.
      rewrite forallb_app in Hshapes. apply andb_prop in Hshapes.
      destruct Hshapes as [Hchildshapes Hshapes].
      rewrite existsb_app in Hbelow.
      cbn [foldl fst snd]. destruct (fst acc) as [st|].
      - apply orb_prop in Hbelow. destruct Hbelow as [Hhere|Hlater].
        + rewrite Hchild by assumption. apply decorated_children_fault.
        + apply IHc; assumption.
      - apply decorated_children_fault. }
    rewrite Hchildren. reflexivity.
Qed.

End DecorationRuns.

(** The theorem at "A" on a rectangle, with the reference services. *)
Lemma computeTextDecorations_percentage_needs_a_path_witness :
  computeTextDecorations Reference.numChars ReferenceLayout.outlineLength
    ReferenceLayout.textDecorationPosition ReferenceLayout.textDecorationLine
    ReferenceLayout.generateDecorationPaths ReferenceLayout.createStroke
    textOnARectangle [] [] [CharacterResult_default] 1%float
    (mkDecorationContext None 0%float false 0 0) true false (textOnARectangle, 0%nat)
  = None.
Proof.
  apply computeTextDecorations_percentage_needs_a_path; reflexivity.
Defined.

(** ** The alignment to the line box (lines 1149-1200) *)

Lemma onlyMoved_refl (a : CharacterResult) : onlyMoved a a.
Proof. destruct a. reflexivity. Qed.

Lemma onlyMoved_moved (a b : CharacterResult) (p q : QPointF) :
  onlyMoved a b -> onlyMoved a (set_finalPosition p (set_cssPosition q b)).
Proof. unfold onlyMoved. intros <-. destruct b. reflexivity. Qed.

Lemma onlyMoved_trans (a b c : CharacterResult) :
  onlyMoved a b -> onlyMoved b c -> onlyMoved a c.
Proof. unfold onlyMoved. intros <- <-. destruct c. reflexivity. Qed.

Lemma lookup_total_beyond (l l' : list CharacterResult) (m : nat) :
  length l' = length l -> (length l <= m)%nat -> l' !!! m = l !!! m.
Proof.
  intros Hlen Hm. rewrite !list_lookup_total_alt.
  rewrite (proj2 (lookup_ge_None l m)) by lia.
  rewrite (proj2 (lookup_ge_None l' m)) by lia. reflexivity.
Qed.

Section LineBoxes.

Variable numChars : TextTree -> nat.
Variable alignmentBaseline : KoSvgTextProperties -> Baseline.
Variable calculateLineHeight : CharacterResult -> qreal * qreal -> bool -> qreal * qreal.

Local Abbreviation align :=
  (handleLineBoxAlignment numChars alignmentBaseline calculateLineHeight).

(** The alignment of a node to its line box keeps the number of
    characters, leaves the index at the end of the characters of the node
    (cut at the number of characters there are, whatever its children
    did) and touches no character before the one it started at.  Every
    character of the node ends with its final position equal to its CSS
    position, and no character has anything changed but these two
    positions. *)
Theorem handleLineBoxAlignment_moves_the_node (t : TextTree) :
  forall (lineBoxes : list LineBox) (isHorizontal : bool)
         (result : list CharacterResult) (i : nat),
    let out := align t lineBoxes isHorizontal (result, i) in
    snd out = Nat.min (i + numChars t) (length result)
    /\ length (fst out) = length result
    /\ (forall m, (m < i)%nat -> fst out !!! m = result !!! m)
    /\ (forall m, (i <= m < snd out)%nat ->
          finalPosition (fst out !!! m) = cssPosition (fst out !!! m))
    /\ (forall m, onlyMoved (result !!! m) (fst out !!! m)).
Proof.
  induction t as [e c IH] using TextTree_rect_children.
  intros lineBoxes isHorizontal result i.
  cbn [handleLineBoxAlignment fst snd].
  set (j := Nat.min (i + numChars (TextNode e c)) (length result)).
  set (Inv := fun st : list CharacterResult * nat =>
    length (fst st) = length result
    /\ (Nat.min i (length result) <= snd st)%nat
    /\ (forall m, (m < i)%nat -> fst st !!! m = result !!! m)
    /\ (forall m, onlyMoved (result !!! m) (fst st !!! m))).
  assert (Hchildren :
    Inv (foldl (fun st child => align child lineBoxes isHorizontal st) (result, i) c)).
  { apply foldl_Forall_preserves.
    - unfold Inv. cbn [fst snd]. split; [reflexivity|]. split; [lia|].
      split; [reflexivity|]. intros m. apply onlyMoved_refl.
    - eapply Forall_impl; [exact IH|]. clear IH.
      intros child Hchild [r k] (Hlen & Hk & Hbefore & Hmoved).
      cbn [fst snd] in Hlen, Hk, Hbefore, Hmoved.
      specialize (Hchild lineBoxes isHorizontal r k). cbn zeta in Hchild.
      destruct Hchild as (Hsnd & Hlen' & Hbefore' & _ & Hmoved').
      unfold Inv. split; [congruence|]. split; [rewrite Hsnd; lia|]. split.
      + intros m Hm. destruct (decide (m < length result)%nat) as [Hin|Hout].
        * rewrite Hbefore' by lia. apply Hbefore. exact Hm.
        * apply lookup_total_beyond; [congruence | lia].
      + intros m. eapply onlyMoved_trans; [apply Hmoved | apply Hmoved']. }
  destruct (foldl (fun st child => align child lineBoxes isHorizontal st) (result, i) c)
    as [rc kc].
  destruct Hchildren as (Hlen & _ & Hbefore & Hmoved). cbn [fst snd] in Hlen, Hbefore, Hmoved.
  cbn [fst snd].
  match goal with
  | |- context [for_range i j ?body rc] =>
      assert (Hloop :
        forall hi, (i <= hi)%nat ->
          length (for_range i hi body rc) = length result
          /\ (forall m, (m < i)%nat -> for_range i hi body rc !!! m = result !!! m)
          /\ (forall m, (i <= m < hi)%nat -> (m < length result)%nat ->
                finalPosition (for_range i hi body rc !!! m)
                = cssPosition (for_range i hi body rc !!! m))
          /\ (forall m, onlyMoved (result !!! m) (for_range i hi body rc !!! m)))
  end.
  { intros hi Hhi.
    apply (for_range_ind
             (fun k r =>
                length r = length result
                /\ (forall m, (m < i)%nat -> r !!! m = result !!! m)
                /\ (forall m, (i <= m < k)%nat -> (m < length result)%nat ->
                      finalPosition (r !!! m) = cssPosition (r !!! m))
                /\ (forall m, onlyMoved (result !!! m) (r !!! m)))); [exact Hhi | |].
    - split; [exact Hlen|]. split; [exact Hbefore|]. split; [intros; lia | exact Hmoved].
    - intros k r Hk (Hl & Hb & Hf & Hm). split; [rewrite length_alter; exact Hl|].
      split; [|split].
      + intros m Hlt. rewrite list_lookup_total_alter_ne by lia. apply Hb. exact Hlt.
      + intros m Hrange Hin. rewrite list_lookup_total_alter.
        case_decide as Hd.
        * destruct (r !!! k). reflexivity.
        * apply Hf; [|exact Hin]. lia.
      + intros m. rewrite list_lookup_total_alter.
        case_decide as Hd; [|apply Hm].
        destruct Hd as [-> _]. apply onlyMoved_moved. apply Hm. }
  destruct (decide (i <= j)%nat) as [Hle|Hgt].
  - destruct (Hloop j Hle) as (Hl & Hb & Hf & Hm).
    split; [reflexivity|]. split; [exact Hl|]. split; [exact Hb|]. split; [|exact Hm].
    intros m Hrange. apply Hf; [exact Hrange | unfold j in Hrange; lia].
  - rewrite for_range_empty by lia.
    split; [reflexivity|]. split; [exact Hlen|]. split; [exact Hbefore|].
    split; [intros; lia | exact Hmoved].
Qed.

End LineBoxes.

(** ** The font metrics pass (lines 1020-1147) *)

Lemma onlyBaselineShifted_refl (a : CharacterResult) : onlyBaselineShifted a a.
Proof. destruct a. reflexivity. Qed.

Lemma onlyBaselineShifted_shifted (a b : CharacterResult) (p : QPointF) :
  onlyBaselineShifted a b -> onlyBaselineShifted a (set_baselineOffset p b).
Proof. unfold onlyBaselineShifted. intros <-. destruct b. reflexivity. Qed.

Lemma onlyBaselineShifted_trans (a b c : CharacterResult) :
  onlyBaselineShifted a b -> onlyBaselineShifted b c -> onlyBaselineShifted a c.
Proof. unfold onlyBaselineShifted. intros <- <-. destruct c. reflexivity. Qed.

(** A property that every turn within the range preserves holds after the
    loop. *)
Lemma for_range_maintains {S : Type} (P : S -> Prop) (lo hi : nat)
    (body : nat -> S -> S) (s : S) :
  P s -> (forall k s, (lo <= k < hi)%nat -> P s -> P (body k s)) ->
  P (for_range lo hi body s).
Proof.
  intros Hinit Hstep. destruct (decide (lo <= hi)%nat) as [Hle|Hgt].
  - apply (for_range_ind (fun _ s => P s)); [exact Hle | exact Hinit | exact Hstep].
  - rewrite for_range_empty by lia. exact Hinit.
Qed.

Section FontMetricsOfTheTree.

Variable numChars : TextTree -> nat.
Variable FontContext : Type.
Variable fontContextOf : KoSvgTextProperties -> FontContext -> bool -> FontContext.
Variable underlineSize : FontContext -> qreal.
Variable underlineOffset : FontContext -> qreal.
Variable strikeoutSize : FontContext -> qreal.
Variable baselineShiftOf : KoSvgTextProperties -> FontContext -> FontContext -> bool -> QPointF.
Variable res : qreal.

Local Abbreviation measure :=
  (computeFontMetrics numChars FontContext fontContextOf underlineSize underlineOffset
     strikeoutSize baselineShiftOf res).

(** The font metrics pass keeps the number of characters, leaves the index
    at the end of the characters of the node (cut at the number of
    characters there are), touches no character before the one it started
    at, and changes nothing of a character but its baseline offset. *)
Theorem computeFontMetrics_shifts_baselines (t : TextTree) :
  forall (path : list nat) (parentContext : FontContext) (isHorizontal : bool)
         (metrics : NodeMetrics) (result : list CharacterResult) (i : nat),
    let out := measure t path parentContext isHorizontal (metrics, result, i) in
    snd out = Nat.min (i + numChars t) (length result)
    /\ length (snd (fst out)) = length result
    /\ (forall m, (m < i)%nat -> snd (fst out) !!! m = result !!! m)
    /\ (forall m, onlyBaselineShifted (result !!! m) (snd (fst out) !!! m)).
Proof.
  induction t as [e c IH] using TextTree_rect_children.
  intros path parentContext isHorizontal metrics result i.
  cbn [computeFontMetrics fst snd].
  set (j := Nat.min (i + numChars (TextNode e c)) (length result)).
  set (Inv := fun acc : NodeMetrics * list CharacterResult * nat * nat =>
    length (snd (fst (fst acc))) = length result
    /\ (Nat.min i (length result) <= snd (fst acc))%nat
    /\ (forall m, (m < i)%nat -> snd (fst (fst acc)) !!! m = result !!! m)
    /\ (forall m, onlyBaselineShifted (result !!! m) (snd (fst (fst acc)) !!! m))).
  match goal with
  | |- context [foldl ?F ?init c] => assert (Hchildren : Inv (foldl F init c))
  end.
  { apply foldl_Forall_preserves.
    - unfold Inv. cbn [fst snd]. split; [reflexivity|]. split; [lia|].
      split; [reflexivity|]. intros m. apply onlyBaselineShifted_refl.
    - eapply Forall_impl; [exact IH|]. clear IH.
      intros child Hchild [[[ms r] k] n] (Hlen & Hk & Hbefore & Hmoved).
      cbn [fst snd] in Hlen, Hk, Hbefore, Hmoved.
      specialize (Hchild (path ++ [n])
                    (fontContextOf (properties e) parentContext isHorizontal)
                    isHorizontal ms r k).
      cbn zeta in Hchild. destruct Hchild as (Hsnd & Hlen' & Hbefore' & Hmoved').
      unfold Inv. cbn [fst snd]. split; [congruence|]. split; [rewrite Hsnd; lia|]. split.
      + intros m Hm. destruct (decide (m < length result)%nat) as [Hin|Hout].
        * rewrite Hbefore' by lia. apply Hbefore. exact Hm.
        * apply lookup_total_beyond; [congruence | lia].
      + intros m. eapply onlyBaselineShifted_trans; [apply Hmoved | apply Hmoved']. }
  match goal with
  | |- context [foldl ?F ?init c] => destruct (foldl F init c) as [[[ms rc] kc] n]
  end.
  destruct Hchildren as (Hlen & _ & Hbefore & Hmoved). cbn [fst snd] in Hlen, Hbefore, Hmoved.
  cbn [fst snd].
  split; [reflexivity|].
  apply (for_range_maintains
           (fun r =>
              length r = length result
              /\ (forall m, (m < i)%nat -> r !!! m = result !!! m)
              /\ (forall m, onlyBaselineShifted (result !!! m) (r !!! m)))).
  - split; [exact Hlen|]. split; [exact Hbefore | exact Hmoved].
  - intros k r Hk (Hl & Hb & Hm). split; [rewrite length_alter; exact Hl|]. split.
    + intros m Hlt. rewrite list_lookup_total_alter_ne by lia. apply Hb. exact Hlt.
    + intros m. rewrite list_lookup_total_alter.
      case_decide as Hd; [|apply Hm].
      destruct Hd as [-> _]. apply onlyBaselineShifted_shifted. apply Hm.
Qed.

Lemma decorationMetricsOf_has (context : FontContext) (old : DecorationMetrics) :
  hasDecorationMetrics
    (decorationMetricsOf FontContext underlineSize underlineOffset strikeoutSize res
       context old).
Proof. unfold hasDecorationMetrics. cbn. repeat split; discriminate. Qed.

(** A node writes the metrics of the nodes below its own path only. *)
Lemma computeFontMetrics_metrics_elsewhere (q : list nat) (t : TextTree) :
  forall path parentContext isHorizontal st,
    ~ path `prefix_of` q ->
    metricsAt q (fst (fst (measure t path parentContext isHorizontal st)))
    = metricsAt q (fst (fst st)).
Proof.
  induction t as [e c IH] using TextTree_rect_children.
  intros path parentContext isHorizontal [[metrics result] i] Hpath.
  cbn [fst snd]. cbn [computeFontMetrics].
  match goal with
  | |- context [foldl ?F ?init c] =>
      assert (Hchildren :
        metricsAt q (fst (fst (fst (foldl F init c)))) = metricsAt q metrics)
  end.
  { apply (foldl_Forall_preserves
             (fun acc : NodeMetrics * list CharacterResult * nat * nat =>
                metricsAt q (fst (fst (fst acc))) = metricsAt q metrics)).
    - cbn [fst metricsAt]. rewrite decide_False; [reflexivity|].
      intros ->. apply Hpath. reflexivity.
    - eapply Forall_impl; [exact IH|]. intros child Hchild acc Hacc.
      cbn [fst]. rewrite Hchild; [exact Hacc|].
      intros Hprefix. apply Hpath. etransitivity; [|exact Hprefix].
      apply prefix_app_r. reflexivity. }
  match goal with
  | |- context [foldl ?F ?init c] => destruct (foldl F init c) as [[[ms rc] kc] n]
  end.
  exact Hchildren.
Qed.

(** The metrics of a node after the pass are those line 1085-1103 compute
    from its own font, on top of what the node held before. *)
Lemma computeFontMetrics_metrics_of_node (t : TextTree) :
  forall path parentContext isHorizontal st rest node,
    nodeAt rest t = Some node ->
    metricsAt (path ++ rest) (fst (fst (measure t path parentContext isHorizontal st)))
    = decorationMetricsOf FontContext underlineSize underlineOffset strikeoutSize res
        (fontContextAt fontContextOf rest t parentContext isHorizontal)
        (metricsAt (path ++ rest) (fst (fst st))).
Proof.
  induction t as [e c IH] using TextTree_rect_children.
  intros path parentContext isHorizontal [[metrics result] i] rest node Hnode.
  cbn [fst snd]. cbn [computeFontMetrics].
  set (context := fontContextOf (properties e) parentContext isHorizontal).
  match goal with
  | |- context [foldl ?F ?init c] =>
      assert (Hchildren :
        metricsAt (path ++ rest) (fst (fst (fst (foldl F init c))))
        = decorationMetricsOf FontContext underlineSize underlineOffset strikeoutSize res
            (fontContextAt fontContextOf rest (TextNode e c) parentContext isHorizontal)
            (metricsAt (path ++ rest) metrics))
  end.
  { destruct rest as [|k rest].
    - apply (foldl_Forall_preserves
               (fun acc : NodeMetrics * list CharacterResult * nat * nat =>
                  metricsAt (path ++ []) (fst (fst (fst acc)))
                  = decorationMetricsOf FontContext underlineSize underlineOffset
                      strikeoutSize res context (metricsAt (path ++ []) metrics))).
      + cbn [fst]. rewrite app_nil_r. cbn [metricsAt].
        rewrite decide_True by reflexivity. reflexivity.
      + apply Forall_forall. intros child _ acc Hacc. cbn [fst].
        rewrite computeFontMetrics_metrics_elsewhere; [exact Hacc|].
        rewrite app_nil_r. intros Hprefix.
        apply prefix_length in Hprefix. rewrite length_app in Hprefix.
        cbn [length] in Hprefix. lia.
    - cbn [nodeAt children] in Hnode. cbn [fontContextAt children element].
      fold context.
      destruct (c !! k) as [child|] eqn:Hchild; [|discriminate].
      match goal with
      | |- context [foldl ?F (?init, 0%nat) c] =>
          assert (Hfold : forall acc,
            metricsAt (path ++ (snd acc + k)%nat :: rest)
              (fst (fst (fst (foldl F acc c))))
            = decorationMetricsOf FontContext underlineSize underlineOffset
                strikeoutSize res
                (fontContextAt fontContextOf rest child context isHorizontal)
                (metricsAt (path ++ (snd acc + k)%nat :: rest) (fst (fst (fst acc)))))
      end.
      { clear metrics result i. revert k Hchild.
        induction IH as [|first c Hfirst _ IHc]; intros k Hchild acc; [discriminate|].
        cbn [foldl]. destruct k as [|k].
        + cbn in Hchild. injection Hchild as ->.
          replace (snd acc + 0)%nat with (snd acc) by lia.
          match goal with
          | |- context [foldl ?F (?a, ?n) c] =>
              assert (Hlater : forall c' acc', (S (snd acc) <= snd acc')%nat ->
                metricsAt (path ++ snd acc :: rest) (fst (fst (fst (foldl F acc' c'))))
                = metricsAt (path ++ snd acc :: rest) (fst (fst (fst acc'))))
          end.
          { induction c' as [|child' c' IHc']; intros acc' Hle; [reflexivity|].
            cbn [foldl]. rewrite IHc' by (cbn [snd]; lia). cbn [fst].
            apply computeFontMetrics_metrics_elsewhere.
            intros [tail Htail]. rewrite <- app_assoc in Htail.
            apply app_inv_head in Htail. cbn in Htail. injection Htail as Heq _. lia. }
          rewrite Hlater by (cbn [snd]; lia). cbn [fst].
          replace (path ++ snd acc :: rest) with ((path ++ [snd acc]) ++ rest)
            by (rewrite <- app_assoc; reflexivity).
          eapply Hfirst. exact Hnode.
        + cbn in Hchild.
          match goal with
          | |- context [foldl ?F ?a c] => specialize (IHc k Hchild a)
          end.
          cbn [snd fst] in IHc.
          replace (snd acc + S k)%nat with (S (snd acc) + k)%nat by lia.
          rewrite IHc. f_equal.
          apply computeFontMetrics_metrics_elsewhere.
          intros [tail Htail]. rewrite <- app_assoc in Htail.
          apply app_inv_head in Htail. cbn in Htail. injection Htail as Heq _. lia. }
      match goal with
      | |- context [foldl ?F ?a c] => specialize (Hfold a)
      end.
      cbn [fst snd] in Hfold. change (0 + k)%nat with k in Hfold. rewrite Hfold.
      f_equal. cbn [metricsAt]. rewrite decide_False; [reflexivity|].
      intros Heq. apply (f_equal length) in Heq. rewrite length_app in Heq.
      cbn [length] in Heq. lia. }
  match goal with
  | |- context [foldl ?F ?init c] => destruct (foldl F init c) as [[[ms rc] kc] n]
  end.
  exact Hchildren.
Qed.

(** After the pass every node of the tree has its metrics on record, and
    they are those of its own font: the underline and the overline have
    the width of the underline of the font, the line-through has the
    width of its strike-out, the underline lies at the underline offset
    of the font, and the line-through at that offset scaled once more,
    all in points.  The offset of the overline is never stored: it is the
    one the node held before the pass, if it held one. *)
Theorem computeFontMetrics_records_every_node (t : TextTree) :
  forall path parentContext isHorizontal st rest node,
    nodeAt rest t = Some node ->
    let context := fontContextAt fontContextOf rest t parentContext isHorizontal in
    let before := metricsAt (path ++ rest) (fst (fst st)) in
    let after :=
      metricsAt (path ++ rest)
        (fst (fst (measure t path parentContext isHorizontal st))) in
    let toPt := freetypePixelsToPt res in
    hasDecorationMetrics after
    /\ textDecorationWidths after
       = mkDecorationMap (Some (underlineSize context * toPt)%float)
           (Some (underlineSize context * toPt)%float)
           (Some (strikeoutSize context * toPt)%float)
    /\ decorationUnderline (textDecorationOffsets after)
       = Some (underlineOffset context * - toPt)%float
    /\ decorationLineThrough (textDecorationOffsets after)
       = Some (underlineOffset context * - toPt * - toPt)%float
    /\ decorationOverline (textDecorationOffsets after)
       = decorationOverline (textDecorationOffsets before).
Proof.
  intros path parentContext isHorizontal st rest node Hnode. cbv zeta.
  rewrite (computeFontMetrics_metrics_of_node t path parentContext isHorizontal st rest
             node Hnode).
  split; [apply decorationMetricsOf_has|]. repeat split.
Qed.

End FontMetricsOfTheTree.

(** The theorem at the second leaf of [twoLeaves], which held an overline
    offset of 7 and an underline width of 3 from an earlier run: the offset
    is still there, the width is that of the font. *)
Lemma computeFontMetrics_records_every_node_witness :
  decorationOverline (textDecorationOffsets (metricsAt [1%nat] twoLeavesMeasured))
  = Some 7%float
  /\ decorationUnderline (textDecorationOffsets (metricsAt [0%nat] twoLeavesMeasured))
     <> None
  /\ decorationOverline (textDecorationOffsets (metricsAt [0%nat] twoLeavesMeasured))
     = None
  /\ decorationUnderline (textDecorationWidths (metricsAt [1%nat] twoLeavesMeasured))
     = Some (64 * freetypePixelsToPt ReferenceLayout.finalRes)%float.
Proof.
  destruct (computeFontMetrics_records_every_node Reference.numChars
              ReferenceLayout.FontContext ReferenceLayout.fontContextOf
              ReferenceLayout.underlineSize ReferenceLayout.underlineOffset
              ReferenceLayout.strikeoutSize ReferenceLayout.baselineShiftOf
              ReferenceLayout.finalRes twoLeaves [] ReferenceLayout.rootFontContext true
              (metricsOfAnEarlierRun,
               [CharacterResult_default; CharacterResult_default], 0%nat)
              [1%nat] (TextNode (Reference.plainElement [66] []) []) eq_refl)
    as (_ & Hwidths & _ & _ & Hoverline).
  split; [exact Hoverline|].
  split; [vm_compute; discriminate|].
  split; [vm_compute; reflexivity|].
  unfold twoLeavesMeasured.
  change [1%nat] with ([] ++ [1%nat]). rewrite Hwidths. reflexivity.
Defined.

(** ** What resolveTransforms does to the characters (lines 825-900) *)

Lemma sameOrUnaddressed_refl (a : CharacterResult) : sameOrUnaddressed a a.
Proof. left. reflexivity. Qed.

Lemma sameOrUnaddressed_trans (a b c : CharacterResult) :
  sameOrUnaddressed a b -> sameOrUnaddressed b c -> sameOrUnaddressed a c.
Proof.
  unfold sameOrUnaddressed. intros [->| ->] [->| ->]; auto.
Qed.

Lemma sameOrUnaddressed_stays (a b : CharacterResult) :
  sameOrUnaddressed a b -> addressable a = false -> addressable b = false.
Proof. intros [->| ->] Ha; [exact Ha | destruct a; reflexivity]. Qed.

Section CharactersOfResolveTransforms.

Variable numChars : TextTree -> nat.
Variable mergeInParentTransformation :
  KoSvgText.CharTransformation -> KoSvgText.CharTransformation ->
  KoSvgText.CharTransformation.

Local Abbreviation resolve := (resolveTransforms numChars mergeInParentTransformation).

Lemma resolveOwnStep_characters local text wrapped collapsedChars k
    (st : list CharacterResult * list KoSvgText.CharTransformation * nat) :
  let st' :=
    resolveOwnStep mergeInParentTransformation local text wrapped collapsedChars k st in
  (fst (fst st') = fst (fst st)
   \/ fst (fst st') = alter (set_addressable false) k (fst (fst st)))
  /\ ((k < length text)%nat -> takesNoPart text wrapped collapsedChars k = true ->
      fst (fst st') = alter (set_addressable false) k (fst (fst st))).
Proof.
  destruct st as [[result resolved] i]. unfold resolveOwnStep, takesNoPart. cbn [fst snd].
  destruct (length text <=? k)%nat eqn:Hk.
  - split; [left; reflexivity|]. apply Nat.leb_le in Hk. intros; lia.
  - destruct (_ || _ || _).
    + split; [right; reflexivity | reflexivity].
    + split; [|discriminate]. left.
      destruct (i <? length local)%nat; [reflexivity|].
      destruct (0 <? k)%nat; [|reflexivity].
      destruct (KoSvgText.rotate _); reflexivity.
Qed.

Lemma alter_sameOrUnaddressed (result r : list CharacterResult) (k : nat) :
  (forall m, sameOrUnaddressed (result !!! m) (r !!! m)) ->
  forall m, sameOrUnaddressed (result !!! m) (alter (set_addressable false) k r !!! m).
Proof.
  intros Hr m. rewrite list_lookup_total_alter. case_decide as Hd; [|apply Hr].
  destruct Hd as [-> _]. eapply sameOrUnaddressed_trans; [apply Hr|].
  right. reflexivity.
Qed.

Lemma resolveTransforms_characters (t : TextTree) :
  forall text isHorizontal wrapped textInPath collapsedChars st m,
    sameOrUnaddressed (rs_result st !!! m)
      (rs_result (resolve t text isHorizontal wrapped textInPath collapsedChars st) !!! m).
Proof.
  induction t as [e c IH] using TextTree_rect_children.
  intros text isHorizontal wrapped textInPath collapsedChars st.
  simpl.
  set (index := rs_currentIndex st).
  set (j := (index + numChars (TextNode e c))%nat).
  set (own := if bool_decide (is_Some (textPath e))
              then (rs_result st, rs_resolved st)
              else let '(result, resolved, _) :=
                     for_range index j
                       (resolveOwnStep mergeInParentTransformation (localTransformations e)
                          text wrapped collapsedChars)
                       (rs_result st, rs_resolved st, 0%nat) in
                   (result, resolved)).
  assert (Hown : forall m, sameOrUnaddressed (rs_result st !!! m) (fst own !!! m)).
  { subst own. destruct (bool_decide _); [intros m; apply sameOrUnaddressed_refl|].
    pose proof (for_range_preserves
      (fun s : list CharacterResult * list KoSvgText.CharTransformation * nat =>
         forall m, sameOrUnaddressed (rs_result st !!! m) (fst (fst s) !!! m))
      index j
      (resolveOwnStep mergeInParentTransformation (localTransformations e)
         text wrapped collapsedChars)
      (rs_result st, rs_resolved st, 0%nat)) as Hloop.
    destruct (for_range index j _ _) as [[r1 r2] i1].
    cbn [fst snd] in *. apply Hloop; [intros m; apply sameOrUnaddressed_refl|].
    intros k s Hs.
    destruct (resolveOwnStep_characters (localTransformations e) text wrapped
                collapsedChars k s) as [[-> | ->] _]; [exact Hs|].
    apply alter_sameOrUnaddressed. exact Hs. }
  destruct own as [result resolved]. cbn [fst] in Hown.
  set (afterChildren := foldl _ _ c).
  assert (Hchildren :
    forall m, sameOrUnaddressed (rs_result st !!! m) (rs_result afterChildren !!! m)).
  { subst afterChildren.
    apply (foldl_Forall_preserves
      (fun s => forall m, sameOrUnaddressed (rs_result st !!! m) (rs_result s !!! m))).
    - exact Hown.
    - eapply Forall_impl; [exact IH|].
      intros child Hchild s Hs m.
      eapply sameOrUnaddressed_trans; [apply Hs | apply Hchild]. }
  exact Hchildren.
Qed.

(** The pass does nothing to a character but clear [addressable]: every
    character comes out as it went in, or with [addressable] cleared, and
    there are as many characters and transformations as before. *)
Theorem resolveTransforms_only_clears_addressable (t : TextTree)
    (text : list QChar) (isHorizontal wrapped textInPath : bool)
    (collapsedChars : list bool) (st : ResolveState) :
  let st' := resolve t text isHorizontal wrapped textInPath collapsedChars st in
  length (rs_result st') = length (rs_result st)
  /\ length (rs_resolved st') = length (rs_resolved st)
  /\ forall m, sameOrUnaddressed (rs_result st !!! m) (rs_result st' !!! m).
Proof.
  cbn zeta.
  destruct (resolveTransforms_lengths numChars mergeInParentTransformation t text
              isHorizontal wrapped textInPath collapsedChars st) as [Hresult Hresolved].
  split; [exact Hresult|]. split; [exact Hresolved|].
  apply resolveTransforms_characters.
Qed.

(** In a node that is no text path, every character of the node that is
    collapsed, is a soft hyphen, or is a bidi control in text that is not
    wrapped, comes out not addressable. *)
Theorem resolveTransforms_hides_what_takes_no_part (e : KoSvgTextContentElement)
    (c : list TextTree) (text : list QChar) (isHorizontal wrapped textInPath : bool)
    (collapsedChars : list bool) (st : ResolveState) (k : nat) :
  textPath e = None ->
  (rs_currentIndex st <= k < rs_currentIndex st + numChars (TextNode e c))%nat ->
  (k < length text)%nat ->
  (k < length (rs_result st))%nat ->
  takesNoPart text wrapped collapsedChars k = true ->
  addressable
    (rs_result (resolve (TextNode e c) text isHorizontal wrapped textInPath
                  collapsedChars st) !!! k) = false.
Proof.
  intros Hpath Hrange Htext Hresult Hpart.
  cbn [resolveTransforms]. rewrite Hpath.
  rewrite bool_decide_eq_false_2 by (intros [x Hx]; discriminate).
  set (index := rs_currentIndex st) in *.
  set (j := (index + numChars (TextNode e c))%nat) in *.
  pose proof (for_range_ind
    (fun n (s : list CharacterResult * list KoSvgText.CharTransformation * nat) =>
       length (fst (fst s)) = length (rs_result st)
       /\ ((k < n)%nat -> addressable (fst (fst s) !!! k) = false))
    index j
    (resolveOwnStep mergeInParentTransformation (localTransformations e)
       text wrapped collapsedChars)
    (rs_result st, rs_resolved st, 0%nat)) as Hloop.
  destruct (for_range index j _ _) as [[r1 r2] i1].
  cbn [fst snd] in Hloop.
  destruct Hloop as [_ Hown]; [lia | split; [reflexivity | lia] | |].
  { intros n s Hn [Hlen Hdone].
    destruct (resolveOwnStep_characters (localTransformations e) text wrapped
                collapsedChars n s) as [Hstep Hhide].
    split.
    - destruct Hstep as [-> | ->]; [exact Hlen | rewrite length_alter; exact Hlen].
    - intros Hk. destruct (decide (k = n)) as [->|Hne].
      + rewrite (Hhide Htext Hpart). rewrite list_lookup_total_alter.
        rewrite decide_True by (split; [reflexivity | lia]).
        destruct (fst (fst s) !!! n). reflexivity.
      + destruct Hstep as [-> | ->]; [apply Hdone; lia|].
        rewrite list_lookup_total_alter_ne by congruence. apply Hdone. lia. }
  specialize (Hown ltac:(lia)).
  match goal with
  | |- context [foldl ?F ?init c] =>
      assert (Hchildren :
        forall m, sameOrUnaddressed (r1 !!! m) (rs_result (foldl F init c) !!! m))
  end.
  { apply (foldl_preserves
      (fun s => forall m, sameOrUnaddressed (r1 !!! m) (rs_result s !!! m))).
    - intros m. apply sameOrUnaddressed_refl.
    - intros s child Hs m.
      eapply sameOrUnaddressed_trans; [apply Hs | apply resolveTransforms_characters]. }
  cbn [rs_result]. eapply sameOrUnaddressed_stays; [apply Hchildren | exact Hown].
Qed.

End CharactersOfResolveTransforms.

(** The theorem at "A" and a soft hyphen in one leaf. *)
Lemma resolveTransforms_hides_what_takes_no_part_witness :
  addressable
    (rs_result
       (resolveTransforms Reference.numChars Reference.mergeInParentTransformation
          (TextNode (Reference.plainElement [65; 173] []) []) [65; 173] true false false
          [false; false]
          (mkResolveState (replicate 2 CharacterResult_default) 0%nat
             (initialResolvedTransforms [65; 173]))) !!! 1%nat) = false.
Proof.
  apply resolveTransforms_hides_what_takes_no_part.
  - reflexivity.
  - vm_compute. lia.
  - vm_compute. lia.
  - vm_compute. lia.
  - vm_compute. reflexivity.
Defined.

(** ** The adjustment of positions (lines 629-692) *)

Lemma onlyAdjusted_refl (a : CharacterResult) : onlyAdjusted a a.
Proof. unfold onlyAdjusted. destruct a. auto. Qed.

Lemma onlyPlaced_refl (a : CharacterResult) : onlyPlaced a a.
Proof. unfold onlyPlaced. destruct a. auto. Qed.

(** The step at an addressable character, as a function of the character. *)
Lemma adjustRelativeStep_at resolvedTransforms i result shift flag :
  addressable (result !!! i) = true ->
  exists cr shift' flag',
    adjustRelativeStep resolvedTransforms i (result, shift, flag)
    = (<[i := cr]> result, shift', flag')
    /\ onlyAdjusted (result !!! i) cr
    /\ (KoSvgText.startsNewChunk (resolvedTransforms !!! i) = true ->
        middle (result !!! i) = false -> anchored_chunk cr = true).
Proof.
  intros Haddr. unfold adjustRelativeStep. rewrite Haddr.
  destruct (result !!! i) as [fp ro hi ad mi an gl ink adv bt le ls tl hl sa sd ci anc dir
                                css bo vi pi] eqn:Hcr.
  cbn in Haddr. subst ad.
  destruct (KoSvgText.rotate (resolvedTransforms !!! i)) as [r|];
    destruct flag;
    destruct (KoSvgText.startsNewChunk (resolvedTransforms !!! i));
    destruct mi; cbn;
    eexists _, _, _; (split; [reflexivity|]);
    (split; [unfold onlyAdjusted; cbn; repeat split; (reflexivity || discriminate || auto)
            | intros; (reflexivity || discriminate || auto)]).
Qed.

(** The first adjustment keeps the number of characters and changes nothing
    of a character but its rotation, its final position and its
    anchored-chunk flag; it takes the flag from no character and leaves
    every character that is not addressable alone.  An addressable
    character whose transformation starts a new chunk, and which is not in
    the middle of a cluster, comes out as the start of an anchored chunk. *)
Theorem adjustRelative_starts_chunks
    (resolvedTransforms : list KoSvgText.CharTransformation)
    (result : list CharacterResult) :
  length (adjustRelative resolvedTransforms result) = length result
  /\ (forall m, onlyAdjusted (result !!! m) (adjustRelative resolvedTransforms result !!! m))
  /\ (forall m, (m < length result)%nat ->
        addressable (result !!! m) = true ->
        KoSvgText.startsNewChunk (resolvedTransforms !!! m) = true ->
        middle (result !!! m) = false ->
        anchored_chunk (adjustRelative resolvedTransforms result !!! m) = true).
Proof.
  unfold adjustRelative.
  pose proof (for_range_ind
    (fun k (s : list CharacterResult * QPointF * bool) =>
       length (fst (fst s)) = length result
       /\ (forall m, (k <= m)%nat -> fst (fst s) !!! m = result !!! m)
       /\ (forall m, onlyAdjusted (result !!! m) (fst (fst s) !!! m))
       /\ (forall m, (m < k)%nat ->
             addressable (result !!! m) = true ->
             KoSvgText.startsNewChunk (resolvedTransforms !!! m) = true ->
             middle (result !!! m) = false ->
             anchored_chunk (fst (fst s) !!! m) = true))
    0%nat (length result) (adjustRelativeStep resolvedTransforms)
    (result, QPointF_null, false)) as Hloop.
  destruct Hloop as (Hlen & _ & Hall & Hstarts).
  - lia.
  - cbn [fst]. split; [reflexivity|]. split; [reflexivity|].
    split; [intros m; apply onlyAdjusted_refl | intros; lia].
  - intros k [[r shift] flag] Hk (Hlen & Hlater & Hall & Hstarts).
    cbn [fst] in Hlen, Hlater, Hall, Hstarts.
    destruct (addressable (r !!! k)) eqn:Haddr.
    + destruct (adjustRelativeStep_at resolvedTransforms k r shift flag Haddr)
        as (cr & shift' & flag' & -> & Hcr & Hchunk).
      rewrite (Hlater k) in Hcr, Hchunk by lia.
      cbn [fst]. split; [rewrite length_insert; exact Hlen|]. split; [|split].
      * intros m Hm. rewrite list_lookup_total_insert_ne by lia. apply Hlater. lia.
      * intros m. rewrite list_lookup_total_insert. case_decide as Hd; [|apply Hall].
        destruct Hd as [-> _]. exact Hcr.
      * intros m Hm Ha Hs Hmid. rewrite list_lookup_total_insert. case_decide as Hd.
        -- destruct Hd as [-> _]. apply Hchunk; assumption.
        -- apply Hstarts; try assumption.
           destruct (decide (m = k)) as [->|Hne]; [exfalso; apply Hd; split; [reflexivity|lia]
                                                  | lia].
    + unfold adjustRelativeStep. rewrite Haddr. cbn [fst].
      split; [exact Hlen|]. split; [intros m Hm; apply Hlater; lia|]. split; [exact Hall|].
      intros m Hm Ha Hs Hmid. destruct (decide (m = k)) as [->|Hne].
      * rewrite (Hlater k) in Haddr by lia. congruence.
      * apply Hstarts; try assumption. lia.
  - split; [exact Hlen|]. split; [exact Hall|].
    intros m Hm. apply Hstarts. exact Hm.
Qed.

(** The theorem at two characters, the first with an absolute position. *)
Lemma adjustRelative_starts_chunks_witness :
  anchored_chunk
    (adjustRelative
       [KoSvgText.mkCharTransformation (Some 1%float) None None None None;
        KoSvgText.CharTransformation_default]
       (replicate 2 (set_addressable true CharacterResult_default)) !!! 0%nat) = true.
Proof.
  apply adjustRelative_starts_chunks; vm_compute; (lia || reflexivity).
Defined.

Lemma adjustAbsoluteStep_at resolvedTransforms i result shift :
  addressable (result !!! i) = true ->
  exists cr shift',
    adjustAbsoluteStep resolvedTransforms i (result, shift) = (<[i := cr]> result, shift')
    /\ onlyPlaced (result !!! i) cr
    /\ (middle (result !!! i) = true -> (0 < i)%nat ->
        finalPosition cr = finalPosition (result !!! (i - 1)%nat)).
Proof.
  intros Haddr. unfold adjustAbsoluteStep. rewrite Haddr.
  eexists _, _. split; [reflexivity|].
  destruct (result !!! i) as [fp ro hi ad mi an gl ink adv bt le ls tl hl sa sd ci anc dir
                                css bo vi pi] eqn:Hcr.
  cbn in Haddr. subst ad. cbn [middle set_finalPosition finalPosition].
  destruct (0 <=? Z.of_nat i - 1) eqn:Hi.
  - destruct mi; cbn; (split; [split; [reflexivity | discriminate]|]);
      intros; (reflexivity || discriminate).
  - apply Z.leb_gt in Hi.
    destruct mi; cbn; (split; [split; [reflexivity | discriminate]|]);
      intros; (lia || discriminate).
Qed.

(** The second adjustment keeps the number of characters, changes nothing of
    a character but its final position and leaves every character that is
    not addressable alone.  An addressable character in the middle of a
    cluster comes out at the final position of the character before it. *)
Theorem adjustAbsolute_places_clusters
    (resolvedTransforms : list KoSvgText.CharTransformation)
    (result : list CharacterResult) :
  length (adjustAbsolute resolvedTransforms result) = length result
  /\ (forall m, onlyPlaced (result !!! m) (adjustAbsolute resolvedTransforms result !!! m))
  /\ (forall m, (0 < m < length result)%nat ->
        addressable (result !!! m) = true ->
        middle (result !!! m) = true ->
        finalPosition (adjustAbsolute resolvedTransforms result !!! m)
        = finalPosition (adjustAbsolute resolvedTransforms result !!! (m - 1)%nat)).
Proof.
  unfold adjustAbsolute.
  pose proof (for_range_ind
    (fun k (s : list CharacterResult * QPointF) =>
       length (fst s) = length result
       /\ (forall m, (k <= m)%nat -> fst s !!! m = result !!! m)
       /\ (forall m, onlyPlaced (result !!! m) (fst s !!! m))
       /\ (forall m, (0 < m < k)%nat ->
             addressable (result !!! m) = true ->
             middle (result !!! m) = true ->
             finalPosition (fst s !!! m) = finalPosition (fst s !!! (m - 1)%nat)))
    0%nat (length result) (adjustAbsoluteStep resolvedTransforms)
    (result, QPointF_null)) as Hloop.
  destruct Hloop as (Hlen & _ & Hall & Hmiddle).
  - lia.
  - cbn [fst]. split; [reflexivity|]. split; [reflexivity|].
    split; [intros m; apply onlyPlaced_refl | intros; lia].
  - intros k [r shift] Hk (Hlen & Hlater & Hall & Hmiddle).
    cbn [fst] in Hlen, Hlater, Hall, Hmiddle.
    destruct (addressable (r !!! k)) eqn:Haddr.
    + destruct (adjustAbsoluteStep_at resolvedTransforms k r shift Haddr)
        as (cr & shift' & -> & Hcr & Hprev).
      rewrite (Hlater k) in Hcr, Hprev by lia.
      cbn [fst]. split; [rewrite length_insert; exact Hlen|]. split; [|split].
      * intros m Hm. rewrite list_lookup_total_insert_ne by lia. apply Hlater. lia.
      * intros m. rewrite list_lookup_total_insert. case_decide as Hd; [|apply Hall].
        destruct Hd as [-> _]. exact Hcr.
      * intros m Hm Ha Hmid.
        rewrite (list_lookup_total_insert_ne r k (m - 1)) by lia.
        rewrite list_lookup_total_insert. case_decide as Hd.
        -- destruct Hd as [-> _]. apply Hprev; [exact Hmid | lia].
        -- apply Hmiddle; try assumption.
           destruct (decide (m = k)) as [->|Hne]; [exfalso; apply Hd; split; [reflexivity|lia]
                                                  | lia].
    + unfold adjustAbsoluteStep. rewrite Haddr. cbn [fst].
      split; [exact Hlen|]. split; [intros m Hm; apply Hlater; lia|]. split; [exact Hall|].
      intros m Hm Ha Hmid. destruct (decide (m = k)) as [->|Hne].
      * rewrite (Hlater k) in Haddr by lia. congruence.
      * apply Hmiddle; try assumption. lia.
  - split; [exact Hlen|]. split; [exact Hall|].
    intros m Hm. apply Hmiddle. lia.
Qed.

(** The theorem at two characters of one cluster. *)
Lemma adjustAbsolute_places_clusters_witness :
  finalPosition
    (adjustAbsolute
       [KoSvgText.mkCharTransformation (Some 1%float) None None None None;
        KoSvgText.CharTransformation_default]
       [CharacterResult_default; set_middle true CharacterResult_default] !!! 1%nat)
  = finalPosition
      (adjustAbsolute
         [KoSvgText.mkCharTransformation (Some 1%float) None None None None;
          KoSvgText.CharTransformation_default]
         [CharacterResult_default; set_middle true CharacterResult_default] !!! 0%nat).
Proof.
  apply (adjustAbsolute_places_clusters
           [KoSvgText.mkCharTransformation (Some 1%float) None None None None;
            KoSvgText.CharTransformation_default]
           [CharacterResult_default; set_middle true CharacterResult_default]);
    vm_compute; (lia || reflexivity).
Defined.

(** ** applyTextLength on a node without characters *)

Section TextLengthOfAnEmptyNode.

Variable numChars : TextTree -> nat.

(** A node that sets [textLength] and holds no character has no visual
    order to take the last key of: the precondition of [QList::last] at
    line 989 fails, whatever its children did. *)
Theorem applyTextLength_of_an_empty_node (e : KoSvgTextContentElement)
    (c : list TextTree) (isHorizontal : bool) (st : list CharacterResult * nat * Z) :
  KoSvgText.isAuto (textLength e) = false ->
  numChars (TextNode e c) = 0%nat ->
  applyTextLength numChars (TextNode e c) isHorizontal st = None.
Proof.
  intros Hset Hempty. destruct st as [[result i] resolved].
  cbn [applyTextLength]. rewrite Hset, Hempty. cbn [negb].
  match goal with
  | |- match ?children with _ => _ end = None =>
      destruct children as [[[result' i'] resolved']|]; [|reflexivity]
  end.
  unfold stretchNode. rewrite for_range_empty by lia. reflexivity.
Qed.

End TextLengthOfAnEmptyNode.

(** The theorem at an empty node with a text length of ten. *)
Lemma applyTextLength_of_an_empty_node_witness :
  applyTextLength Reference.numChars
    (TextNode
       (Reference.withTextLength 10%float KoSvgText.LengthAdjustSpacing
          (Reference.plainElement [] []))
       [])
    true (twoCharacters, 0%nat, 0) = None.
Proof.
  apply applyTextLength_of_an_empty_node; reflexivity.
Defined.

(** ** The positioning of wrapped text (lines 629-733) *)

Section WrappedText.

Variable numChars : TextTree -> nat.
Variable outlineLength : KoPathShape -> qreal.
Variable textDecorationPosition : KoSvgTextProperties -> bool -> Z -> Z.
Variable textDecorationLine : KoSvgTextProperties -> option Z.
Variable generateDecorationPaths :
  KoSvgTextProperties -> DecorationMetrics -> nat -> nat -> list CharacterResult ->
  bool -> Z -> qreal -> DecorationContext -> DecorationMap QPainterPath.
Variable createStroke : KoSvgTextProperties -> qreal -> QPainterPath -> QPainterPath.
Variable pointAtLength : KoPathShape -> KoSvgText.TextPathSide -> qreal -> QPointF.
Variable pointAtEnd : KoPathShape -> KoSvgText.TextPathSide -> QPointF.
Variable bendCharacter :
  KoPathShape -> TextOnPathInfo -> bool -> qreal -> CharacterResult -> CharacterResult.
Variable finalRes : qreal.


End WrappedText.


(** ** The characters behind a text path (lines 1724-1741) *)

Section BehindATextPath.

Variable numChars : TextTree -> nat.
Variable pointAtLength : KoPathShape -> KoSvgText.TextPathSide -> qreal -> QPointF.
Variable pointAtEnd : KoPathShape -> KoSvgText.TextPathSide -> QPointF.
Variable bendCharacter :
  KoPathShape -> TextOnPathInfo -> bool -> qreal -> CharacterResult -> CharacterResult.

Local Abbreviation pathChild :=
  (textPathChild numChars pointAtLength pointAtEnd bendCharacter).


End BehindATextPath.


(** ** The visual order of the cursor positions (lines 55-93) *)

Lemma QMap_insert_keys (P : Z -> Prop) (k v : Z) (m : QMap) :
  P k -> Forall P (QMap_keys m) -> Forall P (QMap_keys (QMap_insert k v m)).
Proof.
  intros Hk. unfold QMap_keys. induction m as [|[k' v'] m IH]; intros Hm; cbn.
  - constructor; [exact Hk | constructor].
  - inversion Hm as [|? ? Hk' Hm']; subst.
    destruct (k <? k'); [constructor; [exact Hk | exact Hm]|].
    destruct (k =? k'); constructor; auto.
Qed.

Lemma QMap_insert_values (P : Z -> Prop) (k v : Z) (m : QMap) :
  P v -> Forall P (QMap_values m) -> Forall P (QMap_values (QMap_insert k v m)).
Proof.
  intros Hv. unfold QMap_values. induction m as [|[k' v'] m IH]; intros Hm; cbn.
  - constructor; [exact Hv | constructor].
  - inversion Hm as [|? ? Hv' Hm']; subst.
    destruct (k <? k'); [constructor; [exact Hv | exact Hm]|].
    destruct (k =? k'); constructor; auto.
Qed.

(** [QMap::value] gives a value of the map, or the default. *)
Lemma QMap_value_of (P : Z -> Prop) (k : Z) (m : QMap) :
  P 0 -> Forall P (QMap_values m) -> P (QMap_value k m).
Proof.
  intros Hdefault. unfold QMap_values. induction m as [|[k' v'] m IH]; intros Hm; cbn.
  - exact Hdefault.
  - inversion Hm as [|? ? Hv' Hm']; subst. destruct (k =? k'); auto.
Qed.

Lemma chunkVisualOrder_positions (cursorPos : list CursorPos)
    (result : list CharacterResult) (chunk : LineChunk) :
  Forall (fun v => 0 <= v < Z.of_nat (length cursorPos))
    (chunkVisualOrder cursorPos result chunk).
Proof.
  unfold chunkVisualOrder. set (P := fun v => 0 <= v < Z.of_nat (length cursorPos)).
  apply foldl_preserves; [constructor|].
  intros visual j Hvisual.
  match goal with
  | |- context [foldl ?F [] (imap pair cursorPos)] =>
      assert (Hrelevant :
        Forall P (QMap_values (foldl F [] (imap pair cursorPos)))
        /\ (foldl F [] (imap pair cursorPos) <> [] -> P 0));
      [|generalize dependent (foldl F [] (imap pair cursorPos))]
  end.
  { apply (foldl_Forall_preserves
             (fun m : QMap => Forall P (QMap_values m) /\ (m <> [] -> P 0))).
    - split; [constructor | congruence].
    - apply Forall_forall. intros [k pos] Hin m [Hvalues Hsome].
      apply elem_of_lookup_imap_1 in Hin. destruct Hin as (k' & pos' & Heq & Hlookup).
      apply lookup_lt_Some in Hlookup.
      assert (Hk : P (Z.of_nat k)) by (injection Heq as Hfst _; unfold P; lia).
      cbn [fst snd]. destruct (j =? cp_cluster pos); [|split; assumption].
      split; [apply QMap_insert_values; assumption|].
      intros _. unfold P in *. lia. }
  intros relevant [Hvalues Hsome].
  destruct relevant as [|entry relevant]; [exact Hvisual|].
  specialize (Hsome ltac:(congruence)).
  apply foldl_preserves; [exact Hvisual|].
  intros visual' k Hvisual'. apply Forall_app. split; [exact Hvisual'|].
  constructor; [|constructor]. apply QMap_value_of; assumption.
Qed.

(** Every key of the map is a position in [cursorPos], whatever the lines
    and their chunks hold: an empty list of cursor positions gives an empty
    map. *)
Theorem logicalToVisualCursorPositions_keys (cursorPos : list CursorPos)
    (result : list CharacterResult) (lines : list LineBox) (ltr : bool) :
  Forall (fun key => 0 <= key < Z.of_nat (length cursorPos))
    (QMap_keys (logicalToVisualCursorPositions cursorPos result lines ltr)).
Proof.
  unfold logicalToVisualCursorPositions.
  apply (foldl_preserves
           (fun m : QMap =>
              Forall (fun key => 0 <= key < Z.of_nat (length cursorPos)) (QMap_keys m)));
    [constructor|].
  intros m line Hm.
  apply (foldl_preserves
           (fun m : QMap =>
              Forall (fun key => 0 <= key < Z.of_nat (length cursorPos)) (QMap_keys m)));
    [exact Hm|].
  clear m Hm. intros m chunk Hm.
  pose proof (chunkVisualOrder_positions cursorPos result chunk) as Hvisual.
  assert (Horder :
    Forall (fun v => 0 <= v < Z.of_nat (length cursorPos))
      (if ltr then chunkVisualOrder cursorPos result chunk
       else reverse (chunkVisualOrder cursorPos result chunk))).
  { destruct ltr; [exact Hvisual | apply Forall_reverse; exact Hvisual]. }
  revert m Hm. induction Horder as [|v visual Hv _ IH]; intros m Hm; [exact Hm|].
  cbn [foldl]. apply IH. apply QMap_insert_keys; assumption.
Qed.
